(* ===== verification/_CoqProject ===== *)
-Q . S2P
Prelude.v
OrdMap.v
AdiTypes.v
History.v
Emulator.v
EmulInv.v
EmulSpec.v
EmulIter.v
DeviceApi.v
Namespace.v
IoCmd.v
Queue.v
CmdSpec.v
Config.v
Device.v
Adi.v
KvsTypes.v
KvsDriver.v
EmulDriver.v
EmulDriverLaws.v
KeySpace.v
KeySpaceSpec.v
Frontend.v
FrontendInv.v
FrontendSpec.v
FrontendIter.v
NvmeCmd.v
SimDevice.v
NvmePrp.v
NvmeAio.v
NvmeAioSpec.v
Kadi.v
KernelSpec.v
KadiSync.v
KernelCalls.v
KadiInv.v
KernelAdi.v
Crc32Table.v
Crc32.v
IterBuf.v
KddDriver.v
KddLaws.v
KernelStack.v
AvlTree.v
AvlSpec.v
AvlOps.v
AvlInsert.v
AvlRemove.v
AvlIndex.v
Memleak.v
MemleakSpec.v
MemPool.v
MemPoolSpec.v
Thpool.v
ThpoolSpec.v
ThpoolLive.v
Ini.v
IniSpec.v
IniFile.v
