(* ===== verification/Prelude.v ===== *)
(** * KVSSD host software: a verification development

    The program is the host side of a key-value SSD, under [src/PDK/core]: a
    public C API ([include/kvs_api.h], [src/api]) on top of a device layer
    ([src/device_abstract_layer]) for the drive itself, reached through a patched
    Linux NVMe driver ([src/PDK/driver]), or for an emulator that stands in for it.

    ** Parts and files

    From the drive upwards (paths below [src/PDK/core/src]):

    - [device_abstract_layer/include/kvs_adi.h], [private/kvs_utils.h]: types,
      result codes and argument checks.  [AdiTypes].
    - [private/history.hpp]: windows over the last operations.  [History].
    - [emulator/src/kv_emulator.cpp]: the ordered in-memory store with its
      iterators.  [OrdMap] models [std::map]; [Emulator] the state
      ([kv_emulator]) and one function per method; [EmulInv] the invariant,
      [EmulSpec] the refinement to finite maps, [EmulIter] the iterators.
    - [private/kvs_adi_internal.h]: the interface of a store, [kv_device_api].
      [DeviceApi] has it as a class with laws, with the emulator, the no-op
      store and the switchable store of a namespace as instances.
    - [emulator/src/kv_namespace.cpp], [io_cmd.cpp]: namespaces and commands,
      over any store.  [Namespace], [IoCmd] ([execute_cmd]); [CmdSpec] has what
      sequences of commands do to the emulator.
    - [emulator/src/queue.cpp]: submission and completion queues and their
      threads.  [Queue] has the operations and a step relation of clients, worker,
      polling threads and interrupt thread over all their interleavings.
    - [emulator/src/kv_config.cpp]: the configuration file.  [Config].
    - [emulator/src/kv_device.cpp]: the device, its queues and its asynchronous
      entry points.  [Device].
    - [emulator/src/kvs_adi.cpp]: the C functions over it.  [Adi].
    - [core/include/*.h], [api/include/private/*.h]: types and checks of the
      API.  [KvsTypes].
    - [class KvsDriver] ([private_types.h]): what the API asks of a driver.
      [KvsDriver] has it as a class with laws.
    - [api/src/driver_adapter/kvemuldriver.cpp]: the driver for the emulator.
      [EmulDriver]; [EmulDriverLaws] proves it an instance of the laws.
    - [api/src/cfrontend.cpp]: key space records in [KeySpace], their theory in
      [KeySpaceSpec]; the public calls in [Frontend], the life of handles in
      [FrontendInv], the refinement and the life of a key space in
      [FrontendSpec]; an iteration through all layers, driven by the loop of
      [core/sample_code/test_sync.cpp], in [FrontendIter].

    A call of the API thus goes from [Frontend] through the class [KvsDriver] to
    [EmulDriver], which submits a command ([Adi], [Device]) to a queue ([Queue]);
    a thread executes it ([IoCmd]) on the namespace ([Namespace]), which calls the
    store through [KvDeviceApi] ([Emulator]).

    The drive instead of the emulator, from the kernel upwards:

    - [driver/PCIe/kernel_driver/kernel_v4.15.18-041518-ubuntu-18_04] ([core.c],
      [pci.c], [nvme.h], [linux_nvme.h], [linux_nvme_ioctl.h]): the key-value
      commands and their translation in [NvmeCmd], which also has the firmware as
      the class [NvmeKvDevice] with laws ([SimDevice] is an instance); the page
      lists of user buffers in [NvmePrp]; contexts, asynchronous requests and
      their completion in [NvmeAio], with its theory in [NvmeAioSpec].
    - [device_abstract_layer/kernel_driver_adapter/kadi.cpp]: the adapter, over a
      class of system calls ([KvKernel]).  [Kadi]; [KernelSpec] has the laws of
      the calls, [KernelCalls] the calls and laws of a process above the driver
      model; [KadiSync] follows one request, [KadiInv] any sequence of them.
    - [kernel_driver_adapter/kvs_adi.cpp]: the C functions.  [KernelAdi].
    - [api/src/driver_adapter/kvkdd.cpp]: the driver of the API for the kernel
      device.  [KddDriver], with the buffers of iterators in [IterBuf];
      [KddLaws] proves it an instance of the laws of [KvsDriver], [KernelStack]
      composes all layers.

    Beside the stack, the tools of the benchmark suite ([application/kvbench/utils]):

    - [crc32.cc]: the checksum.  [Crc32], with its tables in [Crc32Table].
    - [avltree.cc]: a search tree of nodes that its clients embed in their records.
      [AvlTree] has the nodes in memory and one function per function of the code;
      [AvlSpec] relates a memory to a tree and treats rotations and balancing,
      [AvlOps] the loops to the root and the walks, [AvlInsert] and [AvlRemove] the
      two updates, and [AvlIndex] states what clients rely on.
    - [memleak.cc]: a detector of memory leaks, a client of the tree.  [Memleak],
      with its theory in [MemleakSpec].
    - [memory.cc]: pools of memory blocks on a NUMA node.  [MemPool], [MemPoolSpec].
    - [thpool.cc]: a pool of threads.  [Thpool] has its threads and its client as
      machines; [ThpoolSpec] has their invariant, [ThpoolLive] the theorems.
    - [iniparser.cc]: the configuration file.  [Ini] has the dictionary, its
      accessors, the parser and the printer; [IniSpec] treats the dictionary,
      [IniFile] the files.

    ** How the code is represented

    Integers are [Z]; where the code relies on a width, the wrap-around is
    written out ([u8] ... [u64], [+64], [-32]).  Bytes are [Byte.byte], buffers and
    strings lists of bytes, a pointer an [option].  The host is little endian.
    A method is a function from the state to its results and the new state; a
    C++ exception is [None]; waiting on a condition that no other step of the
    model can make true is [Wait] or [Blocked]; following a pointer to freed
    memory is [Undef]; memory the code does not initialise is an argument.
    Options stay integers, as the code compares them with constants.

    [boost::circular_buffer] is not part of the repository: it is the class
    [CircularBuffer] with the laws its documentation gives, and lists are an
    instance for the examples.

    ** What is shown

    - The store: reachable states are well formed; every sequence of store,
      retrieve, delete and purge commands is answered as by finite maps, and
      exist gives the bitmap of the keys present; the commands that reach it
      through a namespace have the answers of the operations they name; an iteration
      over a group whose mask selects leading bits returns every pair of the group exactly
      once, in buffers that can be parsed back; the space counter is followed
      through stores and deletions.
    - Queues: under every interleaving, commands are executed once each, in the
      order of submission, against a state that is the sequential one, and called back
      once each, in that order too when one thread alone polls; queues never exceed
      their capacity; from every state the system can drain.
    - Devices: submission queues created with a completion queue keep it; an entry
      point queues exactly one command, which carries the arguments, when they are
      legal and the queue accepts it, and otherwise changes nothing.
    - Configuration: a lookup gives the first setting of its section and key, whatever
      comments, blanks and other lines are around it; the capacity setting.
    - API: the bitmask check accepts exactly the masks of leading ones; a filter
      selects the keys with its prefix; an opened driver satisfies the driver
      laws through contexts, queues, threads and store; sequences of synchronous calls
      on an open key space are answered as by one map, refusals included, for the two
      store types that all drivers have and reads that do not delete; a key space
      can be created, opened, used, closed and deleted; an iterator created,
      read to its end and deleted gives every selected key once, for filters on
      none or all of the prefix bytes; the guards on handles are exact in every
      reachable state.
    - NVMe driver: the page list built for a buffer makes the device transfer
      exactly that buffer; under any interleaving of submissions, context changes,
      device and the steps of the workers every request is delivered exactly once,
      still in the driver, or lost with its context, and the event counters add up;
      new contexts get free ids.
    - Kernel adapter: in every run each accepted request has its callback called
      exactly once or is still waiting, every call returns or waits for a free
      context, and polling ends.
    - Kernel device driver: opening it leaves it in service; with it the synchronous
      calls of the API refine one finite map for every device that keeps its laws, by
      the same theorem of the front end as for the emulator; the buffer of an iterator is
      packed into the format of the API, and packing ends on every buffer.
    - Checksum: eight bytes at a time gives what the algorithm bit by bit gives;
      messages that differ within four neighbouring bytes have different checksums.
    - Search tree: insertions and removals, with all pointers and balance factors,
      act as on a sorted list and keep the tree balanced; searches and walks answer
      as that list does, and a search looks at logarithmically many nodes.
    - Leak detector: for every sequence of allocations, reallocations and releases,
      the report names exactly the blocks that are then live, but for those that the
      wrapper of [realloc] does not record.
    - Memory pool: no block has two holders, allocation fails only when all blocks
      are held, blocks in use are not touched, and the memory goes back to the
      system as it was taken; beyond four gigabytes blocks are handed out twice.
    - Thread pool, the only one of its process: under every interleaving jobs begin in
      order and run once, waiting returns when all are finished, and destruction
      leaves no job behind and no thread but one that unlocks the freed pool; without
      spurious wake-ups every run comes to rest within a bound, with no job left.
    - Configuration parser: its dictionary is a finite map under every sequence of
      changes as long as it has fewer than 2^27 entries, it reads every file without leaving a buffer, and a configuration
      that is saved and loaded again is the same.
    - Defects: where the code does something else than its comments say, a
      theorem states what it does (for example [store_ignores_capacity],
      [partial_prefix_iteration_misses], [open_other_last_character],
      [polling_config_blocks], [full_table_deadlock], [retrieve_sync_reads_zero_key],
      [pool_offset_wraps], [memleak_realloc_clobbers], [ini_empty_key_crashes],
      [quoted_empty_value_kept], [unlock_after_free]).

    ** Bounds and fuel

    Walks over a map are structural on the suffix still to visit.  Loops bounded
    by a counter of the code recurse on it ([scan_ones], 32 bits).  Waiting in
    [EmulDriver] is bounded by [turns_left], two turns of a thread for every
    command on the submission queue and one for every completion: with no turn
    left no thread can act, and the wait is [Blocked].  Waiting in [KddDriver] and
    polling in [Kadi] are bounded in the same way by [sys_turns] and by the count
    of events read; [reformat_loop] takes at least four bytes of the buffer in
    every round and [prp_loop] one page, which bounds their fuel; the client of
    [FrontendIter] may make one call more than there are keys.  The loops of
    [AvlTree] and [end_loop] of [Memleak] have the number of nodes in memory as fuel,
    which bounds the height of the tree and the number of its nodes;
    [jobqueue_clear] has the length of the queue, and [parse_lines] that of the file,
    of which it reads a byte in every round.  The theorems on
    calls state that they return, so none of them holds by running out of fuel.

    ** What is not modelled

    The latency simulation and timers (when an operation answers, not what); the
    thread pool of the emulator; the firmware of the drive, of which only the laws are assumed; the
    unchanged parts of the Linux NVMe driver, its scatter-gather variant and the
    copies of the patch for other kernels; the SPDK driver and its adapter;
    reading the API's options from the process environment; failing allocations;
    concurrent clients of one driver object of the API (the queues of the emulator
    and the requests of the NVMe driver are modelled with all interleavings); the
    workload generator of the benchmark suite, the pausing of its thread pool by
    signals and several thread pools in one process, concurrent callers of its leak detector and the floating-point options
    of its configuration; and the samples but their iteration loop.

    ** This file

    Words and bytes, lists, tactics and the hint database [kv] that the other
    files share. *)

From stdpp Require Import base numbers list gmap sorting strings.
From Stdlib Require Import ZArith Lia.
From Stdlib.Strings Require Byte.

Declare Scope kv_scope.
Delimit Scope kv_scope with kv.
#[global] Open Scope Z_scope.

Abbreviation byte := Byte.byte.

Create HintDb kv.
Create Rewrite HintDb kv.

(** ** Calls that return, wait or are undefined *)

(** What a call does: return, wait for another thread, or undefined behaviour. *)
Inductive dev_outcome (A : Type) := Ret (a : A) | Blocked | Undef.
Arguments Ret {A}.
Arguments Blocked {A}.
Arguments Undef {A}.

#[export] Instance dev_outcome_ret : MRet dev_outcome := fun A => Ret.
#[export] Instance dev_outcome_bind : MBind dev_outcome := fun A B f m =>
  match m with Ret a => f a | Blocked => Blocked | Undef => Undef end.

(** ** Machine integers *)

Definition u8 (z : Z) : Z := z mod 2 ^ 8.
Definition u16 (z : Z) : Z := z mod 2 ^ 16.
Definition u32 (z : Z) : Z := z mod 2 ^ 32.
Definition u64 (z : Z) : Z := z mod 2 ^ 64.
(** Conversion to a signed 32-bit [int]. *)
Definition s32 (z : Z) : Z := (z + 2 ^ 31) mod 2 ^ 32 - 2 ^ 31.

Notation "a +64 b" := (u64 (a + b)) (at level 50, left associativity) : kv_scope.
Notation "a -64 b" := (u64 (a - b)) (at level 50, left associativity) : kv_scope.
Notation "a +32 b" := (u32 (a + b)) (at level 50, left associativity) : kv_scope.
Notation "a -32 b" := (u32 (a - b)) (at level 50, left associativity) : kv_scope.
#[global] Open Scope kv_scope.

Lemma u32_range z : 0 <= u32 z < 2 ^ 32.
Proof. unfold u32. apply Z.mod_pos_bound. lia. Qed.

Lemma u64_range z : 0 <= u64 z < 2 ^ 64.
Proof. unfold u64. apply Z.mod_pos_bound. lia. Qed.

Lemma u32_small z : 0 <= z < 2 ^ 32 -> u32 z = z.
Proof. apply Z.mod_small. Qed.

Lemma u64_small z : 0 <= z < 2 ^ 64 -> u64 z = z.
Proof. apply Z.mod_small. Qed.

Lemma s32_small z : - 2 ^ 31 <= z < 2 ^ 31 -> s32 z = z.
Proof. intros H. unfold s32. rewrite Z.mod_small by lia. lia. Qed.

Lemma u64_u64 z : u64 (u64 z) = u64 z.
Proof. unfold u64. apply Z.mod_mod. lia. Qed.

Lemma u64_add_l a b : u64 (u64 a + b) = u64 (a + b).
Proof. unfold u64. rewrite Zplus_mod_idemp_l. done. Qed.

Lemma u64_sub_l a b : u64 (u64 a - b) = u64 (a - b).
Proof. unfold u64. rewrite Zminus_mod_idemp_l. done. Qed.

Lemma u64_add_sub_r a b c : u64 (a - u64 b + c) = u64 (a - b + c).
Proof.
  unfold u64. replace (a - b mod 2 ^ 64 + c) with (a + c - b mod 2 ^ 64) by lia.
  rewrite Zminus_mod_idemp_r. f_equal. lia.
Qed.

#[export] Hint Resolve u32_range u64_range : kv.
#[export] Hint Rewrite u64_u64 u64_add_l u64_sub_l : kv.

(** ** Bytes and little-endian words *)

Definition byteZ (b : byte) : Z := Z.of_N (Byte.to_N b).
Definition Zbyte (z : Z) : byte :=
  default Byte.x00 (Byte.of_N (Z.to_N (u8 z))).

#[export] Instance byte_eq_dec : EqDecision byte := Byte.byte_eq_dec.
#[export] Instance byte_countable : Countable byte.
Proof. exact (inj_countable Byte.to_N Byte.of_N Byte.of_to_N). Defined.

Lemma byteZ_range b : 0 <= byteZ b < 256.
Proof. unfold byteZ. pose proof (Byte.to_N_bounded b). lia. Qed.

Lemma Zbyte_byteZ b : Zbyte (byteZ b) = b.
Proof.
  unfold Zbyte, u8. pose proof (byteZ_range b).
  rewrite Z.mod_small by lia. unfold byteZ.
  rewrite N2Z.id, Byte.of_to_N. done.
Qed.

Lemma byteZ_Zbyte z : byteZ (Zbyte z) = u8 z.
Proof.
  unfold Zbyte, byteZ.
  assert (0 <= u8 z < 256) by (unfold u8; apply Z.mod_pos_bound; lia).
  destruct (Byte.of_N (Z.to_N (u8 z))) as [b|] eqn:E; simpl.
  - apply Byte.to_of_N in E. rewrite E. lia.
  - apply Byte.of_N_None_iff in E. lia.
Qed.

#[export] Instance byteZ_inj : Inj (=) (=) byteZ.
Proof. intros a b E. rewrite <- (Zbyte_byteZ a), <- (Zbyte_byteZ b), E. done. Qed.

(** The unsigned value of bytes stored least significant byte first, as a
    [memcpy] into an integer reads them on a little-endian host. *)
Fixpoint le_int (l : list byte) : Z :=
  match l with
  | [] => 0
  | b :: l' => byteZ b + 256 * le_int l'
  end.

(** The [n] bytes that a [memcpy] out of an integer writes. *)
Fixpoint int_le (n : nat) (z : Z) : list byte :=
  match n with
  | O => []
  | S n' => Zbyte z :: int_le n' (z / 256)
  end.

Lemma length_int_le n z : length (int_le n z) = n.
Proof. revert z. induction n as [|n IH]; intros z; simpl; [done|by rewrite IH]. Qed.

Lemma le_int_range l : 0 <= le_int l < 256 ^ Z.of_nat (length l).
Proof.
  induction l as [|b l IH]; cbn [le_int length]; [lia|].
  pose proof (byteZ_range b).
  rewrite Nat2Z.inj_succ, Z.pow_succ_r by lia. lia.
Qed.

Lemma le_int_int_le n z :
  0 <= z < 256 ^ Z.of_nat n -> le_int (int_le n z) = z.
Proof.
  revert z. induction n as [|n IH]; intros z Hz.
  - simpl in *. lia.
  - rewrite Nat2Z.inj_succ, Z.pow_succ_r in Hz by lia. cbn [int_le le_int].
    rewrite byteZ_Zbyte, IH.
    + unfold u8. change (2 ^ 8) with 256. pose proof (Z.div_mod z 256). lia.
    + split; [apply Z.div_pos; lia|apply Z.div_lt_upper_bound; lia].
Qed.

Lemma int_le_le_int l : int_le (length l) (le_int l) = l.
Proof.
  induction l as [|b l IH]; [done|]. cbn [length le_int int_le].
  pose proof (byteZ_range b). f_equal.
  - rewrite <- (Zbyte_byteZ b) at 2. unfold Zbyte, u8. change (2 ^ 8) with 256.
    rewrite (Z.mul_comm 256), Z_mod_plus_full. done.
  - rewrite (Z.mul_comm 256), Z.div_add, Z.div_small by lia. done.
Qed.

Lemma le_int_inj l1 l2 : length l1 = length l2 -> le_int l1 = le_int l2 -> l1 = l2.
Proof. intros Hl E. rewrite <- (int_le_le_int l1), <- (int_le_le_int l2), Hl, E. done. Qed.

(** [htobe32] on a little-endian host: the four bytes in the opposite order. *)
Definition htobe32 (z : Z) : Z := le_int (rev (int_le 4 z)).

Lemma htobe32_involutive z : 0 <= z < 2 ^ 32 -> htobe32 (htobe32 z) = z.
Proof.
  intros Hz. unfold htobe32.
  assert (Hl : length (rev (int_le 4 z)) = 4%nat) by (rewrite length_rev; apply length_int_le).
  rewrite <- Hl at 1. rewrite int_le_le_int, rev_involutive. by apply le_int_int_le.
Qed.

Lemma htobe32_range z : 0 <= htobe32 z < 2 ^ 32.
Proof.
  unfold htobe32. pose proof (le_int_range (rev (int_le 4 z))) as H.
  rewrite length_rev, length_int_le in H. exact H.
Qed.

(** [memcpy (dst + pos, src, length src)] on a buffer that has room for it. *)
Definition memcpy_at (pos : nat) (src dst : list byte) : list byte :=
  take pos dst ++ src ++ drop (pos + length src) dst.

Lemma length_memcpy_at pos src dst :
  (pos + length src <= length dst)%nat -> length (memcpy_at pos src dst) = length dst.
Proof.
  intros. unfold memcpy_at. rewrite !length_app, length_take, length_drop. lia.
Qed.

Lemma take_memcpy_at src dst : take (length src) (memcpy_at 0 src dst) = src.
Proof. unfold memcpy_at. simpl. by rewrite take_app_length. Qed.

(** [memcmp (a, b, n) < 0] on two buffers of the same length [n]. *)
Fixpoint memlt (a b : list byte) : bool :=
  match a, b with
  | x :: a', y :: b' =>
      if byteZ x <? byteZ y then true
      else if byteZ y <? byteZ x then false
      else memlt a' b'
  | _, _ => false
  end.

Lemma memlt_irrefl a : memlt a a = false.
Proof.
  induction a as [|x a IH]; simpl; [done|]. rewrite Z.ltb_irrefl. done.
Qed.

Lemma memlt_trans a b c :
  memlt a b = true -> memlt b c = true -> memlt a c = true.
Proof.
  revert b c. induction a as [|x a IH]; intros [|y b] [|z c]; simpl; try done.
  destruct (Z.ltb_spec (byteZ x) (byteZ y)), (Z.ltb_spec (byteZ y) (byteZ z)),
    (Z.ltb_spec (byteZ x) (byteZ z)), (Z.ltb_spec (byteZ y) (byteZ x)),
    (Z.ltb_spec (byteZ z) (byteZ y)), (Z.ltb_spec (byteZ z) (byteZ x));
    intros; try done; try lia; eauto.
Qed.

Lemma memlt_total a b :
  length a = length b -> memlt a b = false -> memlt b a = false -> a = b.
Proof.
  revert b. induction a as [|x a IH]; intros [|y b] Hl; simpl in *; try done.
  destruct (Z.ltb_spec (byteZ x) (byteZ y)), (Z.ltb_spec (byteZ y) (byteZ x));
    try done; try lia.
  intros. f_equal; [apply byteZ_inj; lia|auto].
Qed.

(** ** Lists *)

Section lists.
Context {A : Type} (P : A -> Prop) `{!forall x, Decision (P x)}.

Lemma filter_all l : Forall P l -> filter P l = l.
Proof.
  induction 1 as [|x l Hx Hl IH]; [done|]. rewrite filter_cons_True by done. by f_equal.
Qed.

Lemma filter_none l : Forall (fun x => ~ P x) l -> filter P l = [].
Proof.
  induction 1 as [|x l Hx Hl IH]; [done|]. by rewrite filter_cons_False.
Qed.
End lists.

Lemma list_alter_Some {A} (f : A -> A) i j (l : list A) y :
  alter f i l !! j = Some y ->
  (i = j /\ exists x, l !! j = Some x /\ y = f x) \/ (i <> j /\ l !! j = Some y).
Proof.
  destruct (decide (i = j)) as [->|Hne].
  - rewrite list_lookup_alter_eq. destruct (l !! j) as [x|]; simpl; [|done].
    intros [= <-]. left. eauto.
  - rewrite list_lookup_alter_ne by done. auto.
Qed.

Lemma list_insert_Some {A} i j (x y : A) (l : list A) :
  <[i := x]> l !! j = Some y ->
  (i = j /\ y = x) \/ (i <> j /\ l !! j = Some y).
Proof.
  intros [(-> & -> & _)|[? ?]]%list_lookup_insert_Some; auto.
Qed.

(** The longest prefix of a list whose elements satisfy [f]. *)
Fixpoint take_while {A} (f : A -> bool) (l : list A) : list A :=
  match l with
  | [] => []
  | x :: l' => if f x then x :: take_while f l' else []
  end.

Lemma take_while_app_inv {A} (f : A -> bool) l l1 l2 :
  take_while f l = l1 ++ l2 -> exists l3, l = l1 ++ l3 /\ take_while f l3 = l2.
Proof.
  revert l. induction l1 as [|x l1 IH]; intros l E; [by exists l|].
  destruct l as [|y l]; simpl in E; [done|]. destruct (f y); [|done].
  injection E as -> E. destruct (IH _ E) as (l3 & -> & ?). by exists l3.
Qed.

Lemma take_while_cons_inv {A} (f : A -> bool) l x l' :
  take_while f l = x :: l' -> exists l2, l = x :: l2.
Proof. destruct l as [|y l]; simpl; [done|]. destruct (f y); [|done]. intros [= -> _]. eauto. Qed.

Lemma take_while_all {A} (f : A -> bool) l : Forall (fun x => f x = true) l -> take_while f l = l.
Proof. induction 1 as [|x l Hx _ IH]; simpl; [done|]. by rewrite Hx, IH. Qed.

Lemma take_while_sorted {A} (R : A -> A -> Prop) (f : A -> bool) l :
  StronglySorted R l -> (forall x y, x ∈ l -> R x y -> f y = true -> f x = true) ->
  take_while f l = filter (fun x => f x = true) l.
Proof.
  intros Hs. induction Hs as [|x l Hs IH Hx]; intros Hf; [done|]. simpl.
  rewrite filter_cons. destruct (f x) eqn:E.
  - rewrite decide_True by done. rewrite IH; [done|]. intros y z Hy. apply Hf. by right.
  - rewrite decide_False by congruence. symmetry. apply filter_none.
    eapply Forall_impl; [exact Hx|]. simpl. intros y Hxy Hy.
    rewrite (Hf x y) in E; [done|left|done|done].
Qed.

(** ** The elements that the entries of a map hold *)

Section gather.
Context {A B : Type} (f : A -> list B).

Definition gather (m : gmap Z A) : list B := concat (f <$> (map_to_list m).*2).

Lemma gather_empty : gather ∅ = [].
Proof. unfold gather. by rewrite map_to_list_empty. Qed.

Lemma gather_insert m i x : gather (<[i := x]> m) ≡ₚ f x ++ gather (delete i m).
Proof.
  unfold gather. rewrite <- insert_delete_eq.
  assert (H : map_to_list (<[i := x]> (delete i m)) ≡ₚ (i, x) :: map_to_list (delete i m)).
  { apply map_to_list_insert. apply lookup_delete_eq. }
  by rewrite H.
Qed.

Lemma gather_lookup m i x : m !! i = Some x -> gather m ≡ₚ f x ++ gather (delete i m).
Proof. intros H. rewrite <- (gather_insert m i x). by rewrite (insert_id m i x H). Qed.

Lemma gather_delete m i : m !! i = None -> gather (delete i m) = gather m.
Proof. intros H. by rewrite delete_id. Qed.

Lemma elem_of_gather m y : y ∈ gather m <-> exists i x, m !! i = Some x /\ y ∈ f x.
Proof.
  unfold gather. rewrite list_elem_of_In, in_concat. split.
  - intros (l & Hl & Hy). apply list_elem_of_In in Hl, Hy.
    apply list_elem_of_fmap in Hl as (x & -> & Hx). apply list_elem_of_fmap in Hx as ([i x'] & -> & Hx).
    apply elem_of_map_to_list in Hx. eauto.
  - intros (i & x & Hx & Hy). exists (f x). split; apply list_elem_of_In; [|done].
    apply list_elem_of_fmap. exists x. split; [done|]. apply list_elem_of_fmap. exists (i, x).
    split; [done|]. by apply elem_of_map_to_list.
Qed.
End gather.
