(* ===== verification/OrdMap.v ===== *)
(** * Ordered maps

    The emulator keeps its pairs in a [std::map] with a comparator of its own
    and walks it with iterators ([find], [lower_bound], [emplace], [erase],
    [++]).  The iteration order is observable, so a map is modelled here as the
    association list that an in-order walk of the tree yields; an iterator is
    the suffix of that list it still has to visit.  The laws that [std::map]
    asks of a comparator are the class [StrictOrderb]; the lemmas below relate
    every operation to a finite map ([gmap]) and to sortedness. *)

From stdpp Require Import base numbers list gmap sorting.
From S2P Require Import Prelude.

Class StrictOrderb {K : Type} (ltb : K -> K -> bool) : Prop := {
  ltb_irrefl k : ltb k k = false;
  ltb_trans k1 k2 k3 : ltb k1 k2 = true -> ltb k2 k3 = true -> ltb k1 k3 = true;
  ltb_total k1 k2 : ltb k1 k2 = false -> ltb k2 k1 = false -> k1 = k2
}.

Section ordmap.
Context {K V : Type} (ltb : K -> K -> bool).

(** Two keys are equivalent for the map when neither is before the other. *)
Definition equivb (a b : K) : bool := negb (ltb a b) && negb (ltb b a).

(** [m.find(k)], as the value it points to. *)
Fixpoint om_find (k : K) (m : list (K * V)) : option V :=
  match m with
  | [] => None
  | (k', v) :: m' => if equivb k k' then Some v else om_find k m'
  end.

(** [m.lower_bound(k)]: the walk from the first key that is not before [k]. *)
Fixpoint om_lower_bound (k : K) (m : list (K * V)) : list (K * V) :=
  match m with
  | [] => []
  | (k', v) :: m' => if ltb k' k then om_lower_bound k m' else m
  end.

(** [m.emplace(k, v)] for a key that is not in the map. *)
Fixpoint om_emplace (k : K) (v : V) (m : list (K * V)) : list (K * V) :=
  match m with
  | [] => [(k, v)]
  | (k', v') :: m' =>
      if ltb k k' then (k, v) :: m
      else if ltb k' k then (k', v') :: om_emplace k v m'
      else m
  end.

(** [m.find(k)->second = v]. *)
Fixpoint om_assign (k : K) (v : V) (m : list (K * V)) : list (K * V) :=
  match m with
  | [] => []
  | (k', v') :: m' =>
      if equivb k k' then (k', v) :: m' else (k', v') :: om_assign k v m'
  end.

(** [m.erase(m.find(k))]. *)
Fixpoint om_erase (k : K) (m : list (K * V)) : list (K * V) :=
  match m with
  | [] => []
  | (k', v') :: m' =>
      if equivb k k' then m' else (k', v') :: om_erase k m'
  end.

Definition om_sorted (m : list (K * V)) : Prop :=
  StronglySorted (fun p q => ltb p.1 q.1 = true) m.
End ordmap.

Section laws.
Context {K V : Type} {ltb : K -> K -> bool} `{!StrictOrderb ltb}.
Context `{Countable K}.
Implicit Types (m : list (K * V)) (k : K) (v : V).

Lemma equivb_eq a b : equivb ltb a b = true <-> a = b.
Proof.
  unfold equivb. rewrite andb_true_iff, !negb_true_iff. split.
  - intros [? ?]. by apply (ltb_total (ltb := ltb)).
  - intros ->. rewrite ltb_irrefl. done.
Qed.

Lemma equivb_refl a : equivb ltb a a = true.
Proof. by apply equivb_eq. Qed.

Lemma equivb_ne a b : a <> b -> equivb ltb a b = false.
Proof. intros Hne. apply not_true_iff_false. by rewrite equivb_eq. Qed.

Lemma ltb_ne a b : ltb a b = true -> a <> b.
Proof. intros Hlt ->. rewrite ltb_irrefl in Hlt. done. Qed.

Lemma ltb_asym a b : ltb a b = true -> ltb b a = false.
Proof.
  intros Hab. destruct (ltb b a) eqn:Hba; [|done].
  rewrite <- (ltb_irrefl a). symmetry. eauto using ltb_trans.
Qed.

Lemma om_sorted_cons p m :
  om_sorted ltb (p :: m) <->
  om_sorted ltb m /\ Forall (fun q => ltb p.1 q.1 = true) m.
Proof.
  unfold om_sorted. split; [by inversion 1|]. intros [? ?]. by constructor.
Qed.

(** *** [find] is lookup in the finite map of the pairs. *)

Lemma om_find_map k m : om_find ltb k m = (list_to_map m : gmap K V) !! k.
Proof.
  induction m as [|[k' v] m IH]; simpl; [by rewrite lookup_empty|].
  destruct (decide (k = k')) as [<-|Hne].
  - by rewrite equivb_refl, lookup_insert_eq.
  - by rewrite equivb_ne, lookup_insert_ne.
Qed.

Lemma om_find_Some_elem k v m : om_find ltb k m = Some v -> (k, v) ∈ m.
Proof. rewrite om_find_map. apply elem_of_list_to_map_2. Qed.

Lemma om_sorted_NoDup m : om_sorted ltb m -> NoDup m.*1.
Proof.
  induction m as [|p m IH]; simpl; [constructor|].
  rewrite om_sorted_cons. intros [Hs Hp]. constructor; [|auto].
  rewrite list_elem_of_fmap. intros (q & Hq & Hin).
  rewrite Forall_forall in Hp. specialize (Hp q Hin).
  rewrite Hq, ltb_irrefl in Hp. done.
Qed.

Lemma om_find_elem k v m :
  om_sorted ltb m -> om_find ltb k m = Some v <-> (k, v) ∈ m.
Proof.
  intros Hs. rewrite om_find_map. symmetry.
  apply elem_of_list_to_map. by apply om_sorted_NoDup.
Qed.

Lemma om_find_lt_None k m :
  Forall (fun q => ltb k q.1 = true) m -> om_find ltb k m = None.
Proof.
  induction m as [|[k' v] m IH]; simpl; [done|].
  rewrite Forall_cons. simpl. intros [Hlt ?].
  rewrite equivb_ne by (by apply ltb_ne). auto.
Qed.

(** *** Updates *)

Lemma om_emplace_Forall (P : K * V -> Prop) k v m :
  P (k, v) -> Forall P m -> Forall P (om_emplace ltb k v m).
Proof.
  intros Hk. induction 1 as [|[k' v'] m Hp Hm IH]; simpl; [by constructor|].
  repeat case_match; by repeat constructor.
Qed.

Lemma om_erase_Forall (P : K * V -> Prop) k m :
  Forall P m -> Forall P (om_erase ltb k m).
Proof.
  induction 1 as [|[k' v'] m Hp Hm IH]; simpl; [done|].
  case_match; [done|by constructor].
Qed.

Lemma om_assign_Forall (P : K -> V -> Prop) k v m :
  (forall k' v', P k' v' -> P k' v) -> Forall (fun p => P p.1 p.2) m ->
  Forall (fun p => P p.1 p.2) (om_assign ltb k v m).
Proof.
  intros Hk. induction 1 as [|[k' v'] m Hp Hm IH]; simpl in *; [done|].
  case_match; constructor; simpl; eauto.
Qed.

Lemma om_emplace_sorted k v m :
  om_sorted ltb m -> om_sorted ltb (om_emplace ltb k v m).
Proof.
  induction m as [|[k' v'] m IH]; simpl; [by repeat constructor|].
  intros Hs. pose proof Hs as [Hm Hk]%om_sorted_cons.
  destruct (ltb k k') eqn:Hlt.
  - apply om_sorted_cons. split; [done|]. constructor; [done|].
    eapply Forall_impl; [exact Hk|]. simpl. intros. eauto using ltb_trans.
  - destruct (ltb k' k) eqn:Hgt; [|done].
    apply om_sorted_cons. split; [auto|]. by apply om_emplace_Forall.
Qed.

Lemma om_erase_sorted k m : om_sorted ltb m -> om_sorted ltb (om_erase ltb k m).
Proof.
  induction m as [|[k' v'] m IH]; simpl; [done|].
  rewrite om_sorted_cons. intros [Hm Hk]. case_match; [done|].
  apply om_sorted_cons. split; [auto|]. by apply om_erase_Forall.
Qed.

Lemma om_assign_keys k v m : (om_assign ltb k v m).*1 = m.*1.
Proof.
  induction m as [|[k' v'] m IH]; simpl; [done|]. case_match; simpl; by f_equal.
Qed.

Lemma om_assign_sorted k v m :
  om_sorted ltb m -> om_sorted ltb (om_assign ltb k v m).
Proof.
  induction m as [|[k' v'] m IH]; simpl; [done|].
  rewrite om_sorted_cons. intros [Hm Hk].
  case_match; apply om_sorted_cons; (split; [auto; fail|]); [exact Hk|].
  by apply (om_assign_Forall (fun a _ => ltb k' a = true)).
Qed.

Lemma om_emplace_Permutation k v m :
  om_find ltb k m = None -> om_emplace ltb k v m ≡ₚ (k, v) :: m.
Proof.
  induction m as [|[k' v'] m IH]; simpl; [done|]. unfold equivb.
  destruct (ltb k k'), (ltb k' k); simpl; try done.
  intros Hf. rewrite IH by done. apply Permutation_swap.
Qed.

Lemma om_erase_Permutation k v m :
  om_find ltb k m = Some v -> m ≡ₚ (k, v) :: om_erase ltb k m.
Proof.
  induction m as [|[k' v'] m IH]; simpl; [done|].
  destruct (equivb ltb k k') eqn:E.
  - apply equivb_eq in E as <-. intros. by simplify_eq.
  - intros Hf. rewrite IH at 1 by done. apply Permutation_swap.
Qed.

Lemma om_erase_notin k m : om_find ltb k m = None -> om_erase ltb k m = m.
Proof.
  induction m as [|[k' v'] m IH]; simpl; [done|]. case_match; [done|].
  intros. by rewrite IH.
Qed.

Lemma om_emplace_map k v m :
  om_sorted ltb m -> om_find ltb k m = None ->
  list_to_map (om_emplace ltb k v m) = <[k:=v]> (list_to_map m : gmap K V).
Proof.
  intros Hs Hf. rewrite (list_to_map_proper _ ((k, v) :: m)); [done| |].
  - by apply om_sorted_NoDup, om_emplace_sorted.
  - by apply om_emplace_Permutation.
Qed.

Lemma om_erase_map k m :
  om_sorted ltb m ->
  list_to_map (om_erase ltb k m) = delete k (list_to_map m : gmap K V).
Proof.
  intros Hs. destruct (om_find ltb k m) as [v|] eqn:Hf.
  - pose proof (om_sorted_NoDup _ Hs) as Hnd.
    rewrite (list_to_map_proper m _ Hnd (om_erase_Permutation k v m Hf)). simpl.
    rewrite delete_insert_id; [done|].
    rewrite (om_erase_Permutation k v m Hf) in Hnd. simpl in Hnd.
    apply NoDup_cons in Hnd as [Hnin _]. by apply not_elem_of_list_to_map_1.
  - rewrite om_erase_notin by done. rewrite delete_id; [done|].
    by rewrite <- om_find_map.
Qed.

Lemma om_assign_map k v m :
  is_Some (om_find ltb k m) ->
  list_to_map (om_assign ltb k v m) = <[k:=v]> (list_to_map m : gmap K V).
Proof.
  induction m as [|[k' v'] m IH]; simpl; [by intros [? [=]]|].
  destruct (equivb ltb k k') eqn:E; simpl.
  - apply equivb_eq in E as <-. intros _. by rewrite insert_insert_eq.
  - intros Hf. rewrite IH by done. apply insert_insert_ne.
    intros ->. by rewrite equivb_refl in E.
Qed.

(** *** [lower_bound] *)

(** [lower_bound] splits a sorted map into the keys before [k] and the rest. *)
Lemma om_lower_bound_split k m :
  om_sorted ltb m ->
  exists pre, m = pre ++ om_lower_bound ltb k m /\
    Forall (fun q => ltb q.1 k = true) pre /\
    Forall (fun q => ltb q.1 k = false) (om_lower_bound ltb k m).
Proof.
  induction m as [|[k' v'] m IH]; simpl; [by exists []|].
  rewrite om_sorted_cons. intros [Hm Hk].
  destruct (ltb k' k) eqn:Hlt.
  - destruct (IH Hm) as (pre & Heq & Hpre & Hpost).
    exists ((k', v') :: pre). simpl. split; [by f_equal|]. split; [|done].
    by constructor.
  - exists []. split; [done|]. split; [done|]. constructor; [done|].
    eapply Forall_impl; [exact Hk|]. simpl. intros [k2 v2]. simpl. intros Hlt2.
    destruct (ltb k2 k) eqn:E; [|done].
    rewrite <- Hlt. symmetry. eauto using ltb_trans.
Qed.

Lemma om_lower_bound_filter k m :
  om_sorted ltb m ->
  om_lower_bound ltb k m = filter (fun q => ltb q.1 k = false) m.
Proof.
  intros Hs. destruct (om_lower_bound_split k m Hs) as (pre & Heq & Hpre & Hpost).
  rewrite Heq at 2. rewrite filter_app.
  rewrite (filter_all _ (om_lower_bound ltb k m)) by done.
  rewrite (filter_none _ pre); [done|].
  eapply Forall_impl; [exact Hpre|]. simpl. intros ? ->. done.
Qed.

Lemma om_lower_bound_all k m :
  Forall (fun q => ltb q.1 k = false) m -> om_lower_bound ltb k m = m.
Proof. destruct 1 as [|[k' v'] m Hk _]; simpl in *; [done|]. by rewrite Hk. Qed.

Lemma om_sorted_app_r m1 m2 : om_sorted ltb (m1 ++ m2) -> om_sorted ltb m2.
Proof.
  induction m1 as [|p m1 IH]; simpl; [done|].
  rewrite om_sorted_cons. intros [? ?]. auto.
Qed.

(** Restarting a walk from a key found in the map resumes exactly there. *)
Lemma om_lower_bound_resume m1 k v m2 :
  om_sorted ltb (m1 ++ (k, v) :: m2) ->
  om_lower_bound ltb k (m1 ++ (k, v) :: m2) = (k, v) :: m2.
Proof.
  induction m1 as [|[k1 v1] m1 IH]; simpl.
  - intros _. by rewrite ltb_irrefl.
  - rewrite om_sorted_cons. intros [Hs Hk].
    rewrite Forall_app, Forall_cons in Hk. destruct Hk as (_ & Hk & _).
    simpl in Hk. rewrite Hk. auto.
Qed.

Lemma om_erase_mid m1 k v m2 :
  om_sorted ltb (m1 ++ (k, v) :: m2) -> om_erase ltb k (m1 ++ (k, v) :: m2) = m1 ++ m2.
Proof.
  induction m1 as [|[k1 v1] m1 IH]; simpl.
  - intros _. by rewrite equivb_refl.
  - rewrite om_sorted_cons. intros [Hs Hk].
    rewrite Forall_app, Forall_cons in Hk. destruct Hk as (_ & Hk & _). simpl in Hk.
    rewrite equivb_ne by (by apply not_eq_sym, ltb_ne). by rewrite IH.
Qed.

Lemma om_sorted_remove m1 p m2 : om_sorted ltb (m1 ++ p :: m2) -> om_sorted ltb (m1 ++ m2).
Proof.
  destruct p as [k v]. intros Hs. rewrite <- (om_erase_mid m1 k v m2 Hs). by apply om_erase_sorted.
Qed.
End laws.

#[export] Hint Resolve om_emplace_sorted om_erase_sorted om_assign_sorted : kv.
