(* ===== verification/AdiTypes.v ===== *)
(** * ADI data types

    The types and constants of [device_abstract_layer/include/kvs_adi.h] that
    the emulator, its queues and the device layer share: result codes, option
    codes, keys, values, group conditions, iterators and queue descriptors.

    A C pointer to memory the caller owns is an [option]: [None] is [NULL] and
    [Some l] points to the bytes [l].  Option arguments stay integers, because
    the code passes them as [uint8_t] and tests them against constants. *)

From stdpp Require Import base numbers list gmap.
From S2P Require Import Prelude.

(** ** Limits *)

Abbreviation SAMSUNG_KV_MIN_KEY_LEN := 4%Z (only parsing).
Abbreviation SAMSUNG_KV_MAX_KEY_LEN := 255%Z (only parsing).
Abbreviation SAMSUNG_KV_MIN_VALUE_LEN := 0%Z (only parsing).
Abbreviation SAMSUNG_KV_MAX_VALUE_LEN := (2 * 1024 * 1024)%Z (only parsing).
Abbreviation SAMSUNG_MAX_ITERATORS := 16%Z (only parsing).
Abbreviation SAMSUNG_MAX_KEYSPACE_CNT := 2%Z (only parsing).
Abbreviation SAMSUNG_MIN_KEYSPACE_ID := 0%Z (only parsing).
Abbreviation KV_ALIGNMENT_UNIT := 512%Z (only parsing).
Abbreviation KV_NAMESPACE_DEFAULT := 0%Z (only parsing).
Abbreviation SUBMISSION_Q_TYPE := 0%Z (only parsing).
Abbreviation COMPLETION_Q_TYPE := 1%Z (only parsing).

(** ** Result codes *)

Inductive kv_result : Set :=
  | KV_SUCCESS
  | KV_WRN_MORE
  | KV_ERR_DEV_CAPACITY
  | KV_ERR_DEV_INIT
  | KV_ERR_DEV_INITIALIZED
  | KV_ERR_DEV_NOT_EXIST
  | KV_ERR_DEV_SANITIZE_FAILED
  | KV_ERR_ITERATOR_NOT_EXIST
  | KV_ERR_ITERATOR_ALREADY_OPEN
  | KV_ERR_KEY_INVALID
  | KV_ERR_KEY_LENGTH_INVALID
  | KV_ERR_KEY_NOT_EXIST
  | KV_ERR_NS_DEFAULT
  | KV_ERR_NS_INVALID
  | KV_ERR_OPTION_INVALID
  | KV_ERR_PARAM_INVALID
  | KV_ERR_PURGE_IN_PRGRESS
  | KV_ERR_SYS_IO
  | KV_ERR_VALUE_LENGTH_INVALID
  | KV_ERR_VALUE_LENGTH_MISALIGNED
  | KV_ERR_VALUE_OFFSET_INVALID
  | KV_ERR_VENDOR
  | KV_ERR_PERMISSION
  | KV_ERR_MISALIGNED_VALUE_OFFSET
  | KV_ERR_BUFFER_SMALL
  | KV_ERR_DEV_MAX_NS
  | KV_ERR_ITERATOR_COND_INVALID
  | KV_ERR_KEY_EXIST
  | KV_ERR_NS_ATTAHED
  | KV_ERR_NS_CAPACITY
  | KV_ERR_NS_NOT_ATTACHED
  | KV_ERR_QUEUE_CQID_INVALID
  | KV_ERR_QUEUE_SQID_INVALID
  | KV_ERR_QUEUE_DELETION_INVALID
  | KV_ERR_QUEUE_MAX_QUEUE
  | KV_ERR_QUEUE_QID_INVALID
  | KV_ERR_QUEUE_QSIZE_INVALID
  | KV_ERR_TIMEOUT
  | KV_ERR_UNCORRECTIBLE
  | KV_ERR_QUEUE_IN_SHUTDOWN
  | KV_ERR_QUEUE_IS_FULL
  | KV_ERR_COMMAND_SUBMITTED
  | KV_ERR_TOO_MANY_ITERATORS_OPEN
  | KV_ERR_SYS_BUSY
  | KV_ERR_COMMAND_INITIALIZED
  | KV_ERR_DD_UNSUPPORTED_CMD
  | KV_ERR_ITERATE_REQUEST_FAIL
  | KV_ERR_DD_UNSUPPORTED
  | KV_ERR_KEYSPACE_INVALID.

Definition kv_result_code (r : kv_result) : Z :=
  match r with
  | KV_SUCCESS => 0x0
  | KV_WRN_MORE => 0xF000
  | KV_ERR_DEV_CAPACITY => 0x004
  | KV_ERR_DEV_INIT => 0x005
  | KV_ERR_DEV_INITIALIZED => 0x006
  | KV_ERR_DEV_NOT_EXIST => 0x007
  | KV_ERR_DEV_SANITIZE_FAILED => 0x008
  | KV_ERR_ITERATOR_NOT_EXIST => 0x00C
  | KV_ERR_ITERATOR_ALREADY_OPEN => 0x00D
  | KV_ERR_KEY_INVALID => 0x00F
  | KV_ERR_KEY_LENGTH_INVALID => 0x010
  | KV_ERR_KEY_NOT_EXIST => 0x011
  | KV_ERR_NS_DEFAULT => 0x302
  | KV_ERR_NS_INVALID => 0x303
  | KV_ERR_OPTION_INVALID => 0x012
  | KV_ERR_PARAM_INVALID => 0x013
  | KV_ERR_PURGE_IN_PRGRESS => 0x014
  | KV_ERR_SYS_IO => 0x01E
  | KV_ERR_VALUE_LENGTH_INVALID => 0x021
  | KV_ERR_VALUE_LENGTH_MISALIGNED => 0x022
  | KV_ERR_VALUE_OFFSET_INVALID => 0x023
  | KV_ERR_VENDOR => 0x025
  | KV_ERR_PERMISSION => 0x026
  | KV_ERR_MISALIGNED_VALUE_OFFSET => 0x20C
  | KV_ERR_BUFFER_SMALL => 0x001
  | KV_ERR_DEV_MAX_NS => 0x304
  | KV_ERR_ITERATOR_COND_INVALID => 0x00A
  | KV_ERR_KEY_EXIST => 0x00E
  | KV_ERR_NS_ATTAHED => 0x300
  | KV_ERR_NS_CAPACITY => 0x301
  | KV_ERR_NS_NOT_ATTACHED => 0x305
  | KV_ERR_QUEUE_CQID_INVALID => 0x015
  | KV_ERR_QUEUE_SQID_INVALID => 0x01C
  | KV_ERR_QUEUE_DELETION_INVALID => 0x016
  | KV_ERR_QUEUE_MAX_QUEUE => 0x019
  | KV_ERR_QUEUE_QID_INVALID => 0x01A
  | KV_ERR_QUEUE_QSIZE_INVALID => 0x01B
  | KV_ERR_TIMEOUT => 0x01F
  | KV_ERR_UNCORRECTIBLE => 0x020
  | KV_ERR_QUEUE_IN_SHUTDOWN => 0x017
  | KV_ERR_QUEUE_IS_FULL => 0x018
  | KV_ERR_COMMAND_SUBMITTED => 0x003
  | KV_ERR_TOO_MANY_ITERATORS_OPEN => 0x00B
  | KV_ERR_SYS_BUSY => 0x01D
  | KV_ERR_COMMAND_INITIALIZED => 0x002
  | KV_ERR_DD_UNSUPPORTED_CMD => 0x205
  | KV_ERR_ITERATE_REQUEST_FAIL => 0x209
  | KV_ERR_DD_UNSUPPORTED => 0x02C
  | KV_ERR_KEYSPACE_INVALID => 0x031
  end.

(** The result a code stands for; used to decide equality of results. *)
Definition kv_result_of_code (z : Z) : option kv_result :=
  list_find (fun r => kv_result_code r = z)
    [KV_SUCCESS; KV_WRN_MORE; KV_ERR_DEV_CAPACITY; KV_ERR_DEV_INIT;
     KV_ERR_DEV_INITIALIZED; KV_ERR_DEV_NOT_EXIST; KV_ERR_DEV_SANITIZE_FAILED;
     KV_ERR_ITERATOR_NOT_EXIST; KV_ERR_ITERATOR_ALREADY_OPEN; KV_ERR_KEY_INVALID;
     KV_ERR_KEY_LENGTH_INVALID; KV_ERR_KEY_NOT_EXIST; KV_ERR_NS_DEFAULT;
     KV_ERR_NS_INVALID; KV_ERR_OPTION_INVALID; KV_ERR_PARAM_INVALID;
     KV_ERR_PURGE_IN_PRGRESS; KV_ERR_SYS_IO; KV_ERR_VALUE_LENGTH_INVALID;
     KV_ERR_VALUE_LENGTH_MISALIGNED; KV_ERR_VALUE_OFFSET_INVALID; KV_ERR_VENDOR;
     KV_ERR_PERMISSION; KV_ERR_MISALIGNED_VALUE_OFFSET; KV_ERR_BUFFER_SMALL;
     KV_ERR_DEV_MAX_NS; KV_ERR_ITERATOR_COND_INVALID; KV_ERR_KEY_EXIST;
     KV_ERR_NS_ATTAHED; KV_ERR_NS_CAPACITY; KV_ERR_NS_NOT_ATTACHED;
     KV_ERR_QUEUE_CQID_INVALID; KV_ERR_QUEUE_SQID_INVALID;
     KV_ERR_QUEUE_DELETION_INVALID; KV_ERR_QUEUE_MAX_QUEUE; KV_ERR_QUEUE_QID_INVALID;
     KV_ERR_QUEUE_QSIZE_INVALID; KV_ERR_TIMEOUT; KV_ERR_UNCORRECTIBLE;
     KV_ERR_QUEUE_IN_SHUTDOWN; KV_ERR_QUEUE_IS_FULL; KV_ERR_COMMAND_SUBMITTED;
     KV_ERR_TOO_MANY_ITERATORS_OPEN; KV_ERR_SYS_BUSY; KV_ERR_COMMAND_INITIALIZED;
     KV_ERR_DD_UNSUPPORTED_CMD; KV_ERR_ITERATE_REQUEST_FAIL; KV_ERR_DD_UNSUPPORTED;
     KV_ERR_KEYSPACE_INVALID] ≫= fun p => Some p.2.

Lemma kv_result_of_code_code r : kv_result_of_code (kv_result_code r) = Some r.
Proof. destruct r; reflexivity. Qed.

#[export] Instance kv_result_eq_dec : EqDecision kv_result.
Proof.
  intros a b. destruct (decide (kv_result_code a = kv_result_code b)) as [E|E].
  - left. apply (inj Some). by rewrite <- !kv_result_of_code_code, E.
  - right. congruence.
Defined.

(** [res == KV_SUCCESS] *)
Definition is_success (r : kv_result) : bool := bool_decide (r = KV_SUCCESS).

(** ** Options *)

Abbreviation KV_DELETE_OPT_DEFAULT := 0%Z (only parsing).
Abbreviation KV_DELETE_OPT_ERROR := 1%Z (only parsing).
Abbreviation KV_ITERATOR_OPT_KEY := 0%Z (only parsing).
Abbreviation KV_ITERATOR_OPT_KV := 1%Z (only parsing).
Abbreviation KV_ITERATOR_OPT_KV_WITH_DELETE := 2%Z (only parsing).
Abbreviation KV_PURGE_OPT_DEFAULT := 0%Z (only parsing).
Abbreviation KV_PURGE_OPT_KV_ERASE := 1%Z (only parsing).
Abbreviation KV_PURGE_OPT_CRYPTO_ERASE := 2%Z (only parsing).
Abbreviation KV_RETRIEVE_OPT_DEFAULT := 0%Z (only parsing).
Abbreviation KV_RETRIEVE_OPT_DELETE := 1%Z (only parsing).
Abbreviation KV_SANITIZE_OPT_KV_ERASE := 2%Z (only parsing).
Abbreviation KV_SANITIZE_OPT_OVERWRITE := 3%Z (only parsing).
Abbreviation KV_SANITIZE_OPT_CRYPTO_ERASE := 4%Z (only parsing).
Abbreviation KV_STORE_OPT_DEFAULT := 0%Z (only parsing).
Abbreviation KV_STORE_OPT_COMPRESS := 1%Z (only parsing).
Abbreviation KV_STORE_OPT_IDEMPOTENT := 2%Z (only parsing).
Abbreviation KV_STORE_OPT_UPDATE_ONLY := 3%Z (only parsing).
Abbreviation KV_STORE_OPT_APPEND := 4%Z (only parsing).

(** ** Structures *)

Record kv_key := KvKey {
  k_key : option (list byte);      (* void *key *)
  k_length : Z                     (* uint16_t length *)
}.

Record kv_value := KvValue {
  v_value : option (list byte);    (* void *value *)
  v_length : Z;                    (* uint32_t *)
  v_actual_value_size : Z;         (* uint32_t *)
  v_offset : Z                     (* uint32_t *)
}.

Record kv_group_condition := KvGroupCondition {
  gc_bitmask : Z;                  (* uint32_t *)
  gc_bit_pattern : Z               (* uint32_t *)
}.

Record kv_iterator := KvIterator {
  it_handle_id : Z;                (* uint8_t *)
  it_status : Z;                   (* uint8_t *)
  it_type : Z;                     (* uint8_t *)
  it_keyspace_id : Z;              (* uint8_t *)
  it_prefix : Z;                   (* uint32_t *)
  it_bitmask : Z;                  (* uint32_t *)
  it_is_eof : Z                    (* uint8_t *)
}.

Record kv_iterator_list := KvIteratorList {
  il_num_entries : Z;              (* uint32_t *)
  il_end : bool;
  il_size : Z;                     (* uint32_t *)
  il_it_list : list byte           (* uint8_t *it_list *)
}.

Record kv_device := KvDevice {
  d_version : Z;
  d_max_namespaces : Z;
  d_max_queues : Z;
  d_capacity : Z;
  d_min_value_len : Z;
  d_max_value_len : Z;
  d_min_key_len : Z;
  d_max_key_len : Z
}.

Record kv_device_stat := KvDeviceStat {
  ds_namespace_count : Z;
  ds_queue_count : Z;
  ds_utilization : Z;
  ds_waf : Z
}.

Record kv_namespace := KvNamespace {
  n_nsid : Z;
  n_attached : bool;
  n_capacity : Z                   (* uint64_t *)
}.

Record kv_namespace_stat := KvNamespaceStat {
  nst_nsid : Z;
  nst_attached : bool;
  nst_capacity : Z;                (* uint64_t *)
  nst_unallocated_capacity : Z     (* uint64_t *)
}.

Record kv_queue := KvQueue {
  q_queue_id : Z;                  (* uint16_t *)
  q_queue_size : Z;                (* uint16_t *)
  q_completion_queue_id : Z;       (* uint16_t *)
  q_queue_type : Z                 (* uint16_t *)
}.

(** The bytes a key or a value designates: its [length] first bytes. *)
Definition key_bytes (k : kv_key) : list byte :=
  take (Z.to_nat (k_length k)) (default [] (k_key k)).

Definition value_bytes (v : kv_value) : list byte :=
  take (Z.to_nat (v_length v)) (default [] (v_value v)).

(** A key whose buffer holds the bytes its length announces. *)
Definition key_ok (k : kv_key) : Prop :=
  exists l, k_key k = Some l /\ 0 <= k_length k <= Z.of_nat (length l).

Definition value_ok (v : kv_value) : Prop :=
  0 <= v_length v <= Z.of_nat (length (default [] (v_value v))).

(** The key and the value a caller passes to describe given bytes. *)
Definition mk_key (l : list byte) : kv_key := KvKey (Some l) (Z.of_nat (length l)).
Definition mk_value (l : list byte) : kv_value := KvValue (Some l) (Z.of_nat (length l)) 0 0.

Lemma key_bytes_length k : key_ok k -> Z.of_nat (length (key_bytes k)) = k_length k.
Proof.
  intros (l & Hl & Hr). unfold key_bytes. rewrite Hl. simpl.
  rewrite length_take. lia.
Qed.

Lemma value_bytes_length v : value_ok v -> Z.of_nat (length (value_bytes v)) = v_length v.
Proof. intros Hr. unfold value_bytes, value_ok in *. rewrite length_take. lia. Qed.

Lemma key_bytes_mk l : key_bytes (mk_key l) = l.
Proof. unfold key_bytes, mk_key. simpl. by rewrite Nat2Z.id, take_ge. Qed.

Lemma value_bytes_mk l : value_bytes (mk_value l) = l.
Proof. unfold value_bytes, mk_value. simpl. by rewrite Nat2Z.id, take_ge. Qed.

Lemma key_ok_mk l : key_ok (mk_key l).
Proof. exists l. simpl. split; [done|lia]. Qed.

Lemma value_ok_mk l : value_ok (mk_value l).
Proof. unfold value_ok. simpl. lia. Qed.

#[export] Hint Resolve key_ok_mk value_ok_mk : kv.
#[export] Hint Rewrite key_bytes_mk value_bytes_mk : kv.

(** ** Validation of a key and a value *)

(** [validate_key_value]: [value] is [None] where the code passes [NULL]. *)
Definition validate_key_value (key : kv_key) (value : option kv_value) : kv_result :=
  match k_key key with
  | None => KV_ERR_KEY_INVALID
  | Some _ =>
      if (SAMSUNG_KV_MAX_KEY_LEN <? k_length key) || (k_length key <? SAMSUNG_KV_MIN_KEY_LEN)
      then KV_ERR_KEY_LENGTH_INVALID
      else match value with
           | None => KV_SUCCESS
           | Some v =>
               if (v_length v <? SAMSUNG_KV_MIN_VALUE_LEN) ||
                  (SAMSUNG_KV_MAX_VALUE_LEN <? v_length v)
               then KV_ERR_VALUE_LENGTH_INVALID
               else if negb (Z.land (v_offset v) (KV_ALIGNMENT_UNIT - 1) =? 0)
               then KV_ERR_MISALIGNED_VALUE_OFFSET
               else KV_SUCCESS
           end
  end.

Lemma validate_key_value_success key value :
  validate_key_value key value = KV_SUCCESS ->
  k_key key <> None /\ SAMSUNG_KV_MIN_KEY_LEN <= k_length key <= SAMSUNG_KV_MAX_KEY_LEN /\
  (forall v, value = Some v ->
     v_length v <= SAMSUNG_KV_MAX_VALUE_LEN /\ v_offset v mod KV_ALIGNMENT_UNIT = 0).
Proof.
  unfold validate_key_value. destruct (k_key key); [|done].
  destruct (orb _ _) eqn:Hk; [done|]. apply orb_false_iff in Hk as [H1 H2].
  apply Z.ltb_ge in H1, H2.
  destruct value as [v|]; [|intros _; repeat split; try done; lia].
  destruct (orb _ _) eqn:Hv; [done|]. apply orb_false_iff in Hv as [_ H3].
  apply Z.ltb_ge in H3.
  destruct (Z.eqb_spec (Z.land (v_offset v) (KV_ALIGNMENT_UNIT - 1)) 0) as [E|]; simpl; [|done].
  intros _. split; [done|]. split; [lia|]. intros ? [= <-]. split; [lia|].
  change (KV_ALIGNMENT_UNIT - 1) with (Z.ones 9) in E. by rewrite Z.land_ones in E by lia.
Qed.
