(* ===== verification/History.v ===== *)
(** * Sliding windows of recent operations

    [device_abstract_layer/include/private/history.hpp]: the emulator records
    the type and the value size of its last sixteen operations in two ring
    buffers ([op_history], [value_history]) with running counters.  The theorems show that
    the rings implement a window over the last [size] additions: the counters
    and the sum are those of the window, whatever the initial contents of the
    uninitialised buffers. *)

From stdpp Require Import base numbers list.
From S2P Require Import Prelude.

(** ** [enum op_type] *)

Abbreviation STAT_READ := 0%nat (only parsing).
Abbreviation STAT_UPDATE := 1%nat (only parsing).
Abbreviation STAT_INSERT := 2%nat (only parsing).
Abbreviation STAT_DELETE := 3%nat (only parsing).

(** ** [template <int size> class op_history] *)

Record op_history := OpHistory {
  oh_buffer : list nat;            (* int buffer[size+1] *)
  oh_front : nat;
  oh_tail : nat;
  oh_counters : list Z;            (* int counters[4] *)
  oh_length : Z                    (* double length, a whole number *)
}.

(** The constructor leaves [buffer] uninitialised: [junk] stands for what it holds. *)
Definition op_history_new (junk : list nat) : op_history :=
  OpHistory junk 0 0 [0; 0; 0; 0] 0.

Definition op_history_add (size : nat) (value : nat) (h : op_history) : op_history :=
  let buffersize := S size in
  let buffer := <[oh_front h := value]> (oh_buffer h) in
  let counters := alter Z.succ value (oh_counters h) in
  let front := Nat.modulo (oh_front h + 1) buffersize in
  let len := oh_length h + 1 in
  if (front =? oh_tail h)%nat then
    OpHistory buffer front
      (Nat.modulo (oh_tail h + 1) buffersize)
      (alter Z.pred (buffer !!! oh_tail h) counters)
      (len - 1)
  else OpHistory buffer front (oh_tail h) counters len.

(** ** [template <int size> class value_history] *)

Record value_history := ValueHistory {
  vh_sum : Z;                      (* uint32_t *)
  vh_buffer : list Z;              (* int buffer[size+1] *)
  vh_front : nat;
  vh_tail : nat;
  vh_length : Z
}.

Definition value_history_new (junk : list Z) : value_history :=
  ValueHistory 0 junk 0 0 0.

Definition value_history_add (size : nat) (value : Z) (h : value_history) : value_history :=
  let buffersize := S size in
  let buffer := <[vh_front h := value]> (vh_buffer h) in
  let sum := vh_sum h +32 value in
  let front := Nat.modulo (vh_front h + 1) buffersize in
  let len := vh_length h + 1 in
  if (front =? vh_tail h)%nat then
    ValueHistory (sum -32 (buffer !!! vh_tail h)) buffer front
      (Nat.modulo (vh_tail h + 1) buffersize) (len - 1)
  else ValueHistory sum buffer front (vh_tail h) len.

(** ** [class kv_history] *)

Record kv_history := KvHistory {
  op_window : op_history;
  val_window : value_history
}.

Definition kv_history_new (jo : list nat) (jv : list Z) : kv_history :=
  KvHistory (op_history_new jo) (value_history_new jv).

Definition collect (type : nat) (valuesize : Z) (s : kv_history) : kv_history :=
  KvHistory (op_history_add 16 type (op_window s))
            (value_history_add 16 (s32 valuesize) (val_window s)).

(** ** Windows

    The abstract counterpart of a ring: the last additions, oldest first. *)

Definition window_add {A} (size : nat) (v : A) (w : list A) : list A :=
  if (length w <? size)%nat then w ++ [v] else drop 1 (w ++ [v]).

(** The last [size] elements of [l]. *)
Definition lastn {A} (size : nat) (l : list A) : list A := drop (length l - size) l.

Definition count (k : nat) (w : list nat) : Z :=
  Z.of_nat (length (filter (fun x => x = k) w)).

Definition sumZ (w : list Z) : Z := foldr Z.add 0 w.

(** [buffer], [front], [tail] hold the window [w]. *)
Definition ring_repr {A} (size : nat) (buffer : list A) (front tail : nat) (w : list A) : Prop :=
  length buffer = S size /\ (tail < S size)%nat /\ (length w <= size)%nat /\
  front = Nat.modulo (tail + length w) (S size) /\
  (forall i x, w !! i = Some x -> buffer !! (Nat.modulo (tail + i) (S size)) = Some x).

Definition op_repr (size : nat) (h : op_history) (w : list nat) : Prop :=
  ring_repr size (oh_buffer h) (oh_front h) (oh_tail h) w /\
  length (oh_counters h) = 4%nat /\
  (forall k, (k < 4)%nat -> oh_counters h !! k = Some (count k w)) /\
  oh_length h = Z.of_nat (length w).

Definition value_repr (size : nat) (h : value_history) (w : list Z) : Prop :=
  ring_repr size (vh_buffer h) (vh_front h) (vh_tail h) w /\
  vh_sum h = u32 (sumZ w) /\ vh_length h = Z.of_nat (length w).

(** ** Lemmas on windows *)

Lemma lastn_window_add {A} size (v : A) l :
  (0 < size)%nat -> window_add size v (lastn size l) = lastn size (l ++ [v]).
Proof.
  intros Hs. unfold window_add, lastn. rewrite length_drop, length_app. simpl.
  destruct (Nat.ltb_spec (length l - (length l - size)) size).
  - rewrite !(proj2 (Nat.sub_0_le _ _)) by lia. done.
  - rewrite <- (drop_app_le l [v]) by lia. rewrite drop_drop. f_equal; lia.
Qed.

Lemma count_app k w1 w2 : count k (w1 ++ w2) = count k w1 + count k w2.
Proof. unfold count. rewrite filter_app, length_app. lia. Qed.

Lemma count_cons k x w : count k (x :: w) = (if decide (x = k) then 1 else 0) + count k w.
Proof. unfold count. rewrite filter_cons. destruct (decide _); simpl; lia. Qed.

Lemma sumZ_app w1 w2 : sumZ (w1 ++ w2) = sumZ w1 + sumZ w2.
Proof. induction w1; simpl; [done|]. unfold sumZ in *. simpl. lia. Qed.

(** ** Rings *)

Lemma mod_wrap n d : (d <= n < 2 * d)%nat -> Nat.modulo n d = (n - d)%nat.
Proof.
  intros H. symmetry. apply (Nat.mod_unique n d 1); lia.
Qed.

Lemma mod_slot_ne (t i j d : nat) :
  (t < d)%nat -> (i < j < d)%nat -> Nat.modulo (t + i) d <> Nat.modulo (t + j) d.
Proof.
  intros Ht Hij.
  destruct (decide (t + i < d)%nat); destruct (decide (t + j < d)%nat);
    rewrite ?(Nat.mod_small (t + i)), ?(Nat.mod_small (t + j)),
            ?(mod_wrap (t + i) d), ?(mod_wrap (t + j) d) by lia; lia.
Qed.

Section rings.
Context {A : Type} `{!Inhabited A}.
Implicit Types (buffer w : list A).

(** Writing at [front] extends the held elements by one, even when the ring is full. *)
Lemma ring_write size buffer front tail w v :
  ring_repr size buffer front tail w ->
  forall i x, (w ++ [v]) !! i = Some x ->
  <[front := v]> buffer !! (Nat.modulo (tail + i) (S size)) = Some x.
Proof.
  intros (Hb & Ht & Hw & -> & Hin) i x Hi.
  assert (Hlt := lookup_lt_Some _ _ _ Hi). rewrite length_app in Hlt. simpl in Hlt.
  destruct (decide (i = length w)) as [->|Hne].
  - rewrite list_lookup_middle in Hi by done. injection Hi as ->.
    apply list_lookup_insert_eq. rewrite Hb. apply Nat.mod_upper_bound. lia.
  - rewrite lookup_app_l in Hi by lia. rewrite list_lookup_insert_ne; [auto|].
    apply not_eq_sym, mod_slot_ne; lia.
Qed.

Lemma ring_push_room size buffer front tail w v :
  ring_repr size buffer front tail w -> (length w < size)%nat ->
  let front' := Nat.modulo (front + 1) (S size) in
  front' <> tail /\ ring_repr size (<[front := v]> buffer) front' tail (w ++ [v]).
Proof.
  intros Hr Hlt front'. pose proof (ring_write _ _ _ _ _ v Hr) as Hwr.
  destruct Hr as (Hb & Ht & Hw & -> & Hin).
  assert (Hf : front' = Nat.modulo (tail + S (length w)) (S size)).
  { unfold front'. rewrite Nat.Div0.add_mod_idemp_l. f_equal; lia. }
  split.
  - rewrite Hf. intros E. apply (mod_slot_ne tail 0 (S (length w)) (S size)); [lia|lia|].
    rewrite E, Nat.add_0_r. by apply Nat.mod_small.
  - repeat split; rewrite ?length_insert, ?length_app; cbn [length]; try lia; [|done].
    rewrite Hf. f_equal; lia.
Qed.

Lemma ring_push_full size buffer front tail w v :
  ring_repr size buffer front tail w -> length w = size -> (0 < size)%nat ->
  let front' := Nat.modulo (front + 1) (S size) in
  front' = tail /\
  head (w ++ [v]) = Some (<[front := v]> buffer !!! tail) /\
  ring_repr size (<[front := v]> buffer) front'
    (Nat.modulo (tail + 1) (S size)) (drop 1 (w ++ [v])).
Proof.
  intros Hr Hlen Hpos front'. pose proof (ring_write _ _ _ _ _ v Hr) as Hwr.
  destruct Hr as (Hb & Ht & Hw & Hf0 & Hin).
  assert (Hf : front' = tail).
  { unfold front'. rewrite Hf0, Nat.Div0.add_mod_idemp_l, mod_wrap by lia. lia. }
  split; [done|]. split.
  - destruct w as [|x w]; [simpl in *; lia|]. simpl. f_equal. symmetry.
    apply list_lookup_total_correct.
    specialize (Hwr 0%nat x eq_refl). by rewrite Nat.add_0_r, Nat.mod_small in Hwr.
  - repeat split; rewrite ?length_insert, ?length_drop, ?length_app; cbn [length]; try lia.
    + apply Nat.mod_upper_bound. lia.
    + rewrite Hf, Nat.Div0.add_mod_idemp_l, mod_wrap by lia. lia.
    + intros i x Hi. rewrite lookup_drop in Hi.
      rewrite Nat.Div0.add_mod_idemp_l. rewrite <- (Hwr _ _ Hi). f_equal. f_equal; lia.
Qed.

Lemma ring_repr_empty size (junk : list A) :
  length junk = S size -> ring_repr size junk 0 0 [].
Proof. intros. repeat split; cbn [length]; try lia; [by rewrite Nat.Div0.mod_0_l|done]. Qed.

End rings.

(** ** The histories implement windows *)

Lemma op_history_add_repr size v h w :
  (0 < size)%nat -> (v < 4)%nat -> op_repr size h w ->
  op_repr size (op_history_add size v h) (window_add size v w).
Proof.
  intros Hs Hv (Hr & Hc & Hcnt & Hl). unfold op_history_add, window_add.
  set (cs := alter Z.succ v (oh_counters h)).
  assert (Hcs : forall k, (k < 4)%nat -> cs !! k = Some (count k (w ++ [v]))).
  { intros k Hk. unfold cs. rewrite count_app, count_cons. change (count k []) with 0.
    destruct (decide (v = k)) as [->|].
    - rewrite list_lookup_alter_eq, Hcnt by done. simpl. apply (f_equal Some); lia.
    - rewrite list_lookup_alter_ne, Hcnt by done. apply (f_equal Some); lia. }
  assert (Hlc : length cs = 4%nat) by (unfold cs; by rewrite length_alter).
  destruct (Nat.ltb_spec (length w) size) as [Hlt|Hge].
  - destruct (ring_push_room _ _ _ _ _ v Hr Hlt) as [Hne Hr'].
    rewrite (proj2 (Nat.eqb_neq _ _)) by done.
    split; [done|]. split; [done|]. split; [done|]. simpl. rewrite length_app. simpl. lia.
  - assert (Hw : length w = size) by (destruct Hr as (_ & _ & ? & _); lia).
    destruct (ring_push_full _ _ _ _ _ v Hr Hw Hs) as (Hfe & Hhd & Hr').
    rewrite (proj2 (Nat.eqb_eq _ _)) by done. split; [by rewrite Hfe in Hr' |- *|].
    simpl. rewrite length_alter. split; [done|]. split.
    + intros k Hk. destruct w as [|x w']; [simpl in *; lia|].
      simpl in Hhd. injection Hhd as Hx. rewrite <- Hx.
      specialize (Hcs k Hk). change ((x :: w') ++ [v]) with (x :: (w' ++ [v])) in *.
      cbn [drop]. rewrite drop_0. rewrite count_cons in Hcs. destruct (decide (x = k)) as [->|].
      * rewrite list_lookup_alter_eq, Hcs. simpl. apply (f_equal Some); lia.
      * rewrite list_lookup_alter_ne, Hcs by done. apply (f_equal Some); lia.
    + rewrite length_drop, length_app. simpl. lia.
Qed.

Lemma value_history_add_repr size v h w :
  (0 < size)%nat -> value_repr size h w ->
  value_repr size (value_history_add size v h) (window_add size v w).
Proof.
  intros Hs (Hr & Hsum & Hl). unfold value_history_add, window_add.
  assert (Hadd : vh_sum h +32 v = u32 (sumZ (w ++ [v]))).
  { rewrite sumZ_app, Hsum. simpl. unfold u32. rewrite Z.add_0_r. by rewrite Zplus_mod_idemp_l. }
  destruct (Nat.ltb_spec (length w) size) as [Hlt|Hge].
  - destruct (ring_push_room _ _ _ _ _ v Hr Hlt) as [Hne Hr'].
    rewrite (proj2 (Nat.eqb_neq _ _)) by done.
    split; [done|]. split; [done|]. simpl. rewrite length_app. simpl. lia.
  - assert (Hw : length w = size) by (destruct Hr as (_ & _ & ? & _); lia).
    destruct (ring_push_full _ _ _ _ _ v Hr Hw Hs) as (Hfe & Hhd & Hr').
    rewrite (proj2 (Nat.eqb_eq _ _)) by done. split; [by rewrite Hfe in Hr' |- *|].
    simpl. split; [|rewrite length_drop, length_app; simpl; lia].
    destruct w as [|x w']; [simpl in *; lia|]. simpl in Hhd. injection Hhd as Hx.
    rewrite <- Hx, Hadd. unfold u32. rewrite Zminus_mod_idemp_l. f_equal.
    change (drop 1 ((x :: w') ++ [v])) with (drop 0 (w' ++ [v])). rewrite drop_0.
    unfold sumZ. simpl. lia.
Qed.

Definition history_repr (s : kv_history) (types : list nat) (sizes : list Z) : Prop :=
  op_repr 16 (op_window s) (lastn 16 types) /\
  value_repr 16 (val_window s) (lastn 16 sizes).

(** The history reached by a sequence of recorded operations. *)
Definition collect_all (ops : list (nat * Z)) (s : kv_history) : kv_history :=
  foldl (fun s op => collect op.1 op.2 s) s ops.

Lemma collect_repr s types sizes t v :
  (t < 4)%nat -> history_repr s types sizes ->
  history_repr (collect t v s) (types ++ [t]) (sizes ++ [s32 v]).
Proof.
  intros Ht [Ho Hv]. split; rewrite <- lastn_window_add by lia.
  - apply op_history_add_repr; auto; lia.
  - apply value_history_add_repr; auto; lia.
Qed.

(** ** Properties *)

(**  A history that has collected [ops], starting from uninitialised
    buffers, holds exactly the last sixteen of them: each counter is the number
    of operations of its kind in that window, [length] its size and [sum] the
    sum of its value sizes modulo 2^32. *)
Theorem kv_history_window (jo : list nat) (jv : list Z) (ops : list (nat * Z)) :
  length jo = 17%nat -> length jv = 17%nat -> Forall (fun op => (op.1 < 4)%nat) ops ->
  let s := collect_all ops (kv_history_new jo jv) in
  let types := lastn 16 (ops.*1) in
  let sizes := lastn 16 (s32 <$> ops.*2) in
  oh_counters (op_window s) =
    [count STAT_READ types; count STAT_UPDATE types; count STAT_INSERT types;
     count STAT_DELETE types] /\
  oh_length (op_window s) = Z.of_nat (length types) /\
  vh_sum (val_window s) = u32 (sumZ sizes) /\
  vh_length (val_window s) = Z.of_nat (length sizes).
Proof.
  intros Hjo Hjv Hops s types sizes.
  assert (H : history_repr s (ops.*1) (s32 <$> ops.*2)).
  { subst s types sizes. induction ops as [|op ops IH] using rev_ind.
    - split; (split; [by apply ring_repr_empty|]); [|done].
      split; [done|]. split; [|done]. intros k Hk. by do 4 (destruct k; [done|]); lia.
    - apply Forall_app in Hops as [Hops Hop]. unfold collect_all.
      rewrite foldl_app, !fmap_app. apply collect_repr; [by inversion Hop|]. by apply IH. }
  destruct H as [(_ & Hlen & Hc & Hl) (_ & Hsum & Hvl)].
  repeat split; [|done|done|done].
  apply list_eq_same_length with 4%nat; [done|done|].
  intros i x y Hi Hx Hy. rewrite Hc in Hx by done. injection Hx as <-.
  do 4 (destruct i; [by injection Hy as <-|]). lia.
Qed.

Lemma kv_history_window_witness :
  let s := collect_all [(STAT_INSERT, 10); (STAT_READ, 20); (STAT_READ, 30)]
             (kv_history_new (repeat 3%nat 17) (repeat 7 17)) in
  oh_counters (op_window s) = [2; 0; 1; 0] /\ vh_sum (val_window s) = 60.
Proof.
  destruct (kv_history_window (repeat 3%nat 17) (repeat 7 17)
    [(STAT_INSERT, 10); (STAT_READ, 20); (STAT_READ, 30)]) as (H1 & _ & H3 & _);
    [reflexivity | reflexivity | repeat constructor; vm_compute; lia |].
  split; [exact H1 | exact H3].
Defined.
