(* ===== verification/Emulator.v ===== *)
(** * The key-value store of the device emulator

    [emulator/src/kv_emulator.cpp] and [include/private/kv_emulator.hpp]: the
    in-memory store behind one namespace.  This file holds the key order, the
    state and every operation; [EmulInv], [EmulSpec] and [EmulIter] prove the
    invariant, the refinement to an abstract store and the behaviour of the
    iterators.

    The mutexes make every operation atomic, so an operation is a function
    from the state before to the state after.  The waiting time that simulates
    the latency of a device has no effect on the state and is left out. *)

From stdpp Require Import base numbers list gmap.
From S2P Require Import Prelude.
From S2P Require Import AdiTypes.
From S2P Require Import OrdMap.
From S2P Require Import History.

(** ** [struct CmpEmulPrefix]

    The leading four bytes as a [uint32_t], then the length, then the rest. *)
Definition CmpEmulPrefix (a b : list byte) : bool :=
  let intA := le_int (take 4 a) in
  let intB := le_int (take 4 b) in
  if intA =? intB then
    if (length a <? length b)%nat then true
    else if (length b <? length a)%nat then false
    else memlt (drop 4 a) (drop 4 b)
  else intA <? intB.

(** [std::map<kv_key*, std::string, CmpEmulPrefix>] *)
Abbreviation emulator_map_t := (list (list byte * list byte)).

(** ** [struct _kv_iterator_handle] *)

Record _kv_iterator_handle := KvIteratorHandle {
  ih_current_key : list byte;      (* char current_key[255] *)
  ih_keylength : Z;
  ih_ksid : Z;
  ih_it_op : Z;
  ih_it_cond : kv_group_condition;
  ih_has_fixed_keylen : bool;
  ih_end : bool
}.

(** ** [class kv_emulator] *)

Record kv_emulator := KvEmulator {
  stat : kv_history;
  m_capacity : Z;                  (* uint64_t *)
  m_available : Z;                 (* uint64_t *)
  m_map : list emulator_map_t;     (* one map per key space *)
  m_it_map : gmap Z _kv_iterator_handle;
  m_iterator_list : list kv_iterator;
  m_use_iops_model : bool;
  m_nsid : Z;
  m_interrupt_handler : option Z;
  counter : Z                      (* the file's global count of stores, uint64_t *)
}.

Definition set_stat s e :=
  KvEmulator s (m_capacity e) (m_available e) (m_map e) (m_it_map e)
    (m_iterator_list e) (m_use_iops_model e) (m_nsid e) (m_interrupt_handler e) (counter e).
Definition set_available a e :=
  KvEmulator (stat e) (m_capacity e) a (m_map e) (m_it_map e)
    (m_iterator_list e) (m_use_iops_model e) (m_nsid e) (m_interrupt_handler e) (counter e).
Definition set_map m e :=
  KvEmulator (stat e) (m_capacity e) (m_available e) m (m_it_map e)
    (m_iterator_list e) (m_use_iops_model e) (m_nsid e) (m_interrupt_handler e) (counter e).
Definition set_it_map im e :=
  KvEmulator (stat e) (m_capacity e) (m_available e) (m_map e) im
    (m_iterator_list e) (m_use_iops_model e) (m_nsid e) (m_interrupt_handler e) (counter e).
Definition set_iterator_list il e :=
  KvEmulator (stat e) (m_capacity e) (m_available e) (m_map e) (m_it_map e)
    il (m_use_iops_model e) (m_nsid e) (m_interrupt_handler e) (counter e).
Definition set_handler h e :=
  KvEmulator (stat e) (m_capacity e) (m_available e) (m_map e) (m_it_map e)
    (m_iterator_list e) (m_use_iops_model e) (m_nsid e) h (counter e).
Definition set_counter c e :=
  KvEmulator (stat e) (m_capacity e) (m_available e) (m_map e) (m_it_map e)
    (m_iterator_list e) (m_use_iops_model e) (m_nsid e) (m_interrupt_handler e) c.

(** [m_map[ks_id]] and its update. *)
Definition ks_map (ks_id : Z) (e : kv_emulator) : emulator_map_t :=
  default [] (m_map e !! Z.to_nat ks_id).
Definition set_ks_map (ks_id : Z) (m : emulator_map_t) (e : kv_emulator) : kv_emulator :=
  set_map (<[Z.to_nat ks_id := m]> (m_map e)) e.

(** [if (m_use_iops_model) stat.collect(type, size)] *)
Definition collect_stat (type : nat) (size : Z) (e : kv_emulator) : kv_emulator :=
  if m_use_iops_model e then set_stat (collect type size (stat e)) e else e.

Definition empty_iterator : kv_iterator := KvIterator 0 0 0 0 0 0 0.

(** The constructor; [hist] is the history with its uninitialised buffers, and
    [handler] the uninitialised [m_interrupt_handler]. *)
Definition kv_emulator_new (hist : kv_history) (handler : option Z)
    (capacity : Z) (use_iops_model : bool) (nsid : Z) : kv_emulator :=
  KvEmulator hist capacity capacity [[]; []] ∅ (replicate 16 empty_iterator)
    use_iops_model nsid handler 0.

(** ** Basic operations *)

(** [consumed_bytes] is the value behind the out pointer. *)
Definition kv_store (ks_id : Z) (key : kv_key) (value : kv_value) (opt : Z)
    (consumed_bytes : Z) (e : kv_emulator) : kv_result * Z * kv_emulator :=
  if (m_capacity e <=? 0) && (m_available e <? v_length value +32 k_length key)
  then (KV_ERR_DEV_CAPACITY, consumed_bytes, e)
  else if negb (opt =? KV_STORE_OPT_DEFAULT) && negb (opt =? KV_STORE_OPT_IDEMPOTENT)
  then (KV_ERR_OPTION_INVALID, consumed_bytes, e)
  else
    let valstr := value_bytes value in
    let m := ks_map ks_id e in
    match om_find CmpEmulPrefix (key_bytes key) m with
    | Some old =>
        if opt =? KV_STORE_OPT_IDEMPOTENT then (KV_ERR_KEY_EXIST, consumed_bytes, e)
        else
          let e1 := set_available
            (m_available e -64 (v_length value +64 Z.of_nat (length old))) e in
          let e2 := set_ks_map ks_id (om_assign CmpEmulPrefix (key_bytes key) valstr m) e1 in
          let e3 := collect_stat STAT_UPDATE (v_length value) e2 in
          (KV_SUCCESS, v_length value, set_counter (counter e3 +64 1) e3)
    | None =>
        let e1 := set_ks_map ks_id (om_emplace CmpEmulPrefix (key_bytes key) valstr m) e in
        let e2 := set_available
          (m_available e1 -64 (k_length key +32 v_length value)) e1 in
        let e3 := collect_stat STAT_INSERT (v_length value) e2 in
        (KV_SUCCESS, k_length key +32 v_length value, set_counter (counter e3 +64 1) e3)
    end.

(** The value structure is both the request (buffer, its size, offset) and the answer. *)
Definition kv_retrieve (ks_id : Z) (key : kv_key) (opt : Z) (value : kv_value)
    (e : kv_emulator) : kv_result * kv_value * kv_emulator :=
  if negb (opt =? KV_RETRIEVE_OPT_DEFAULT) then (KV_ERR_OPTION_INVALID, value, e)
  else
    match om_find CmpEmulPrefix (key_bytes key) (ks_map ks_id e) with
    | Some data =>
        let dlen := u32 (Z.of_nat (length data)) in
        if negb (v_offset value =? 0) && (dlen <=? v_offset value)
        then (KV_ERR_VALUE_OFFSET_INVALID, value, e)
        else
          let copylen := Z.min (dlen -32 v_offset value) (v_length value) in
          let copied := take (Z.to_nat copylen) (drop (Z.to_nat (v_offset value)) data) in
          let ret := if v_length value <? dlen -32 v_offset value
                     then KV_ERR_BUFFER_SMALL else KV_SUCCESS in
          (ret,
           KvValue (memcpy_at 0 copied <$> v_value value) copylen dlen (v_offset value),
           collect_stat STAT_READ copylen e)
    | None => (KV_ERR_KEY_NOT_EXIST, value, e)
    end.

(** [b |= (1 << bitoffset)] on a byte. *)
Definition set_bit (bitoffset : nat) (b : byte) : byte :=
  Zbyte (Z.lor (byteZ b) (Z.shiftl 1 (Z.of_nat bitoffset))).

(** The loop of [kv_exist]: bit [bitpos] of [buffers] for the keys from there on.
    The counter of the code is an [int], which fewer than 2^31 keys do not overflow. *)
Fixpoint kv_exist_loop (m : emulator_map_t) (keys : list kv_key) (bitpos : nat)
    (buffers : list byte) : list byte :=
  match keys with
  | [] => buffers
  | key :: keys' =>
      let setidx := Nat.div bitpos 8 in
      let bitoffset := (bitpos - setidx * 8)%nat in
      let buffers' :=
        match om_find CmpEmulPrefix (key_bytes key) m with
        | Some _ =>
            alter (set_bit bitoffset) setidx buffers
        | None => buffers
        end in
      kv_exist_loop m keys' (S bitpos) buffers'
  end.

(** [key] points to [keycount] keys. *)
Definition kv_exist (ks_id : Z) (keys : list kv_key) (buffers : list byte) (buffer_size : Z)
    (e : kv_emulator) : kv_result * list byte * Z :=
  let keycount := Z.of_nat (length keys) in
  if keycount =? 0 then (KV_SUCCESS, buffers, buffer_size)
  else
    let bytes_to_write := (keycount - 1) / 8 + 1 in
    if buffer_size <? bytes_to_write then (KV_ERR_BUFFER_SMALL, buffers, buffer_size)
    else
      let zeroed := memcpy_at 0 (replicate (Z.to_nat bytes_to_write) Byte.x00) buffers in
      (KV_SUCCESS, kv_exist_loop (ks_map ks_id e) keys 0 zeroed, bytes_to_write).

Definition kv_purge (ks_id : Z) (opt : Z) (e : kv_emulator) : kv_result * kv_emulator :=
  if negb (opt =? KV_PURGE_OPT_DEFAULT) then (KV_ERR_OPTION_INVALID, e)
  else (KV_SUCCESS, set_available (m_capacity e) (set_ks_map ks_id [] e)).

(** [key] is [None] for [NULL]; [recovered_bytes] is [None] where the caller passes [NULL]. *)
Definition kv_delete (ks_id : Z) (key : option kv_key) (opt : Z) (recovered_bytes : option Z)
    (e : kv_emulator) : kv_result * option Z * kv_emulator :=
  match key with
  | None | Some (KvKey None _) => (KV_ERR_KEY_INVALID, recovered_bytes, e)
  | Some key =>
      if negb (opt =? KV_DELETE_OPT_DEFAULT) && negb (opt =? KV_DELETE_OPT_ERROR)
      then (KV_ERR_OPTION_INVALID, recovered_bytes, e)
      else
        let m := ks_map ks_id e in
        match om_find CmpEmulPrefix (key_bytes key) m with
        | Some old =>
            let len := u32 (Z.of_nat (length (key_bytes key)) + Z.of_nat (length old)) in
            let e1 := set_available (m_available e +64 len) e in
            (KV_SUCCESS, (fun _ => len) <$> recovered_bytes,
             set_ks_map ks_id (om_erase CmpEmulPrefix (key_bytes key) m) e1)
        | None =>
            if opt =? KV_DELETE_OPT_ERROR then (KV_ERR_KEY_NOT_EXIST, recovered_bytes, e)
            else (KV_SUCCESS, recovered_bytes, e)
        end
  end.

(** ** Iterators *)

(** The first open iterator of the table with the condition [cond]. *)
Definition find_open (cond : kv_group_condition) (l : list kv_iterator) : option nat :=
  fst <$> list_find (fun it => (it_prefix it =? gc_bit_pattern cond) &&
                               (it_bitmask it =? gc_bitmask cond) &&
                               (it_status it =? 1) = true) l.

(** The loop that looks for an unused iterator id, from [itid] on; [n] bounds
    its turns: [SAMSUNG_MAX_ITERATORS] of them lead from 1 to past the last id. *)
Fixpoint next_itid (n : nat) (itid : Z) (im : gmap Z _kv_iterator_handle) : Z :=
  match n with
  | O => itid
  | S n' => match im !! itid with
            | None => itid
            | Some _ => next_itid n' (itid + 1) im
            end
  end.

(** [cond] and [iter_hdl] are [None] for [NULL]; [iter_hdl] is what the pointer designates. *)
Definition kv_open_iterator (ks_id : Z) (opt : Z) (cond : option kv_group_condition)
    (keylen_fixed : bool) (iter_hdl : option Z) (e : kv_emulator)
    : kv_result * option Z * kv_emulator :=
  match cond, iter_hdl with
  | Some cond, Some _ =>
      if SAMSUNG_MAX_ITERATORS <=? Z.of_nat (size (m_it_map e))
      then (KV_ERR_TOO_MANY_ITERATORS_OPEN, Some 0, e)
      else
        match find_open cond (m_iterator_list e) with
        | Some i => (KV_ERR_ITERATOR_ALREADY_OPEN, Some (Z.of_nat i + 1), e)
        | None =>
            let prefix := Z.land (gc_bit_pattern cond) (gc_bitmask cond) in
            let iH := KvIteratorHandle
              (memcpy_at 0 (int_le 4 prefix) (replicate 255 Byte.x00)) 4
              ks_id opt cond keylen_fixed false in
            let itid := next_itid 16 1 (m_it_map e) in
            let entry := KvIterator itid 1 opt ks_id (gc_bit_pattern cond) (gc_bitmask cond) 0 in
            (KV_SUCCESS, Some itid,
             set_iterator_list (<[Z.to_nat (itid - 1) := entry]> (m_iterator_list e))
               (set_it_map (<[itid := iH]> (m_it_map e)) e))
        end
  | _, _ => (KV_ERR_PARAM_INVALID, iter_hdl, e)
  end.

Definition include_value (h : _kv_iterator_handle) : bool :=
  (ih_it_op h =? KV_ITERATOR_OPT_KV) || (ih_it_op h =? KV_ITERATOR_OPT_KV_WITH_DELETE).
Definition delete_value (h : _kv_iterator_handle) : bool :=
  ih_it_op h =? KV_ITERATOR_OPT_KV_WITH_DELETE.

(** [memcpy(&prefix, key, 4)] *)
Definition key_prefix (k : list byte) : Z := le_int (take 4 k).

(** [(prefix & bitmask) == (bit_pattern & bitmask)] *)
Definition cond_match (c : kv_group_condition) (k : list byte) : bool :=
  Z.land (key_prefix k) (gc_bitmask c) =? Z.land (gc_bit_pattern c) (gc_bitmask c).

(** The bytes one pair takes in the output buffer. *)
Definition entry_bytes (h : _kv_iterator_handle) (p : list byte * list byte) : list byte :=
  (if ih_has_fixed_keylen h then [] else int_le 4 (Z.of_nat (length p.1))) ++ p.1 ++
  (if include_value h then int_le 4 (Z.of_nat (length p.2)) ++ p.2 else []).

Definition entry_size (h : _kv_iterator_handle) (p : list byte * list byte) : Z :=
  let datasize := Z.of_nat (length p.1) in
  let datasize := if ih_has_fixed_keylen h then datasize else datasize + 4 in
  if include_value h then datasize + (Z.of_nat (length p.2) + 4) else datasize.

(** The loop of [kv_iterator_next_set].  [it] is the walk left to do, [out] the
    bytes written at the start of the buffer, [buffer_pos] their number.  The
    third component is [Some k] when the buffer is full at the key [k]
    ([end = FALSE]) and [None] when the walk is over ([end = TRUE]). *)
Fixpoint next_set_loop (h : _kv_iterator_handle) (buffer_size : Z) (it : emulator_map_t)
    (out : list byte) (cnt : Z) (m : emulator_map_t)
    : list byte * Z * option (list byte) * emulator_map_t :=
  let iterate_all := gc_bitmask (ih_it_cond h) =? 0 in
  let buffer_pos := Z.of_nat (length out) in
  match it with
  | [] => (out, cnt, None, m)
  | p :: it' =>
      if negb iterate_all && negb (cond_match (ih_it_cond h) p.1)
      then (out, cnt, None, m)
      else if buffer_size <? buffer_pos + entry_size h p
      then (out, cnt, Some p.1, m)
      else next_set_loop h buffer_size it' (out ++ entry_bytes h p) (cnt + 1)
             (if delete_value h then om_erase CmpEmulPrefix p.1 m else m)
  end.

Definition save_key (k : list byte) (klength : Z) (h : _kv_iterator_handle) : _kv_iterator_handle :=
  KvIteratorHandle (memcpy_at 0 (take (Z.to_nat klength) k) (ih_current_key h)) klength
    (ih_ksid h) (ih_it_op h) (ih_it_cond h) (ih_has_fixed_keylen h) (ih_end h).

Definition set_end (h : _kv_iterator_handle) : _kv_iterator_handle :=
  KvIteratorHandle (ih_current_key h) (ih_keylength h) (ih_ksid h) (ih_it_op h)
    (ih_it_cond h) (ih_has_fixed_keylen h) true.

(** The key [{current_key, keylength}] the next walk starts from. *)
Definition start_key (h : _kv_iterator_handle) : list byte :=
  take (Z.to_nat (ih_keylength h)) (ih_current_key h).

(** [m_iterator_list[id - 1].is_eof = b] and [.status = s] *)
Definition set_is_eof (id : Z) (b : Z) (e : kv_emulator) : kv_emulator :=
  set_iterator_list (alter (fun it => KvIterator (it_handle_id it) (it_status it) (it_type it)
    (it_keyspace_id it) (it_prefix it) (it_bitmask it) b) (Z.to_nat (id - 1)) (m_iterator_list e)) e.
Definition set_status (id : Z) (s : Z) (e : kv_emulator) : kv_emulator :=
  set_iterator_list (alter (fun it => KvIterator (it_handle_id it) s (it_type it)
    (it_keyspace_id it) (it_prefix it) (it_bitmask it) (it_is_eof it))
    (Z.to_nat (id - 1)) (m_iterator_list e)) e.

Definition kv_iterator_next_set (iter_handle_id : Z) (iter_list : option kv_iterator_list)
    (e : kv_emulator) : kv_result * option kv_iterator_list * kv_emulator :=
  match iter_list with
  | None => (KV_ERR_PARAM_INVALID, iter_list, e)
  | Some il =>
      if iter_handle_id =? 0 then (KV_ERR_PARAM_INVALID, iter_list, e)
      else
        match m_it_map e !! iter_handle_id with
        | None => (KV_ERR_ITERATOR_NOT_EXIST, iter_list, e)
        | Some h =>
            let m := ks_map (ih_ksid h) e in
            let it := om_lower_bound CmpEmulPrefix (start_key h) m in
            let '(out, cnt, full, m') := next_set_loop h (il_size il) it [] 0 m in
            let e1 := set_ks_map (ih_ksid h) m' e in
            let e2 := match full with
                      | Some k => set_it_map
                          (<[iter_handle_id := save_key k (Z.of_nat (length k)) h]> (m_it_map e1)) e1
                      | None => e1
                      end in
            let end_ := match full with Some _ => false | None => true end in
            (KV_SUCCESS,
             Some (KvIteratorList cnt end_ (Z.of_nat (length out))
                     (memcpy_at 0 out (il_it_list il))),
             set_is_eof iter_handle_id (if end_ then 1 else 0) e2)
        end
  end.

(** [kv_iterator_next]: one pair.  The test against the caller's key length
    comes after that length was overwritten, as in the code. *)
Definition kv_iterator_next (iter_handle_id : Z) (key : option kv_key) (value : option kv_value)
    (e : kv_emulator) : kv_result * option kv_key * option kv_value * kv_emulator :=
  match key, value with
  | Some (KvKey (Some kbuf) klen0), Some (KvValue (Some vbuf) vlen0 vact0 voff0) =>
      if iter_handle_id =? 0 then (KV_ERR_PARAM_INVALID, key, value, e)
      else
        match m_it_map e !! iter_handle_id with
        | None => (KV_ERR_ITERATOR_NOT_EXIST, key, value, e)
        | Some h =>
            let put h' e' := set_it_map (<[iter_handle_id := h']> (m_it_map e')) e' in
            if ih_end h then (KV_SUCCESS, key, value, put (set_end h) e)
            else
              let m := ks_map (ih_ksid h) e in
              match om_lower_bound CmpEmulPrefix (start_key h) m with
              | [] => (KV_SUCCESS, key, value, put (set_end h) e)
              | (k, v) :: it' =>
                  let klength := Z.of_nat (length k) in
                  let vlength := Z.of_nat (length v) in
                  if negb (Z.land (key_prefix k) (gc_bitmask (ih_it_cond h)) =?
                           gc_bit_pattern (ih_it_cond h))
                  then (KV_SUCCESS, key, value, put (set_end h) e)
                  else
                    let key1_length := u16 klength in
                    if key1_length <? klength
                    then (KV_ERR_BUFFER_SMALL, Some (KvKey (Some kbuf) key1_length), value,
                          put (save_key k klength h) e)
                    else if include_value h && (vlen0 <? vlength)
                    then (KV_ERR_BUFFER_SMALL, Some (KvKey (Some kbuf) key1_length),
                          Some (KvValue (Some vbuf) 0 vlength 0),
                          put (save_key k klength h) e)
                    else
                      let key' := KvKey (Some (memcpy_at 0 k kbuf)) key1_length in
                      let value' := if include_value h
                        then KvValue (Some (memcpy_at 0 v vbuf)) vlength vlength 0
                        else KvValue (Some vbuf) vlen0 vact0 voff0 in
                      let e1 := if delete_value h
                        then set_ks_map (ih_ksid h) (om_erase CmpEmulPrefix k m) e else e in
                      match it' with
                      | (k2, _) :: _ =>
                          (KV_SUCCESS, Some key', Some value',
                           set_is_eof iter_handle_id 0 (put (save_key k2 klength h) e1))
                      | [] =>
                          (KV_SUCCESS, Some key', Some value',
                           set_is_eof iter_handle_id 1 (put (set_end h) e1))
                      end
              end
        end
  | _, _ => (KV_ERR_PARAM_INVALID, key, value, e)
  end.

Definition kv_close_iterator (iter_handle_id : Z) (e : kv_emulator) : kv_result * kv_emulator :=
  if iter_handle_id <=? 0 then (KV_ERR_PARAM_INVALID, e)
  else (KV_SUCCESS,
        set_status iter_handle_id 0 (set_it_map (delete iter_handle_id (m_it_map e)) e)).

(** One entry of the answer of [kv_list_iterators], in the byte order of the API. *)
Definition list_entry (it : kv_iterator) : kv_iterator :=
  KvIterator (it_handle_id it) (it_status it) (it_type it) (it_keyspace_id it)
    (htobe32 (it_prefix it)) (htobe32 (it_bitmask it)) (it_is_eof it).

(** The last component says whether the command was completed here, that is
    whether its post-processing function was called and the command freed. *)
Definition kv_list_iterators (iter_list : option (list kv_iterator)) (count : option Z)
    (e : kv_emulator) : kv_result * option (list kv_iterator) * option Z * bool :=
  match iter_list, count with
  | Some dst, Some c =>
      let min := Z.min c SAMSUNG_MAX_ITERATORS in
      let n := Z.to_nat min in
      (KV_SUCCESS, Some (map list_entry (take n (m_iterator_list e)) ++ drop n dst),
       Some min, true)
  | _, _ => (KV_ERR_PARAM_INVALID, iter_list, count, false)
  end.

(** The loop of [kv_delete_group] over the walk [it]. *)
Fixpoint delete_group_loop (c : kv_group_condition) (it : emulator_map_t)
    (m : emulator_map_t) (available : Z) : emulator_map_t * Z :=
  let to_match := Z.land (gc_bitmask c) (gc_bit_pattern c) in
  match it with
  | [] => (m, available)
  | (k, v) :: it' =>
      if negb (Z.land (Z.land (key_prefix k) (gc_bitmask c)) (gc_bit_pattern c) =? to_match)
      then (m, available)
      else delete_group_loop c it' (om_erase CmpEmulPrefix k m)
             (available +64 (Z.of_nat (length k) + Z.of_nat (length v)))
  end.

(** The out parameter [recovered_bytes] is never written. *)
Definition kv_delete_group (ks_id : Z) (grp_cond : kv_group_condition) (e : kv_emulator)
    : kv_result * kv_emulator :=
  let minkey := Z.land (gc_bitmask grp_cond) (gc_bit_pattern grp_cond) in
  let m := ks_map ks_id e in
  let it := om_lower_bound CmpEmulPrefix (int_le 4 minkey) m in
  let '(m', available) := delete_group_loop grp_cond it m (m_available e) in
  (KV_SUCCESS, set_available available (set_ks_map ks_id m' e)).

(** ** Remaining operations *)

Definition set_interrupt_handler (int_hdl : option Z) (e : kv_emulator) : kv_result * kv_emulator :=
  match int_hdl with
  | None => (KV_ERR_PARAM_INVALID, e)
  | Some _ => (KV_SUCCESS, set_handler int_hdl e)
  end.

Definition poll_completion (e : kv_emulator) : kv_result := KV_ERR_DEV_INIT.
Definition get_total_capacity (e : kv_emulator) : Z := m_capacity e.
Definition get_available (e : kv_emulator) : Z := m_available e.
