(* ===== verification/EmulInv.v ===== *)
(** * The invariant of the emulator

    [CmpEmulPrefix] is a strict total order; every operation keeps the maps
    sorted, the key lengths in range, and the table of iterators in step with
    the map of open handles.  [emul_step] is the step relation of the
    operations under the contract their callers ([kv_namespace.cpp],
    [kv_device.cpp]) establish; the invariant holds in every reachable state. *)

From stdpp Require Import base numbers list gmap.
From S2P Require Import Prelude.
From S2P Require Import AdiTypes.
From S2P Require Import OrdMap.
From S2P Require Import History.
From S2P Require Import Emulator.

(** ** The invariant *)

Definition key_len_ok (k : list byte) : Prop := (4 <= length k <= 255)%nat.

Definition val_len_ok (v : list byte) : Prop :=
  Z.of_nat (length v) <= SAMSUNG_KV_MAX_VALUE_LEN.

Definition map_wf (m : emulator_map_t) : Prop :=
  om_sorted CmpEmulPrefix m /\ Forall (fun p => key_len_ok p.1 /\ val_len_ok p.2) m.

Definition handle_wf (h : _kv_iterator_handle) : Prop :=
  length (ih_current_key h) = 255%nat /\ 4 <= ih_keylength h <= 255 /\
  0 <= ih_ksid h < SAMSUNG_MAX_KEYSPACE_CNT /\
  0 <= gc_bitmask (ih_it_cond h) < 2 ^ 32 /\ 0 <= gc_bit_pattern (ih_it_cond h) < 2 ^ 32.

(** The entry [i] of the table describes the handle [i + 1]. *)
Definition entry_ok (im : gmap Z _kv_iterator_handle) (i : nat) (it : kv_iterator) : Prop :=
  match im !! (Z.of_nat i + 1) with
  | Some h => it_status it = 1 /\ it_handle_id it = Z.of_nat i + 1 /\
      it_keyspace_id it = ih_ksid h /\ it_type it = ih_it_op h /\
      it_prefix it = gc_bit_pattern (ih_it_cond h) /\ it_bitmask it = gc_bitmask (ih_it_cond h)
  | None => it_status it = 0
  end.

Record emul_wf (e : kv_emulator) : Prop := {
  wf_maps : length (m_map e) = 2%nat;
  wf_map : Forall map_wf (m_map e);
  wf_table_len : length (m_iterator_list e) = 16%nat;
  wf_handles : forall id h, m_it_map e !! id = Some h ->
    1 <= id <= SAMSUNG_MAX_ITERATORS /\ handle_wf h;
  wf_table : forall i it, m_iterator_list e !! i = Some it -> entry_ok (m_it_map e) i it
}.

(** ** What callers guarantee *)

Definition ks_ok (ks_id : Z) : Prop := 0 <= ks_id < SAMSUNG_MAX_KEYSPACE_CNT.

Definition emul_key_ok (k : kv_key) : Prop :=
  key_ok k /\ SAMSUNG_KV_MIN_KEY_LEN <= k_length k <= SAMSUNG_KV_MAX_KEY_LEN.

Definition emul_value_ok (v : kv_value) : Prop :=
  value_ok v /\ v_length v <= SAMSUNG_KV_MAX_VALUE_LEN.

Definition cond_ok (c : kv_group_condition) : Prop :=
  0 <= gc_bitmask c < 2 ^ 32 /\ 0 <= gc_bit_pattern c < 2 ^ 32.

(** ** Steps *)

Inductive emul_step : kv_emulator -> kv_emulator -> Prop :=
| step_store ks key value opt c e :
    ks_ok ks -> emul_key_ok key -> emul_value_ok value -> emul_step e (kv_store ks key value opt c e).2
| step_retrieve ks key opt value e :
    emul_step e (kv_retrieve ks key opt value e).2
| step_purge ks opt e :
    ks_ok ks -> emul_step e (kv_purge ks opt e).2
| step_delete ks key opt r e :
    ks_ok ks -> emul_step e (kv_delete ks key opt r e).2
| step_open ks opt cond fixed ih e :
    ks_ok ks -> (forall c, cond = Some c -> cond_ok c) ->
    emul_step e (kv_open_iterator ks opt cond fixed ih e).2
| step_next_set id il e :
    emul_step e (kv_iterator_next_set id il e).2
| step_next id key value e :
    emul_step e (kv_iterator_next id key value e).2
| step_close id e :
    id <= SAMSUNG_MAX_ITERATORS -> emul_step e (kv_close_iterator id e).2
| step_delete_group ks cond e :
    ks_ok ks -> emul_step e (kv_delete_group ks cond e).2
| step_set_handler h e :
    emul_step e (set_interrupt_handler h e).2.

Definition emul_init (e : kv_emulator) : Prop :=
  exists hist handler capacity iops nsid,
    e = kv_emulator_new hist handler capacity iops nsid.

(** ** The key order *)

Lemma le_int_take4_inj a b :
  length a = length b -> le_int (take 4 a) = le_int (take 4 b) -> take 4 a = take 4 b.
Proof. intros Hl. apply le_int_inj. by rewrite !length_take, Hl. Qed.

#[export] Instance CmpEmulPrefix_order : StrictOrderb CmpEmulPrefix.
Proof.
  split.
  - intros k. unfold CmpEmulPrefix. by rewrite Z.eqb_refl, Nat.ltb_irrefl, memlt_irrefl.
  - intros a b c. unfold CmpEmulPrefix.
    destruct (Z.eqb_spec (le_int (take 4 a)) (le_int (take 4 b)));
    destruct (Z.eqb_spec (le_int (take 4 b)) (le_int (take 4 c)));
    destruct (Z.eqb_spec (le_int (take 4 a)) (le_int (take 4 c))); try lia;
    destruct (Nat.ltb_spec (length a) (length b)), (Nat.ltb_spec (length b) (length c)),
      (Nat.ltb_spec (length a) (length c)), (Nat.ltb_spec (length b) (length a)),
      (Nat.ltb_spec (length c) (length b)), (Nat.ltb_spec (length c) (length a));
      try done; try lia; eauto using memlt_trans.
  - intros a b. unfold CmpEmulPrefix. rewrite (Z.eqb_sym (le_int (take 4 b))).
    destruct (Z.eqb_spec (le_int (take 4 a)) (le_int (take 4 b))) as [E|E]; [|lia].
    destruct (Nat.ltb_spec (length a) (length b)); [done|].
    destruct (Nat.ltb_spec (length b) (length a)); [done|].
    intros H1 H2. assert (Hl : length a = length b) by lia.
    rewrite <- (take_drop 4 a), <- (take_drop 4 b). f_equal; [by apply le_int_take4_inj|].
    apply memlt_total; [|done|done]. by rewrite !length_drop, Hl.
Qed.

(** ** Preservation *)

Lemma map_wf_nil : map_wf [].
Proof. split; [constructor|constructor]. Qed.

Lemma ks_map_wf ks e : emul_wf e -> map_wf (ks_map ks e).
Proof.
  intros H. unfold ks_map. destruct (m_map e !! Z.to_nat ks) as [m|] eqn:E; simpl.
  - pose proof (wf_map e H) as Hm. rewrite Forall_lookup in Hm. eauto.
  - apply map_wf_nil.
Qed.

Lemma map_wf_assign k v m : val_len_ok v -> map_wf m -> map_wf (om_assign CmpEmulPrefix k v m).
Proof.
  intros Hv [Hs Hk]. split; [by apply om_assign_sorted|].
  apply (om_assign_Forall (fun k' v' => key_len_ok k' /\ val_len_ok v')); [|done].
  by intros k' v' [? _].
Qed.

Lemma map_wf_emplace k v m :
  key_len_ok k -> val_len_ok v -> map_wf m -> map_wf (om_emplace CmpEmulPrefix k v m).
Proof.
  intros Hlen Hv [Hs Hk]. split; [by apply om_emplace_sorted|]. by apply om_emplace_Forall.
Qed.

Lemma map_wf_erase k m : map_wf m -> map_wf (om_erase CmpEmulPrefix k m).
Proof.
  intros [Hs Hk]. split; [by apply om_erase_sorted|]. by apply om_erase_Forall.
Qed.

Lemma wf_set_ks_map ks m e : emul_wf e -> map_wf m -> emul_wf (set_ks_map ks m e).
Proof.
  intros [H1 H2 H3 H4 H5] Hm. split; simpl; [by rewrite length_insert|by apply Forall_insert|done..].
Qed.

(** Fields outside the invariant. *)
Lemma wf_set_available a e : emul_wf e -> emul_wf (set_available a e).
Proof. intros []; by split. Qed.
Lemma wf_set_stat s e : emul_wf e -> emul_wf (set_stat s e).
Proof. intros []; by split. Qed.
Lemma wf_set_counter c e : emul_wf e -> emul_wf (set_counter c e).
Proof. intros []; by split. Qed.
Lemma wf_set_handler h e : emul_wf e -> emul_wf (set_handler h e).
Proof. intros []; by split. Qed.
Lemma wf_collect_stat t n e : emul_wf e -> emul_wf (collect_stat t n e).
Proof. intros. unfold collect_stat. case_match; [by apply wf_set_stat|done]. Qed.

(** A handle that keeps the fields the table mirrors. *)
Definition same_iter (h h' : _kv_iterator_handle) : Prop :=
  ih_ksid h' = ih_ksid h /\ ih_it_op h' = ih_it_op h /\ ih_it_cond h' = ih_it_cond h.

Lemma wf_set_handle id h h' e :
  emul_wf e -> m_it_map e !! id = Some h -> handle_wf h' -> same_iter h h' ->
  emul_wf (set_it_map (<[id := h']> (m_it_map e)) e).
Proof.
  intros [H1 H2 H3 H4 H5] Hid Hh' (S1 & S2 & S3). split; simpl; try done.
  - intros id2 h2. rewrite lookup_insert_Some. intros [[<- <-]|[_ Hl]]; [|eauto].
    split; [by eapply H4|done].
  - intros i it Hit. specialize (H5 i it Hit). unfold entry_ok in *.
    destruct (decide (id = Z.of_nat i + 1)) as [->|].
    + rewrite lookup_insert_eq. rewrite Hid in H5. by rewrite S1, S2, S3.
    + by rewrite lookup_insert_ne.
Qed.

Lemma wf_set_is_eof id b e : emul_wf e -> emul_wf (set_is_eof id b e).
Proof.
  intros [H1 H2 H3 H4 H5]. split; simpl; try done; [by rewrite length_alter|].
  intros i it Hit. apply list_alter_Some in Hit as [(<- & y & Hy & ->)|[_ Hy]];
    apply H5 in Hy; done.
Qed.

#[export] Hint Resolve map_wf_nil ks_map_wf map_wf_assign map_wf_emplace map_wf_erase wf_set_ks_map
  wf_set_available wf_set_stat wf_set_counter wf_set_handler wf_collect_stat wf_set_is_eof : kv.

Lemma emul_key_len key : emul_key_ok key -> key_len_ok (key_bytes key).
Proof.
  intros [Hk Hl]. pose proof (key_bytes_length key Hk). unfold key_len_ok.
  lia.
Qed.

Lemma emul_value_len value : emul_value_ok value -> val_len_ok (value_bytes value).
Proof. intros [Hv Hl]. unfold val_len_ok. by rewrite value_bytes_length. Qed.

#[export] Hint Resolve emul_key_len emul_value_len : kv.

Lemma kv_store_wf ks key value opt c e :
  emul_wf e -> emul_key_ok key -> emul_value_ok value ->
  emul_wf (kv_store ks key value opt c e).2.
Proof. intros He Hk Hv. unfold kv_store. repeat case_match; simpl; auto 10 with kv. Qed.

Lemma kv_retrieve_wf ks key opt value e :
  emul_wf e -> emul_wf (kv_retrieve ks key opt value e).2.
Proof. intros He. unfold kv_retrieve. repeat case_match; simpl; auto with kv. Qed.

Lemma kv_purge_wf ks opt e : emul_wf e -> emul_wf (kv_purge ks opt e).2.
Proof. intros He. unfold kv_purge. repeat case_match; simpl; auto with kv. Qed.

Lemma kv_delete_wf ks key opt r e : emul_wf e -> emul_wf (kv_delete ks key opt r e).2.
Proof. intros He. unfold kv_delete. repeat case_match; simpl; auto 10 with kv. Qed.

Lemma delete_group_loop_wf c it m a : map_wf m -> map_wf (delete_group_loop c it m a).1.
Proof.
  revert m a. induction it as [|[k v] it IH]; intros m a Hm; simpl; [done|].
  case_match; [done|]. auto with kv.
Qed.

Lemma kv_delete_group_wf ks c e : emul_wf e -> emul_wf (kv_delete_group ks c e).2.
Proof.
  intros He. unfold kv_delete_group.
  destruct (delete_group_loop _ _ _ _) as [m' a] eqn:E. simpl.
  apply wf_set_available, wf_set_ks_map; [done|].
  apply (f_equal fst) in E. simpl in E. rewrite <- E.
  apply delete_group_loop_wf. auto with kv.
Qed.

(** ** Opening and closing iterators *)

Lemma next_itid_spec n i im :
  i <= next_itid n i im <= i + Z.of_nat n /\
  (forall x, i <= x < next_itid n i im -> is_Some (im !! x)) /\
  (next_itid n i im < i + Z.of_nat n -> im !! (next_itid n i im) = None).
Proof.
  revert i. induction n as [|n IH]; intros i; cbn [next_itid].
  - repeat split; intros; lia.
  - destruct (im !! i) as [h|] eqn:E; [|repeat split; intros; [lia|lia|lia|done]].
    destruct (IH (i + 1)) as (H1 & H2 & H3). split; [lia|]. split.
    + intros x Hx. destruct (decide (x = i)) as [->|]; [by eexists|]. apply H2. lia.
    + intros. apply H3. lia.
Qed.

(** With fewer than sixteen open iterators the search finds the smallest free id. *)
Lemma next_itid_free im :
  Z.of_nat (size im) < SAMSUNG_MAX_ITERATORS ->
  let itid := next_itid 16 1 im in
  1 <= itid <= SAMSUNG_MAX_ITERATORS /\ im !! itid = None /\
  (forall x, 1 <= x < itid -> is_Some (im !! x)).
Proof.
  intros Hsz itid. destruct (next_itid_spec 16 1 im) as (H1 & H2 & H3).
  fold itid in H1, H2, H3.
  assert (itid <> 17) as Hne.
  { intros E. rewrite E in H2.
    assert (Hsub : (list_to_set (seqZ 1 16) : gset Z) ⊆ dom im).
    { intros x. rewrite elem_of_list_to_set, elem_of_seqZ, elem_of_dom. intros. apply H2. lia. }
    apply subseteq_size in Hsub. rewrite size_dom, size_list_to_set in Hsub by apply NoDup_seqZ.
    rewrite length_seqZ in Hsub. lia. }
  split; [lia|]. split; [apply H3; lia|done].
Qed.

Lemma kv_open_iterator_wf ks opt cond fixed ih e :
  ks_ok ks -> (forall c, cond = Some c -> cond_ok c) -> emul_wf e ->
  emul_wf (kv_open_iterator ks opt cond fixed ih e).2.
Proof.
  intros Hks Hc He. unfold kv_open_iterator.
  destruct cond as [c|], ih as [ih|]; try done.
  destruct (Z.leb_spec SAMSUNG_MAX_ITERATORS (Z.of_nat (size (m_it_map e)))) as [|Hsz]; [done|].
  destruct (find_open c (m_iterator_list e)); [done|].
  destruct (next_itid_free _ Hsz) as (Hr & Hfree & _).
  set (itid := next_itid 16 1 (m_it_map e)) in *. destruct (Hc c eq_refl) as [Hm Hp].
  destruct He as [H1 H2 H3 H4 H5]. split; cbn [m_map m_it_map m_iterator_list set_iterator_list set_it_map snd]; try done.
  - by rewrite length_insert.
  - intros id h. rewrite lookup_insert_Some. intros [[<- <-]|[_ Hl]]; [|eauto].
    split; [done|]. split; [|unfold ks_ok in Hks; simpl; lia].
    cbn [ih_current_key]. rewrite length_memcpy_at; rewrite ?length_int_le, length_replicate; lia.
  - intros i it Hit. apply list_insert_Some in Hit as [[Hi ->]|[Hi Hl]].
    + unfold entry_ok. replace (Z.of_nat i + 1) with itid by lia.
      rewrite lookup_insert_eq. by repeat split; simpl; lia.
    + unfold entry_ok. rewrite lookup_insert_ne; [by apply H5|].
      intros E. apply Hi. lia.
Qed.

Lemma kv_close_iterator_wf id e :
  emul_wf e -> emul_wf (kv_close_iterator id e).2.
Proof.
  intros [H1 H2 H3 H4 H5]. unfold kv_close_iterator.
  destruct (Z.leb_spec id 0) as [|Hid]; [by split|]. split; simpl; try done.
  - by rewrite length_alter.
  - intros id2 h2 [_ Hl]%lookup_delete_Some. eauto.
  - intros i it Hit. unfold entry_ok.
    apply list_alter_Some in Hit as [(Hi & y & Hy & ->)|[Hi Hy]].
    + replace (Z.of_nat i + 1) with id by lia. by rewrite lookup_delete_eq.
    + rewrite lookup_delete_ne by (intros ->; apply Hi; lia). by apply H5.
Qed.

(** ** Walking *)

Lemma save_key_wf k n h :
  handle_wf h -> 4 <= n <= 255 -> handle_wf (save_key k n h).
Proof.
  intros (H1 & H2 & H3) Hn. split; [|done]. simpl.
  rewrite length_memcpy_at; [done|]. rewrite length_take. lia.
Qed.

Lemma save_key_same k n h : same_iter h (save_key k n h).
Proof. done. Qed.

Lemma set_end_wf h : handle_wf h -> handle_wf (set_end h).
Proof. done. Qed.

Lemma set_end_same h : same_iter h (set_end h).
Proof. done. Qed.

#[export] Hint Resolve save_key_wf save_key_same set_end_wf set_end_same : kv.

Lemma next_set_loop_wf h bs it out cnt m :
  Forall (fun p => key_len_ok p.1) it -> map_wf m ->
  let '(_, _, full, m') := next_set_loop h bs it out cnt m in
  map_wf m' /\ (forall k, full = Some k -> key_len_ok k).
Proof.
  intros Hit. revert out cnt m. induction Hit as [|p it Hp Hit IH]; intros out cnt m Hm.
  - by split.
  - cbn [next_set_loop]. destruct (andb _ _); [by split|]. destruct (Z.ltb _ _).
    + split; [done|]. by intros k [= <-].
    + apply IH. case_match; auto with kv.
Qed.

Lemma lower_bound_wf k m :
  map_wf m -> Forall (fun p => key_len_ok p.1) (om_lower_bound CmpEmulPrefix k m).
Proof.
  intros [Hs Hk]. destruct (om_lower_bound_split k m Hs) as (pre & Heq & _).
  rewrite Heq in Hk. apply Forall_app in Hk as [_ Hk].
  eapply Forall_impl; [exact Hk|]. by intros p [? _].
Qed.

Lemma kv_iterator_next_set_wf id il e :
  emul_wf e -> emul_wf (kv_iterator_next_set id il e).2.
Proof.
  intros He. unfold kv_iterator_next_set. destruct il as [il|]; [|done].
  case_match; [done|]. destruct (m_it_map e !! id) as [h|] eqn:Hh; [|done].
  pose proof (ks_map_wf (ih_ksid h) e He) as Hm.
  pose proof (next_set_loop_wf h (il_size il) _ [] 0 _ (lower_bound_wf (start_key h) _ Hm) Hm) as Hl.
  destruct (next_set_loop _ _ _ _ _ _) as [[[out cnt] full] m']. destruct Hl as [Hm' Hf]. simpl.
  apply wf_set_is_eof. destruct full as [k|]; [|auto with kv].
  apply (wf_set_handle id h _ (set_ks_map (ih_ksid h) m' e)); [auto with kv|done| |done].
  apply save_key_wf; [by eapply wf_handles|]. specialize (Hf k eq_refl). unfold key_len_ok in Hf. lia.
Qed.

Lemma kv_iterator_next_wf id key value e :
  emul_wf e -> emul_wf (kv_iterator_next id key value e).2.
Proof.
  intros He. unfold kv_iterator_next.
  destruct key as [[[kbuf|] klen0]|]; try done.
  destruct value as [[[vbuf|] vl va vo]|]; try done.
  case_match; [done|]. destruct (m_it_map e !! id) as [h|] eqn:Hh; [|done].
  assert (Hhw : handle_wf h) by (by eapply wf_handles).
  pose proof (lower_bound_wf (start_key h) _ (ks_map_wf (ih_ksid h) e He)) as Hlb.
  assert (Hput : forall h' e', handle_wf h' -> same_iter h h' -> emul_wf e' ->
    m_it_map e' = m_it_map e -> emul_wf (set_it_map (<[id := h']> (m_it_map e')) e')).
  { intros h' e' Hw Hs He' Heq. apply (wf_set_handle id h); congruence || done. }
  case_match; [by apply Hput|].
  destruct (om_lower_bound _ _ _) as [|[k v] it']; [by apply Hput|].
  apply Forall_cons in Hlb as [Hk _]. unfold key_len_ok in Hk. simpl in Hk.
  assert (Hsk : forall k', handle_wf (save_key k' (Z.of_nat (length k)) h))
    by (intros; apply save_key_wf; [done|lia]).
  repeat (case_match; [by apply Hput|]).
  set (e1 := if delete_value h then _ else e).
  assert (He1 : emul_wf e1 /\ m_it_map e1 = m_it_map e).
  { unfold e1. case_match; [|done]. split; [auto with kv|done]. }
  clearbody e1. destruct He1 as [He1 He1'].
  destruct it' as [|[k2 v2] it'']; apply wf_set_is_eof, Hput; auto with kv.
Qed.

Lemma emul_init_wf e : emul_init e -> emul_wf e.
Proof.
  intros (hist & handler & cap & iops & nsid & ->).
  split; [done|by repeat constructor|done|done|].
  intros i it Hit. change (m_iterator_list _) with (replicate 16 empty_iterator) in Hit.
  apply lookup_replicate in Hit as [-> _]. unfold entry_ok. simpl. by rewrite lookup_empty.
Qed.

Lemma emul_step_wf e e' : emul_step e e' -> emul_wf e -> emul_wf e'.
Proof.
  destruct 1; eauto using kv_store_wf, kv_retrieve_wf, kv_purge_wf, kv_delete_wf,
    kv_open_iterator_wf, kv_iterator_next_set_wf, kv_iterator_next_wf, kv_close_iterator_wf,
    kv_delete_group_wf.
  destruct h; simpl; auto with kv.
Qed.

#[export] Hint Resolve emul_init_wf emul_step_wf : kv.

(** ** Properties *)

(** C14.  Every state the emulator reaches by its operations is well formed:
    both maps are strictly sorted by [CmpEmulPrefix] with keys of 4 to 255
    bytes, and entry [i] of the iterator table is open exactly when handle
    [i + 1] exists, with the same key space, option and condition.  The callers are
    assumed to pass what the device layer checks (key space 0 or 1, keys of 4 to 255
    bytes and values of at most 2 MiB to store, 32-bit conditions), and to close no
    iterator handle above 16, which no layer checks: such a close writes outside the
    iterator table. *)
Theorem emulator_invariant e0 e :
  emul_init e0 -> rtc emul_step e0 e -> emul_wf e.
Proof. intros H0%emul_init_wf Hs. induction Hs; eauto with kv. Qed.

Definition k4 : list byte := [Byte.x61; Byte.x62; Byte.x63; Byte.x64].

Definition e_demo : kv_emulator :=
  kv_emulator_new (kv_history_new (repeat 0%nat 17) (repeat 0 17)) None 1000 false 1.

Lemma emulator_invariant_witness :
  emul_wf (kv_store 1 (mk_key k4) (mk_value [Byte.x01]) KV_STORE_OPT_DEFAULT 0 e_demo).2 /\
  ks_map 1 (kv_store 1 (mk_key k4) (mk_value [Byte.x01]) KV_STORE_OPT_DEFAULT 0 e_demo).2
    = [(k4, [Byte.x01])].
Proof.
  split; [|reflexivity]. apply (emulator_invariant e_demo).
  - do 5 eexists. reflexivity.
  - apply rtc_once. apply step_store; [split; [vm_compute; discriminate|reflexivity]| |].
    + split; [apply key_ok_mk|split; vm_compute; discriminate].
    + split; [apply value_ok_mk|vm_compute; discriminate].
Defined.

(**  Opening an iterator when fewer than sixteen are open and none has the
    same condition succeeds with the smallest unused id, starts at the masked
    bit pattern, and leaves every other iterator as it was. *)
Theorem open_iterator_fresh ks opt c fixed ih e :
  Z.of_nat (size (m_it_map e)) < SAMSUNG_MAX_ITERATORS ->
  find_open c (m_iterator_list e) = None ->
  exists id h e',
    kv_open_iterator ks opt (Some c) fixed (Some ih) e = (KV_SUCCESS, Some id, e') /\
    1 <= id <= SAMSUNG_MAX_ITERATORS /\ m_it_map e !! id = None /\
    (forall x, 1 <= x < id -> is_Some (m_it_map e !! x)) /\
    m_it_map e' = <[id := h]> (m_it_map e) /\ m_map e' = m_map e /\
    start_key h = int_le 4 (Z.land (gc_bit_pattern c) (gc_bitmask c)) /\
    ih_ksid h = ks /\ ih_it_op h = opt /\ ih_it_cond h = c /\ ih_end h = false.
Proof.
  intros Hsz Hno. destruct (next_itid_free _ Hsz) as (Hr & Hfree & Hmin).
  unfold kv_open_iterator. rewrite (proj2 (Z.leb_gt _ _) Hsz), Hno.
  eexists _, _, _. split; [reflexivity|]. do 3 (split; [done|]). split; [reflexivity|].
  by repeat split.
Qed.

Lemma open_iterator_fresh_witness :
  exists id h e',
    kv_open_iterator 1 0 (Some (KvGroupCondition 255 97)) false (Some 0) e_demo
      = (KV_SUCCESS, Some id, e') /\ m_it_map e' = <[id := h]> (m_it_map e_demo).
Proof.
  destruct (open_iterator_fresh 1 0 (KvGroupCondition 255 97) false 0 e_demo)
    as (id & h & e' & H1 & _ & _ & _ & H2 & _); [reflexivity|reflexivity|eauto].
Defined.
