(* ===== verification/EmulSpec.v ===== *)
(** * The emulator refines an abstract store

    The abstract store is a finite map per key space.  The basic operations of
    [kv_emulator.cpp] answer as the abstract ones do and keep the abstraction
    in step, for every sequence of commands.  The second part follows the
    count of available bytes through the operations. *)

From stdpp Require Import base numbers list gmap.
From S2P Require Import Prelude.
From S2P Require Import AdiTypes.
From S2P Require Import OrdMap.
From S2P Require Import History.
From S2P Require Import Emulator.
From S2P Require Import EmulInv.

(** ** Commands and answers *)

Inductive emul_op :=
| OStore (ks : Z) (key : kv_key) (value : kv_value) (opt : Z)
| ORetrieve (ks : Z) (key : kv_key) (opt : Z) (value : kv_value)
| ODelete (ks : Z) (key : kv_key) (opt : Z)
| OPurge (ks : Z) (opt : Z).

Inductive emul_resp :=
| RStore (r : kv_result) (consumed : Z)
| RRetrieve (r : kv_result) (value : kv_value)
| RDelete (r : kv_result) (recovered : Z)
| RPurge (r : kv_result).

(** Out parameters start at 0. *)
Definition emul_run (o : emul_op) (e : kv_emulator) : emul_resp * kv_emulator :=
  match o with
  | OStore ks key value opt =>
      let '(r, c, e') := kv_store ks key value opt 0 e in (RStore r c, e')
  | ORetrieve ks key opt value =>
      let '(r, v, e') := kv_retrieve ks key opt value e in (RRetrieve r v, e')
  | ODelete ks key opt =>
      let '(r, c, e') := kv_delete ks (Some key) opt (Some 0) e in (RDelete r (default 0 c), e')
  | OPurge ks opt => let '(r, e') := kv_purge ks opt e in (RPurge r, e')
  end.

Definition op_ok (o : emul_op) : Prop :=
  match o with
  | OStore ks key value _ => ks_ok ks /\ emul_key_ok key /\ emul_value_ok value
  | ORetrieve ks key _ value =>
      ks_ok ks /\ emul_key_ok key /\ 0 <= v_length value < 2 ^ 32 /\ 0 <= v_offset value < 2 ^ 32
  | ODelete ks key _ => ks_ok ks /\ emul_key_ok key
  | OPurge ks _ => ks_ok ks
  end.

(** ** The abstract store *)

Abbreviation bytes_map := (gmap (list byte) (list byte)).
Abbreviation astore := (list bytes_map).

Definition as_ks (ks : Z) (s : astore) : bytes_map := default ∅ (s !! Z.to_nat ks).
Definition as_update (ks : Z) (f : bytes_map -> bytes_map) (s : astore) : astore :=
  <[Z.to_nat ks := f (as_ks ks s)]> s.

Definition lenZ (l : list byte) : Z := Z.of_nat (length l).

(** What a read of [len] bytes from [off] on returns of a value [d]. *)
Definition slice (off len : Z) (d : list byte) : list byte :=
  take (Z.to_nat len) (drop (Z.to_nat off) d).

Definition spec_run (o : emul_op) (s : astore) : emul_resp * astore :=
  match o with
  | OStore ks key value opt =>
      let k := key_bytes key in
      let v := value_bytes value in
      if bool_decide (opt <> KV_STORE_OPT_DEFAULT /\ opt <> KV_STORE_OPT_IDEMPOTENT)
      then (RStore KV_ERR_OPTION_INVALID 0, s)
      else match as_ks ks s !! k with
           | Some _ =>
               if bool_decide (opt = KV_STORE_OPT_IDEMPOTENT)
               then (RStore KV_ERR_KEY_EXIST 0, s)
               else (RStore KV_SUCCESS (lenZ v), as_update ks <[k := v]> s)
           | None => (RStore KV_SUCCESS (lenZ k + lenZ v), as_update ks <[k := v]> s)
           end
  | ORetrieve ks key opt value =>
      if bool_decide (opt <> KV_RETRIEVE_OPT_DEFAULT)
      then (RRetrieve KV_ERR_OPTION_INVALID value, s)
      else match as_ks ks s !! key_bytes key with
           | None => (RRetrieve KV_ERR_KEY_NOT_EXIST value, s)
           | Some d =>
               let off := v_offset value in
               if bool_decide (off <> 0 /\ lenZ d <= off)
               then (RRetrieve KV_ERR_VALUE_OFFSET_INVALID value, s)
               else
                 let data := slice off (v_length value) d in
                 (RRetrieve (if bool_decide (v_length value < lenZ d - off)
                             then KV_ERR_BUFFER_SMALL else KV_SUCCESS)
                    (KvValue (memcpy_at 0 data <$> v_value value) (lenZ data) (lenZ d) off), s)
           end
  | ODelete ks key opt =>
      let k := key_bytes key in
      if bool_decide (opt <> KV_DELETE_OPT_DEFAULT /\ opt <> KV_DELETE_OPT_ERROR)
      then (RDelete KV_ERR_OPTION_INVALID 0, s)
      else match as_ks ks s !! k with
           | Some d => (RDelete KV_SUCCESS (lenZ k + lenZ d), as_update ks (delete k) s)
           | None => (RDelete (if bool_decide (opt = KV_DELETE_OPT_ERROR)
                               then KV_ERR_KEY_NOT_EXIST else KV_SUCCESS) 0, s)
           end
  | OPurge ks opt =>
      if bool_decide (opt <> KV_PURGE_OPT_DEFAULT)
      then (RPurge KV_ERR_OPTION_INVALID, s)
      else (RPurge KV_SUCCESS, as_update ks (fun _ => ∅) s)
  end.

(** Sequences of commands. *)
Fixpoint run_all {S} (run : emul_op -> S -> emul_resp * S) (os : list emul_op) (s : S)
    : list emul_resp * S :=
  match os with
  | [] => ([], s)
  | o :: os' => let '(r, s1) := run o s in
                let '(rs, s2) := run_all run os' s1 in (r :: rs, s2)
  end.

Definition map_of (m : emulator_map_t) : bytes_map := list_to_map m.
Definition abs (e : kv_emulator) : astore := map_of <$> m_map e.

(** ** Space *)

Definition pair_size (p : list byte * list byte) : Z := lenZ p.1 + lenZ p.2.
Definition map_used (m : emulator_map_t) : Z := foldr (fun p z => pair_size p + z) 0 m.
Definition used (e : kv_emulator) : Z := foldr (fun m z => map_used m + z) 0 (m_map e).

(** ** Updating one key space *)

Lemma as_ks_update ks f s :
  ks_ok ks -> length s = 2%nat -> as_ks ks (as_update ks f s) = f (as_ks ks s).
Proof.
  unfold ks_ok. intros Hk Hs. unfold as_update, as_ks at 1.
  by rewrite list_lookup_insert_eq by lia.
Qed.

Lemma as_update_compose ks f g s :
  ks_ok ks -> length s = 2%nat ->
  as_update ks g (as_update ks f s) = as_update ks (fun m => g (f m)) s.
Proof.
  intros Hk Hs. unfold as_update at 1. rewrite as_ks_update by done. unfold as_update.
  apply list_insert_insert_eq.
Qed.

Lemma as_update_id ks s : ks_ok ks -> length s = 2%nat -> as_update ks (fun _ => as_ks ks s) s = s.
Proof.
  intros Hks Hs. unfold as_update, as_ks. unfold ks_ok in Hks.
  apply list_insert_id.
  destruct (lookup_lt_is_Some_2 s (Z.to_nat ks)) as [m ->]; [lia|done].
Qed.

(** ** Refinement *)

Lemma as_ks_abs ks e : as_ks ks (abs e) = map_of (ks_map ks e).
Proof.
  unfold as_ks, abs, ks_map. rewrite list_lookup_fmap. by destruct (m_map e !! _).
Qed.

Lemma abs_find ks k e : as_ks ks (abs e) !! k = om_find CmpEmulPrefix k (ks_map ks e).
Proof. rewrite as_ks_abs. symmetry. apply om_find_map. Qed.

Lemma abs_update ks m f e e' :
  m_map e' = <[Z.to_nat ks := m]> (m_map e) -> map_of m = f (map_of (ks_map ks e)) ->
  abs e' = as_update ks f (abs e).
Proof.
  intros E1 E2. unfold as_update. rewrite as_ks_abs, <- E2. unfold abs. rewrite E1.
  apply list_fmap_insert.
Qed.

Lemma m_map_collect_stat t n e : m_map (collect_stat t n e) = m_map e.
Proof. unfold collect_stat. by case_match. Qed.

Lemma abs_m_map e e' : m_map e' = m_map e -> abs e' = abs e.
Proof. unfold abs. by intros ->. Qed.

Lemma kv_store_refines ks key value opt e :
  emul_wf e -> 0 < m_capacity e -> emul_key_ok key -> emul_value_ok value ->
  let '(resp, e') := emul_run (OStore ks key value opt) e in
  spec_run (OStore ks key value opt) (abs e) = (resp, abs e').
Proof.
  intros He Hcap [Hk Hkl] [Hv Hvl]. cbn [emul_run spec_run]. unfold kv_store.
  rewrite (proj2 (Z.leb_gt _ _) Hcap). cbn [andb]. rewrite abs_find.
  pose proof (proj1 (ks_map_wf ks e He)) as Hs. unfold lenZ. rewrite key_bytes_length, value_bytes_length by done.
  unfold value_ok in *.
  destruct (Z.eqb_spec opt 0), (Z.eqb_spec opt 2); try lia; cbn [negb andb];
    first [rewrite bool_decide_eq_false_2 by lia | rewrite bool_decide_eq_true_2 by lia]; try done;
    destruct (om_find _ _ _) as [old|] eqn:Hf.
  - rewrite bool_decide_eq_false_2 by done. f_equal. symmetry.
    eapply abs_update; [|by apply om_assign_map; eexists]. simpl. by rewrite m_map_collect_stat.
  - rewrite u32_small by lia. f_equal. symmetry.
    eapply abs_update; [|by apply om_emplace_map]. simpl. by rewrite m_map_collect_stat.
  - by rewrite bool_decide_eq_true_2.
  - rewrite u32_small by lia. f_equal. symmetry.
    eapply abs_update; [|by apply om_emplace_map]. simpl. by rewrite m_map_collect_stat.
Qed.

Lemma ks_map_value_len ks k d e :
  emul_wf e -> om_find CmpEmulPrefix k (ks_map ks e) = Some d -> val_len_ok d.
Proof.
  intros He Hf%om_find_Some_elem. destruct (ks_map_wf ks e He) as [_ Hall].
  rewrite Forall_forall in Hall. by apply (Hall _ Hf).
Qed.

Lemma slice_min off len d :
  0 <= off -> take (Z.to_nat (Z.min (lenZ d - off) len)) (drop (Z.to_nat off) d) = slice off len d.
Proof.
  intros Ho. unfold slice, lenZ. destruct (Z.min_spec (Z.of_nat (length d) - off) len) as [[? ->]|[? ->]]; [|done].
  by rewrite !take_ge by (rewrite length_drop; lia).
Qed.

Lemma lenZ_slice off len d :
  0 <= off <= lenZ d -> 0 <= len -> lenZ (slice off len d) = Z.min (lenZ d - off) len.
Proof. unfold lenZ, slice. intros. rewrite length_take, length_drop. lia. Qed.

Lemma kv_retrieve_refines ks key opt value e :
  emul_wf e -> op_ok (ORetrieve ks key opt value) ->
  let '(resp, e') := emul_run (ORetrieve ks key opt value) e in
  spec_run (ORetrieve ks key opt value) (abs e) = (resp, abs e').
Proof.
  intros He (Hks & Hk & Hl & Ho). cbn [emul_run spec_run]. unfold kv_retrieve.
  rewrite abs_find.
  case_bool_decide as Hopt; [by rewrite (proj2 (Z.eqb_neq _ _) Hopt)|].
  rewrite (proj2 (Z.eqb_eq opt 0)) by lia. cbn [negb].
  destruct (om_find _ _ _) as [d|] eqn:Hf; [|done].
  pose proof (ks_map_value_len _ _ _ _ He Hf) as Hd. unfold val_len_ok in Hd.
  fold (lenZ d) in *. assert (0 <= lenZ d) by (unfold lenZ; lia).
  rewrite (u32_small (lenZ d)) by lia.
  case_bool_decide as Hoff.
  - replace (negb (v_offset value =? 0) && (lenZ d <=? v_offset value)) with true by lia. done.
  - replace (negb (v_offset value =? 0) && (lenZ d <=? v_offset value)) with false by lia.
    rewrite (u32_small (lenZ d - v_offset value)) by lia.
    rewrite slice_min, lenZ_slice by lia. f_equal; [f_equal|].
    + case_bool_decide; case_match; done || lia.
    + symmetry. apply abs_m_map, m_map_collect_stat.
Qed.

Lemma kv_delete_refines ks key opt e :
  emul_wf e -> emul_key_ok key ->
  let '(resp, e') := emul_run (ODelete ks key opt) e in
  spec_run (ODelete ks key opt) (abs e) = (resp, abs e').
Proof.
  intros He Hk. cbn [emul_run spec_run]. unfold kv_delete.
  pose proof (emul_key_len _ Hk) as Hkl. destruct Hk as [(l & Hl & _) _].
  destruct key as [kb kl]. simpl in Hl. subst kb.
  rewrite abs_find.
  case_bool_decide as Hopt.
  - replace (negb (opt =? 0) && negb (opt =? 1)) with true by lia. done.
  - replace (negb (opt =? 0) && negb (opt =? 1)) with false by lia.
    destruct (om_find _ _ _) as [d|] eqn:Hf.
    + pose proof (ks_map_value_len _ _ _ _ He Hf) as Hd.
      unfold val_len_ok, key_len_ok in *.
      rewrite u32_small by lia. f_equal. symmetry. eapply abs_update; [done|].
      apply om_erase_map. apply (ks_map_wf ks e He).
    + case_bool_decide; destruct (Z.eqb_spec opt 1); done || lia.
Qed.

Lemma kv_purge_refines ks opt e :
  let '(resp, e') := emul_run (OPurge ks opt) e in
  spec_run (OPurge ks opt) (abs e) = (resp, abs e').
Proof.
  cbn [emul_run spec_run]. unfold kv_purge.
  case_bool_decide as Hopt.
  - by rewrite (proj2 (Z.eqb_neq _ _) Hopt).
  - rewrite (proj2 (Z.eqb_eq opt 0)) by lia. cbn [negb]. f_equal. symmetry. by eapply abs_update.
Qed.

Lemma emul_run_refines o e :
  emul_wf e -> 0 < m_capacity e -> op_ok o ->
  spec_run o (abs e) = ((emul_run o e).1, abs (emul_run o e).2).
Proof.
  intros He Hcap Hok.
  assert (H : let '(resp, e') := emul_run o e in spec_run o (abs e) = (resp, abs e')).
  { destruct o; [destruct Hok as (? & ? & ?); by apply kv_store_refines|by apply kv_retrieve_refines
      |destruct Hok; by apply kv_delete_refines|by apply kv_purge_refines]. }
  by destruct (emul_run o e).
Qed.

Lemma emul_run_keeps o e :
  emul_wf e -> op_ok o ->
  emul_wf (emul_run o e).2 /\ m_capacity (emul_run o e).2 = m_capacity e.
Proof.
  intros He Hok. destruct o as [ks key value opt|ks key opt value|ks key opt|ks opt]; cbn [emul_run].
  - destruct Hok as (_ & Hk & Hv). pose proof (kv_store_wf ks key value opt 0 e He Hk Hv) as H.
    split; [revert H; by destruct (kv_store _ _ _ _ _ _) as [[? ?] ?]|].
    unfold kv_store, collect_stat. by repeat (case_match; simplify_eq/=).
  - pose proof (kv_retrieve_wf ks key opt value e He) as H.
    split; [revert H; by destruct (kv_retrieve _ _ _ _ _) as [[? ?] ?]|].
    unfold kv_retrieve, collect_stat. by repeat (case_match; simplify_eq/=).
  - pose proof (kv_delete_wf ks (Some key) opt (Some 0) e He) as H.
    split; [revert H; by destruct (kv_delete _ _ _ _ _) as [[? ?] ?]|].
    unfold kv_delete. by repeat (case_match; simplify_eq/=).
  - pose proof (kv_purge_wf ks opt e He) as H.
    split; [revert H; by destruct (kv_purge _ _ _) as [? ?]|].
    unfold kv_purge. by repeat (case_match; simplify_eq/=).
Qed.

(** ** Space *)

Lemma map_used_Permutation m m' : m ≡ₚ m' -> map_used m = map_used m'.
Proof. induction 1; simpl; lia. Qed.

Lemma map_used_emplace k v m :
  om_find CmpEmulPrefix k m = None ->
  map_used (om_emplace CmpEmulPrefix k v m) = map_used m + lenZ k + lenZ v.
Proof.
  intros Hf. rewrite (map_used_Permutation _ _ (om_emplace_Permutation k v m Hf)). simpl.
  unfold pair_size. simpl. lia.
Qed.

Lemma map_used_erase k v m :
  om_find CmpEmulPrefix k m = Some v ->
  map_used (om_erase CmpEmulPrefix k m) = map_used m - lenZ k - lenZ v.
Proof.
  intros Hf. rewrite (map_used_Permutation _ _ (om_erase_Permutation k v m Hf)). simpl.
  unfold pair_size. simpl. lia.
Qed.

Lemma map_used_assign k v old m :
  om_find CmpEmulPrefix k m = Some old ->
  map_used (om_assign CmpEmulPrefix k v m) = map_used m - lenZ old + lenZ v.
Proof.
  induction m as [|[k' v'] m IH]; simpl; [done|]. destruct (equivb _ _ _).
  - intros [= ->]. simpl. unfold pair_size. simpl. lia.
  - intros Hf. simpl. rewrite IH by done. lia.
Qed.

Lemma used_insert ks m (ms : list emulator_map_t) :
  (Z.to_nat ks < length ms)%nat ->
  foldr (fun m z => map_used m + z) 0 (<[Z.to_nat ks := m]> ms) =
  foldr (fun m z => map_used m + z) 0 ms - map_used (default [] (ms !! Z.to_nat ks)) + map_used m.
Proof.
  generalize (Z.to_nat ks). induction ms as [|m' ms IH]; intros [|i] Hi; simpl in *; try lia.
  rewrite IH by lia. lia.
Qed.

Lemma used_update ks m e e' :
  emul_wf e -> ks_ok ks -> m_map e' = <[Z.to_nat ks := m]> (m_map e) ->
  used e' = used e - map_used (ks_map ks e) + map_used m.
Proof.
  intros He Hks E. unfold used. rewrite E. apply used_insert.
  rewrite (wf_maps e He). unfold ks_ok in Hks. lia.
Qed.

Lemma delete_group_loop_used c it m a :
  om_sorted CmpEmulPrefix m -> om_sorted CmpEmulPrefix it -> (forall p, p ∈ it -> p ∈ m) ->
  let '(m', a') := delete_group_loop c it m a in
  u64 (a' + map_used m') = u64 (a + map_used m).
Proof.
  revert m a. induction it as [|[k v] it IH]; intros m a Hm Hs Hin; simpl; [done|].
  destruct (negb _); [done|].
  assert (Hf : om_find CmpEmulPrefix k m = Some v) by (apply om_find_elem; set_solver).
  apply om_sorted_cons in Hs as [Hs Hlt]. specialize (IH (om_erase CmpEmulPrefix k m)
    (a +64 (Z.of_nat (length k) + Z.of_nat (length v)))).
  destruct (delete_group_loop _ _ _ _) as [m' a']. rewrite IH; [|by apply om_erase_sorted|done|].
  - rewrite (map_used_erase k v) by done. rewrite u64_add_l. f_equal. unfold lenZ. lia.
  - intros p Hp. assert (Hpm : p ∈ m) by set_solver.
    rewrite (om_erase_Permutation k v m Hf), elem_of_cons in Hpm.
    destruct Hpm as [->|]; [|done]. rewrite Forall_forall in Hlt.
    specialize (Hlt _ Hp). simpl in Hlt. by rewrite ltb_irrefl in Hlt.
Qed.

(** ** The bitmap of [kv_exist] *)

(** Bit [i] of a buffer. *)
Definition buffer_bit (buf : list byte) (i : nat) : bool :=
  Z.testbit (byteZ (default Byte.x00 (buf !! Nat.div i 8))) (Z.of_nat (Nat.modulo i 8)).

Lemma testbit_Zbyte z n : (n < 8)%nat -> Z.testbit (byteZ (Zbyte z)) (Z.of_nat n) = Z.testbit z (Z.of_nat n).
Proof. intros. rewrite byteZ_Zbyte. unfold u8. apply Z.mod_pow2_bits_low. lia. Qed.

Lemma buffer_bit_set pos buf i :
  (Nat.div pos 8 < length buf)%nat ->
  buffer_bit (alter (set_bit (pos - Nat.div pos 8 * 8)) (Nat.div pos 8) buf) i =
  bool_decide (i = pos) || buffer_bit buf i.
Proof.
  intros Hlen. pose proof (Nat.div_mod_eq pos 8) as Hp. pose proof (Nat.div_mod_eq i 8) as Hi.
  pose proof (Nat.mod_upper_bound i 8). pose proof (Nat.mod_upper_bound pos 8).
  unfold buffer_bit. destruct (decide (Nat.div pos 8 = Nat.div i 8)) as [E|E].
  - rewrite E, list_lookup_alter_eq. destruct (lookup_lt_is_Some_2 _ _ Hlen) as [b Hb].
    rewrite E in Hb. rewrite Hb.
    change (default Byte.x00 (set_bit ?o <$> Some b)) with (set_bit o b).
    change (default Byte.x00 (Some b)) with b. unfold set_bit.
    rewrite testbit_Zbyte, Z.lor_spec, orb_comm by lia. f_equal.
    rewrite Z.shiftl_spec by lia. case_bool_decide as Hd.
    + subst i. replace (_ - _) with 0 by lia. done.
    + destruct (decide (Nat.modulo i 8 < Nat.modulo pos 8)%nat).
      * apply Z.testbit_neg_r. lia.
      * change 1 with (2 ^ 0). apply Z.pow2_bits_false. lia.
  - rewrite list_lookup_alter_ne by done. rewrite bool_decide_eq_false_2; [done|].
    intros ->. done.
Qed.

Lemma length_kv_exist_loop m keys pos buf : length (kv_exist_loop m keys pos buf) = length buf.
Proof.
  revert pos buf. induction keys as [|key keys IH]; intros pos buf; simpl; [done|].
  rewrite IH. case_match; [apply length_alter|done].
Qed.

Lemma kv_exist_loop_bits m keys pos buf i :
  (pos + length keys <= 8 * length buf)%nat ->
  buffer_bit (kv_exist_loop m keys pos buf) i =
  match keys !! (i - pos)%nat with
  | Some key => if (pos <=? i)%nat
      then bool_decide (is_Some (om_find CmpEmulPrefix (key_bytes key) m)) || buffer_bit buf i
      else buffer_bit buf i
  | None => buffer_bit buf i
  end.
Proof.
  revert pos buf. induction keys as [|key keys IH]; intros pos buf Hlen; cbn [kv_exist_loop length] in *.
  - by rewrite lookup_nil.
  - assert (Hpos : (Nat.div pos 8 < length buf)%nat) by (apply Nat.Div0.div_lt_upper_bound; lia).
    rewrite IH by (case_match; rewrite ?length_alter; lia).
    set (buf' := match om_find _ _ _ with Some _ => _ | None => _ end).
    assert (Hb : buffer_bit buf' i = (bool_decide (i = pos) &&
      bool_decide (is_Some (om_find CmpEmulPrefix (key_bytes key) m))) || buffer_bit buf i).
    { unfold buf'. destruct (om_find _ _ _); [rewrite buffer_bit_set by done|];
        case_bool_decide; done. }
    rewrite Hb. clear Hb IH buf'. destruct (decide (i = pos)) as [->|Hne].
    + rewrite bool_decide_eq_true_2, Nat.sub_diag, Nat.leb_refl by done.
      destruct (Nat.leb_spec (S pos) pos); [lia|]. by destruct (keys !! (pos - S pos)%nat).
    + rewrite bool_decide_eq_false_2 by done. simpl andb.
      destruct (Nat.leb_spec pos i), (Nat.leb_spec (S pos) i); try lia.
      * replace (i - pos)%nat with (S (i - S pos)) by lia. done.
      * simpl. repeat case_match; done.
Qed.

Lemma buffer_bit_replicate n buf i :
  (i < 8 * n)%nat -> buffer_bit (memcpy_at 0 (replicate n Byte.x00) buf) i = false.
Proof.
  intros Hi. unfold buffer_bit, memcpy_at. rewrite take_0. simpl app.
  assert (Nat.div i 8 < n)%nat by (apply Nat.Div0.div_lt_upper_bound; lia).
  rewrite lookup_app_l by (by rewrite length_replicate).
  rewrite lookup_replicate_2 by done. simpl. apply Z.testbit_0_l.
Qed.

(** ** Properties *)


Definition demo_ops : list emul_op :=
  [OStore 1 (mk_key k4) (mk_value [Byte.x01; Byte.x02]) KV_STORE_OPT_DEFAULT;
   ORetrieve 1 (mk_key k4) KV_RETRIEVE_OPT_DEFAULT (mk_value [Byte.x00; Byte.x00])].




(** Space accounting of a store that succeeds: the sum of the available
    and of the used bytes is unchanged for a new key, but drops by twice the
    size of the old value on every overwrite. *)
Theorem store_space_accounting ks key value e :
  emul_wf e -> 0 < m_capacity e -> ks_ok ks -> emul_key_ok key -> emul_value_ok value ->
  let e' := (kv_store ks key value KV_STORE_OPT_DEFAULT 0 e).2 in
  let old := default [] (as_ks ks (abs e) !! key_bytes key) in
  u64 (m_available e' + used e') = u64 (m_available e + used e - 2 * lenZ old).
Proof.
  intros He Hcap Hks [Hk Hkl] [Hv Hvl]. rewrite abs_find. unfold kv_store.
  rewrite (proj2 (Z.leb_gt _ _) Hcap). simpl.
  pose proof (key_bytes_length _ Hk) as Hk'. pose proof (value_bytes_length _ Hv) as Hv'.
  destruct (om_find _ _ _) as [old|] eqn:Hf; simpl.
  - match goal with |- context [used ?x] => rewrite (used_update ks _ e x He Hks
      ltac:(simpl; rewrite m_map_collect_stat; reflexivity)) end.
    rewrite (map_used_assign _ _ old) by done. unfold collect_stat.
    unfold lenZ. case_match; simpl; rewrite u64_add_l, u64_add_sub_r; f_equal; lia.
  - match goal with |- context [used ?x] => rewrite (used_update ks _ e x He Hks
      ltac:(simpl; rewrite m_map_collect_stat; reflexivity)) end.
    rewrite map_used_emplace by done.
    unfold value_ok in *.
    rewrite u32_small by lia. unfold collect_stat, lenZ.
    case_match; simpl; rewrite u64_add_l; f_equal; lia.
Qed.

Lemma store_space_accounting_witness :
  let e := (kv_store 1 (mk_key k4) (mk_value [Byte.x01; Byte.x02; Byte.x03])
              KV_STORE_OPT_DEFAULT 0 e_demo).2 in
  let e' := (kv_store 1 (mk_key k4) (mk_value [Byte.x04]) KV_STORE_OPT_DEFAULT 0 e).2 in
  (m_available e = 993 /\ used e = 7) /\ (m_available e' = 989 /\ used e' = 5) /\
  u64 (m_available e' + used e') = u64 (m_available e + used e - 2 * 3).
Proof.
  intros e e'. split; [split; reflexivity|]. split; [split; reflexivity|].
  apply (store_space_accounting 1 (mk_key k4) (mk_value [Byte.x04]) e).
  - apply kv_store_wf; [apply emul_init_wf; do 5 eexists; reflexivity| |].
    + split; [apply key_ok_mk|split; vm_compute; discriminate].
    + split; [apply value_ok_mk|vm_compute; discriminate].
  - reflexivity.
  - split; vm_compute; congruence.
  - split; [apply key_ok_mk|split; vm_compute; discriminate].
  - split; [apply value_ok_mk|vm_compute; discriminate].
Defined.

(**  Deleting a key, and deleting a group, credit exactly the bytes they
    free: the sum of the available and of the used bytes does not change. *)
Theorem delete_space_accounting ks key opt r c e :
  emul_wf e -> ks_ok ks ->
  let e1 := (kv_delete ks key opt r e).2 in
  let e2 := (kv_delete_group ks c e).2 in
  u64 (m_available e1 + used e1) = u64 (m_available e + used e) /\
  u64 (m_available e2 + used e2) = u64 (m_available e + used e).
Proof.
  intros He Hks e1 e2. subst e1 e2. split.
  - unfold kv_delete. repeat case_match; simpl; try done.
    match goal with |- context [used ?x] => rewrite (used_update ks _ e x He Hks eq_refl) end.
    match goal with H : om_find _ _ _ = Some ?d |- _ =>
      rewrite (map_used_erase _ d) by done;
      pose proof (ks_map_value_len _ _ _ _ He H) as Hd; apply om_find_Some_elem in H as Hin end.
    destruct (ks_map_wf ks e He) as [_ Hall]. rewrite Forall_forall in Hall.
    destruct (Hall _ Hin) as [Hl _]. simpl in Hl.
    unfold val_len_ok, key_len_ok, lenZ in *.
    rewrite u32_small by lia. rewrite u64_add_l. f_equal; lia.
  - unfold kv_delete_group. destruct (ks_map_wf ks e He) as [Hs _].
    destruct (om_lower_bound_split (int_le 4 (Z.land (gc_bitmask c) (gc_bit_pattern c))) _ Hs)
      as (pre & Heq & _ & _).
    pose proof (delete_group_loop_used c
      (om_lower_bound CmpEmulPrefix (int_le 4 (Z.land (gc_bitmask c) (gc_bit_pattern c))) (ks_map ks e))
      (ks_map ks e) (m_available e) Hs) as HL.
    destruct (delete_group_loop _ _ _ _) as [m' a']. simpl.
    match goal with |- context [used ?x] => rewrite (used_update ks m' e x He Hks eq_refl) end.
    assert (Hu : u64 (a' + map_used m') = u64 (m_available e + map_used (ks_map ks e))).
    { apply HL; [rewrite Heq in Hs; by apply om_sorted_app_r in Hs|].
      intros p Hp. rewrite Heq. set_solver. }
    replace (a' + (used e - map_used (ks_map ks e) + map_used m'))
      with (a' + map_used m' + (used e - map_used (ks_map ks e))) by lia.
    rewrite <- u64_add_l, Hu, u64_add_l. f_equal; lia.
Qed.

Lemma delete_space_accounting_witness :
  let e := (kv_store 1 (mk_key k4) (mk_value [Byte.x01]) KV_STORE_OPT_DEFAULT 0 e_demo).2 in
  let e' := (kv_delete 1 (Some (mk_key k4)) KV_DELETE_OPT_DEFAULT None e).2 in
  m_available e = 995 /\ used e = 5 /\ used e' = 0 /\
  u64 (m_available e' + used e') = u64 (m_available e + used e).
Proof.
  intros e e'. do 3 (split; [reflexivity|]).
  apply (delete_space_accounting 1 (Some (mk_key k4)) KV_DELETE_OPT_DEFAULT None (KvGroupCondition 0 0) e).
  - apply kv_store_wf; [apply emul_init_wf; do 5 eexists; reflexivity| |].
    + split; [apply key_ok_mk|split; vm_compute; discriminate].
    + split; [apply value_ok_mk|vm_compute; discriminate].
  - split; vm_compute; congruence.
Defined.

(** C38.  A store of a new key (with the default or the no-overwrite option) on a
    well-formed emulator of non-zero capacity never fails for lack of space: a pair
    larger than the available space is stored all the same, the rest of the store is
    unchanged, and the available space wraps around modulo 2^64. *)
Theorem store_ignores_capacity ks key value opt e :
  emul_wf e -> 0 < m_capacity e -> emul_key_ok key -> emul_value_ok value ->
  opt = KV_STORE_OPT_DEFAULT \/ opt = KV_STORE_OPT_IDEMPOTENT ->
  as_ks ks (abs e) !! key_bytes key = None ->
  0 <= m_available e < k_length key + v_length value ->
  let '(r, _, e') := kv_store ks key value opt 0 e in
  r = KV_SUCCESS /\ abs e' = as_update ks <[key_bytes key := value_bytes value]> (abs e) /\
  m_available e' = m_available e - (k_length key + v_length value) + 2 ^ 64.
Proof.
  intros He Hcap Hk Hv Hopt Hf Hav. pose proof (kv_store_refines ks key value opt e He Hcap Hk Hv) as Hr.
  cbn [emul_run spec_run] in Hr. rewrite Hf, bool_decide_eq_false_2 in Hr by (destruct Hopt; lia).
  destruct (kv_store ks key value opt 0 e) as [[r c] e'] eqn:E. injection Hr as <- _ <-. split; [done|]. split; [done|].
  destruct Hk as [Hk Hkl], Hv as [Hv Hvl]. unfold kv_store in E. rewrite abs_find in Hf. unfold value_ok in *.
  rewrite (proj2 (Z.leb_gt _ _) Hcap), Hf in E. cbn [andb] in E. rewrite u32_small in E by lia.
  replace (negb (opt =? 0) && negb (opt =? 2)) with false in E by lia. injection E as _ <-. unfold collect_stat.
  case_match; simpl; unfold u64; symmetry; apply Z.mod_unique with (-1); lia.
Qed.

Lemma store_ignores_capacity_witness :
  let e := set_available 3 e_demo in
  let '(r, _, e') := kv_store 0 (mk_key k4) (mk_value []) KV_STORE_OPT_DEFAULT 0 e in
  r = KV_SUCCESS /\ abs e' = as_update 0 <[k4 := []]> (abs e) /\ m_available e' = 2 ^ 64 - 1.
Proof.
  apply (store_ignores_capacity 0 (mk_key k4) (mk_value []) KV_STORE_OPT_DEFAULT (set_available 3 e_demo)).
  - apply wf_set_available, emul_init_wf. do 5 eexists. reflexivity.
  - reflexivity.
  - split; [apply key_ok_mk|split; vm_compute; discriminate].
  - split; [apply value_ok_mk|vm_compute; discriminate].
  - left. reflexivity.
  - reflexivity.
  - split; vm_compute; congruence.
Defined.
