(* ===== verification/EmulIter.v ===== *)
(** * The iterators of the emulator

    One call of [kv_iterator_next_set] fills the caller's buffer with the next
    pairs of the walk; repeated calls enumerate the group.  The theorems give
    the effect of a call, the completeness of a whole iteration for conditions
    whose mask selects the most significant bits of the prefix word, and the
    cases where the iteration stops early or makes no progress. *)

From stdpp Require Import base numbers list gmap.
From S2P Require Import Prelude.
From S2P Require Import AdiTypes.
From S2P Require Import OrdMap.
From S2P Require Import History.
From S2P Require Import Emulator.
From S2P Require Import EmulInv.
From S2P Require Import EmulSpec.

(** ** What an iterator has left to visit *)

(** The test of the loop body: [bitmask] 0 means all keys. *)
Definition in_group (c : kv_group_condition) (p : list byte * list byte) : bool :=
  (gc_bitmask c =? 0) || cond_match c p.1.

Definition remaining (h : _kv_iterator_handle) (m : emulator_map_t) : emulator_map_t :=
  take_while (in_group (ih_it_cond h)) (om_lower_bound CmpEmulPrefix (start_key h) m).

Definition group_bytes (h : _kv_iterator_handle) (ps : emulator_map_t) : list byte :=
  concat (entry_bytes h <$> ps).

(** Calls of [kv_iterator_next_set] with buffers of [bs] bytes until [end] is
    set, at most [fuel] of them: the pieces written and whether the end was
    reached. *)
Fixpoint iterate (fuel : nat) (id : Z) (buf : list byte) (e : kv_emulator)
    : list (Z * list byte) * bool * kv_emulator :=
  match fuel with
  | O => ([], false, e)
  | S fuel' =>
      match kv_iterator_next_set id (Some (KvIteratorList 0 false (lenZ buf) buf)) e with
      | (KV_SUCCESS, Some il, e') =>
          let piece := (il_num_entries il, take (Z.to_nat (il_size il)) (il_it_list il)) in
          if il_end il then ([piece], true, e')
          else let '(ps, fin, e'') := iterate fuel' id buf e' in (piece :: ps, fin, e'')
      | _ => ([], false, e)
      end
  end.

(** Two handles that differ only in the position of their walk. *)
Definition same_walk (h h' : _kv_iterator_handle) : Prop :=
  same_iter h h' /\ ih_has_fixed_keylen h' = ih_has_fixed_keylen h.

(** A mask of the [32 - j] most significant bits of the prefix word. *)
Definition top_mask (j : Z) : Z := 2 ^ 32 - 2 ^ j.

(** ** One call *)

Lemma lenZ_app l1 l2 : lenZ (l1 ++ l2) = lenZ l1 + lenZ l2.
Proof. unfold lenZ. rewrite length_app. lia. Qed.

Lemma entry_size_bytes h p : lenZ (entry_bytes h p) = entry_size h p.
Proof.
  unfold entry_bytes, entry_size. rewrite !lenZ_app. unfold lenZ.
  destruct (ih_has_fixed_keylen h), (include_value h);
    rewrite ?length_app, ?length_int_le; simpl; lia.
Qed.

Lemma next_set_loop_spec h bs it out cnt pre :
  om_sorted CmpEmulPrefix (pre ++ it) -> lenZ out <= bs ->
  exists em rest,
    take_while (in_group (ih_it_cond h)) it = em ++ rest /\
    next_set_loop h bs it out cnt (pre ++ it) =
      (out ++ group_bytes h em, cnt + Z.of_nat (length em), fst <$> head rest,
       if delete_value h then pre ++ drop (length em) it else pre ++ it) /\
    lenZ (out ++ group_bytes h em) <= bs /\
    (forall p, head rest = Some p -> bs < lenZ (out ++ group_bytes h em) + entry_size h p).
Proof.
  revert out cnt pre. induction it as [|p it IH]; intros out cnt pre Hs Hout.
  - exists [], []. simpl. rewrite Z.add_0_r, !app_nil_r. by destruct (delete_value h).
  - cbn [next_set_loop take_while]. unfold in_group at 1.
    rewrite <- negb_orb. destruct ((_ =? 0) || cond_match _ _); cbn [negb].
    2: { exists [], []. simpl. rewrite Z.add_0_r, app_nil_r. by destruct (delete_value h). }
    fold (lenZ out). destruct (Z.ltb_spec bs (lenZ out + entry_size h p)) as [Hfull|Hfit].
    { exists [], (p :: take_while (in_group (ih_it_cond h)) it). simpl.
      rewrite Z.add_0_r, app_nil_r. repeat split; [by destruct (delete_value h)|done|].
      by intros ? [= <-]. }
    set (pre' := if delete_value h then pre else pre ++ [p]).
    assert (Hm : (if delete_value h then om_erase CmpEmulPrefix p.1 (pre ++ p :: it) else pre ++ p :: it)
                 = pre' ++ it).
    { unfold pre'. destruct (delete_value h); [destruct p; by apply om_erase_mid|].
      by rewrite <- app_assoc. }
    rewrite Hm. destruct (IH (out ++ entry_bytes h p) (cnt + 1) pre') as (em & rest & E1 & E2 & E3 & E4).
    { unfold pre'. destruct (delete_value h); [by eapply om_sorted_remove|by rewrite <- app_assoc]. }
    { rewrite lenZ_app, entry_size_bytes. done. }
    exists (p :: em), rest. rewrite E1, E2.
    change (group_bytes h (p :: em)) with (entry_bytes h p ++ group_bytes h em).
    rewrite app_assoc. split; [done|]. split; [|done].
    unfold pre'. destruct (delete_value h); f_equal; try (f_equal; f_equal; cbn [length]; lia).
    by rewrite <- app_assoc.
Qed.

Lemma ks_map_set ks m e :
  emul_wf e -> ks_ok ks -> ks_map ks (set_ks_map ks m e) = m.
Proof.
  intros He Hks. unfold ks_map, set_ks_map. simpl. rewrite list_lookup_insert_eq; [done|].
  rewrite (wf_maps e He). unfold ks_ok in Hks. lia.
Qed.

Lemma start_key_save k h : start_key (save_key k (Z.of_nat (length k)) h) = k.
Proof.
  unfold start_key, save_key. simpl. by rewrite Nat2Z.id, (take_ge k), take_memcpy_at.
Qed.

(** The walk resumes where a full buffer stopped it. *)
Lemma remaining_resume h em rest pre lb p :
  om_sorted CmpEmulPrefix (pre ++ lb) ->
  take_while (in_group (ih_it_cond h)) lb = em ++ rest -> head rest = Some p ->
  remaining (save_key p.1 (Z.of_nat (length p.1)) h)
    (if delete_value h then pre ++ drop (length em) lb else pre ++ lb) = rest.
Proof.
  intros Hs Htw Hhd. destruct (take_while_app_inv _ _ _ _ Htw) as (tl & -> & Htl).
  destruct rest as [|q rest]; [done|]. injection Hhd as ->.
  destruct (take_while_cons_inv _ _ _ _ Htl) as [tl' ->]. destruct p as [k v].
  unfold remaining. rewrite start_key_save. cbn [ih_it_cond save_key].
  rewrite drop_app_length. rewrite app_assoc in Hs |- *. destruct (delete_value h).
  - rewrite om_lower_bound_resume; [done|]. rewrite <- app_assoc in Hs.
    revert Hs. clear. induction em as [|q em IH]; simpl; [done|].
    intros Hs%om_sorted_remove. auto.
  - by rewrite om_lower_bound_resume.
Qed.

(** The effect of one call on a well-formed emulator. *)
Lemma next_set_call id h buf e :
  emul_wf e -> id <> 0 -> m_it_map e !! id = Some h ->
  exists em rest e',
    kv_iterator_next_set id (Some (KvIteratorList 0 false (lenZ buf) buf)) e =
      (KV_SUCCESS,
       Some (KvIteratorList (Z.of_nat (length em)) (bool_decide (rest = []))
               (lenZ (group_bytes h em)) (memcpy_at 0 (group_bytes h em) buf)), e') /\
    remaining h (ks_map (ih_ksid h) e) = em ++ rest /\
    lenZ (group_bytes h em) <= lenZ buf /\
    (forall p, head rest = Some p -> lenZ buf < lenZ (group_bytes h em) + entry_size h p) /\
    emul_wf e' /\
    (rest <> [] -> exists h', m_it_map e' !! id = Some h' /\ same_walk h h' /\
       remaining h' (ks_map (ih_ksid h) e') = rest) /\
    ks_map (ih_ksid h) e' =
      (if delete_value h
       then filter (fun p => p ∉ em) (ks_map (ih_ksid h) e) else ks_map (ih_ksid h) e) /\
    m_available e' = m_available e.
Proof.
  intros He Hid Hh. destruct (wf_handles e He id h Hh) as [_ (Hk1 & Hk2 & Hks & _)].
  pose proof (kv_iterator_next_set_wf id (Some (KvIteratorList 0 false (lenZ buf) buf)) e He) as Hwf.
  destruct (ks_map_wf (ih_ksid h) e He) as [Hs _].
  destruct (om_lower_bound_split (start_key h) _ Hs) as (pre & Heq & _ & _).
  unfold kv_iterator_next_set in *. rewrite (proj2 (Z.eqb_neq id 0) Hid), Hh in *. cbn [il_size] in *.
  set (lb := om_lower_bound CmpEmulPrefix (start_key h) (ks_map (ih_ksid h) e)) in *.
  rewrite Heq in Hs.
  destruct (next_set_loop_spec h (lenZ buf) lb [] 0 pre Hs) as (em & rest & E1 & E2 & E3 & E4);
    [unfold lenZ; simpl; lia|].
  assert (Hend : match fst <$> head rest with Some _ => false | None => true end
                 = bool_decide (rest = [])) by (by destruct rest).
  rewrite <- Heq in E2. rewrite E2, Hend in *. simpl in Hwf |- *. eexists em, rest, _. split; [reflexivity|].
  split; [done|]. split; [done|]. split; [done|]. split; [done|].
  set (m' := if delete_value h then _ else _).
  assert (Hm' : forall e2, m_map e2 = m_map (set_ks_map (ih_ksid h) m' e) -> ks_map (ih_ksid h) e2 = m').
  { intros e2 E. rewrite <- (ks_map_set (ih_ksid h) m' e He Hks). unfold ks_map. by rewrite E. }
  split; [|split].
  - intros Hrest. destruct rest as [|p rest]; [done|]. simpl. rewrite lookup_insert_eq.
    eexists. split; [reflexivity|]. split; [done|]. rewrite Hm' by done.
    unfold m'. rewrite Heq. by eapply remaining_resume.
  - rewrite Hm' by (by destruct rest). unfold m'. destruct (delete_value h); [|done]. rewrite Heq.
    destruct (take_while_app_inv _ _ _ _ E1) as (tl & -> & _). rewrite drop_app_length.
    apply om_sorted_NoDup, NoDup_fmap_1 in Hs. rewrite !filter_app.
    apply NoDup_app in Hs as (_ & H1 & Hs). apply NoDup_app in Hs as (_ & H2 & _).
    rewrite (filter_none _ em), !filter_all; [done|..]; apply Forall_forall; clear -H1 H2; set_solver.
  - by destruct rest.
Qed.

(** ** A whole iteration *)

Lemma same_walk_bytes h h' ps : same_walk h h' -> group_bytes h' ps = group_bytes h ps.
Proof.
  intros [(_ & E1 & _) E2]. unfold group_bytes. f_equal. apply list_fmap_ext. intros _ p _.
  unfold entry_bytes, include_value. by rewrite E1, E2.
Qed.

Lemma same_walk_delete h h' : same_walk h h' -> delete_value h' = delete_value h.
Proof. intros [(_ & E & _) _]. unfold delete_value. by rewrite E. Qed.

Lemma same_walk_size h h' p : same_walk h h' -> entry_size h' p = entry_size h p.
Proof.
  intros [(_ & E1 & _) E2]. unfold entry_size, include_value. by rewrite E1, E2.
Qed.

Lemma take_lenZ_memcpy g buf : take (Z.to_nat (lenZ g)) (memcpy_at 0 g buf) = g.
Proof. unfold lenZ. by rewrite Nat2Z.id, take_memcpy_at. Qed.

Lemma iterate_spec fuel id h buf e :
  emul_wf e -> id <> 0 -> m_it_map e !! id = Some h ->
  (forall p, p ∈ remaining h (ks_map (ih_ksid h) e) -> entry_size h p <= lenZ buf) ->
  (length (remaining h (ks_map (ih_ksid h) e)) < fuel)%nat ->
  let group := remaining h (ks_map (ih_ksid h) e) in
  let '(ps, fin, e') := iterate fuel id buf e in
  fin = true /\ concat (ps.*2) = group_bytes h group /\
  sumZ (ps.*1) = Z.of_nat (length group) /\
  ks_map (ih_ksid h) e' =
    (if delete_value h then filter (fun p => p ∉ group) (ks_map (ih_ksid h) e)
     else ks_map (ih_ksid h) e) /\
  m_available e' = m_available e.
Proof.
  revert h e. induction fuel as [|fuel IH]; intros h e He Hid Hh Hfit Hfuel; [lia|].
  destruct (next_set_call id h buf e He Hid Hh)
    as (em & rest & e1 & E1 & E2 & E3 & E4 & He1 & E5 & E6 & E7).
  cbn [iterate]. rewrite E1. cbn [il_num_entries il_size il_it_list il_end].
  rewrite take_lenZ_memcpy.
  destruct rest as [|p rest].
  - rewrite app_nil_r in E2. simpl. rewrite !app_nil_r, E2, Z.add_0_r. done.
  - rewrite bool_decide_eq_false_2 by done.
    destruct (E5 ltac:(done)) as (h' & Hh' & Hsame & Hrem).
    assert (Hks' : ih_ksid h' = ih_ksid h) by apply Hsame.
    assert (Hem : em <> []).
    { intros ->. specialize (E4 p eq_refl). specialize (Hfit p).
      rewrite E2 in Hfit. unfold lenZ in *. simpl in *. pose proof (Hfit ltac:(left)). lia. }
    rewrite E2, length_app in Hfuel.
    specialize (IH h' e1 He1 Hid Hh'). rewrite Hks', Hrem in IH.
    destruct (iterate fuel id buf e1) as [[ps fin] e2].
    destruct IH as (F1 & F2 & F3 & F4 & F5).
    + intros q Hq. rewrite (same_walk_size h h') by done. apply Hfit. rewrite E2. apply elem_of_app. by right.
    + destruct em; simpl in *; [done|lia].
    + split; [done|]. rewrite E2. cbn [fmap list_fmap concat fst snd].
      unfold group_bytes. rewrite fmap_app, concat_app. fold (group_bytes h em) (group_bytes h (p :: rest)).
      rewrite F2, (same_walk_bytes h h') by done. split; [done|]. split; [|split].
      * unfold sumZ in *. simpl. rewrite F3, length_app. simpl. lia.
      * rewrite F4, (same_walk_delete h h'), E6 by done. destruct (delete_value h); [|done].
        rewrite list_filter_filter. apply list_filter_iff. intros q. rewrite not_elem_of_app. tauto.
      * congruence.
Qed.

(** ** Groups that are intervals of the key order *)

Lemma testbit_top_mask j n :
  0 <= j <= 32 -> 0 <= n -> Z.testbit (top_mask j) n = (j <=? n) && (n <? 32).
Proof.
  intros Hj Hn. unfold top_mask.
  replace (2 ^ 32 - 2 ^ j) with (Z.shiftl (Z.ones (32 - j)) j).
  - rewrite Z.shiftl_spec by lia. destruct (Z.leb_spec j n); [|by apply Z.testbit_neg_r; lia].
    rewrite Z.testbit_ones by lia. destruct (Z.ltb_spec (n - j) (32 - j)), (Z.ltb_spec n 32); lia.
  - rewrite Z.shiftl_mul_pow2, Z.ones_equiv by lia.
    replace 32 with (32 - j + j) at 2 by lia. rewrite Z.pow_add_r by lia. lia.
Qed.

Lemma testbit_u32_high x n : 0 <= x < 2 ^ 32 -> 32 <= n -> Z.testbit x n = false.
Proof.
  intros Hx Hn. rewrite <- (Z.mod_small x (2 ^ 32)) by lia. apply Z.mod_pow2_bits_high. lia.
Qed.

(** Masking with the top bits rounds down to a multiple of [2 ^ j]. *)
Lemma land_top_mask x j :
  0 <= j <= 32 -> 0 <= x < 2 ^ 32 -> Z.land x (top_mask j) = x / 2 ^ j * 2 ^ j.
Proof.
  intros Hj Hx. rewrite <- Z.shiftl_mul_pow2, <- Z.shiftr_div_pow2 by lia.
  apply Z.bits_inj'. intros n Hn. rewrite Z.land_spec, testbit_top_mask, Z.shiftl_spec by lia.
  destruct (Z.leb_spec j n).
  - rewrite Z.shiftr_spec by lia. replace (n - j + j) with n by lia.
    destruct (Z.ltb_spec n 32); simpl; [by rewrite andb_true_r|].
    by rewrite testbit_u32_high.
  - simpl. rewrite andb_false_r. symmetry. apply Z.testbit_neg_r. lia.
Qed.

Lemma land_top_mask_range x j :
  0 <= j <= 32 -> 0 <= x < 2 ^ 32 -> 0 <= Z.land x (top_mask j) < 2 ^ 32.
Proof.
  intros Hj Hx. rewrite land_top_mask by done.
  pose proof (Z.pow_pos_nonneg 2 j). pose proof (Z.div_mod x (2 ^ j)).
  pose proof (Z.mod_pos_bound x (2 ^ j)). pose proof (Z.div_pos x (2 ^ j)). nia.
Qed.

Lemma key_prefix_range k : 0 <= key_prefix k < 2 ^ 32.
Proof.
  unfold key_prefix. pose proof (le_int_range (take 4 k)) as H.
  split; [lia|]. eapply Z.lt_le_trans; [apply H|].
  change (2 ^ 32) with (256 ^ 4). apply Z.pow_le_mono_r; [lia|]. rewrite length_take. lia.
Qed.

Lemma cond_match_top j pat p :
  0 <= j <= 32 -> 0 <= pat < 2 ^ 32 ->
  let c := KvGroupCondition (top_mask j) pat in
  let lo := Z.land pat (top_mask j) in
  in_group c p = true <-> lo <= key_prefix p.1 < lo + 2 ^ j.
Proof.
  intros Hj Hp c lo. unfold in_group, cond_match. cbn [c gc_bitmask gc_bit_pattern].
  unfold lo. rewrite !land_top_mask by (done || apply key_prefix_range).
  pose proof (key_prefix_range p.1) as Hk. set (x := key_prefix p.1) in *.
  pose proof (Z.pow_pos_nonneg 2 j).
  pose proof (Z.div_mod x (2 ^ j)). pose proof (Z.mod_pos_bound x (2 ^ j)).
  rewrite orb_true_iff, !Z.eqb_eq. split.
  - intros [Hz|He].
    + assert (Hj32 : 2 ^ j = 2 ^ 32) by (unfold top_mask in Hz; lia). rewrite Hj32 in *.
      rewrite (Z.div_small pat) by done. lia.
    + rewrite <- He. lia.
  - intros Hr. right. f_equal.
    symmetry. apply Z.div_unique with (x - pat / 2 ^ j * 2 ^ j); lia.
Qed.

Lemma CmpEmulPrefix_start k w :
  (4 <= length k)%nat -> 0 <= w < 2 ^ 32 -> CmpEmulPrefix k (int_le 4 w) = (key_prefix k <? w).
Proof.
  intros Hk Hw. unfold CmpEmulPrefix. rewrite (take_ge (int_le 4 w)), le_int_int_le
    by (rewrite ?length_int_le; done). fold (key_prefix k).
  destruct (Z.eqb_spec (key_prefix k) w) as [->|]; [|done].
  rewrite length_int_le, Z.ltb_irrefl. destruct (Nat.ltb_spec (length k) 4); [lia|].
  destruct (Nat.ltb_spec 4 (length k)); [done|].
  rewrite (drop_ge k), (drop_ge (int_le 4 w)) by (rewrite ?length_int_le; lia). done.
Qed.

Lemma CmpEmulPrefix_prefix a b : CmpEmulPrefix a b = true -> key_prefix a <= key_prefix b.
Proof.
  unfold CmpEmulPrefix, key_prefix. destruct (Z.eqb_spec (le_int (take 4 a)) (le_int (take 4 b))); lia.
Qed.

Lemma remaining_fresh h m j pat :
  map_wf m -> 0 <= j <= 32 -> 0 <= pat < 2 ^ 32 ->
  ih_it_cond h = KvGroupCondition (top_mask j) pat ->
  start_key h = int_le 4 (Z.land pat (top_mask j)) ->
  remaining h m = filter (fun p => in_group (ih_it_cond h) p = true) m.
Proof.
  intros [Hs Hk] Hj Hp Hc Hst. unfold remaining. rewrite Hst, Hc.
  set (lo := Z.land pat (top_mask j)).
  assert (Hlo : 0 <= lo < 2 ^ 32).
  { by apply land_top_mask_range. }
  destruct (om_lower_bound_split (int_le 4 lo) m Hs) as (pre & Heq & Hpre & Hpost).
  set (lb := om_lower_bound CmpEmulPrefix (int_le 4 lo) m) in *. rewrite Heq in Hs, Hk |- *.
  apply Forall_app in Hk as [Hk1 Hk2]. rewrite filter_app, (filter_none _ pre).
  - apply (take_while_sorted (fun p q => CmpEmulPrefix p.1 q.1 = true)).
    { by apply om_sorted_app_r in Hs. }
    intros p q Hin Hpq%CmpEmulPrefix_prefix. rewrite !(cond_match_top j pat) by done. fold lo.
    rewrite Forall_forall in Hpost, Hk2. specialize (Hpost p Hin). destruct (Hk2 p Hin) as [[Hl _] _].
    rewrite CmpEmulPrefix_start in Hpost by done. lia.
  - rewrite Forall_forall in Hpre, Hk1 |- *. intros p Hin Hg. specialize (Hpre p Hin).
    destruct (Hk1 p Hin) as [[Hl _] _]. rewrite CmpEmulPrefix_start in Hpre by done.
    rewrite (cond_match_top j pat) in Hg by done. fold lo in Hg. lia.
Qed.

(** ** Reading the buffer back *)

(** [n] entries <key_length, key> or <key_length, key, value_length, value>, as
    [kv_iterator_list] documents them. *)
Fixpoint parse_entries (n : nat) (with_value : bool) (buf : list byte)
    : list (list byte * list byte) :=
  match n with
  | O => []
  | S n' =>
      let klen := Z.to_nat (le_int (take 4 buf)) in
      let buf1 := drop 4 buf in
      let k := take klen buf1 in
      let buf2 := drop klen buf1 in
      if with_value then
        let vlen := Z.to_nat (le_int (take 4 buf2)) in
        let buf3 := drop 4 buf2 in
        (k, take vlen buf3) :: parse_entries n' with_value (drop vlen buf3)
      else (k, []) :: parse_entries n' with_value buf2
  end.

(** What the reader learns of a pair. *)
Definition visible (with_value : bool) (p : list byte * list byte) : list byte * list byte :=
  (p.1, if with_value then p.2 else []).

Lemma take_word n l : take 4 (int_le 4 n ++ l) = int_le 4 n.
Proof. rewrite <- (length_int_le 4 n) at 1. apply take_app_length. Qed.

Lemma drop_word n l : drop 4 (int_le 4 n ++ l) = l.
Proof. rewrite <- (length_int_le 4 n) at 1. apply drop_app_length. Qed.

Lemma len_word l : lenZ l < 2 ^ 32 -> Z.to_nat (le_int (int_le 4 (lenZ l))) = length l.
Proof.
  unfold lenZ. intros Hl. rewrite le_int_int_le; [apply Nat2Z.id|].
  change (256 ^ Z.of_nat 4) with (2 ^ 32). lia.
Qed.

(** Reading back ignores what follows the entries in the buffer. *)
Lemma parse_group_bytes_app h ps junk :
  ih_has_fixed_keylen h = false ->
  Forall (fun p => lenZ p.1 < 2 ^ 32 /\ lenZ p.2 < 2 ^ 32) ps ->
  parse_entries (length ps) (include_value h) (group_bytes h ps ++ junk)
    = visible (include_value h) <$> ps.
Proof.
  intros Hfix. induction 1 as [|[k v] ps [Hk Hv] _ IH]; [done|]. simpl in Hk, Hv.
  change (group_bytes h ((k, v) :: ps)) with (entry_bytes h (k, v) ++ group_bytes h ps).
  unfold entry_bytes. rewrite Hfix. cbn [fst snd length parse_entries].
  rewrite <- !app_assoc. fold (lenZ k). rewrite take_word, drop_word, len_word by done.
  rewrite take_app_length, drop_app_length. unfold visible at 1. cbn [fmap list_fmap fst snd].
  destruct (include_value h); [|simpl app; by rewrite IH].
  rewrite <- app_assoc. fold (lenZ v).
  rewrite take_word, drop_word, len_word, take_app_length, drop_app_length by done. by rewrite IH.
Qed.

Lemma open_iterator_effect ks opt c fixed ih e id e1 :
  kv_open_iterator ks opt (Some c) fixed (Some ih) e = (KV_SUCCESS, Some id, e1) ->
  exists h, m_it_map e1 = <[id := h]> (m_it_map e) /\ m_map e1 = m_map e /\
    start_key h = int_le 4 (Z.land (gc_bit_pattern c) (gc_bitmask c)) /\
    ih_ksid h = ks /\ ih_it_op h = opt /\ ih_it_cond h = c /\ ih_has_fixed_keylen h = fixed.
Proof.
  unfold kv_open_iterator. destruct (Z.leb _ _); [done|].
  destruct (find_open _ _); [done|]. intros [= <- <-].
  eexists. split; [reflexivity|]. by repeat split.
Qed.

(** ** Properties *)

(** C6.  Iterating a group whose mask selects the [32 - j] most significant
    bits of the prefix word (all keys for [j = 32], one exact prefix for
    [j = 0]), with a buffer in which every pair of the group fits (a larger pair
    is never returned, and the iteration never ends), and with nothing else done to
    the store meanwhile: it ends after at most one call more than there are pairs,
    and the pieces written are together the encoding of all the pairs of the group,
    each once, in key order; with [KV_ITERATOR_OPT_KV_WITH_DELETE] exactly those
    pairs are removed, otherwise the store is unchanged. *)
Theorem group_iteration_complete ks opt j pat fixed ih id buf fuel e e1 :
  emul_wf e -> ks_ok ks -> 0 <= j <= 32 -> 0 <= pat < 2 ^ 32 ->
  let c := KvGroupCondition (top_mask j) pat in
  kv_open_iterator ks opt (Some c) fixed (Some ih) e = (KV_SUCCESS, Some id, e1) ->
  forall h, m_it_map e1 !! id = Some h ->
  let group := filter (fun p => in_group c p = true) (ks_map ks e) in
  (forall p, p ∈ group -> entry_size h p <= lenZ buf) -> (length group < fuel)%nat ->
  let '(pieces, fin, e2) := iterate fuel id buf e1 in
  fin = true /\ concat (pieces.*2) = group_bytes h group /\
  sumZ (pieces.*1) = Z.of_nat (length group) /\
  ks_map ks e2 = (if opt =? KV_ITERATOR_OPT_KV_WITH_DELETE
                  then filter (fun p => p ∉ group) (ks_map ks e) else ks_map ks e).
Proof.
  intros He Hks Hj Hp c Hopen h Hh group Hfit Hfuel.
  pose proof (kv_open_iterator_wf ks opt (Some c) fixed (Some ih) e Hks) as Hwf.
  rewrite Hopen in Hwf. simpl in Hwf.
  assert (Hm0 : 0 <= top_mask j < 2 ^ 32).
  { unfold top_mask. pose proof (Z.pow_pos_nonneg 2 j). pose proof (Z.pow_le_mono_r 2 j 32). lia. }
  assert (He1 : emul_wf e1) by (apply Hwf; [intros ? [= <-]; by split|done]).
  destruct (wf_handles e1 He1 id h Hh) as [[Hid _] _].
  destruct (open_iterator_effect _ _ _ _ _ _ _ _ Hopen)
    as (h' & Him & Hmap & Hst & Hk & Hop & Hc & Hfx).
  rewrite Him, lookup_insert_eq in Hh. injection Hh as ->.
  assert (Hm : ks_map ks e1 = ks_map ks e) by (unfold ks_map; by rewrite Hmap).
  assert (Hrem : remaining h (ks_map (ih_ksid h) e1) = group).
  { rewrite Hk, Hm. subst group. rewrite (remaining_fresh h _ j pat); auto with kv. by rewrite Hc. }
  pose proof (iterate_spec fuel id h buf e1 He1 ltac:(lia)) as HI.
  rewrite Him, lookup_insert_eq, Hrem in HI. specialize (HI eq_refl Hfit Hfuel).
  destruct (iterate fuel id buf e1) as [[ps fin] e2]. destruct HI as (I1 & I2 & I3 & I4 & _).
  rewrite Hk, Hm in I4. unfold delete_value in I4. rewrite Hop in I4. done.
Qed.

Definition key_a : list byte := [Byte.x61; Byte.x00; Byte.x00; Byte.x01].
Definition key_b : list byte := [Byte.x62; Byte.x00; Byte.x00; Byte.x00].
Definition demo_key_ok (k : list byte) : bool := (4 <=? length k)%nat && (length k <=? 255)%nat.

(** A store with the two keys in key space 1. *)
Definition e_two : kv_emulator :=
  (kv_store 1 (mk_key key_b) (mk_value [Byte.x07]) KV_STORE_OPT_DEFAULT 0
    (kv_store 1 (mk_key key_a) (mk_value [Byte.x05; Byte.x06]) KV_STORE_OPT_DEFAULT 0 e_demo).2).2.

Lemma emul_key_ok_mk k : demo_key_ok k = true -> emul_key_ok (mk_key k).
Proof.
  unfold demo_key_ok. intros [H1%Nat.leb_le H2%Nat.leb_le]%andb_true_iff.
  split; [apply key_ok_mk|].
  unfold mk_key. cbn [k_length]. lia.
Qed.

Lemma e_two_wf : emul_wf e_two.
Proof.
  unfold e_two. apply kv_store_wf; [apply kv_store_wf| |].
  - apply emul_init_wf. by do 5 eexists.
  - by apply emul_key_ok_mk.
  - split; [apply value_ok_mk|done].
  - by apply emul_key_ok_mk.
  - split; [apply value_ok_mk|done].
Qed.

Lemma group_iteration_complete_witness :
  let '(_, _, e1) := kv_open_iterator 1 KV_ITERATOR_OPT_KEY
     (Some (KvGroupCondition (top_mask 32) 0)) false (Some 0) e_two in
  let '(pieces, fin, _) := iterate 3 1 (repeat Byte.x00 8) e1 in
  fin = true /\ concat (pieces.*2) = int_le 4 4 ++ key_b ++ int_le 4 4 ++ key_a.
Proof.
  destruct (kv_open_iterator 1 KV_ITERATOR_OPT_KEY
     (Some (KvGroupCondition (top_mask 32) 0)) false (Some 0) e_two) as [[r o] e1] eqn:E.
  assert (Hr : r = KV_SUCCESS /\ o = Some 1 /\ exists h, m_it_map e1 !! 1 = Some h /\
    ih_has_fixed_keylen h = false /\ ih_it_op h = 0).
  { injection E as <- <- <-. split; [reflexivity|]. split; [reflexivity|].
    eexists. split; [reflexivity|]. split; reflexivity. }
  destruct Hr as (-> & -> & h & Hh & Hf & Hop).
  pose proof (group_iteration_complete 1 KV_ITERATOR_OPT_KEY 32 0 false 0 1 (repeat Byte.x00 8) 3
    e_two e1 e_two_wf ltac:(split; vm_compute; congruence) ltac:(split; vm_compute; congruence)
    ltac:(split; vm_compute; congruence) E h Hh) as H.
  destruct (iterate 3 1 (repeat Byte.x00 8) e1) as [[pieces fin] e2].
  destruct H as (H1 & H2 & _).
  - intros p Hp. unfold entry_size, include_value. rewrite Hf, Hop. simpl.
    change (filter _ _) with [(key_b, [Byte.x07]); (key_a, [Byte.x05; Byte.x06])] in Hp.
    rewrite !elem_of_cons in Hp. destruct Hp as [->|[->|Hp]]; [vm_compute; congruence..|].
    by apply elem_of_nil in Hp.
  - apply Nat.ltb_lt. reflexivity.
  - split; [exact H1|]. rewrite H2. unfold group_bytes, entry_bytes, include_value.
    rewrite Hf, Hop. reflexivity.
Defined.

(** C33.  When the keys carry their lengths, the buffer of a successful call
    reads back as its first [num_entries] entries: a prefix of what the
    iterator had left, in order, with their values when the iterator asks for
    them; [end] says whether that was everything. *)
Theorem next_set_buffer_readable id h buf e :
  emul_wf e -> id <> 0 -> m_it_map e !! id = Some h -> ih_has_fixed_keylen h = false ->
  exists il e' n,
    kv_iterator_next_set id (Some (KvIteratorList 0 false (lenZ buf) buf)) e
      = (KV_SUCCESS, Some il, e') /\
    let left := remaining h (ks_map (ih_ksid h) e) in
    il_num_entries il = Z.of_nat n /\
    parse_entries n (include_value h) (il_it_list il) = visible (include_value h) <$> take n left /\
    il_end il = bool_decide (length left <= n)%nat /\ 0 <= il_size il <= lenZ buf.
Proof.
  intros He Hid Hh Hfix. destruct (next_set_call id h buf e He Hid Hh)
    as (em & rest & e' & E1 & E2 & E3 & _).
  eexists _, e', (length em). split; [exact E1|]. cbn [il_num_entries il_it_list il_end il_size].
  rewrite E2, take_app_length. split; [done|].
  assert (Hall : Forall (fun p => lenZ p.1 < 2 ^ 32 /\ lenZ p.2 < 2 ^ 32) em).
  { pose proof (ks_map_wf (ih_ksid h) e He) as [Hs Hk].
    destruct (om_lower_bound_split (start_key h) _ Hs) as (pre & Heq & _). rewrite Heq in Hk.
    destruct (take_while_app_inv _ _ _ _ E2) as (tl & Htl & _). rewrite Htl in Hk.
    apply Forall_app in Hk as [_ Hk]. apply Forall_app in Hk as [Hk _].
    eapply Forall_impl; [exact Hk|]. intros p [[? ?] ?].
    unfold val_len_ok, lenZ in *. lia. }
  split; [|split; [|unfold lenZ in *; lia]].
  - unfold memcpy_at. rewrite take_0. simpl app. by rewrite parse_group_bytes_app.
  - rewrite length_app. destruct rest; simpl;
      [rewrite bool_decide_eq_true_2 by lia|rewrite bool_decide_eq_false_2 by lia]; done.
Qed.

(** The store above with iterator 1 open on all keys with their values. *)
Definition e_two_open : kv_emulator :=
  (kv_open_iterator 1 KV_ITERATOR_OPT_KV (Some (KvGroupCondition 0 0)) false (Some 0) e_two).2.

Lemma e_two_open_wf : emul_wf e_two_open.
Proof.
  apply kv_open_iterator_wf; [by split| |apply e_two_wf]. intros ? [= <-]. by repeat split.
Qed.

Lemma next_set_buffer_readable_witness :
  exists il e', kv_iterator_next_set 1 (Some (KvIteratorList 0 false 20 (repeat Byte.x00 20))) e_two_open
    = (KV_SUCCESS, Some il, e') /\
  parse_entries 1 true (il_it_list il) = [(key_b, [Byte.x07])] /\ il_end il = false.
Proof.
  destruct (m_it_map e_two_open !! 1) as [h|] eqn:Eh; [|discriminate Eh].
  assert (Hh : ih_has_fixed_keylen h = false /\ include_value h = true /\
    remaining h (ks_map (ih_ksid h) e_two_open)
      = [(key_b, [Byte.x07]); (key_a, [Byte.x05; Byte.x06])])
    by (injection Eh as <-; repeat split).
  destruct Hh as (Hf & Hi & Hrem).
  destruct (next_set_buffer_readable 1 h (repeat Byte.x00 20) e_two_open e_two_open_wf
    ltac:(discriminate) Eh Hf) as (il & e' & n & H1 & H2 & H3 & H4 & _).
  exists il, e'. split; [exact H1|]. rewrite Hrem, Hi in *.
  assert (Hn : n = 1%nat).
  { apply Nat2Z.inj. rewrite <- H2. vm_compute in H1. injection H1 as <- _. reflexivity. }
  subst n. split; [exact H3|exact H4].
Defined.

(** An iteration with a mask that leaves out the most significant bits
    of the prefix word can end without visiting a matching key: with keys
    [61 00 00 01] and [62 00 00 00] stored, iterating the keys that start with
    byte 61 (mask FF, pattern 61) returns nothing and reports the end. *)
Theorem partial_prefix_iteration_misses :
  let c := KvGroupCondition 255 97 in
  filter (fun p => in_group c p = true) (ks_map 1 e_two) = [(key_a, [Byte.x05; Byte.x06])] /\
  let e1 := (kv_open_iterator 1 KV_ITERATOR_OPT_KEY (Some c) false (Some 0) e_two).2 in
  exists il e2,
    kv_iterator_next_set 1 (Some (KvIteratorList 0 false 64 (repeat Byte.x00 64))) e1
      = (KV_SUCCESS, Some il, e2) /\ il_num_entries il = 0 /\ il_end il = true.
Proof.
  split; [reflexivity|]. eexists _, _. split; [reflexivity|]. split; reflexivity.
Qed.

(** A pair that is larger than the caller's buffer stops the iteration:
    every further call succeeds with no entries and [end] unset, so the loop
    of calls never ends. *)
Theorem oversized_entry_livelock id h buf e fuel p ps :
  emul_wf e -> id <> 0 -> m_it_map e !! id = Some h ->
  remaining h (ks_map (ih_ksid h) e) = p :: ps -> lenZ buf < entry_size h p ->
  let '(pieces, fin, _) := iterate fuel id buf e in
  fin = false /\ length pieces = fuel /\ Forall (fun q => q = (0, [])) pieces.
Proof.
  intros He Hid. revert h e He. induction fuel as [|fuel IH]; intros h e He Hh Hrem Hbig; [done|].
  destruct (next_set_call id h buf e He Hid Hh)
    as (em & rest & e1 & E1 & E2 & E3 & E4 & He1 & E5 & E6 & E7).
  cbn [iterate]. rewrite E1. cbn [il_num_entries il_size il_it_list il_end].
  rewrite take_lenZ_memcpy. rewrite Hrem in E2.
  destruct em as [|q em].
  - simpl in E2. subst rest. destruct (E5 ltac:(done)) as (h' & Hh' & Hsame & Hrem').
    assert (Hks : ih_ksid h' = ih_ksid h) by apply Hsame.
    specialize (IH h' e1 He1 Hh'). rewrite Hks, (same_walk_size h h' p) in IH by done.
    specialize (IH Hrem' Hbig). rewrite bool_decide_eq_false_2 by done.
    destruct (iterate fuel id buf e1) as [[pieces fin] e2]. destruct IH as (I1 & I2 & I3).
    split; [done|]. split; [by rewrite <- I2|]. by constructor.
  - injection E2 as <- E2.
    change (group_bytes h (p :: em)) with (entry_bytes h p ++ group_bytes h em) in E3.
    rewrite lenZ_app, entry_size_bytes in E3. unfold lenZ in E3 at 1. unfold lenZ in *. lia.
Qed.

Lemma oversized_entry_livelock_witness :
  let '(pieces, fin, _) := iterate 5 1 [Byte.x00] e_two_open in
  fin = false /\ length pieces = 5%nat /\ Forall (fun q => q = (0, [])) pieces.
Proof.
  destruct (m_it_map e_two_open !! 1) as [h|] eqn:Eh; [|discriminate Eh].
  apply (oversized_entry_livelock 1 h [Byte.x00] e_two_open 5 (key_b, [Byte.x07])
    [(key_a, [Byte.x05; Byte.x06])] e_two_open_wf ltac:(discriminate) Eh);
    injection Eh as <-; reflexivity.
Defined.

(** ** Deleting a group *)

(** The test of [kv_delete_group]. *)
Definition delete_test (c : kv_group_condition) (p : list byte * list byte) : bool :=
  Z.land (Z.land (key_prefix p.1) (gc_bitmask c)) (gc_bit_pattern c)
    =? Z.land (gc_bitmask c) (gc_bit_pattern c).

Lemma delete_group_loop_spec c it pre a :
  om_sorted CmpEmulPrefix (pre ++ it) ->
  exists tl, it = take_while (delete_test c) it ++ tl /\
    (delete_group_loop c it (pre ++ it) a).1 = pre ++ tl /\
    (forall p tl', tl = p :: tl' -> delete_test c p = false).
Proof.
  revert a. induction it as [|[k v] it IH]; intros a Hs; [by exists []|].
  cbn [delete_group_loop take_while]. unfold delete_test at 1 3. cbn [fst].
  destruct (Z.eqb_spec (Z.land (Z.land (key_prefix k) (gc_bitmask c)) (gc_bit_pattern c))
    (Z.land (gc_bitmask c) (gc_bit_pattern c))) as [E|E]; cbn [negb].
  - rewrite om_erase_mid by done. apply om_sorted_remove in Hs.
    destruct (IH (a +64 (Z.of_nat (length k) + Z.of_nat (length v))) Hs) as (tl & E1 & E2 & E3).
    exists tl. split; [simpl; by rewrite <- E1|]. by split.
  - exists ((k, v) :: it). split; [done|]. split; [done|]. intros p tl' [= <- <-].
    by apply Z.eqb_neq.
Qed.

Lemma in_group_delete_test j pat p :
  0 <= j <= 32 -> 0 <= pat < 2 ^ 32 ->
  let c := KvGroupCondition (top_mask j) pat in
  in_group c p = true -> delete_test c p = true.
Proof.
  intros Hj Hp c. unfold in_group, delete_test, cond_match. cbn [c gc_bitmask gc_bit_pattern].
  rewrite orb_true_iff, !Z.eqb_eq. intros [->| ->].
  - by rewrite !Z.land_0_r, !Z.land_0_l.
  - rewrite (Z.land_comm pat), <- Z.land_assoc, Z.land_diag. done.
Qed.

(** C37.  [kv_delete_group] on a group whose mask selects the most significant
    bits of the prefix word leaves no pair of that group, and keeps every pair
    whose masked prefix does not contain the bits of the pattern. *)
Theorem delete_group_removes ks j pat e :
  emul_wf e -> ks_ok ks -> 0 <= j <= 32 -> 0 <= pat < 2 ^ 32 ->
  let c := KvGroupCondition (top_mask j) pat in
  let '(r, e') := kv_delete_group ks c e in
  r = KV_SUCCESS /\
  filter (fun p => in_group c p = true) (ks_map ks e') = [] /\
  filter (fun p => delete_test c p = false) (ks_map ks e') =
    filter (fun p => delete_test c p = false) (ks_map ks e).
Proof.
  intros He Hks Hj Hp c. destruct (ks_map_wf ks e He) as [Hs Hk].
  unfold kv_delete_group. cbn [c gc_bitmask gc_bit_pattern]. rewrite (Z.land_comm (top_mask j)).
  set (lo := Z.land pat (top_mask j)). set (m := ks_map ks e) in *.
  assert (Hlo : 0 <= lo < 2 ^ 32) by (by apply land_top_mask_range).
  destruct (om_lower_bound_split (int_le 4 lo) m Hs) as (pre & Heq & Hpre & Hpost).
  set (lb := om_lower_bound CmpEmulPrefix (int_le 4 lo) m) in *. rewrite Heq in Hs, Hk.
  destruct (delete_group_loop_spec c lb pre (m_available e) Hs) as (tl & E1 & E2 & E3).
  rewrite <- Heq in E2. fold c. destruct (delete_group_loop c lb m (m_available e)) as [m' a'].
  simpl in E2. subst m'. split; [done|].
  assert (Hm : ks_map ks (set_available a' (set_ks_map ks (pre ++ tl) e)) = pre ++ tl)
    by (by apply (ks_map_set ks _ e)).
  rewrite Hm. split.
  - apply filter_none, Forall_app. apply Forall_app in Hk as [Hk1 Hk2]. split.
    + rewrite Forall_forall in Hpre, Hk1 |- *. intros p Hin Hg. specialize (Hpre p Hin).
      destruct (Hk1 p Hin) as [[Hl _] _]. rewrite CmpEmulPrefix_start in Hpre by done.
      apply (cond_match_top j pat p Hj Hp) in Hg. fold lo in Hg. lia.
    + destruct tl as [|q tl]; [done|]. specialize (E3 q tl eq_refl).
      assert (Hq : in_group c q <> true)
        by (intros Hg; apply (in_group_delete_test j pat q Hj Hp) in Hg; fold c in Hg; congruence).
      rewrite E1, app_assoc in Hs. apply om_sorted_app_r, om_sorted_cons in Hs as [_ Hs].
      constructor; [done|]. rewrite E1 in Hpost, Hk2.
      apply Forall_app in Hpost as [_ [Hpq _]%Forall_cons].
      apply Forall_app in Hk2 as [_ [[[Hl _] _] _]%Forall_cons].
      rewrite CmpEmulPrefix_start in Hpq by done.
      eapply Forall_impl; [exact Hs|]. intros y Hy%CmpEmulPrefix_prefix Hg. apply Hq.
      apply (cond_match_top j pat y Hj Hp) in Hg. apply (cond_match_top j pat q Hj Hp).
      fold lo in Hg |- *. lia.
  - rewrite Heq, E1, !filter_app. f_equal. rewrite (filter_none _ (take_while _ _)); [done|].
    clear. induction lb as [|p lb IH]; simpl; [done|].
    destruct (delete_test c p) eqn:E; constructor; [congruence|done].
Qed.

Lemma delete_group_removes_witness :
  let '(r, e') := kv_delete_group 1 (KvGroupCondition (top_mask 0) 98) e_two in
  r = KV_SUCCESS /\
  filter (fun p => in_group (KvGroupCondition (top_mask 0) 98) p = true) (ks_map 1 e') = [] /\
  ks_map 1 e' = [(key_a, [Byte.x05; Byte.x06])].
Proof.
  pose proof (delete_group_removes 1 0 98 e_two e_two_wf ltac:(split; vm_compute; congruence)
    ltac:(split; vm_compute; congruence) ltac:(split; vm_compute; congruence)) as H.
  destruct H as (H1 & H2 & _). exact (conj H1 (conj H2 eq_refl)).
Defined.

(** [kv_delete_group] also deletes pairs outside the group: with the full
    mask and the pattern 62, the key with prefix 63 that follows in key order
    is deleted too, because the test keeps only the bits of the pattern. *)
Theorem delete_group_overdeletes :
  let c := KvGroupCondition (top_mask 0) 98 in
  let k := [Byte.x63; Byte.x00; Byte.x00; Byte.x00] in
  let e := (kv_store 1 (mk_key k) (mk_value []) KV_STORE_OPT_DEFAULT 0 e_two).2 in
  in_group c (k, []) = false /\
  om_find CmpEmulPrefix k (ks_map 1 e) = Some [] /\
  om_find CmpEmulPrefix k (ks_map 1 (kv_delete_group 1 c e).2) = None.
Proof. split; [reflexivity|]. split; reflexivity. Qed.

(** ** Iterating one pair at a time *)

Lemma in_group_masked c p :
  Z.land (gc_bit_pattern c) (gc_bitmask c) = gc_bit_pattern c ->
  in_group c p = (Z.land (key_prefix p.1) (gc_bitmask c) =? gc_bit_pattern c).
Proof.
  intros E. unfold in_group, cond_match. rewrite E.
  destruct (Z.eqb_spec (gc_bitmask c) 0) as [Hz|]; [|done].
  rewrite Hz, Z.land_0_r in *. rewrite <- E. done.
Qed.

Lemma lower_bound_sorted_split h (m : emulator_map_t) :
  om_sorted CmpEmulPrefix m -> exists pre,
    m = pre ++ om_lower_bound CmpEmulPrefix (start_key h) m.
Proof. intros Hs. destruct (om_lower_bound_split (start_key h) m Hs) as (pre & ? & _). eauto. Qed.

(** [kv_iterator_next], with a pattern inside its mask, room for the
    value, and keys of one length, returns the first pair the iterator has
    left, and leaves the iterator with the others; when the walk reaches the end of the map
    the iterator is marked as ended. *)
Theorem iterator_next_returns id h kbuf klen vbuf vlen va vo e k v rest :
  emul_wf e -> id <> 0 -> m_it_map e !! id = Some h -> ih_end h = false ->
  Z.land (gc_bit_pattern (ih_it_cond h)) (gc_bitmask (ih_it_cond h)) = gc_bit_pattern (ih_it_cond h) ->
  remaining h (ks_map (ih_ksid h) e) = (k, v) :: rest ->
  (forall p, p ∈ ks_map (ih_ksid h) e -> length p.1 = length k) ->
  (include_value h = true -> lenZ v <= vlen) ->
  exists key' value' e' h',
    kv_iterator_next id (Some (KvKey (Some kbuf) klen)) (Some (KvValue (Some vbuf) vlen va vo)) e
      = (KV_SUCCESS, Some key', Some value', e') /\
    key_bytes key' = k /\
    (include_value h = true -> value_bytes value' = v) /\
    m_it_map e' !! id = Some h' /\
    (if ih_end h' then rest = [] else remaining h' (ks_map (ih_ksid h) e') = rest).
Proof.
  intros He Hid Hh Hend Hmask Hrem Hlen Hroom.
  destruct (wf_handles e He id h Hh) as [_ (_ & _ & Hks & _)].
  destruct (ks_map_wf (ih_ksid h) e He) as [Hs Hk]. set (m := ks_map (ih_ksid h) e) in *.
  destruct (lower_bound_sorted_split h m Hs) as [pre Heq].
  unfold remaining in Hrem. destruct (take_while_cons_inv _ _ _ _ Hrem) as [it' Hlb].
  rewrite Hlb in Heq, Hrem. simpl in Hrem.
  destruct (in_group (ih_it_cond h) (k, v)) eqn:Hg; [|done]. injection Hrem as Hrest.
  rewrite in_group_masked in Hg by done. simpl in Hg.
  unfold kv_iterator_next. rewrite (proj2 (Z.eqb_neq id 0) Hid), Hh, Hend. fold m. rewrite Hlb, Hg.
  rewrite Forall_forall in Hk. destruct (Hk (k, v)) as [[_ Hk255] _]; [rewrite Heq; clear; set_solver|].
  simpl in Hk255. assert (Hu : u16 (Z.of_nat (length k)) = Z.of_nat (length k))
    by (unfold u16; apply Z.mod_small; lia).
  rewrite Hu, Z.ltb_irrefl. cbn [negb].
  assert (Hr : include_value h && (vlen <? Z.of_nat (length v)) = false).
  { destruct (include_value h); [|done]. specialize (Hroom eq_refl). unfold lenZ in Hroom. simpl. lia. }
  rewrite Hr. rewrite Heq in Hs.
  assert (Herase : om_erase CmpEmulPrefix k m = pre ++ it') by (rewrite Heq; by apply om_erase_mid).
  destruct it' as [|[k2 v2] it''].
  - eexists _, _, _, (set_end h). split; [reflexivity|]. cbn [m_it_map set_is_eof set_iterator_list].
    split; [unfold key_bytes; simpl; by rewrite Nat2Z.id, take_memcpy_at|].
    split; [intros ->; unfold value_bytes; simpl; by rewrite Nat2Z.id, take_memcpy_at|].
    split; [simpl; apply lookup_insert_eq|by rewrite <- Hrest].
  - eexists _, _, _, (save_key k2 (Z.of_nat (length k)) h). split; [reflexivity|].
    split; [unfold key_bytes; simpl; by rewrite Nat2Z.id, take_memcpy_at|].
    split; [intros ->; unfold value_bytes; simpl; by rewrite Nat2Z.id, take_memcpy_at|].
    split; [simpl; apply lookup_insert_eq|]. cbn [ih_end save_key]. rewrite Hend.
    assert (Hl2 : length k2 = length k) by (apply (Hlen (k2, v2)); rewrite Heq; clear; set_solver).
    rewrite <- Hl2. unfold remaining. rewrite start_key_save. cbn [ih_it_cond save_key].
    match goal with |- context [ks_map _ ?x] => assert (Hm' : ks_map (ih_ksid h) x =
      if delete_value h then pre ++ (k2, v2) :: it'' else m) end.
    { destruct (delete_value h); [|done]. rewrite <- Herase. by apply (ks_map_set (ih_ksid h) _ e). }
    rewrite Hm'. destruct (delete_value h).
    + apply om_sorted_remove in Hs. by rewrite om_lower_bound_resume.
    + rewrite Heq. change (pre ++ (k, v) :: (k2, v2) :: it'')
        with (pre ++ [(k, v)] ++ (k2, v2) :: it'') in *. rewrite app_assoc in *.
      by rewrite om_lower_bound_resume.
Qed.

Lemma iterator_next_returns_witness :
  exists key' value' e',
    kv_iterator_next 1 (Some (mk_key (repeat Byte.x00 8)))
      (Some (mk_value (repeat Byte.x00 8))) e_two_open = (KV_SUCCESS, Some key', Some value', e') /\
    key_bytes key' = key_b /\ value_bytes value' = [Byte.x07].
Proof.
  destruct (m_it_map e_two_open !! 1) as [h|] eqn:Eh; [|discriminate Eh].
  assert (Hh : ih_end h = false /\ include_value h = true /\
    ih_it_cond h = KvGroupCondition 0 0 /\ ks_map (ih_ksid h) e_two_open = ks_map 1 e_two /\
    remaining h (ks_map (ih_ksid h) e_two_open)
      = [(key_b, [Byte.x07]); (key_a, [Byte.x05; Byte.x06])])
    by (injection Eh as <-; repeat split).
  destruct Hh as (H1 & H2 & H3 & H4 & H5).
  destruct (iterator_next_returns 1 h (repeat Byte.x00 8) 8 (repeat Byte.x00 8) 8 0 0 e_two_open
    key_b [Byte.x07] [(key_a, [Byte.x05; Byte.x06])] e_two_open_wf ltac:(discriminate) Eh H1)
    as (key' & value' & e' & h' & E1 & E2 & E3 & _).
  - rewrite H3. reflexivity.
  - exact H5.
  - intros p Hp. rewrite H4 in Hp.
    change (ks_map 1 e_two) with [(key_b, [Byte.x07]); (key_a, [Byte.x05; Byte.x06])] in Hp.
    rewrite !elem_of_cons in Hp. destruct Hp as [->|[->|Hp]]; [reflexivity..|].
    by apply elem_of_nil in Hp.
  - intros _. vm_compute. congruence.
  - exists key', value', e'. split; [exact E1|]. split; [exact E2|]. exact (E3 H2).
Defined.

(**  [kv_iterator_next] compares the masked prefix with the unmasked
    pattern: with a pattern that has bits outside its mask it never returns a
    pair, whatever the store holds, while [kv_iterator_next_set] masks both
    sides. *)
Theorem iterator_next_unmasked_pattern id h key value e :
  m_it_map e !! id = Some h ->
  Z.land (gc_bit_pattern (ih_it_cond h)) (gc_bitmask (ih_it_cond h)) <> gc_bit_pattern (ih_it_cond h) ->
  let '(_, key', value', e') := kv_iterator_next id key value e in
  key' = key /\ value' = value /\ m_map e' = m_map e.
Proof.
  intros Hh Hne. unfold kv_iterator_next.
  destruct key as [[[kbuf|] klen]|]; try done. destruct value as [[[vbuf|] vl va vo]|]; try done.
  destruct (id =? 0); [done|]. rewrite Hh. destruct (ih_end h); [done|].
  destruct (om_lower_bound _ _ _) as [|[k v] it']; [done|].
  destruct (Z.eqb_spec (Z.land (key_prefix k) (gc_bitmask (ih_it_cond h)))
    (gc_bit_pattern (ih_it_cond h))) as [E|]; [|done].
  exfalso. apply Hne. rewrite <- E at 1. rewrite <- Z.land_assoc, Z.land_diag. done.
Qed.

Lemma iterator_next_unmasked_pattern_witness :
  let e1 := (kv_open_iterator 1 KV_ITERATOR_OPT_KEY
    (Some (KvGroupCondition 255 (256 + 98))) false (Some 0) e_two).2 in
  let '(_, key', value', e') :=
    kv_iterator_next 1 (Some (mk_key (repeat Byte.x00 8))) (Some (mk_value [])) e1 in
  key' = Some (mk_key (repeat Byte.x00 8)) /\ value' = Some (mk_value []) /\ m_map e' = m_map e1.
Proof.
  intros e1. destruct (m_it_map e1 !! 1) as [h|] eqn:Eh; [|discriminate Eh].
  apply (iterator_next_unmasked_pattern 1 h _ _ e1 Eh). injection Eh as <-. discriminate.
Defined.
