(* ===== verification/DeviceApi.v ===== *)
(** * The interface of a key-value store

    [class kv_device_api] of [include/private/kvs_adi_internal.h]: what a
    namespace asks of the store behind it.  The class [KvDeviceApi] holds the
    operations and [KvDeviceApiLaws] what they promise: an invariant they keep
    under the contract of their callers.  Instances: the emulator, the no-op
    emulator of [kv_emulator.hpp], and the switchable store of a namespace. *)

From stdpp Require Import base numbers list gmap.
From S2P Require Import Prelude.
From S2P Require Import AdiTypes.
From S2P Require Import Emulator.
From S2P Require Import EmulInv.

Class KvDeviceApi (S : Type) := {
  api_store : Z -> kv_key -> kv_value -> Z -> Z -> S -> kv_result * Z * S;
  api_retrieve : Z -> kv_key -> Z -> kv_value -> S -> kv_result * kv_value * S;
  api_exist : Z -> list kv_key -> list byte -> Z -> S -> kv_result * list byte * Z;
  api_purge : Z -> Z -> S -> kv_result * S;
  api_delete : Z -> option kv_key -> Z -> option Z -> S -> kv_result * option Z * S;
  api_open_iterator : Z -> Z -> option kv_group_condition -> bool -> option Z -> S ->
    kv_result * option Z * S;
  api_close_iterator : Z -> S -> kv_result * S;
  api_iterator_next_set : Z -> option kv_iterator_list -> S ->
    kv_result * option kv_iterator_list * S;
  api_iterator_next : Z -> option kv_key -> option kv_value -> S ->
    kv_result * option kv_key * option kv_value * S;
  api_list_iterators : option (list kv_iterator) -> option Z -> S ->
    kv_result * option (list kv_iterator) * option Z * bool;
  api_delete_group : Z -> kv_group_condition -> S -> kv_result * S;
  api_get_total_capacity : S -> Z;
  api_get_available : S -> Z
}.

(** ** [class kv_emulator] *)

#[export] Instance kv_emulator_api : KvDeviceApi kv_emulator := {|
  api_store := kv_store;
  api_retrieve := kv_retrieve;
  api_exist := kv_exist;
  api_purge := kv_purge;
  api_delete := kv_delete;
  api_open_iterator := kv_open_iterator;
  api_close_iterator := kv_close_iterator;
  api_iterator_next_set := kv_iterator_next_set;
  api_iterator_next := kv_iterator_next;
  api_list_iterators := kv_list_iterators;
  api_delete_group := kv_delete_group;
  api_get_total_capacity := get_total_capacity;
  api_get_available := get_available
|}.

(** ** [class kv_noop_emulator]: every operation succeeds and does nothing. *)

Inductive kv_noop_emulator : Set := NoopEmulator.

#[export] Instance kv_noop_api : KvDeviceApi kv_noop_emulator := {|
  api_store _ _ _ _ c s := (KV_SUCCESS, c, s);
  api_retrieve _ _ _ v s := (KV_SUCCESS, v, s);
  api_exist _ _ b n _ := (KV_SUCCESS, b, n);
  api_purge _ _ s := (KV_SUCCESS, s);
  api_delete _ _ _ r s := (KV_SUCCESS, r, s);
  api_open_iterator _ _ _ _ ih s := (KV_SUCCESS, ih, s);
  api_close_iterator _ s := (KV_SUCCESS, s);
  api_iterator_next_set _ il s := (KV_SUCCESS, il, s);
  api_iterator_next _ k v s := (KV_SUCCESS, k, v, s);
  api_list_iterators l c _ := (KV_SUCCESS, l, c, false);
  api_delete_group _ _ s := (KV_SUCCESS, s);
  api_get_total_capacity _ := u64 (-1);
  api_get_available _ := u64 (-1)
|}.

(** ** The store of a namespace

    [m_kvstore] points to [m_emul] or to [m_dummy]. *)

Record kvstore := KvStore {
  m_emul : kv_emulator;
  m_dummy : kv_noop_emulator;
  use_dummy : bool
}.

Section dispatch.
Context {A : Type}.

(** A call through the pointer; [f] and [g] return the state last. *)
Definition on_kvstore (f : kv_emulator -> A * kv_emulator)
    (g : kv_noop_emulator -> A * kv_noop_emulator) (s : kvstore) : A * kvstore :=
  if use_dummy s then let '(a, d) := g (m_dummy s) in (a, KvStore (m_emul s) d true)
  else let '(a, e) := f (m_emul s) in (a, KvStore e (m_dummy s) false).

(** A call that does not change the state. *)
Definition read_kvstore (f : kv_emulator -> A) (g : kv_noop_emulator -> A) (s : kvstore) : A :=
  if use_dummy s then g (m_dummy s) else f (m_emul s).
End dispatch.

#[export] Instance kvstore_api : KvDeviceApi kvstore := {|
  api_store ks k v o c := on_kvstore (api_store ks k v o c) (api_store ks k v o c);
  api_retrieve ks k o v := on_kvstore (api_retrieve ks k o v) (api_retrieve ks k o v);
  api_exist ks ks' b n := read_kvstore (api_exist ks ks' b n) (api_exist ks ks' b n);
  api_purge ks o := on_kvstore (api_purge ks o) (api_purge ks o);
  api_delete ks k o r := on_kvstore (api_delete ks k o r) (api_delete ks k o r);
  api_open_iterator ks o c f ih :=
    on_kvstore (api_open_iterator ks o c f ih) (api_open_iterator ks o c f ih);
  api_close_iterator id := on_kvstore (api_close_iterator id) (api_close_iterator id);
  api_iterator_next_set id il :=
    on_kvstore (api_iterator_next_set id il) (api_iterator_next_set id il);
  api_iterator_next id k v := on_kvstore (api_iterator_next id k v) (api_iterator_next id k v);
  api_list_iterators l c := read_kvstore (api_list_iterators l c) (api_list_iterators l c);
  api_delete_group ks c := on_kvstore (api_delete_group ks c) (api_delete_group ks c);
  api_get_total_capacity := read_kvstore api_get_total_capacity api_get_total_capacity;
  api_get_available := read_kvstore api_get_available api_get_available
|}.

(** ** Laws *)

Class KvDeviceApiLaws (S : Type) `{!KvDeviceApi S} := {
  api_wf : S -> Prop;
  api_store_wf ks k v o c s :
    api_wf s -> ks_ok ks -> emul_key_ok k -> emul_value_ok v -> api_wf (api_store ks k v o c s).2;
  api_retrieve_wf ks k o v s : api_wf s -> api_wf (api_retrieve ks k o v s).2;
  api_purge_wf ks o s : api_wf s -> ks_ok ks -> api_wf (api_purge ks o s).2;
  api_delete_wf ks k o r s : api_wf s -> ks_ok ks -> api_wf (api_delete ks k o r s).2;
  api_open_wf ks o c f ih s :
    api_wf s -> ks_ok ks -> (forall c', c = Some c' -> cond_ok c') ->
    api_wf (api_open_iterator ks o c f ih s).2;
  api_close_wf id s : api_wf s -> id <= SAMSUNG_MAX_ITERATORS -> api_wf (api_close_iterator id s).2;
  api_next_set_wf id il s : api_wf s -> api_wf (api_iterator_next_set id il s).2;
  api_next_wf id k v s : api_wf s -> api_wf (api_iterator_next id k v s).2;
  api_delete_group_wf ks c s : api_wf s -> ks_ok ks -> api_wf (api_delete_group ks c s).2
}.

#[export] Instance kv_emulator_laws : KvDeviceApiLaws kv_emulator.
Proof.
  refine {| api_wf := emul_wf |}; intros; simpl;
    auto using kv_store_wf, kv_retrieve_wf, kv_purge_wf, kv_delete_wf, kv_open_iterator_wf,
      kv_close_iterator_wf, kv_iterator_next_set_wf, kv_iterator_next_wf, kv_delete_group_wf.
Defined.

#[export] Instance kv_noop_laws : KvDeviceApiLaws kv_noop_emulator.
Proof. by refine {| api_wf := fun _ => True |}. Defined.

Lemma on_kvstore_wf {A} (f : kv_emulator -> A * kv_emulator) g s :
  emul_wf (m_emul s) -> emul_wf (f (m_emul s)).2 -> emul_wf (m_emul (on_kvstore f g s).2).
Proof.
  intros H1 H2. unfold on_kvstore. destruct (use_dummy s).
  - by destruct (g (m_dummy s)).
  - by destruct (f (m_emul s)).
Qed.

#[export] Instance kvstore_laws : KvDeviceApiLaws kvstore.
Proof.
  refine {| api_wf := fun s => emul_wf (m_emul s) |}; intros; simpl; apply on_kvstore_wf;
    auto using kv_store_wf, kv_retrieve_wf, kv_purge_wf, kv_delete_wf, kv_open_iterator_wf,
      kv_close_iterator_wf, kv_iterator_next_set_wf, kv_iterator_next_wf, kv_delete_group_wf.
Defined.

#[export] Hint Resolve api_store_wf api_retrieve_wf api_purge_wf api_delete_wf api_open_wf
  api_close_wf api_next_set_wf api_next_wf api_delete_group_wf : kv.
