(* ===== verification/Namespace.v ===== *)
(** * Namespaces

    [emulator/src/kv_namespace.cpp]: a namespace checks its arguments, passes
    the operation on to its store and keeps the space statistics.  The
    operations are defined and proved against the interface [KvDeviceApi], so
    they hold for any store. *)

From stdpp Require Import base numbers list gmap.
From S2P Require Import Prelude.
From S2P Require Import AdiTypes.
From S2P Require Import History.
From S2P Require Import Emulator.
From S2P Require Import EmulInv.
From S2P Require Import DeviceApi.

(** ** [class kv_namespace_internal] *)

Record kv_namespace_internal (S : Type) := KvNamespaceInternal {
  m_kvstore : S;
  ns_nsid : Z;
  m_ns_info : kv_namespace;
  m_ns_stat : kv_namespace_stat;
  m_purging_in_progress : bool
}.

Arguments KvNamespaceInternal {S}.
Arguments m_kvstore {S}.
Arguments ns_nsid {S}.
Arguments m_ns_info {S}.
Arguments m_ns_stat {S}.
Arguments m_purging_in_progress {S}.

(** [ks_id < SAMSUNG_MIN_KEYSPACE_ID || ks_id >= SAMSUNG_MAX_KEYSPACE_CNT] *)
Definition ks_id_invalid (ks_id : Z) : bool :=
  (ks_id <? SAMSUNG_MIN_KEYSPACE_ID) || (SAMSUNG_MAX_KEYSPACE_CNT <=? ks_id).

Section namespace.
Context {S : Type} `{!KvDeviceApi S}.
Implicit Types (n : kv_namespace_internal S).

Definition ns_set_store (s : S) n : kv_namespace_internal S :=
  KvNamespaceInternal s (ns_nsid n) (m_ns_info n) (m_ns_stat n) (m_purging_in_progress n).
Definition ns_set_stat (st : kv_namespace_stat) n : kv_namespace_internal S :=
  KvNamespaceInternal (m_kvstore n) (ns_nsid n) (m_ns_info n) st (m_purging_in_progress n).

Definition set_purge_in_progress (b : bool) n : kv_namespace_internal S :=
  KvNamespaceInternal (m_kvstore n) (ns_nsid n) (m_ns_info n) (m_ns_stat n) b.

(** [m_ns_stat.unallocated_capacity = u] *)
Definition set_unallocated (u : Z) (st : kv_namespace_stat) : kv_namespace_stat :=
  KvNamespaceStat (nst_nsid st) (nst_attached st) (nst_capacity st) u.

(** The constructor, given the information of the namespace and its new store.
    [purging] is what the uninitialised [m_purging_in_progress] happens to hold. *)
Definition kv_namespace_new (purging : bool) (nsid : Z) (ns : kv_namespace) (store : S)
    : kv_namespace_internal S :=
  KvNamespaceInternal store nsid ns
    (KvNamespaceStat nsid true (n_capacity ns) (n_capacity ns)) purging.

Definition ns_kv_get_namespace_info (nsinfo : option kv_namespace) n : kv_result * option kv_namespace :=
  match nsinfo with
  | None => (KV_ERR_PARAM_INVALID, None)
  | Some _ => (KV_SUCCESS, Some (m_ns_info n))
  end.

Definition ns_kv_get_namespace_stat (ns_st : option kv_namespace_stat) n
    : kv_result * option kv_namespace_stat * kv_namespace_internal S :=
  match ns_st with
  | None => (KV_ERR_PARAM_INVALID, None, n)
  | Some _ =>
      let st := set_unallocated (api_get_available (m_kvstore n)) (m_ns_stat n) in
      (KV_SUCCESS, Some st, ns_set_stat st n)
  end.

(** The flag is set before the key space is checked, as in the code. *)
Definition ns_kv_purge (ks_id opt : Z) n : kv_result * kv_namespace_internal S :=
  let n := set_purge_in_progress true n in
  if ks_id_invalid ks_id then (KV_ERR_KEYSPACE_INVALID, n)
  else
    let '(res, s) := api_purge ks_id opt (m_kvstore n) in
    let n := ns_set_store s n in
    let n := if is_success res
             then ns_set_stat (set_unallocated (nst_capacity (m_ns_stat n)) (m_ns_stat n)) n
             else n in
    (res, set_purge_in_progress false n).

Definition ns_kv_store (ks_id : Z) (key : option kv_key) (value : option kv_value) (opt : Z)
    (consumed_bytes : Z) n : kv_result * Z * kv_namespace_internal S :=
  match key, value with
  | Some key, Some value =>
      if ks_id_invalid ks_id then (KV_ERR_KEYSPACE_INVALID, consumed_bytes, n)
      else
        let '(res, c, s) := api_store ks_id key value opt consumed_bytes (m_kvstore n) in
        let n := ns_set_store s n in
        let n := if is_success res
                 then ns_set_stat (set_unallocated
                        (nst_unallocated_capacity (m_ns_stat n) -64 c) (m_ns_stat n)) n
                 else n in
        (res, c, n)
  | _, _ => (KV_ERR_PARAM_INVALID, consumed_bytes, n)
  end.

(** [recovered_bytes] is [None] where the caller passes [NULL]. *)
Definition ns_kv_delete (ks_id : Z) (key : option kv_key) (opt : Z) (recovered_bytes : option Z) n
    : kv_result * option Z * kv_namespace_internal S :=
  match key with
  | None => (KV_ERR_PARAM_INVALID, recovered_bytes, n)
  | Some _ =>
      if ks_id_invalid ks_id then (KV_ERR_KEYSPACE_INVALID, recovered_bytes, n)
      else
        let '(res, r, s) := api_delete ks_id key opt recovered_bytes (m_kvstore n) in
        let n := ns_set_store s n in
        match r with
        | Some c =>
            let n := if is_success res
                     then ns_set_stat (set_unallocated
                            (nst_unallocated_capacity (m_ns_stat n) +64 c) (m_ns_stat n)) n
                     else n in
            (res, r, n)
        | None => (res, r, n)
        end
  end.

Definition ns_kv_exist (ks_id : Z) (key : option (list kv_key)) (value : option (list byte))
    (valuesize : Z) n : kv_result * option (list byte) * Z :=
  match key, value with
  | Some keys, Some buf =>
      if ks_id_invalid ks_id then (KV_ERR_KEYSPACE_INVALID, value, valuesize)
      else let '(res, buf', size') := api_exist ks_id keys buf valuesize (m_kvstore n) in
           (res, Some buf', size')
  | _, _ => (KV_ERR_PARAM_INVALID, value, valuesize)
  end.

Definition ns_kv_retrieve (ks_id : Z) (key : option kv_key) (opt : Z) (value : option kv_value) n
    : kv_result * option kv_value * kv_namespace_internal S :=
  match key, value with
  | Some key, Some v =>
      if ks_id_invalid ks_id then (KV_ERR_KEYSPACE_INVALID, value, n)
      else let '(res, v', s) := api_retrieve ks_id key opt v (m_kvstore n) in
           (res, Some v', ns_set_store s n)
  | _, _ => (KV_ERR_PARAM_INVALID, value, n)
  end.

(** [keylen_fixed] is [m_dev->is_keylen_fixed()]. *)
Definition ns_kv_open_iterator (keylen_fixed : bool) (ks_id it_op : Z)
    (it_cond : option kv_group_condition) (iter_hdl : option Z) n
    : kv_result * option Z * kv_namespace_internal S :=
  match iter_hdl, it_cond with
  | Some _, Some _ =>
      if ks_id_invalid ks_id then (KV_ERR_KEYSPACE_INVALID, iter_hdl, n)
      else let '(res, ih, s) :=
             api_open_iterator ks_id it_op it_cond keylen_fixed iter_hdl (m_kvstore n) in
           (res, ih, ns_set_store s n)
  | _, _ => (KV_ERR_PARAM_INVALID, iter_hdl, n)
  end.

Definition ns_kv_close_iterator (iter_hdl : Z) n : kv_result * kv_namespace_internal S :=
  let '(res, s) := api_close_iterator iter_hdl (m_kvstore n) in (res, ns_set_store s n).

Definition ns_kv_iterator_next_set (iter_hdl : Z) (iter_list : option kv_iterator_list) n
    : kv_result * option kv_iterator_list * kv_namespace_internal S :=
  match iter_list with
  | None => (KV_ERR_PARAM_INVALID, iter_list, n)
  | Some _ =>
      if iter_hdl =? 0 then (KV_ERR_PARAM_INVALID, iter_list, n)
      else let '(res, il, s) := api_iterator_next_set iter_hdl iter_list (m_kvstore n) in
           (res, il, ns_set_store s n)
  end.

Definition ns_kv_iterator_next (iter_hdl : Z) (key : option kv_key) (value : option kv_value) n
    : kv_result * option kv_key * option kv_value * kv_namespace_internal S :=
  match key, value with
  | Some _, Some _ =>
      if iter_hdl =? 0 then (KV_ERR_PARAM_INVALID, key, value, n)
      else let '(res, k, v, s) := api_iterator_next iter_hdl key value (m_kvstore n) in
           (res, k, v, ns_set_store s n)
  | _, _ => (KV_ERR_PARAM_INVALID, key, value, n)
  end.

(** The last component is whether the store completed the command itself. *)
Definition ns_kv_list_iterators (kv_iters : option (list kv_iterator)) (iter_cnt : option Z) n
    : kv_result * option (list kv_iterator) * option Z * bool :=
  match kv_iters, iter_cnt with
  | Some _, Some _ => api_list_iterators kv_iters iter_cnt (m_kvstore n)
  | _, _ => (KV_ERR_PARAM_INVALID, kv_iters, iter_cnt, false)
  end.

Definition ns_kv_delete_group (ks_id : Z) (grp_cond : option kv_group_condition) n
    : kv_result * kv_namespace_internal S :=
  match grp_cond with
  | None => (KV_ERR_PARAM_INVALID, n)
  | Some c =>
      if ks_id_invalid ks_id then (KV_ERR_KEYSPACE_INVALID, n)
      else let '(res, s) := api_delete_group ks_id c (m_kvstore n) in (res, ns_set_store s n)
  end.

Definition ns_get_total_capacity n : Z := api_get_total_capacity (m_kvstore n).
Definition ns_get_available n : Z := api_get_available (m_kvstore n).

Definition get_consumed_space n : Z * kv_namespace_internal S :=
  let capacity := api_get_total_capacity (m_kvstore n) in
  let available := api_get_available (m_kvstore n) in
  let st := m_ns_stat n in
  (capacity -64 available,
   ns_set_stat (KvNamespaceStat (nst_nsid st) (nst_attached st) capacity available) n).
End namespace.

(** Only an emulated namespace can be switched to the no-op store. *)
Definition swap_device (usedummy : bool) (n : kv_namespace_internal kvstore)
    : kv_namespace_internal kvstore :=
  ns_set_store (KvStore (m_emul (m_kvstore n)) (m_dummy (m_kvstore n)) usedummy) n.
