(* ===== verification/IoCmd.v ===== *)
(** * Commands

    [emulator/src/io_cmd.cpp] and the command structures of [kvs_adi.h]: a
    command carries an operation code with its arguments, the result fields
    and the completion callback; [execute_cmd] runs it on a namespace.

    The union of argument structures and the operation code that selects its
    member are one inductive type, [op_command]. *)

From stdpp Require Import base numbers list gmap.
From S2P Require Import Prelude.
From S2P Require Import AdiTypes.
From S2P Require Import EmulInv.
From S2P Require Import DeviceApi.
From S2P Require Import Namespace.

(** ** [cmd_opcode_t] *)

Abbreviation KV_OPC_FLUSH := 0%Z (only parsing).
Abbreviation KV_OPC_GET := 1%Z (only parsing).
Abbreviation KV_OPC_STORE := 2%Z (only parsing).
Abbreviation KV_OPC_DELETE := 3%Z (only parsing).
Abbreviation KV_OPC_PURGE := 4%Z (only parsing).
Abbreviation KV_OPC_CHECK_KEY_EXIST := 6%Z (only parsing).
Abbreviation KV_OPC_OPEN_ITERATOR := 7%Z (only parsing).
Abbreviation KV_OPC_CLOSE_ITERATOR := 8%Z (only parsing).
Abbreviation KV_OPC_ITERATE_NEXT := 9%Z (only parsing).
Abbreviation KV_OPC_SANITIZE_DEVICE := 10%Z (only parsing).
Abbreviation KV_OPC_LIST_ITERATOR := 11%Z (only parsing).
Abbreviation KV_OPC_DELETE_GROUP := 12%Z (only parsing).
Abbreviation KV_OPC_ITERATE_NEXT_SINGLE_KV := 13%Z (only parsing).

(** ** The union [command] with its operation code *)

Inductive op_command :=
| get_info (option : Z)
| store_info (option : Z)
| delete_info (option : Z)
| delete_group_info (grp_cond : option kv_group_condition)
| purge_info (option : Z)
| key_exist_info (keycount : Z) (result : option (list byte)) (result_size : Z)
| iterator_open_info (it_op : Z) (it_cond : kv_group_condition)
| iterator_close_info (iter_hdl : Z)
| iterator_next_info (iter_hdl : Z) (iter_list : option kv_iterator_list)
| iterator_next_single_info (iter_hdl : Z) (key : option kv_key) (value : option kv_value)
| sanitize_info (option : Z)
| iterator_list_info (kv_iters : option (list kv_iterator)) (iter_cnt : option Z)
| unknown_info (opcode : Z).

Definition opcode (c : op_command) : Z :=
  match c with
  | get_info _ => KV_OPC_GET
  | store_info _ => KV_OPC_STORE
  | delete_info _ => KV_OPC_DELETE
  | delete_group_info _ => KV_OPC_DELETE_GROUP
  | purge_info _ => KV_OPC_PURGE
  | key_exist_info _ _ _ => KV_OPC_CHECK_KEY_EXIST
  | iterator_open_info _ _ => KV_OPC_OPEN_ITERATOR
  | iterator_close_info _ => KV_OPC_CLOSE_ITERATOR
  | iterator_next_info _ _ => KV_OPC_ITERATE_NEXT
  | iterator_next_single_info _ _ _ => KV_OPC_ITERATE_NEXT_SINGLE_KV
  | sanitize_info _ => KV_OPC_SANITIZE_DEVICE
  | iterator_list_info _ _ => KV_OPC_LIST_ITERATOR
  | unknown_info o => o
  end.

(** ** [io_ctx_t] and [class io_cmd]

    [key] points to one key, or to [keycount] keys for an existence check. *)
Record io_cmd := IoCmd {
  c_key : option (list kv_key);
  c_value : option kv_value;
  c_private_data : Z;
  c_retcode : kv_result;
  c_result_buffer_size : Z;
  c_result_buffer_count : Z;
  c_result_hiter : Z;
  c_post_fn : option Z;
  c_ks_id : Z;                     (* int8_t *)
  c_command : op_command;
  c_sqid : Z
}.

Definition set_retcode (r : kv_result) (c : io_cmd) : io_cmd :=
  IoCmd (c_key c) (c_value c) (c_private_data c) r (c_result_buffer_size c)
    (c_result_buffer_count c) (c_result_hiter c) (c_post_fn c) (c_ks_id c) (c_command c) (c_sqid c).
Definition set_value (v : option kv_value) (c : io_cmd) : io_cmd :=
  IoCmd (c_key c) v (c_private_data c) (c_retcode c) (c_result_buffer_size c)
    (c_result_buffer_count c) (c_result_hiter c) (c_post_fn c) (c_ks_id c) (c_command c) (c_sqid c).
Definition set_buffer_result (size count : Z) (c : io_cmd) : io_cmd :=
  IoCmd (c_key c) (c_value c) (c_private_data c) (c_retcode c) size count
    (c_result_hiter c) (c_post_fn c) (c_ks_id c) (c_command c) (c_sqid c).
Definition set_hiter (h : Z) (c : io_cmd) : io_cmd :=
  IoCmd (c_key c) (c_value c) (c_private_data c) (c_retcode c) (c_result_buffer_size c)
    (c_result_buffer_count c) h (c_post_fn c) (c_ks_id c) (c_command c) (c_sqid c).
Definition set_command (cmd : op_command) (c : io_cmd) : io_cmd :=
  IoCmd (c_key c) (c_value c) (c_private_data c) (c_retcode c) (c_result_buffer_size c)
    (c_result_buffer_count c) (c_result_hiter c) (c_post_fn c) (c_ks_id c) cmd (c_sqid c).

(** The single key of a command. *)
Definition cmd_key (c : io_cmd) : option kv_key := c_key c ≫= head.

(** The event of a completed command: its callback is invoked with its context. *)
Record completion := Completion { comp_post_fn : Z; comp_cmd : io_cmd }.

(** [call_post_process_func]: the events it causes. *)
Definition call_post_process_func (c : io_cmd) : list completion :=
  match c_post_fn c with
  | Some f => [Completion f c]
  | None => []
  end.

(** The conversion of [ioctx.ks_id] to the [uint8_t] the namespace takes. *)
Definition cmd_ks_id (c : io_cmd) : Z := u8 (c_ks_id c).

Section execute.
Context {S : Type} `{!KvDeviceApi S}.
Implicit Types (n : kv_namespace_internal S).

(** [execute_cmd]; [keylen_fixed] is the device's setting.  The structures the
    command points to (value, buffers, iterator list) are part of the command
    and updated in place.  The store completes and frees a list-iterators
    command itself, so that case is only meaningful for a caller that does not
    use the command afterwards; the device layer never queues one. *)
Definition execute_cmd (keylen_fixed : bool) (c : io_cmd) n : io_cmd * kv_namespace_internal S :=
  let ks_id := cmd_ks_id c in
  match c_command c with
  | get_info opt =>
      let '(r, v, n) := ns_kv_retrieve ks_id (cmd_key c) opt (c_value c) n in
      (set_retcode r (set_value v c), n)
  | store_info opt =>
      let '(r, _, n) := ns_kv_store ks_id (cmd_key c) (c_value c) opt 0 n in
      (set_retcode r c, n)
  | delete_info opt =>
      let '(r, _, n) := ns_kv_delete ks_id (cmd_key c) opt (Some 0) n in
      (set_retcode r c, n)
  | delete_group_info grp_cond =>
      let '(r, n) := ns_kv_delete_group ks_id grp_cond n in (set_retcode r c, n)
  | purge_info opt =>
      let '(r, n) := ns_kv_purge ks_id opt n in (set_retcode r c, n)
  | key_exist_info keycount result result_size =>
      let keys := take (Z.to_nat keycount) <$> c_key c in
      let '(r, result', size') := ns_kv_exist ks_id keys result result_size n in
      (set_buffer_result size' keycount
         (set_retcode r (set_command (key_exist_info keycount result' size') c)), n)
  | iterator_open_info it_op it_cond =>
      let '(r, ih, n) :=
        ns_kv_open_iterator keylen_fixed ks_id it_op (Some it_cond) (Some (c_result_hiter c)) n in
      (set_retcode r (set_hiter (default 0 ih) c), n)
  | iterator_close_info iter_hdl =>
      let '(r, n) := ns_kv_close_iterator iter_hdl n in
      (set_hiter 0 (set_retcode r c), n)
  | iterator_next_info iter_hdl iter_list =>
      let '(r, il, n) := ns_kv_iterator_next_set iter_hdl iter_list n in
      (set_retcode r (set_command (iterator_next_info iter_hdl il) c), n)
  | iterator_next_single_info iter_hdl key value =>
      let '(r, k, v, n) := ns_kv_iterator_next iter_hdl key value n in
      (set_retcode r (set_command (iterator_next_single_info iter_hdl k v) c), n)
  | sanitize_info _ =>
      let '(r, n) := ns_kv_purge ks_id KV_PURGE_OPT_DEFAULT n in (set_retcode r c, n)
  | iterator_list_info kv_iters iter_cnt =>
      let '(r, l, cnt, _) := ns_kv_list_iterators kv_iters iter_cnt n in
      (set_retcode r (set_command (iterator_list_info l cnt) c), n)
  | unknown_info _ => (set_retcode KV_ERR_SYS_IO c, n)
  end.
End execute.

(** What the device layer guarantees of the commands it submits. *)
Definition cmd_ok (c : io_cmd) : Prop :=
  match c_command c with
  | store_info _ => exists k v, cmd_key c = Some k /\ c_value c = Some v /\
      emul_key_ok k /\ emul_value_ok v
  | iterator_open_info _ cond => cond_ok cond
  | iterator_close_info h => h <= SAMSUNG_MAX_ITERATORS
  | iterator_list_info _ _ => False
  | _ => True
  end.

(** Fields that identify a command and that execution does not change. *)
Definition same_cmd (c c' : io_cmd) : Prop :=
  c_post_fn c' = c_post_fn c /\ c_private_data c' = c_private_data c /\
  c_ks_id c' = c_ks_id c /\ opcode (c_command c') = opcode (c_command c) /\ c_key c' = c_key c.

Lemma ks_id_valid ks : ks_id_invalid ks = false -> ks_ok ks.
Proof.
  unfold ks_id_invalid, ks_ok. lia.
Qed.

#[export] Hint Resolve ks_id_valid : kv.

Lemma execute_cmd_same {S} `{!KvDeviceApi S} fixed c (n : kv_namespace_internal S) :
  same_cmd c (execute_cmd fixed c n).1.
Proof.
  unfold execute_cmd, same_cmd. by destruct (c_command c) eqn:E; repeat case_match; simpl; rewrite ?E.
Qed.

Section execute_laws.
Context {S : Type} `{!KvDeviceApi S} `{!KvDeviceApiLaws S}.
Implicit Types (n : kv_namespace_internal S).

Definition ns_wf n : Prop := api_wf (m_kvstore n).

Lemma ns_kv_purge_wf ks opt n : ns_wf n -> ns_wf (ns_kv_purge ks opt n).2.
Proof.
  intros Hn. unfold ns_kv_purge. destruct (ks_id_invalid ks) eqn:Hks; [done|].
  cbn [m_kvstore set_purge_in_progress].
  pose proof (api_purge_wf ks opt _ Hn (ks_id_valid _ Hks)) as Hw.
  destruct (api_purge _ _ _) as [r s]. by case_match.
Qed.

Lemma ns_kv_store_wf ks k v opt c n :
  emul_key_ok k -> emul_value_ok v -> ns_wf n -> ns_wf (ns_kv_store ks (Some k) (Some v) opt c n).2.
Proof.
  intros Hk Hv Hn. unfold ns_kv_store. destruct (ks_id_invalid ks) eqn:Hks; [done|].
  pose proof (api_store_wf ks k v opt c _ Hn (ks_id_valid _ Hks) Hk Hv) as Hw.
  destruct (api_store _ _ _ _ _ _) as [[r c'] s]. by case_match.
Qed.

Lemma ns_kv_delete_wf ks k opt r n : ns_wf n -> ns_wf (ns_kv_delete ks k opt r n).2.
Proof.
  intros Hn. unfold ns_kv_delete. destruct k as [k|]; [|done].
  destruct (ks_id_invalid ks) eqn:Hks; [done|].
  pose proof (api_delete_wf ks (Some k) opt r _ Hn (ks_id_valid _ Hks)) as Hw.
  destruct (api_delete _ _ _ _ _) as [[r' c'] s]. by repeat case_match.
Qed.

Lemma ns_kv_open_iterator_wf fixed ks op cond ih n :
  cond_ok cond -> ns_wf n -> ns_wf (ns_kv_open_iterator fixed ks op (Some cond) ih n).2.
Proof.
  intros Hc Hn. unfold ns_kv_open_iterator. destruct ih as [ih|]; [|done].
  destruct (ks_id_invalid ks) eqn:Hks; [done|].
  pose proof (api_open_wf ks op (Some cond) fixed (Some ih) _ Hn (ks_id_valid _ Hks)) as Hw.
  destruct (api_open_iterator _ _ _ _ _ _) as [[r' c'] s]. apply Hw. by intros ? [= <-].
Qed.

Lemma ns_kv_delete_group_wf ks cond n : ns_wf n -> ns_wf (ns_kv_delete_group ks cond n).2.
Proof.
  intros Hn. unfold ns_kv_delete_group. destruct cond as [c|]; [|done].
  destruct (ks_id_invalid ks) eqn:Hks; [done|].
  pose proof (api_delete_group_wf ks c _ Hn (ks_id_valid _ Hks)) as Hw.
  by destruct (api_delete_group _ _ _) as [r s].
Qed.

Lemma ns_kv_retrieve_wf ks k opt v n : ns_wf n -> ns_wf (ns_kv_retrieve ks k opt v n).2.
Proof.
  intros Hn. unfold ns_kv_retrieve. destruct k as [k|], v as [v|]; try done.
  case_match; [done|]. pose proof (api_retrieve_wf ks k opt v _ Hn) as Hw.
  by destruct (api_retrieve _ _ _ _ _) as [[r s] ?].
Qed.

Lemma ns_kv_close_iterator_wf h n :
  h <= SAMSUNG_MAX_ITERATORS -> ns_wf n -> ns_wf (ns_kv_close_iterator h n).2.
Proof.
  intros Hh Hn. unfold ns_kv_close_iterator. pose proof (api_close_wf h _ Hn Hh) as Hw.
  by destruct (api_close_iterator _ _).
Qed.

Lemma ns_kv_iterator_next_set_wf h il n : ns_wf n -> ns_wf (ns_kv_iterator_next_set h il n).2.
Proof.
  intros Hn. unfold ns_kv_iterator_next_set. destruct il as [il|]; [|done]. case_match; [done|].
  pose proof (api_next_set_wf h (Some il) _ Hn) as Hw.
  by destruct (api_iterator_next_set _ _ _) as [[? ?] ?].
Qed.

Lemma ns_kv_iterator_next_wf h k v n : ns_wf n -> ns_wf (ns_kv_iterator_next h k v n).2.
Proof.
  intros Hn. unfold ns_kv_iterator_next. destruct k as [k|], v as [v|]; try done.
  case_match; [done|]. pose proof (api_next_wf h (Some k) (Some v) _ Hn) as Hw.
  by destruct (api_iterator_next _ _ _ _) as [[[? ?] ?] ?].
Qed.

Lemma execute_cmd_snd fixed c n :
  (execute_cmd fixed c n).2 =
  match c_command c with
  | get_info opt => (ns_kv_retrieve (cmd_ks_id c) (cmd_key c) opt (c_value c) n).2
  | store_info opt => (ns_kv_store (cmd_ks_id c) (cmd_key c) (c_value c) opt 0 n).2
  | delete_info opt => (ns_kv_delete (cmd_ks_id c) (cmd_key c) opt (Some 0) n).2
  | delete_group_info g => (ns_kv_delete_group (cmd_ks_id c) g n).2
  | purge_info opt => (ns_kv_purge (cmd_ks_id c) opt n).2
  | iterator_open_info op cond =>
      (ns_kv_open_iterator fixed (cmd_ks_id c) op (Some cond) (Some (c_result_hiter c)) n).2
  | iterator_close_info h => (ns_kv_close_iterator h n).2
  | iterator_next_info h il => (ns_kv_iterator_next_set h il n).2
  | iterator_next_single_info h k v => (ns_kv_iterator_next h k v n).2
  | sanitize_info _ => (ns_kv_purge (cmd_ks_id c) KV_PURGE_OPT_DEFAULT n).2
  | _ => n
  end.
Proof.
  unfold execute_cmd.
  by destruct (c_command c); repeat match goal with
    |- context [let '(_, _) := ?x in _] => destruct x end.
Qed.

Lemma execute_cmd_keeps fixed c n : cmd_ok c -> ns_wf n -> ns_wf (execute_cmd fixed c n).2.
Proof.
  intros Hc Hn. rewrite execute_cmd_snd. unfold cmd_ok in Hc.
  destruct (c_command c); auto using ns_kv_retrieve_wf, ns_kv_delete_wf, ns_kv_delete_group_wf,
    ns_kv_purge_wf, ns_kv_open_iterator_wf, ns_kv_close_iterator_wf, ns_kv_iterator_next_set_wf,
    ns_kv_iterator_next_wf.
  destruct Hc as (k & v & -> & -> & Hk & Hv). by apply ns_kv_store_wf.
Qed.

(** ** Properties *)

(** For every store that satisfies the laws of the interface, executing a
    submitted command keeps the invariant of the store, and changes neither
    the identity nor the callback of the command. *)
Theorem execute_cmd_wf fixed c n :
  cmd_ok c -> ns_wf n ->
  let '(c', n') := execute_cmd fixed c n in ns_wf n' /\ same_cmd c c'.
Proof.
  intros Hc Hn. pose proof (execute_cmd_keeps fixed c n Hc Hn) as H1.
  pose proof (execute_cmd_same fixed c n) as H2. by destruct (execute_cmd fixed c n).
Qed.

(**  A command with a key space that does not exist is answered with
    [KV_ERR_KEYSPACE_INVALID] and leaves the store untouched. *)
Theorem invalid_keyspace_rejected fixed c n k v :
  ks_id_invalid (cmd_ks_id c) = true -> cmd_key c = Some k -> c_value c = Some v ->
  match c_command c with
  | get_info _ | store_info _ | delete_info _ | purge_info _ | sanitize_info _
  | delete_group_info (Some _) | key_exist_info _ (Some _) _ | iterator_open_info _ _ =>
      c_retcode (execute_cmd fixed c n).1 = KV_ERR_KEYSPACE_INVALID /\
      m_kvstore (execute_cmd fixed c n).2 = m_kvstore n
  | _ => True
  end.
Proof.
  intros Hks Hk Hv. assert (Hkeys : exists ks, c_key c = Some ks)
    by (unfold cmd_key in Hk; destruct (c_key c); [by eexists|done]).
  destruct Hkeys as [ks Hkeys]. unfold execute_cmd.
  destruct (c_command c) as [| | |[]| |? []| | | | | | |]; try done;
    rewrite ?Hk, ?Hv, ?Hkeys; unfold ns_kv_retrieve, ns_kv_store, ns_kv_delete, ns_kv_delete_group,
      ns_kv_purge, ns_kv_exist, ns_kv_open_iterator; simpl; rewrite Hks; done.
Qed.

(**  A purge of a key space that does not exist leaves the namespace
    marked as being purged; every other purge clears the mark. *)
Theorem purge_flag ks opt n :
  m_purging_in_progress (ns_kv_purge ks opt n).2 = ks_id_invalid ks.
Proof.
  unfold ns_kv_purge. destruct (ks_id_invalid ks); [done|].
  by destruct (api_purge _ _ _).
Qed.
End execute_laws.

(** A namespace over a fresh emulator, and commands on it. *)
Definition n_demo : kv_namespace_internal kvstore :=
  kv_namespace_new false 0 (KvNamespace 0 true 1000) (KvStore e_demo NoopEmulator false).

Definition demo_cmd (ks : Z) (cmd : op_command) : io_cmd :=
  IoCmd (Some [mk_key k4]) (Some (mk_value [Byte.x01])) 7 KV_SUCCESS 0 0 0 (Some 99) ks cmd 1.

Lemma execute_cmd_wf_witness :
  let '(c', n') := execute_cmd true (demo_cmd 1 (store_info KV_STORE_OPT_DEFAULT)) n_demo in
  ns_wf n' /\ same_cmd (demo_cmd 1 (store_info KV_STORE_OPT_DEFAULT)) c'.
Proof.
  apply (execute_cmd_wf true (demo_cmd 1 (store_info KV_STORE_OPT_DEFAULT)) n_demo).
  - exists (mk_key k4), (mk_value [Byte.x01]). split; [reflexivity|]. split; [reflexivity|].
    split; [split; [apply key_ok_mk|split; vm_compute; discriminate]|].
    split; [apply value_ok_mk|vm_compute; discriminate].
  - apply emul_init_wf. do 5 eexists. reflexivity.
Defined.

Lemma invalid_keyspace_rejected_witness :
  let c := demo_cmd 5 (store_info KV_STORE_OPT_DEFAULT) in
  c_retcode (execute_cmd true c n_demo).1 = KV_ERR_KEYSPACE_INVALID /\
  m_kvstore (execute_cmd true c n_demo).2 = m_kvstore n_demo.
Proof.
  exact (invalid_keyspace_rejected true (demo_cmd 5 (store_info KV_STORE_OPT_DEFAULT)) n_demo
    (mk_key k4) (mk_value [Byte.x01]) eq_refl eq_refl eq_refl).
Defined.
