(* ===== verification/Queue.v ===== *)
(** * Input/output queues

    [emulator/src/queue.cpp] and [include/private/queue.hpp]: bounded queues of
    commands, the thread that executes what a submission queue holds, and the
    polling of a completion queue.

    The mutex of a queue makes its operations atomic.  An operation that would
    wait on a condition variable returns [Wait]: it is tried again later.  The
    buffer is a [boost::circular_buffer], code outside the repository: it is
    the class [CircularBuffer], with the documented behaviour the queue relies
    on as its laws. *)

From stdpp Require Import base numbers list gmap.
From S2P Require Import Prelude.
From S2P Require Import AdiTypes.
From S2P Require Import EmulInv.
From S2P Require Import DeviceApi.
From S2P Require Import Namespace.
From S2P Require Import IoCmd.

(** ** [boost::circular_buffer] *)

Class CircularBuffer (B A : Type) := {
  cb_new : Z -> B;                 (* a buffer of the given capacity *)
  cb_push_back : A -> B -> B;
  cb_pop_front : B -> B;
  cb_front : B -> option A;
  cb_full : B -> bool;
  cb_empty : B -> bool;
  cb_size : B -> Z
}.

Class CircularBufferLaws (B A : Type) `{!CircularBuffer B A} := {
  cb_list : B -> list A;
  cb_capacity : B -> Z;
  cb_new_list n : cb_list (cb_new n) = [];
  cb_new_capacity n : cb_capacity (cb_new n) = n;
  cb_push_list a b : cb_full b = false -> cb_list (cb_push_back a b) = cb_list b ++ [a];
  cb_push_capacity a b : cb_capacity (cb_push_back a b) = cb_capacity b;
  cb_pop_list b : cb_list (cb_pop_front b) = drop 1 (cb_list b);
  cb_pop_capacity b : cb_capacity (cb_pop_front b) = cb_capacity b;
  cb_front_list b : cb_front b = head (cb_list b);
  cb_full_list b : cb_full b = (cb_capacity b <=? Z.of_nat (length (cb_list b)));
  cb_empty_list b : cb_empty b = (Z.of_nat (length (cb_list b)) =? 0);
  cb_size_list b : cb_size b = Z.of_nat (length (cb_list b))
}.

(** A buffer that satisfies the laws: its capacity and its elements, oldest first. *)
Record list_buffer (A : Type) := ListBuffer { lb_capacity : Z; lb_list : list A }.
Arguments ListBuffer {A}.
Arguments lb_capacity {A}.
Arguments lb_list {A}.

Definition lb_full {A} (b : list_buffer A) : bool :=
  lb_capacity b <=? Z.of_nat (length (lb_list b)).

#[export] Instance list_buffer_ops A : CircularBuffer (list_buffer A) A := {|
  cb_new n := ListBuffer n [];
  cb_push_back a b :=
    ListBuffer (lb_capacity b)
      (if lb_full b then drop 1 (lb_list b ++ [a]) else lb_list b ++ [a]);
  cb_pop_front b := ListBuffer (lb_capacity b) (drop 1 (lb_list b));
  cb_front b := head (lb_list b);
  cb_full := lb_full;
  cb_empty b := Z.of_nat (length (lb_list b)) =? 0;
  cb_size b := Z.of_nat (length (lb_list b))
|}.

#[export] Instance list_buffer_laws A : CircularBufferLaws (list_buffer A) A.
Proof.
  refine {| cb_list := lb_list; cb_capacity := lb_capacity |}; simpl; try done.
  by intros a b ->.
Defined.

(** ** [class emul_ioqueue] *)

Record emul_ioqueue (B : Type) := EmulIoqueue {
  eq_queinfo : kv_queue;
  eq_shutdown : bool;
  eq_out : option Z;               (* the id of the queue [out] points to *)
  eq_queue : B;
  eq_interrupt_handler : option Z
}.

Arguments EmulIoqueue {B}.
Arguments eq_queinfo {B}.
Arguments eq_shutdown {B}.
Arguments eq_out {B}.
Arguments eq_queue {B}.
Arguments eq_interrupt_handler {B}.

(** An operation that returned, or that waits for another thread. *)
Inductive outcome (A : Type) := Done (a : A) | Wait.
Arguments Done {A}.
Arguments Wait {A}.

Section queue.
Context {B : Type} `{!CircularBuffer B io_cmd}.
Implicit Types (q : emul_ioqueue B) (c : io_cmd).

Definition get_type q : Z := q_queue_type (eq_queinfo q).
Definition get_qid q : Z := q_queue_id (eq_queinfo q).
Definition need_shutdown q : bool := eq_shutdown q.
Definition get_out_queue q : option Z := eq_out q.

Definition eq_set_queue (b : B) q : emul_ioqueue B :=
  EmulIoqueue (eq_queinfo q) (eq_shutdown q) (eq_out q) b (eq_interrupt_handler q).

(** The constructor; [handler] is the uninitialised handler field. *)
Definition emul_ioqueue_new (handler : option Z) (queinfo : kv_queue) (out : option Z)
    : emul_ioqueue B :=
  EmulIoqueue queinfo false out (cb_new (q_queue_size queinfo)) handler.

(** The waiting loop of [enqueue] and what follows it. *)
Definition enqueue_loop c (block : bool) q : outcome (kv_result * emul_ioqueue B) :=
  if cb_full (eq_queue q) && negb (need_shutdown q)
  then if block then Wait else Done (KV_ERR_QUEUE_IS_FULL, q)
  else Done (KV_SUCCESS, eq_set_queue (cb_push_back c (eq_queue q)) q).

Definition enqueue c (block : bool) q : outcome (kv_result * emul_ioqueue B) :=
  if eq_shutdown q then Done (KV_ERR_QUEUE_IN_SHUTDOWN, q) else enqueue_loop c block q.

(** [expired] says whether the wait of this turn timed out; the command is
    [None] where the code stores a null pointer or leaves [*cmd] unset. *)
Definition dequeue (block : bool) (timeout_usec : Z) (expired : bool) q
    : outcome (kv_result * option io_cmd * emul_ioqueue B) :=
  if cb_empty (eq_queue q) && negb (need_shutdown q)
  then if negb block then Done (KV_SUCCESS, None, q)
       else if expired && negb (timeout_usec =? 0) then Done (KV_ERR_TIMEOUT, None, q)
       else Wait
  else if need_shutdown q then Done (KV_ERR_QUEUE_IN_SHUTDOWN, None, q)
  else Done (KV_SUCCESS, cb_front (eq_queue q), eq_set_queue (cb_pop_front (eq_queue q)) q).

Definition eq_size q : Z := cb_size (eq_queue q).

(** The loop of [poll_completion], [n] turns: the last result of [dequeue], the
    commands completed in order, and the queue. *)
Fixpoint poll_loop (n : nat) (timeout_usec : Z) (res : kv_result) q
    : kv_result * list io_cmd * emul_ioqueue B :=
  match n with
  | O => (res, [], q)
  | S n' =>
      match dequeue false timeout_usec false q with
      | Done (KV_SUCCESS, Some c, q') =>
          let '(r, cs, q'') := poll_loop n' timeout_usec KV_SUCCESS q' in (r, c :: cs, q'')
      | Done (KV_SUCCESS, None, q') => poll_loop n' timeout_usec KV_SUCCESS q'
      | Done (r, _, q') => (r, [], q')
      | Wait => (res, [], q)
      end
  end.

(** The number of turns of the loop of [poll_completion]. *)
Definition poll_count (num_events : Z) : Z := Z.max (Z.min num_events 128) 1.

(** The callbacks run are those of the completed commands; [num_events] is the
    value behind the pointer on entry, the third component on return. *)
Definition eq_poll_completion (timeout_usec num_events : Z) q
    : kv_result * list io_cmd * Z * emul_ioqueue B :=
  if negb (get_type q =? COMPLETION_Q_TYPE) then (KV_ERR_QUEUE_CQID_INVALID, [], num_events, q)
  else
    let '(res, cs, q') := poll_loop (Z.to_nat (poll_count num_events)) timeout_usec KV_SUCCESS q in
    let num_completed := Z.of_nat (length cs) in
    if negb (is_success res) then (res, cs, num_completed, q')
    else (if eq_size q' =? 0 then KV_SUCCESS else KV_WRN_MORE, cs, num_completed, q').

(** [is_polling] is the device's mode. *)
Definition init_interrupt_handler (is_polling : bool) (int_hdl : option Z) q
    : kv_result * emul_ioqueue B :=
  if is_polling then (KV_ERR_OPTION_INVALID, q)
  else (KV_SUCCESS, EmulIoqueue (eq_queinfo q) (eq_shutdown q) (eq_out q) (eq_queue q) int_hdl).

(** The loop that empties the queue of a terminated queue, [n] turns. *)
Fixpoint drain (n : nat) (b : B) : B :=
  match n with
  | O => b
  | S n' => if cb_empty b then b else drain n' (cb_pop_front b)
  end.

(** [terminate], once the threads of the queue are joined: what is left in the
    queue is freed without a callback. *)
Definition terminate q : emul_ioqueue B :=
  EmulIoqueue (eq_queinfo q) true (eq_out q)
    (drain (Z.to_nat (cb_size (eq_queue q))) (eq_queue q)) (eq_interrupt_handler q).

Definition kv_get_queue_info q : kv_result * kv_queue := (KV_SUCCESS, eq_queinfo q).
End queue.

(** ** The pipeline of a submission queue and its completion queue

    The thread of the submission queue ([process_submitted_commands]) takes a
    command, executes it and puts it on the completion queue.  Any number of
    threads of the host poll that queue, and an interrupt thread
    ([process_interrupts]) may serve it as well.  Each of these threads takes a
    command under the lock of the queue and runs its callback afterwards, without
    the lock, so callbacks of different threads overlap. *)

Inductive worker :=
| Idle
| Fetched (c : io_cmd)             (* taken from the submission queue *)
| Executed (c : io_cmd).           (* executed, not yet on the completion queue *)

(** A thread that serves the completion queue. *)
Inductive server :=
| SIdle
| Polling (n : nat)                (* in the loop of [poll_completion], [n + 1] turns to go *)
| Holding (n : nat) (c : io_cmd)   (* with a command whose callback has not run yet *)
| Serving (c : io_cmd).            (* the same for the interrupt thread *)

Record pipe (B S : Type) := Pipe {
  p_sq : emul_ioqueue B;
  p_worker : worker;
  p_cq : emul_ioqueue B;
  p_servers : gmap Z server;       (* by thread; those that are not idle *)
  p_ns : kv_namespace_internal S
}.

Arguments Pipe {B S}.
Arguments p_sq {B S}.
Arguments p_worker {B S}.
Arguments p_cq {B S}.
Arguments p_servers {B S}.
Arguments p_ns {B S}.

(** What is observable: a command submitted, a command taken from the completion
    queue by a thread, and its callback run by that thread. *)
Inductive event :=
| ESubmit (c : io_cmd)
| ETau
| ETake (i : Z) (c : io_cmd)
| ECall (i : Z) (c : io_cmd).

Definition server_of (i : Z) (ss : gmap Z server) : server := default SIdle (ss !! i).

(** The loop with [n] turns to go. *)
Definition turns (n : nat) : server := match n with O => SIdle | S n' => Polling n' end.

Section pipeline.
Context {B : Type} `{!CircularBuffer B io_cmd} `{!CircularBufferLaws B io_cmd}.
Context {S : Type} `{!KvDeviceApi S}.
Variable keylen_fixed : bool.
Implicit Types (p : pipe B S).

Inductive pipe_step : pipe B S -> event -> pipe B S -> Prop :=
| ps_submit c sq w cq ss n sq' :
    enqueue c true sq = Done (KV_SUCCESS, sq') ->
    pipe_step (Pipe sq w cq ss n) (ESubmit c) (Pipe sq' w cq ss n)
| ps_fetch c expired sq cq ss n sq' :
    dequeue true 0 expired sq = Done (KV_SUCCESS, Some c, sq') ->
    pipe_step (Pipe sq Idle cq ss n) ETau (Pipe sq' (Fetched c) cq ss n)
| ps_execute c sq cq ss n c' n' :
    execute_cmd keylen_fixed c n = (c', n') ->
    pipe_step (Pipe sq (Fetched c) cq ss n) ETau (Pipe sq (Executed c') cq ss n')
| ps_complete c sq cq ss n cq' :
    enqueue c true cq = Done (KV_SUCCESS, cq') ->
    pipe_step (Pipe sq (Executed c) cq ss n) ETau (Pipe sq Idle cq' ss n)
| ps_poll_start i num sq w cq ss n :
    server_of i ss = SIdle -> get_type cq = COMPLETION_Q_TYPE ->
    pipe_step (Pipe sq w cq ss n) ETau
      (Pipe sq w cq (<[i := turns (Z.to_nat (poll_count num))]> ss) n)
| ps_poll_take i k timeout c sq w cq ss n cq' :
    server_of i ss = Polling k ->
    dequeue false timeout false cq = Done (KV_SUCCESS, Some c, cq') ->
    pipe_step (Pipe sq w cq ss n) (ETake i c) (Pipe sq w cq' (<[i := Holding k c]> ss) n)
| ps_poll_none i k timeout sq w cq ss n cq' :
    server_of i ss = Polling k ->
    dequeue false timeout false cq = Done (KV_SUCCESS, None, cq') ->
    pipe_step (Pipe sq w cq ss n) ETau (Pipe sq w cq' (<[i := turns k]> ss) n)
| ps_poll_call i k c sq w cq ss n :
    server_of i ss = Holding k c ->
    pipe_step (Pipe sq w cq ss n) (ECall i c) (Pipe sq w cq (<[i := turns k]> ss) n)
| ps_interrupt i c expired sq w cq ss n cq' :
    server_of i ss = SIdle ->
    dequeue true 0 expired cq = Done (KV_SUCCESS, Some c, cq') ->
    pipe_step (Pipe sq w cq ss n) (ETake i c) (Pipe sq w cq' (<[i := Serving c]> ss) n)
| ps_interrupt_call i c sq w cq ss n :
    server_of i ss = Serving c ->
    pipe_step (Pipe sq w cq ss n) (ECall i c) (Pipe sq w cq (<[i := SIdle]> ss) n).

Inductive pipe_steps : pipe B S -> list event -> pipe B S -> Prop :=
| pss_nil p : pipe_steps p [] p
| pss_snoc p1 t p2 e p3 :
    pipe_steps p1 t p2 -> pipe_step p2 e p3 -> pipe_steps p1 (t ++ [e]) p3.

(** The pipeline right after its queues were created. *)
Definition pipe_init (p : pipe B S) : Prop :=
  exists h1 h2 sqinfo cqinfo,
    q_queue_type sqinfo = SUBMISSION_Q_TYPE /\ q_queue_type cqinfo = COMPLETION_Q_TYPE /\
    0 <= q_queue_size sqinfo /\ 0 <= q_queue_size cqinfo /\
    p_sq p = emul_ioqueue_new h1 sqinfo (Some (q_queue_id cqinfo)) /\
    p_cq p = emul_ioqueue_new h2 cqinfo None /\ p_worker p = Idle /\ p_servers p = ∅.

(** *** The reference: executing commands one after the other *)

Fixpoint run_seq (cs : list io_cmd) (n : kv_namespace_internal S)
    : list io_cmd * kv_namespace_internal S :=
  match cs with
  | [] => ([], n)
  | c :: cs' => let '(c', n1) := execute_cmd keylen_fixed c n in
                let '(rs, n2) := run_seq cs' n1 in (c' :: rs, n2)
  end.

Definition submitted (t : list event) : list io_cmd :=
  concat ((fun e => match e with ESubmit c => [c] | _ => [] end) <$> t).
Definition taken (t : list event) : list io_cmd :=
  concat ((fun e => match e with ETake _ c => [c] | _ => [] end) <$> t).
Definition completed (t : list event) : list io_cmd :=
  concat ((fun e => match e with ECall _ c => [c] | _ => [] end) <$> t).

(** Thread [i] alone serves the completion queue. *)
Definition only (i : Z) (t : list event) : Prop :=
  Forall (fun e => match e with ETake j _ => j = i | _ => True end) t.

Definition fetched (w : worker) : list io_cmd := match w with Fetched c => [c] | _ => [] end.
Definition executed (w : worker) : list io_cmd := match w with Executed c => [c] | _ => [] end.
Definition holds (s : server) : list io_cmd :=
  match s with Holding _ c | Serving c => [c] | _ => [] end.
Definition held (ss : gmap Z server) : list io_cmd := gather holds ss.

Abbreviation qlist q := (cb_list (eq_queue q)).

(** Every command taken has had its callback, or a thread holds it; callbacks of
    a single thread run in the order in which it takes the commands. *)
Definition served (t : list event) (ss : gmap Z server) : Prop :=
  taken t ≡ₚ completed t ++ held ss /\
  forall i, only i t -> taken t = completed t ++ holds (server_of i ss) /\
    forall j, j <> i -> holds (server_of j ss) = [].

(** [ex] is the part of the submitted commands that was executed. *)
Definition pipe_inv (n0 : kv_namespace_internal S) (t : list event) (ex : list io_cmd) p : Prop :=
  submitted t = ex ++ fetched (p_worker p) ++ qlist (p_sq p) /\
  run_seq ex n0 = (taken t ++ qlist (p_cq p) ++ executed (p_worker p), p_ns p) /\
  served t (p_servers p) /\
  eq_shutdown (p_sq p) = false /\ eq_shutdown (p_cq p) = false /\
  get_type (p_cq p) = COMPLETION_Q_TYPE.

Lemma run_seq_snoc cs c n :
  run_seq (cs ++ [c]) n =
  let '(rs, n1) := run_seq cs n in
  let '(c', n2) := execute_cmd keylen_fixed c n1 in (rs ++ [c'], n2).
Proof.
  revert n. induction cs as [|c0 cs IH]; intros n; simpl.
  - by destruct (execute_cmd keylen_fixed c n).
  - destruct (execute_cmd keylen_fixed c0 n) as [c0' n1]. rewrite IH.
    destruct (run_seq cs n1) as [rs n2]. by destruct (execute_cmd keylen_fixed c n2).
Qed.

Lemma length_run_seq cs n : length (run_seq cs n).1 = length cs.
Proof.
  revert n. induction cs as [|c cs IH]; intros n; simpl; [done|].
  destruct (execute_cmd keylen_fixed c n) as [c' n1]. specialize (IH n1).
  destruct (run_seq cs n1). simpl in *. by rewrite IH.
Qed.

(** *** Effects of the queue operations *)

Lemma enqueue_Done c (q q' : emul_ioqueue B) :
  eq_shutdown q = false -> enqueue c true q = Done (KV_SUCCESS, q') ->
  qlist q' = qlist q ++ [c] /\ eq_shutdown q' = false /\ eq_queinfo q' = eq_queinfo q /\
  Z.of_nat (length (qlist q)) < cb_capacity (eq_queue q) /\
  cb_capacity (eq_queue q') = cb_capacity (eq_queue q).
Proof.
  intros Hs. unfold enqueue, enqueue_loop, need_shutdown. rewrite Hs. simpl. rewrite andb_true_r.
  destruct (cb_full (eq_queue q)) eqn:Hf; [done|]. intros [= <-]. simpl.
  rewrite cb_push_list, cb_push_capacity by done. repeat split; [done|].
  rewrite cb_full_list in Hf. lia.
Qed.

Lemma dequeue_Done block t x c (q q' : emul_ioqueue B) :
  dequeue block t x q = Done (KV_SUCCESS, Some c, q') ->
  eq_shutdown q = false /\ qlist q = c :: qlist q' /\ eq_shutdown q' = false /\
  eq_queinfo q' = eq_queinfo q /\ cb_capacity (eq_queue q') = cb_capacity (eq_queue q).
Proof.
  unfold dequeue, need_shutdown. rewrite cb_empty_list.
  destruct (eq_shutdown q) eqn:Hs; simpl; rewrite ?andb_false_r, ?andb_true_r; [done|].
  destruct (Z.eqb_spec (Z.of_nat (length (qlist q))) 0) as [|Hne].
  - by destruct block; [destruct (x && negb (t =? 0))|].
  - intros [= Hfr <-]. simpl. rewrite cb_front_list in Hfr. rewrite cb_pop_list, cb_pop_capacity.
    destruct (qlist q) as [|c0 l]; [done|]. injection Hfr as ->. simpl. by rewrite drop_0.
Qed.

Lemma dequeue_nonblock (q : emul_ioqueue B) t :
  eq_shutdown q = false ->
  (qlist q = [] /\ dequeue false t false q = Done (KV_SUCCESS, None, q)) \/
  (exists c q', dequeue false t false q = Done (KV_SUCCESS, Some c, q') /\ qlist q = c :: qlist q').
Proof.
  intros Hs. destruct (qlist q) as [|c l] eqn:Hl.
  - left. split; [done|]. unfold dequeue, need_shutdown. by rewrite cb_empty_list, Hl, Hs.
  - right. unfold dequeue, need_shutdown.
    rewrite cb_empty_list, Hl, Hs, cb_front_list, Hl. simpl.
    eexists c, _. split; [reflexivity|]. simpl. by rewrite cb_pop_list, Hl.
Qed.

Lemma poll_loop_spec k t res (q : emul_ioqueue B) :
  eq_shutdown q = false -> res = KV_SUCCESS ->
  exists q', poll_loop k t res q = (KV_SUCCESS, take k (qlist q), q') /\
    qlist q' = drop k (qlist q) /\ eq_shutdown q' = false /\ eq_queinfo q' = eq_queinfo q /\
    cb_capacity (eq_queue q') = cb_capacity (eq_queue q).
Proof.
  revert q res. induction k as [|k IH]; intros q res Hs ->; cbn [poll_loop].
  - exists q. by rewrite take_0, drop_0.
  - destruct (dequeue_nonblock q t Hs) as [[Hl Hd]|(c & q1 & Hd & Hl)]; rewrite Hd, Hl.
    + destruct (IH q KV_SUCCESS Hs eq_refl) as (q' & E & H). rewrite Hl in E, H.
      exists q'. rewrite E, take_nil. by rewrite drop_nil in *.
    + destruct (dequeue_Done _ _ _ _ _ _ Hd) as (_ & _ & Hs1 & Hi1 & Hc1).
      destruct (IH q1 KV_SUCCESS Hs1 eq_refl) as (q' & E & H1 & H2 & H3 & H4).
      exists q'. rewrite E. simpl. by rewrite H1, H3, H4.
Qed.

(** Polling delivers the oldest completions, at least one if there is one. *)
Lemma poll_completion_spec t num (q : emul_ioqueue B) :
  eq_shutdown q = false -> get_type q = COMPLETION_Q_TYPE ->
  let k := Z.to_nat (poll_count num) in
  exists q', eq_poll_completion t num q =
    (if bool_decide (qlist q' = []) then KV_SUCCESS else KV_WRN_MORE,
     take k (qlist q), Z.of_nat (length (take k (qlist q))), q') /\
    qlist q' = drop k (qlist q) /\ eq_shutdown q' = false /\ eq_queinfo q' = eq_queinfo q /\
    cb_capacity (eq_queue q') = cb_capacity (eq_queue q).
Proof.
  intros Hs Ht k. unfold eq_poll_completion. rewrite Ht. simpl.
  destruct (poll_loop_spec k t KV_SUCCESS q Hs eq_refl) as (q' & E & H1 & H2 & H3 & H4).
  fold k. rewrite E. exists q'. split; [|done]. unfold is_success, eq_size.
  rewrite bool_decide_eq_true_2 by done. simpl. rewrite cb_size_list. by destruct (qlist q').
Qed.

(** *** The threads that serve the completion queue *)

Lemma submitted_app t1 t2 : submitted (t1 ++ t2) = submitted t1 ++ submitted t2.
Proof. unfold submitted. by rewrite fmap_app, concat_app. Qed.
Lemma taken_app t1 t2 : taken (t1 ++ t2) = taken t1 ++ taken t2.
Proof. unfold taken. by rewrite fmap_app, concat_app. Qed.
Lemma completed_app t1 t2 : completed (t1 ++ t2) = completed t1 ++ completed t2.
Proof. unfold completed. by rewrite fmap_app, concat_app. Qed.
Lemma submitted_snoc t e :
  submitted (t ++ [e]) = submitted t ++ match e with ESubmit c => [c] | _ => [] end.
Proof. rewrite submitted_app. by destruct e. Qed.
Lemma taken_snoc t e :
  taken (t ++ [e]) = taken t ++ match e with ETake _ c => [c] | _ => [] end.
Proof. rewrite taken_app. by destruct e. Qed.
Lemma only_app i t1 t2 : only i (t1 ++ t2) <-> only i t1 /\ only i t2.
Proof. apply Forall_app. Qed.

Lemma server_of_insert i j s (ss : gmap Z server) :
  server_of j (<[i := s]> ss) = if decide (i = j) then s else server_of j ss.
Proof.
  unfold server_of. case_decide as E; [subst; by rewrite lookup_insert_eq|by rewrite lookup_insert_ne].
Qed.

Lemma held_lookup i ss : held ss ≡ₚ holds (server_of i ss) ++ held (delete i ss).
Proof.
  unfold held, server_of. destruct (ss !! i) as [s|] eqn:E; cbn [default].
  - by apply gather_lookup.
  - by rewrite gather_delete.
Qed.

(** A thread goes on without taking a command or running a callback. *)
Lemma served_move t e ss i s :
  taken [e] = [] -> completed [e] = [] -> holds s = holds (server_of i ss) ->
  served t ss -> served (t ++ [e]) (<[i := s]> ss).
Proof.
  intros Ht Hc Hs [Hp Ho]. split.
  - rewrite taken_app, completed_app, Ht, Hc, !app_nil_r, Hp. f_equiv.
    unfold held at 2. rewrite gather_insert, Hs. apply held_lookup.
  - intros j [Hj _]%only_app. destruct (Ho j Hj) as [E Hn].
    rewrite taken_app, completed_app, Ht, Hc, !app_nil_r, E, server_of_insert.
    split; [case_decide; subst; by rewrite ?Hs|].
    intros k Hk. rewrite server_of_insert. case_decide; [subst; rewrite Hs|]; by apply Hn.
Qed.

Lemma served_take t ss i s c :
  holds (server_of i ss) = [] -> holds s = [c] -> served t ss ->
  served (t ++ [ETake i c]) (<[i := s]> ss).
Proof.
  intros H0 Hs [Hp Ho]. split.
  - rewrite taken_app, completed_app. change (taken [ETake i c]) with [c].
    change (completed [ETake i c]) with (@nil io_cmd). rewrite app_nil_r, Hp, <- app_assoc. f_equiv.
    unfold held at 2. rewrite gather_insert, Hs. rewrite (held_lookup i ss), H0. cbn [app].
    by rewrite <- Permutation_cons_append.
  - intros j [Hj Hi]%only_app. apply Forall_singleton in Hi as <-. destruct (Ho i Hj) as [E Hn].
    rewrite taken_app, completed_app, E, server_of_insert, decide_True, H0, Hs by done.
    split; [by rewrite !app_nil_r|]. intros k Hk. rewrite server_of_insert, decide_False by done. by apply Hn.
Qed.

Lemma served_call t ss i s c :
  holds (server_of i ss) = [c] -> holds s = [] -> served t ss ->
  served (t ++ [ECall i c]) (<[i := s]> ss).
Proof.
  intros H0 Hs [Hp Ho]. split.
  - rewrite taken_app, completed_app. change (completed [ECall i c]) with [c].
    change (taken [ECall i c]) with (@nil io_cmd). rewrite app_nil_r, Hp, <- app_assoc. f_equiv.
    unfold held at 2. rewrite gather_insert, Hs. by rewrite (held_lookup i ss), H0.
  - intros j [Hj _]%only_app. destruct (Ho j Hj) as [E Hn].
    assert (i = j) as <- by (destruct (decide (i = j)); [done|by rewrite Hn in H0]).
    rewrite taken_app, completed_app, E, server_of_insert, decide_True, H0, Hs by done.
    split; [by rewrite !app_nil_r|]. intros k Hk. rewrite server_of_insert, decide_False by done. by apply Hn.
Qed.

Lemma served_tau t e ss :
  taken [e] = [] -> completed [e] = [] -> served t ss -> served (t ++ [e]) ss.
Proof.
  intros Ht Hc [Hp Ho]. unfold served. rewrite taken_app, completed_app, Ht, Hc, !app_nil_r.
  split; [done|]. intros i [Hi _]%only_app. by apply Ho.
Qed.

Lemma holds_turns n : holds (turns n) = [].
Proof. by destruct n. Qed.

(** *** The invariant is kept by every step *)

Lemma dequeue_None block t x (q q' : emul_ioqueue B) :
  dequeue block t x q = Done (KV_SUCCESS, None, q') -> eq_shutdown q = false ->
  q' = q /\ qlist q = [].
Proof.
  unfold dequeue, need_shutdown. rewrite cb_empty_list. intros E Hs. rewrite Hs in E. cbn in E.
  rewrite andb_true_r in E.
  destruct (Z.eqb_spec (Z.of_nat (length (qlist q))) 0) as [Hz|Hne].
  - destruct block; cbn in E; [destruct (x && negb (t =? 0)); discriminate E|]. injection E as <-.
    split; [done|]. by destruct (qlist q).
  - injection E as E _. rewrite cb_front_list in E. by destruct (qlist q).
Qed.

Lemma pipe_step_inv n0 t ex p e p' :
  pipe_inv n0 t ex p -> pipe_step p e p' -> exists ex', pipe_inv n0 (t ++ [e]) ex' p'.
Proof.
  intros (H1 & H2 & Hsv & H3 & H4 & H5) Hstep. unfold pipe_inv.
  destruct Hstep as [c sq w cq ss n sq' E|c x sq cq ss n sq' E|c sq cq ss n c' n' E|c sq cq ss n cq' E
    |i num sq w cq ss n Hi _|i k tm c sq w cq ss n cq' Hi E|i k tm sq w cq ss n cq' Hi E
    |i k c sq w cq ss n Hi|i c x sq w cq ss n cq' Hi E|i c sq w cq ss n Hi];
    simpl in *; rewrite submitted_snoc, taken_snoc; rewrite ?app_nil_r in H2; rewrite ?app_nil_r.
  - destruct (enqueue_Done _ _ _ H3 E) as (L & Hs & _). exists ex.
    split; [by rewrite L, H1, <- !app_assoc|]. split; [done|]. by split; [apply served_tau|].
  - destruct (dequeue_Done _ _ _ _ _ _ E) as (_ & L & Hs & _). exists ex.
    split; [by rewrite H1, L|]. split; [done|]. by split; [apply served_tau|].
  - exists (ex ++ [c]). split; [by rewrite H1, <- app_assoc|].
    split; [|by split; [apply served_tau|]].
    rewrite run_seq_snoc, H2, E. simpl. by rewrite <- !app_assoc.
  - destruct (enqueue_Done _ _ _ H4 E) as (L & Hs & Hi & _). exists ex.
    split; [done|]. split; [by rewrite H2, L|]. split; [by apply served_tau|].
    unfold get_type in *. by rewrite Hi.
  - exists ex. split; [done|]. split; [done|]. split; [|done].
    apply served_move; try done. by rewrite holds_turns, Hi.
  - destruct (dequeue_Done _ _ _ _ _ _ E) as (_ & L & Hs & Hq & _). exists ex.
    split; [done|]. split; [by rewrite H2, L, <- app_assoc|].
    split; [apply served_take; by rewrite ?Hi|]. unfold get_type in *. by rewrite Hq.
  - destruct (dequeue_None _ _ _ _ _ E H4) as [-> _]. exists ex.
    split; [done|]. split; [done|]. split; [|done]. apply served_move; try done. by rewrite holds_turns, Hi.
  - exists ex. split; [done|]. split; [done|]. split; [|done].
    apply served_call; by rewrite ?Hi, ?holds_turns.
  - destruct (dequeue_Done _ _ _ _ _ _ E) as (_ & L & Hs & Hq & _). exists ex.
    split; [done|]. split; [by rewrite H2, L, <- app_assoc|].
    split; [apply served_take; by rewrite ?Hi|]. unfold get_type in *. by rewrite Hq.
  - exists ex. split; [done|]. split; [done|]. split; [|done].
    apply served_call; by rewrite ?Hi.
Qed.

Lemma pipe_init_inv p : pipe_init p -> pipe_inv (p_ns p) [] [] p.
Proof.
  destruct p as [sq w cq ss n]. intros (h1 & h2 & si & ci & _ & Ht & _ & _ & E1 & E2 & E3 & E4).
  simpl in *. subst. unfold pipe_inv. cbn. rewrite !cb_new_list. by repeat split.
Qed.

Lemma pipe_steps_inv p0 t p :
  pipe_init p0 -> pipe_steps p0 t p -> exists ex, pipe_inv (p_ns p0) t ex p.
Proof.
  intros H0 Hs. revert H0. induction Hs as [p|p1 t p2 e p3 _ IH Hstep]; intros H0.
  - exists []. by apply pipe_init_inv.
  - destruct (IH H0) as [ex Hinv]. by eapply pipe_step_inv.
Qed.

(** *** Capacity *)

Definition within_capacity (q : emul_ioqueue B) : Prop :=
  Z.of_nat (length (qlist q)) <= cb_capacity (eq_queue q).

(** A step puts at most one command on a queue, where there is room, and keeps
    the sizes of the queues. *)
Lemma pipe_step_queues n0 t ex p e p' :
  pipe_inv n0 t ex p -> pipe_step p e p' ->
  cb_capacity (eq_queue (p_sq p')) = cb_capacity (eq_queue (p_sq p)) /\
  cb_capacity (eq_queue (p_cq p')) = cb_capacity (eq_queue (p_cq p)) /\
  (within_capacity (p_sq p) -> within_capacity (p_sq p')) /\
  (within_capacity (p_cq p) -> within_capacity (p_cq p')).
Proof.
  intros (_ & _ & _ & H3 & H4 & H5) Hstep.
  assert (Hin : forall c (q q' : emul_ioqueue B), eq_shutdown q = false -> enqueue c true q = Done (KV_SUCCESS, q') ->
    cb_capacity (eq_queue q') = cb_capacity (eq_queue q) /\ (within_capacity q -> within_capacity q')).
  { intros c q q' Hs E. destruct (enqueue_Done _ _ _ Hs E) as (L & _ & _ & ? & Hc). split; [done|].
    unfold within_capacity. rewrite L, Hc, length_app. simpl. lia. }
  assert (Hout : forall b tm x c (q q' : emul_ioqueue B), dequeue b tm x q = Done (KV_SUCCESS, Some c, q') ->
    cb_capacity (eq_queue q') = cb_capacity (eq_queue q) /\ (within_capacity q -> within_capacity q')).
  { intros b tm x c q q' E. destruct (dequeue_Done _ _ _ _ _ _ E) as (_ & L & _ & _ & Hc). split; [done|].
    unfold within_capacity. rewrite L, Hc. simpl. lia. }
  destruct Hstep as [c sq w cq ss n sq' E|c x sq cq ss n sq' E|c sq cq ss n c' n' E|c sq cq ss n cq' E
    |i num sq w cq ss n Hi _|i k tm c sq w cq ss n cq' Hi E|i k tm sq w cq ss n cq' Hi E
    |i k c sq w cq ss n Hi|i c x sq w cq ss n cq' Hi E|i c sq w cq ss n Hi];
    simpl in *; try done.
  - destruct (Hin _ _ _ H3 E) as [? ?]. done.
  - destruct (Hout _ _ _ _ _ _ E) as [? ?]. done.
  - destruct (Hin _ _ _ H4 E) as [? ?]. done.
  - destruct (Hout _ _ _ _ _ _ E) as [? ?]. done.
  - by destruct (dequeue_None _ _ _ _ _ E H4) as [-> _].
  - destruct (Hout _ _ _ _ _ _ E) as [? ?]. done.
Qed.

(** *** Progress *)

(** The work left when thread [i] polls: a command is worth what it still has to
    go through, and starting a call of [poll_completion] is a step as well. *)
Definition work (i : Z) p : nat :=
  (10 * (5 * length (qlist (p_sq p)) + 4 * length (fetched (p_worker p)) +
         3 * length (executed (p_worker p)) + 2 * length (qlist (p_cq p)) + length (held (p_servers p)))
   + match server_of i (p_servers p) with SIdle => 1 | _ => 0 end)%nat.

Definition has_room (p : pipe B S) : Prop :=
  1 <= cb_capacity (eq_queue (p_sq p)) /\ 1 <= cb_capacity (eq_queue (p_cq p)).

Lemma pipe_step_room n0 t ex p e p' :
  pipe_inv n0 t ex p -> pipe_step p e p' -> has_room p -> has_room p'.
Proof.
  intros Hinv Hstep. destruct (pipe_step_queues _ _ _ _ _ _ Hinv Hstep) as (E1 & E2 & _).
  unfold has_room. by rewrite E1, E2.
Qed.

Lemma held_insert_length i s ss :
  (length (held (<[i := s]> ss)) + length (holds (server_of i ss))
   = length (held ss) + length (holds s))%nat.
Proof.
  rewrite (Permutation_length (held_lookup i ss)). unfold held at 1.
  rewrite (Permutation_length (gather_insert holds ss i s)). unfold held. rewrite !length_app. lia.
Qed.

(** A step, not a submission, that only thread [i] takes a command in, and that
    leaves less work. *)
Definition advances i p : Prop :=
  exists e p', pipe_step p e p' /\ submitted [e] = [] /\ only i [e] /\ (work i p' < work i p)%nat.

Lemma held_advances i j c p : holds (server_of j (p_servers p)) = [c] -> advances i p.
Proof.
  intros H. destruct p as [sq w cq ss n]. simpl in H.
  assert (Hs : exists s, holds s = [] /\ pipe_step (Pipe sq w cq ss n) (ECall j c) (Pipe sq w cq (<[j := s]> ss) n)).
  { destruct (server_of j ss) as [|k|k c'|c'] eqn:E; try done; simpl in H; injection H as ->.
    - exists (turns k). split; [apply holds_turns|by apply ps_poll_call].
    - exists SIdle. split; [done|by apply ps_interrupt_call]. }
  destruct Hs as (s & Hs & Hstep). eexists _, _. split; [exact Hstep|]. split; [done|].
  split; [by apply Forall_singleton|]. unfold work. simpl.
  pose proof (held_insert_length j s ss) as Hl. rewrite H, Hs in Hl. simpl in Hl.
  destruct (server_of i (<[j := s]> ss)), (server_of i ss); lia.
Qed.

Lemma cq_advances i n0 t ex p c l :
  pipe_inv n0 t ex p -> held (p_servers p) = [] -> qlist (p_cq p) = c :: l -> advances i p.
Proof.
  intros (_ & _ & _ & _ & H4 & H5) Hh Hq. destruct p as [sq w cq ss n]. simpl in *.
  assert (H0 : holds (server_of i ss) = []).
  { pose proof (Permutation_length (held_lookup i ss)) as Hl. rewrite Hh, length_app in Hl.
    by destruct (holds (server_of i ss)). }
  destruct (server_of i ss) as [|k|k c'|c'] eqn:E; try done.
  - eexists _, _. split; [by apply (ps_poll_start i 1)|]. split; [done|].
    split; [by apply Forall_singleton|]. change (turns (Z.to_nat (poll_count 1))) with (Polling 0).
    pose proof (held_insert_length i (Polling 0) ss) as Hl. rewrite E in Hl. simpl in Hl.
    unfold work. simpl. rewrite server_of_insert, decide_True, E by done. lia.
  - destruct (dequeue_nonblock cq 0 H4) as [[Hq' _]|(c' & q' & E' & Hq')]; [by rewrite Hq in Hq'|].
    eexists _, _. split; [by eapply ps_poll_take|]. split; [done|]. split; [by apply Forall_singleton|].
    unfold work. simpl. rewrite server_of_insert, decide_True, E by done.
    pose proof (held_insert_length i (Holding k c') ss) as Hl. rewrite E in Hl. simpl in Hl.
    rewrite Hq'. simpl. lia.
Qed.

Lemma worker_advances i n0 t ex p :
  pipe_inv n0 t ex p -> has_room p -> qlist (p_cq p) = [] ->
  fetched (p_worker p) ++ executed (p_worker p) ++ qlist (p_sq p) <> [] -> advances i p.
Proof.
  intros (_ & _ & _ & H3 & H4 & H5) [R1 R2] Hcq Hne. destruct p as [sq w cq ss n]. simpl in *.
  destruct w as [|c|c]; simpl in Hne.
  - destruct (dequeue_nonblock sq 0 H3) as [[Hq' _]|(c' & q' & E' & Hq')]; [by rewrite Hq' in Hne|].
    eexists _, _. split; [eapply (ps_fetch c' false)|].
    + unfold dequeue in E' |- *. rewrite cb_empty_list, Hq' in *. simpl in *.
      unfold need_shutdown in *. rewrite H3 in *. exact E'.
    + split; [done|]. split; [by apply Forall_singleton|]. unfold work. simpl. rewrite Hq'. simpl.
      destruct (server_of i ss); lia.
  - destruct (execute_cmd keylen_fixed c n) as [c' n'] eqn:E.
    eexists _, _. split; [by eapply ps_execute|]. split; [done|]. split; [by apply Forall_singleton|].
    unfold work. simpl. destruct (server_of i ss); lia.
  - eexists _, _. split; [eapply ps_complete|].
    + unfold enqueue, enqueue_loop, need_shutdown. rewrite H4, cb_full_list, Hcq.
      rewrite (proj2 (Z.leb_gt _ _)) by (simpl; lia). reflexivity.
    + split; [done|]. split; [by apply Forall_singleton|]. unfold work. simpl.
      rewrite cb_push_list by (rewrite cb_full_list, Hcq; apply Z.leb_gt; simpl; lia).
      rewrite Hcq. simpl. destruct (server_of i ss); lia.
Qed.

(** The commands that have not gone through. *)
Definition left_over p : list io_cmd :=
  held (p_servers p) ++ qlist (p_cq p) ++ executed (p_worker p) ++ fetched (p_worker p) ++ qlist (p_sq p).

Lemma pipe_progress i n0 t ex p :
  pipe_inv n0 t ex p -> has_room p -> left_over p <> [] -> advances i p.
Proof.
  intros Hinv Hroom Hne. unfold left_over in Hne.
  destruct (held (p_servers p)) as [|c l] eqn:Hh.
  - destruct (qlist (p_cq p)) as [|c l] eqn:Hcq; [|by eapply cq_advances].
    eapply worker_advances; try done. intros E. apply Hne.
    apply app_nil in E as [-> E]. apply app_nil in E as [-> ->]. done.
  - assert (Hin : c ∈ held (p_servers p)) by (rewrite Hh; left).
    apply elem_of_gather in Hin as (j & s & Hj & Hc). apply (held_advances i j c).
    unfold server_of. rewrite Hj. simpl. destruct s; simpl in *;
      try (by apply elem_of_nil in Hc); apply list_elem_of_singleton in Hc; by subst.
Qed.

(** *** A call of [poll_completion] that no other thread disturbs *)

Lemma pipe_steps_trans p1 t1 p2 t2 p3 :
  pipe_steps p1 t1 p2 -> pipe_steps p2 t2 p3 -> pipe_steps p1 (t1 ++ t2) p3.
Proof.
  intros H1 H2. induction H2 as [|p2 t2 p e p3 _ IH Hstep]; [by rewrite app_nil_r|].
  rewrite app_assoc. eapply pss_snoc; [by apply IH|done].
Qed.

Lemma pipe_steps_one p e p' : pipe_step p e p' -> pipe_steps p [e] p'.
Proof. intros H. change [e] with ([] ++ [e]). by eapply pss_snoc; [constructor|]. Qed.

Lemma poll_loop_steps i tm k sq w cq ss n r cs cq' :
  eq_shutdown cq = false -> server_of i ss = turns k ->
  poll_loop k tm KV_SUCCESS cq = (r, cs, cq') ->
  exists t ss', pipe_steps (Pipe sq w cq ss n) t (Pipe sq w cq' ss' n) /\
    taken t = cs /\ completed t = cs /\ server_of i ss' = SIdle.
Proof.
  revert cq ss cs. induction k as [|k IH]; intros cq ss cs Hs Hi E; cbn [poll_loop] in E.
  - injection E as <- <- <-. exists [], ss. by repeat constructor.
  - destruct (dequeue_nonblock cq tm Hs) as [[_ Hd]|(c & q1 & Hd & _)]; rewrite Hd in E; cbn iota in E.
    + destruct (IH cq (<[i := turns k]> ss) cs Hs) as (t & ss' & Hst & Ht & Hc & Hi');
        [by rewrite server_of_insert, decide_True|done|].
      exists ([ETau] ++ t), ss'. split; [|by rewrite taken_app, completed_app, Ht, Hc].
      eapply pipe_steps_trans; [|exact Hst]. apply pipe_steps_one. by eapply ps_poll_none.
    + destruct (dequeue_Done _ _ _ _ _ _ Hd) as (_ & _ & Hs1 & _).
      destruct (poll_loop k tm KV_SUCCESS q1) as [[r1 cs1] q2] eqn:E1. injection E as <- <- <-.
      destruct (IH q1 (<[i := turns k]> (<[i := Holding k c]> ss)) cs1 Hs1)
        as (t & ss' & Hst & Ht & Hc & Hi'); [by rewrite server_of_insert, decide_True|done|].
      exists ([ETake i c] ++ [ECall i c] ++ t), ss'.
      split; [|by rewrite !taken_app, !completed_app, Ht, Hc].
      eapply pipe_steps_trans; [apply pipe_steps_one; by eapply ps_poll_take|].
      eapply pipe_steps_trans; [|exact Hst]. apply pipe_steps_one. apply ps_poll_call.
      by rewrite server_of_insert, decide_True.
Qed.

(** The function [eq_poll_completion] is a run of the steps of one idle thread,
    which takes the commands it returns and runs their callbacks. *)
Theorem poll_undisturbed i tm num sq w cq ss n r cs nc cq' :
  eq_shutdown cq = false -> get_type cq = COMPLETION_Q_TYPE -> server_of i ss = SIdle ->
  eq_poll_completion tm num cq = (r, cs, nc, cq') ->
  exists t ss', pipe_steps (Pipe sq w cq ss n) t (Pipe sq w cq' ss' n) /\
    taken t = cs /\ completed t = cs /\ server_of i ss' = SIdle.
Proof.
  intros Hs Ht Hi E. unfold eq_poll_completion in E. rewrite Ht in E. cbn [negb Z.eqb] in E.
  change (COMPLETION_Q_TYPE =? COMPLETION_Q_TYPE) with true in E. cbn [negb] in E.
  set (k := Z.to_nat (poll_count num)) in *.
  destruct (poll_loop k tm KV_SUCCESS cq) as [[r1 cs1] q1] eqn:E1.
  assert (cs1 = cs /\ q1 = cq') as [-> ->] by (by destruct (negb (is_success r1)); injection E as <- <- <- <-).
  destruct (poll_loop_steps i tm k sq w cq (<[i := turns k]> ss) n r1 cs cq' Hs)
    as (t & ss' & Hst & Htk & Hc & Hi'); [by rewrite server_of_insert, decide_True|done|].
  exists ([ETau] ++ t), ss'. split; [|by rewrite taken_app, completed_app, Htk, Hc].
  eapply pipe_steps_trans; [|exact Hst]. apply pipe_steps_one. by apply ps_poll_start.
Qed.

(** ** Properties *)

(** C8. From new queues on and as long as none is shut down, whatever the interleaving
    of the submitting host, the worker thread, any number of polling threads and the
    interrupt thread, each of which runs a callback after it has released the lock of
    the queue: the commands leave the completion
    queue with the results of executing the submitted commands one after the other
    in submission order, each once; each of them has had its callback once or is
    held by the thread that took it; the namespace is in the state that the
    executed prefix leads to, and every other command is still in the pipeline.
    When a single thread serves the completion queue the callbacks run in that
    order too (with several threads they may overtake each other). *)
Theorem pipeline_sequential p0 t p :
  pipe_init p0 -> pipe_steps p0 t p ->
  exists ex pend,
    submitted t = ex ++ pend /\
    (run_seq ex (p_ns p0)).2 = p_ns p /\
    taken t `prefix_of` (run_seq ex (p_ns p0)).1 /\
    taken t ≡ₚ completed t ++ held (p_servers p) /\
    (forall i, only i t -> completed t `prefix_of` (run_seq ex (p_ns p0)).1) /\
    length (submitted t) = (length (completed t) + length (left_over p))%nat.
Proof.
  intros H0 Hs. destruct (pipe_steps_inv p0 t p H0 Hs) as (ex & H1 & H2 & [Hp Ho] & _).
  exists ex, (fetched (p_worker p) ++ qlist (p_sq p)). split; [done|].
  rewrite H2. split; [done|]. split; [by eexists|]. split; [done|]. split.
  - intros i Hi. destruct (Ho i Hi) as [-> _]. rewrite <- app_assoc. by eexists.
  - pose proof (length_run_seq ex (p_ns p0)) as Hl. rewrite H2 in Hl. simpl in Hl.
    rewrite H1. apply Permutation_length in Hp. unfold left_over.
    rewrite !length_app in *. lia.
Qed.

(**  The queues never hold more commands than the size they were created with. *)
Theorem pipeline_capacity p0 t p :
  pipe_init p0 -> pipe_steps p0 t p -> within_capacity (p_sq p) /\ within_capacity (p_cq p).
Proof.
  intros H0 Hs. pose proof H0 as Hi. revert Hi.
  induction Hs as [p|p1 t p2 e p3 Hs IH Hstep]; intros Hi.
  - destruct p as [sq w cq ss n]. destruct Hi as (h1 & h2 & si & ci & _ & _ & ? & ? & E1 & E2 & _).
    simpl in *. subst. unfold within_capacity. simpl. by rewrite !cb_new_list, !cb_new_capacity.
  - destruct (pipe_steps_inv p1 t p2 H0 Hs) as [ex Hinv]. destruct (IH H0 Hi) as [W1 W2].
    destruct (pipe_step_queues _ _ _ _ _ _ Hinv Hstep) as (_ & _ & ? & ?). auto.
Qed.

(** C15. A pipeline whose queues have room for at least one command never gets
    stuck: from every reachable state, steps of the worker and of one polling
    thread [i], and the callbacks of commands that other threads hold, lead to a state
    where every submitted command has been executed and its callback has run once,
    with the results of the sequential execution, and in that order when [i] is the
    only thread that ever served the completion queue. *)
Theorem pipeline_drains p0 t p i :
  pipe_init p0 -> has_room p0 -> pipe_steps p0 t p ->
  exists t' p', pipe_steps p0 (t ++ t') p' /\ submitted t' = [] /\ only i t' /\
    completed (t ++ t') ≡ₚ (run_seq (submitted t) (p_ns p0)).1 /\
    (only i t -> completed (t ++ t') = (run_seq (submitted t) (p_ns p0)).1) /\
    p_ns p' = (run_seq (submitted t) (p_ns p0)).2.
Proof.
  intros H0 Hroom0 Hs. assert (Hroom : has_room p).
  { pose proof H0 as Hi. revert Hroom0 Hi. induction Hs as [|p1 t p2 e p3 Hs IH Hstep]; intros; [done|].
    destruct (pipe_steps_inv p1 t p2 H0 Hs) as [ex Hinv]. eauto using pipe_step_room. }
  remember (work i p) as w eqn:Hw. revert t p Hs Hroom Hw.
  induction w as [w IH] using lt_wf_ind. intros t p Hs Hroom Hw.
  destruct (pipe_steps_inv p0 t p H0 Hs) as [ex Hinv].
  destruct (decide (left_over p = [])) as [Hz|Hz].
  - exists [], p. rewrite app_nil_r. split; [done|]. split; [done|]. split; [by apply Forall_nil_2|].
    destruct Hinv as (H1 & H2 & [Hp Ho] & _). unfold left_over in Hz.
    apply app_nil in Hz as [Hh Hz]. apply app_nil in Hz as [Hc Hz]. apply app_nil in Hz as [He Hz].
    rewrite Hz, app_nil_r in H1. rewrite Hc, He, !app_nil_r in H2. rewrite Hh, app_nil_r in Hp.
    rewrite H1, H2. split; [by symmetry|]. split; [|done]. intros Hi. destruct (Ho i Hi) as [E _]. simpl.
    rewrite E. apply Permutation_length in Hp. rewrite E, length_app in Hp.
    destruct (holds _); [by rewrite app_nil_r|simpl in Hp; lia].
  - destruct (pipe_progress i _ _ _ _ Hinv Hroom Hz) as (e & p1 & Hstep & Hsub & Hon & Hlt).
    destruct (IH (work i p1) ltac:(lia) (t ++ [e]) p1) as (t' & p' & S1 & S2 & S3 & S4 & S5 & S6);
      [by eapply pss_snoc|eauto using pipe_step_room|done|].
    exists ([e] ++ t'), p'. rewrite submitted_app, Hsub, app_nil_r in S4, S5, S6.
    rewrite app_assoc. split; [done|]. split; [by rewrite submitted_app, Hsub|].
    split; [by apply only_app|]. split; [done|]. split; [|done]. intros Hi. apply S5. by apply only_app.
Qed.

(**  A queue created with size 0 is dead: putting a command on it waits,
    and so does taking one off, so neither of the two threads that could wake
    the other ever makes a step. *)
Theorem zero_size_queue_blocks h info out c (q : emul_ioqueue B) :
  q_queue_size info = 0 -> q = emul_ioqueue_new h info out ->
  enqueue c true q = Wait /\
  forall x, dequeue true 0 x q = Wait.
Proof.
  intros Hz ->. unfold enqueue, enqueue_loop, dequeue, need_shutdown, emul_ioqueue_new.
  cbn [eq_shutdown eq_queue]. rewrite Hz, cb_full_list, cb_empty_list, cb_new_list, cb_new_capacity.
  split; [done|]. intros x. simpl. by rewrite andb_false_r.
Qed.
End pipeline.

(** ** A concrete pipeline *)

Definition demo_sq : kv_queue := KvQueue 1 1 2 SUBMISSION_Q_TYPE.
Definition demo_cq : kv_queue := KvQueue 2 1 0 COMPLETION_Q_TYPE.

Definition p_demo : pipe (list_buffer io_cmd) kvstore :=
  Pipe (emul_ioqueue_new None demo_sq (Some 2)) Idle (emul_ioqueue_new None demo_cq None) ∅ n_demo.

Lemma p_demo_init : pipe_init p_demo.
Proof. exists None, None, demo_sq, demo_cq. by repeat split. Qed.

Definition demo_store : io_cmd := demo_cmd 1 (store_info KV_STORE_OPT_DEFAULT).

(** One command through the whole pipeline. *)
Lemma p_demo_run : exists t p,
  pipe_steps true p_demo t p /\ submitted t = [demo_store] /\
  completed t = [set_retcode KV_SUCCESS demo_store].
Proof.
  eexists ([ESubmit demo_store] ++ [ETau] ++ [ETau] ++ [ETau] ++ [ETau] ++ 
    [ETake 7 (set_retcode KV_SUCCESS demo_store)] ++ [ECall 7 (set_retcode KV_SUCCESS demo_store)]), _.
  split; [|split; reflexivity].
  eapply pipe_steps_trans; [apply pipe_steps_one; eapply ps_submit; reflexivity|].
  eapply pipe_steps_trans; [apply pipe_steps_one; eapply (ps_fetch true _ false); reflexivity|].
  eapply pipe_steps_trans; [apply pipe_steps_one; eapply ps_execute; reflexivity|].
  eapply pipe_steps_trans; [apply pipe_steps_one; eapply ps_complete; reflexivity|].
  eapply pipe_steps_trans; [apply pipe_steps_one; eapply (ps_poll_start true 7 1); reflexivity|].
  eapply pipe_steps_trans; [apply pipe_steps_one; eapply (ps_poll_take true 7 0 0); reflexivity|].
  apply pipe_steps_one; eapply (ps_poll_call true 7 0); reflexivity.
Qed.

Lemma pipeline_sequential_witness :
  exists t (p : pipe (list_buffer io_cmd) kvstore) ex pend,
    completed t = [set_retcode KV_SUCCESS demo_store] /\
    submitted t = ex ++ pend /\ (run_seq true ex n_demo).2 = p_ns p.
Proof.
  destruct p_demo_run as (t & p & Hs & H1 & H2).
  destruct (pipeline_sequential true p_demo t p p_demo_init Hs) as (ex & pend & E1 & E2 & _).
  exists t, p, ex, pend. split; [exact H2|]. split; [exact E1|exact E2].
Defined.

Lemma pipeline_capacity_witness :
  exists t p, pipe_steps true p_demo t p /\ within_capacity (p_sq p) /\ within_capacity (p_cq p).
Proof.
  destruct p_demo_run as (t & p & Hs & _). exists t, p. split; [exact Hs|].
  exact (pipeline_capacity true p_demo t p p_demo_init Hs).
Defined.

Lemma pipeline_drains_witness :
  exists t p t' p', pipe_steps true p_demo t p /\ pipe_steps true p_demo (t ++ t') p' /\
    completed (t ++ t') ≡ₚ (run_seq true (submitted t) n_demo).1.
Proof.
  destruct p_demo_run as (t & p & Hs & _).
  destruct (pipeline_drains true p_demo t p 7 p_demo_init) as (t' & p' & E1 & _ & _ & E2 & _).
  - split; vm_compute; discriminate.
  - exact Hs.
  - exists t, p, t', p'. split; [exact Hs|]. split; [exact E1|exact E2].
Defined.

Lemma zero_size_queue_blocks_witness :
  let q : emul_ioqueue (list_buffer io_cmd) := emul_ioqueue_new None (KvQueue 1 0 2 0) (Some 2) in
  enqueue demo_store true q = Wait.
Proof.
  exact (proj1 (zero_size_queue_blocks None (KvQueue 1 0 2 0) (Some 2) demo_store _ eq_refl eq_refl)).
Defined.
