(* ===== verification/CmdSpec.v ===== *)
(** * Commands refine the abstract store

    A sequence of commands that [execute_cmd] runs on a namespace of the emulator
    answers as the abstract store of [EmulSpec] does: each command is dispatched to
    the operation it names, with its key, value, key space and option, and its result
    fields hold the answer. *)

From stdpp Require Import base numbers list gmap.
From S2P Require Import Prelude.
From S2P Require Import AdiTypes.
From S2P Require Import Emulator.
From S2P Require Import EmulInv.
From S2P Require Import EmulSpec.
From S2P Require Import DeviceApi.
From S2P Require Import Namespace.
From S2P Require Import IoCmd.
From S2P Require Import Queue.

Implicit Types (c : io_cmd) (n : kv_namespace_internal kvstore) (s : astore).

(** ** What a command asks for *)

(** The operation on the store, if the command has the key and the value it needs;
    sanitizing is purging one key space. *)
Definition cmd_op c : option emul_op :=
  let ks := c_ks_id c in
  match c_command c, c_key c, c_value c with
  | store_info opt, Some (k :: _), Some v => Some (OStore ks k v opt)
  | get_info opt, Some (k :: _), Some v => Some (ORetrieve ks k opt v)
  | delete_info opt, Some (k :: _), _ => Some (ODelete ks k opt)
  | purge_info opt, _, _ => Some (OPurge ks opt)
  | sanitize_info _, _, _ => Some (OPurge ks KV_PURGE_OPT_DEFAULT)
  | _, _, _ => None
  end.

Definition resp_code (r : emul_resp) : kv_result :=
  match r with RStore r _ | RRetrieve r _ | RDelete r _ | RPurge r => r end.
Definition resp_value (r : emul_resp) (v : option kv_value) : option kv_value :=
  match r with RRetrieve _ v => Some v | _ => v end.

(** The code and the value structure the command ends with, and the store after it. *)
Definition cmd_spec c s : kv_result * option kv_value * astore :=
  match cmd_op c with
  | None => (KV_ERR_PARAM_INVALID, c_value c, s)
  | Some o =>
      if bool_decide (0 <= c_ks_id c <= 1)
      then let '(r, s') := spec_run o s in (resp_code r, resp_value r (c_value c), s')
      else (KV_ERR_KEYSPACE_INVALID, c_value c, s)
  end.

Fixpoint cmds_spec (cs : list io_cmd) s : list (kv_result * option kv_value) * astore :=
  match cs with
  | [] => ([], s)
  | c :: cs =>
      let '(r, v, s) := cmd_spec c s in
      let '(rs, s) := cmds_spec cs s in ((r, v) :: rs, s)
  end.

(** Commands that store, read, delete, purge or sanitize, with the arguments that the
    device layer lets pass; [ks_id] is an [int8_t]. *)
Definition cmd_basic c : Prop :=
  -128 <= c_ks_id c < 128 /\
  match c_command c with
  | store_info _ =>
      (forall k, cmd_key c = Some k -> emul_key_ok k) /\ (forall v, c_value c = Some v -> emul_value_ok v)
  | get_info _ =>
      (forall k, cmd_key c = Some k -> emul_key_ok k) /\
      (forall v, c_value c = Some v -> 0 <= v_length v < 2 ^ 32 /\ 0 <= v_offset v < 2 ^ 32)
  | delete_info _ => forall k, cmd_key c = Some k -> emul_key_ok k
  | purge_info _ | sanitize_info _ => True
  | _ => False
  end.

(** The namespace works on a well-formed emulator, not on the no-op store. *)
Definition ns_in_use n : Prop :=
  use_dummy (m_kvstore n) = false /\ emul_wf (m_emul (m_kvstore n)) /\ 0 < m_capacity (m_emul (m_kvstore n)).

Definition ns_abs n : astore := abs (m_emul (m_kvstore n)).

(** ** One command *)

#[local] Arguments kv_store : simpl never.
#[local] Arguments kv_retrieve : simpl never.
#[local] Arguments kv_delete : simpl never.
#[local] Arguments kv_purge : simpl never.

Lemma cmd_ks_valid c : -128 <= c_ks_id c < 128 ->
  ks_id_invalid (cmd_ks_id c) = negb (bool_decide (0 <= c_ks_id c <= 1)) /\ (0 <= c_ks_id c <= 1 -> cmd_ks_id c = c_ks_id c).
Proof.
  intros Hk. unfold cmd_ks_id, ks_id_invalid, u8. split; [|intros; apply Z.mod_small; lia].
  case_bool_decide; cbn [negb].
  - rewrite Z.mod_small by lia. lia.
  - destruct (Z_le_gt_dec 0 (c_ks_id c)); [rewrite Z.mod_small by lia; lia|].
    replace (c_ks_id c mod 2 ^ 8) with (c_ks_id c + 256); [lia|]. apply Z.mod_unique with (-1); lia.
Qed.

(** A command that names no operation is refused and changes nothing. *)
Lemma cmd_refused fixed c n :
  cmd_basic c -> cmd_op c = None ->
  (execute_cmd fixed c n).1 = set_retcode KV_ERR_PARAM_INVALID (set_value (c_value c) c) /\
  m_kvstore (execute_cmd fixed c n).2 = m_kvstore n.
Proof.
  intros [_ Hb] Ho. unfold cmd_op in Ho. unfold execute_cmd, cmd_key, ns_kv_store, ns_kv_retrieve, ns_kv_delete.
  destruct c as [key value ? ? ? ? ? ? ? cmd ?]. cbn in *.
  destruct cmd; try done; destruct key as [[|k ks]|], value as [v|]; try done.
Qed.

(** A command with a key space that does not exist is refused. *)
Lemma cmd_no_space fixed c n o :
  cmd_op c = Some o -> ks_id_invalid (cmd_ks_id c) = true ->
  c_retcode (execute_cmd fixed c n).1 = KV_ERR_KEYSPACE_INVALID /\
  c_value (execute_cmd fixed c n).1 = c_value c /\ m_kvstore (execute_cmd fixed c n).2 = m_kvstore n.
Proof.
  intros Ho Hi. unfold cmd_op in Ho. unfold execute_cmd, cmd_key, ns_kv_store, ns_kv_retrieve, ns_kv_delete, ns_kv_purge. rewrite Hi.
  destruct c as [key value ? ? ? ? ? ? ? cmd ?]. cbn in *.
  destruct cmd; try done; try (destruct key as [[|k keys]|]; try done); try (destruct value as [v|]; done).
Qed.

Lemma cmd_op_ok c o : cmd_basic c -> cmd_op c = Some o -> 0 <= c_ks_id c <= 1 -> op_ok o.
Proof.
  intros [_ Hb] Ho Hk. unfold cmd_op in Ho. assert (Hks : ks_ok (c_ks_id c)) by (unfold ks_ok; lia). unfold cmd_key in Hb.
  destruct c as [key value ? ? ? ? ? ? ks cmd ?]. cbn in *.
  destruct cmd; try done; try (destruct key as [[|k keys]|]; try done); try (destruct value as [v|]; try done); injection Ho as <-; cbn in *;
    repeat match goal with H : _ /\ _ |- _ => destruct H end; auto.
Qed.

(** A command with a key space that exists runs the operation it names. *)
Lemma cmd_dispatch fixed c n o :
  use_dummy (m_kvstore n) = false -> cmd_op c = Some o -> cmd_ks_id c = c_ks_id c -> ks_id_invalid (cmd_ks_id c) = false ->
  let '(c', n') := execute_cmd fixed c n in
  let '(r, e) := emul_run o (m_emul (m_kvstore n)) in
  c_retcode c' = resp_code r /\ c_value c' = resp_value r (c_value c) /\ m_kvstore n' = KvStore e (m_dummy (m_kvstore n)) false.
Proof.
  intros Hd Ho Hk Hi. unfold cmd_op in Ho. unfold execute_cmd, cmd_key. rewrite Hk in *.
  destruct c as [key value pd rc bs bc hi pf ks cmd sq]. cbn in *.
  destruct cmd; try done; try (destruct key as [[|k keys]|]; try done); try (destruct value as [v|]; try done); injection Ho as <-; cbn;
    unfold ns_kv_store, ns_kv_retrieve, ns_kv_delete, ns_kv_purge; cbn; rewrite Hi; unfold on_kvstore; cbn; rewrite Hd; cbn.
  all: match goal with
       | |- context [kv_store ?k ?x ?v ?o ?c ?e] => destruct (kv_store k x v o c e) as [[r m] e']
       | |- context [kv_retrieve ?k ?x ?o ?v ?e] => destruct (kv_retrieve k x o v e) as [[r m] e']
       | |- context [kv_delete ?k ?x ?o ?m ?e] => destruct (kv_delete k x o m e) as [[r [m'|]] e']
       | |- context [kv_purge ?k ?o ?e] => destruct (kv_purge k o e) as [r e']
       end; cbn; try done; by destruct (is_success r).
Qed.

Lemma cmd_run fixed c n :
  cmd_basic c -> ns_in_use n ->
  let '(c', n') := execute_cmd fixed c n in
  cmd_spec c (ns_abs n) = (c_retcode c', c_value c', ns_abs n') /\ ns_in_use n'.
Proof.
  intros Hb (Hd & Hwf & Hcap). unfold cmd_spec. destruct (cmd_op c) as [o|] eqn:Ho; cycle 1.
  { destruct (cmd_refused fixed c n Hb Ho) as [Hc Hs]. destruct (execute_cmd fixed c n) as [c' n']. cbn in Hc, Hs. subst c'.
    unfold ns_in_use, ns_abs. by rewrite Hs. }
  destruct (cmd_ks_valid c (proj1 Hb)) as [Hi Hk]. case_bool_decide as Hks; cbn [negb] in Hi.
  - pose proof (cmd_dispatch fixed c n o Hd Ho (Hk Hks) Hi) as Hrun. assert (Hok : op_ok o) by (by eapply cmd_op_ok).
    destruct (emul_run_keeps o _ Hwf Hok) as [Hwf' Hcap']. pose proof (emul_run_refines o _ Hwf Hcap Hok) as Href.
    destruct (execute_cmd fixed c n) as [c' n'], (emul_run o _) as [r e]. cbn in Hwf', Hcap', Href. destruct Hrun as (-> & -> & Hs).
    unfold ns_in_use, ns_abs. rewrite Hs, Href. cbn. by rewrite Hcap'.
  - destruct (cmd_no_space fixed c n o Ho Hi) as (Hr & Hv & Hs). destruct (execute_cmd fixed c n) as [c' n']. cbn in *.
    unfold ns_in_use, ns_abs. by rewrite Hr, Hv, Hs.
Qed.

(** ** Sequences *)


Definition demo_cmds : list io_cmd :=
  [demo_cmd 1 (store_info KV_STORE_OPT_DEFAULT); demo_cmd 1 (delete_info KV_DELETE_OPT_ERROR);
   demo_cmd 1 (delete_info KV_DELETE_OPT_ERROR); demo_cmd 5 (purge_info KV_PURGE_OPT_DEFAULT)].

