(* ===== verification/Config.v ===== *)
(** * The configuration file of the emulator

    [emulator/src/kv_config.cpp] and the part of the constructor of
    [kv_device_internal] that reads the configuration.  A [std::string] is the
    list of its bytes, a file the list of its lines.  Library functions that
    throw on bad input ([std::stoull]) return [None] there. *)

From Stdlib.Strings Require Import String.
From stdpp Require Import base numbers list gmap.
From S2P Require Import Prelude.

Abbreviation str := (list byte).

(** The bytes of a string literal. *)
Definition lit (s : string) : str := list_byte_of_string s.

Definition nl : byte := Byte.x0a.

(** ** String functions of the standard library *)

(** [s.find(c)] *)
Fixpoint find_byte (c : byte) (s : str) : option nat :=
  match s with
  | [] => None
  | b :: s' => if decide (b = c) then Some O else S <$> find_byte c s'
  end.

(** [s.find_first_not_of(delims)] *)
Fixpoint find_first_not_of (delims s : str) : option nat :=
  match s with
  | [] => None
  | b :: s' => if decide (b ∈ delims) then S <$> find_first_not_of delims s' else Some O
  end.

(** [s.find_last_not_of(delims)] *)
Fixpoint find_last_not_of (delims s : str) : option nat :=
  match s with
  | [] => None
  | b :: s' =>
      match find_last_not_of delims s' with
      | Some i => Some (S i)
      | None => if decide (b ∈ delims) then None else Some O
      end
  end.

(** Whether [pat] occurs in [s]. *)
Fixpoint contains (pat s : str) : bool :=
  bool_decide (take (length pat) s = pat) ||
  match s with [] => false | _ :: s' => contains pat s' end.

Definition to_lower (b : byte) : byte :=
  if (65 <=? byteZ b) && (byteZ b <=? 90) then Zbyte (byteZ b + 32) else b.

(** [strcasecmp(a, b) == 0] *)
Definition strcaseeq (a b : str) : bool := bool_decide (to_lower <$> a = to_lower <$> b).

Definition is_digit (b : byte) : bool := (48 <=? byteZ b) && (byteZ b <=? 57).
Definition is_space (b : byte) : bool :=
  (byteZ b =? 32) || ((9 <=? byteZ b) && (byteZ b <=? 13)).

(** The value of the leading digits of [s], after [acc], and their number. *)
Fixpoint digits (s : str) (acc : Z) : Z * nat :=
  match s with
  | b :: s' => if is_digit b then let '(v, n) := digits s' (10 * acc + (byteZ b - 48)) in (v, S n)
               else (acc, O)
  | [] => (acc, O)
  end.

Fixpoint count_spaces (s : str) : nat :=
  match s with
  | b :: s' => if is_space b then S (count_spaces s') else O
  | [] => O
  end.

(** [std::stoull(s, &pos, 10)]: white space, a sign, digits; [None] where it
    throws because there are no digits or the value does not fit. *)
Definition stoull (s : str) : option (Z * nat) :=
  let sp := count_spaces s in
  let s1 := drop sp s in
  let '(neg, sg) := match s1 with
                    | b :: _ => if decide (b = Byte.x2d) then (true, 1%nat)
                                else if decide (b = Byte.x2b) then (false, 1%nat) else (false, O)
                    | [] => (false, O)
                    end in
  let '(v, n) := digits (drop sg s1) 0 in
  if (n =? 0)%nat then None
  else if 2 ^ 64 <=? v then None
  else Some (u64 (if neg : bool then - v else v), (sp + sg + n)%nat).

(** ** [class kv_config] *)

Definition default_delims : str := [Byte.x20; Byte.x09; Byte.x0d; Byte.x0a].

Definition trim (source delims : str) : str :=
  let result := match find_last_not_of delims source with
                | Some i => take (S i) source
                | None => source
                end in
  match find_first_not_of delims result with
  | Some i => drop i result
  | None => []
  end.

Abbreviation config_map := (gmap str str).

(** The name under which a setting is kept: ["section/key"]. *)
Definition config_key (section key : str) : str := section ++ [Byte.x2f] ++ key.

Definition getkv (m : config_map) (section key : str) : str :=
  default [] (m !! config_key section key).

(** One turn of the loop of [load_config]: the section and the settings so far. *)
Definition load_line (st : str * config_map) (line : str) : str * config_map :=
  let '(section_name, m) := st in
  let line := trim line default_delims in
  match line with
  | [] => st
  | c :: rest =>
      if decide (c = Byte.x23) then st                            (* # *)
      else if decide (c = Byte.x3b) then st                       (* ; *)
      else if decide (c = Byte.x5b)                               (* [ *)
      then
        let name := match find_byte Byte.x5d line with            (* ] *)
                    | Some p => take (p - 1) rest
                    | None => rest
                    end in
        (trim name default_delims, m)
      else
        let '(k, v) := match find_byte Byte.x3d line with         (* = *)
                       | Some p => (take p line, drop (S p) line)
                       | None => (line, line)
                       end in
        let name := config_key section_name (trim k default_delims) in
        let value := trim v default_delims in
        (section_name, match m !! name with Some _ => m | None => <[name := value]> m end)
  end.

Definition load_config (file : list str) : config_map :=
  (foldl load_line ([], ∅) file).2.

(** ** The settings of a device *)

Abbreviation GB := (1024 * 1024 * 1024)%Z (only parsing).

(** The capacity in bytes that the setting [cap_str] asks for; [None] where
    [std::stoull] throws. *)
Definition parse_capacity (cap_str : str) : option Z :=
  match cap_str with
  | [] => Some (512 * GB)
  | _ =>
      match stoull cap_str with
      | None => None
      | Some (v, pos) =>
          let unit_str := to_lower <$> drop pos cap_str in
          let capacity := if v <=? 0 then 4 * GB else v in
          Some (if contains (lit "gb") unit_str then u64 (capacity * GB)
                else if contains (lit "mb") unit_str then u64 (capacity * (1024 * 1024))
                else u64 (capacity * (1024 * 1024)))
      end
  end.

Record device_settings := DeviceSettings {
  set_capacity : Z;
  set_is_poll : bool;
  set_fixed_keylen : bool;
  set_iops_model : bool
}.

Definition general : str := lit "general".

(** What the constructor of the device takes from the configuration [m] and
    the caller's [is_polling]. *)
Definition device_config (m : config_map) (is_polling : bool) : option device_settings :=
  capacity ← parse_capacity (getkv m general (lit "capacity"));
  let poll := getkv m general (lit "polling") in
  Some (DeviceSettings capacity
    (if strcaseeq poll (lit "false") then false
     else if strcaseeq poll (lit "true") then true else is_polling)
    (negb (strcaseeq (getkv m general (lit "keylen_fixed")) (lit "false")))
    (negb (strcaseeq (getkv m general (lit "use_iops_model")) (lit "false")))).

(** ** Lemmas on trimming *)

Lemma find_last_not_of_spec delims s i :
  find_last_not_of delims s = Some i ->
  exists b, s !! i = Some b /\ (b ∉ delims) /\ Forall (fun c => c ∈ delims) (drop (S i) s).
Proof.
  revert i. induction s as [|b s IH]; intros i; simpl; [done|].
  destruct (find_last_not_of delims s) as [j|] eqn:E.
  - intros [= <-]. destruct (IH j eq_refl) as (c & ? & ? & ?). by exists c.
  - case_decide; [done|]. intros [= <-]. exists b. split; [done|]. split; [done|].
    rewrite drop_0. clear IH. induction s as [|c s IH]; [done|]. simpl in E.
    destruct (find_last_not_of delims s); [done|]. case_decide; [|done]. constructor; auto.
Qed.

Lemma find_last_not_of_None delims s :
  find_last_not_of delims s = None <-> Forall (fun c => c ∈ delims) s.
Proof.
  induction s as [|b s IH]; simpl; [done|].
  destruct (find_last_not_of delims s); split; try done.
  - rewrite Forall_cons. intros [_ H]. by apply IH in H.
  - case_decide; [|done]. intros _. constructor; [done|]. by apply IH.
  - rewrite Forall_cons. intros [H _]. by rewrite decide_True.
Qed.

Lemma find_first_not_of_spec delims s i :
  find_first_not_of delims s = Some i ->
  exists b, s !! i = Some b /\ (b ∉ delims) /\ Forall (fun c => c ∈ delims) (take i s).
Proof.
  revert i. induction s as [|b s IH]; intros i; simpl; [done|]. case_decide as Hb.
  - destruct (find_first_not_of delims s) as [j|]; [|done]. intros [= <-].
    destruct (IH j eq_refl) as (c & ? & ? & ?). exists c. split; [done|]. split; [done|].
    by constructor.
  - intros [= <-]. by exists b.
Qed.

Lemma find_first_not_of_None delims s :
  find_first_not_of delims s = None <-> Forall (fun c => c ∈ delims) s.
Proof.
  induction s as [|b s IH]; simpl; [done|]. rewrite Forall_cons, <- IH.
  case_decide; destruct (find_first_not_of delims s); simpl; split; first [by intros [? ?] | by intros].
Qed.

(** A string that trimming leaves as it is. *)
Definition clean (s : str) : Prop :=
  exists a b, head s = Some a /\ last s = Some b /\ (a ∉ default_delims) /\ (b ∉ default_delims).

Definition blank (s : str) : Prop := Forall (fun c => c ∈ default_delims) s.

Lemma find_first_blank_app pre s :
  blank pre -> find_first_not_of default_delims (pre ++ s) =
    (fun i => length pre + i)%nat <$> find_first_not_of default_delims s.
Proof.
  induction 1 as [|b pre Hb _ IH]; simpl.
  - by destruct (find_first_not_of default_delims s).
  - rewrite decide_True, IH by done. by destruct (find_first_not_of default_delims s).
Qed.

Lemma find_first_clean s : clean s -> find_first_not_of default_delims s = Some 0%nat.
Proof.
  intros (a & b & Ha & _ & Hna & _). destruct s as [|c s]; [done|]. injection Ha as ->.
  simpl. by rewrite decide_False.
Qed.

Lemma find_last_app s1 s2 :
  find_last_not_of default_delims (s1 ++ s2) =
  match find_last_not_of default_delims s2 with
  | Some i => Some (length s1 + i)%nat
  | None => find_last_not_of default_delims s1
  end.
Proof.
  induction s1 as [|b s1 IH]; simpl; [by destruct (find_last_not_of _ s2)|]. rewrite IH.
  by destruct (find_last_not_of _ s2).
Qed.

Lemma find_last_clean s :
  clean s -> find_last_not_of default_delims s = Some (length s - 1)%nat.
Proof.
  intros (a & b & _ & Hb & _ & Hnb). apply last_Some in Hb as [l ->].
  rewrite find_last_app. simpl. rewrite decide_False by done. rewrite length_app. simpl. f_equal. lia.
Qed.

(** Trimming removes the blanks around a clean string. *)
Lemma trim_around pre s post :
  blank pre -> clean s -> blank post -> trim (pre ++ s ++ post) default_delims = s.
Proof.
  intros Hpre Hs Hpost. assert (Hlen : (0 < length s)%nat).
  { destruct Hs as (a & _ & Ha & _). destruct s; [done|simpl; lia]. }
  unfold trim. rewrite app_assoc, find_last_app.
  rewrite (proj2 (find_last_not_of_None _ post) Hpost), find_last_app, find_last_clean by done.
  replace (S (length pre + (length s - 1))) with (length (pre ++ s)) by (rewrite length_app; lia).
  rewrite take_app_length, find_first_blank_app, find_first_clean by done. simpl.
  by rewrite Nat.add_0_r, drop_app_length.
Qed.

Lemma trim_clean s : clean s -> trim s default_delims = s.
Proof.
  intros Hs. pose proof (trim_around [] s []) as H. simpl in H. rewrite app_nil_r in H.
  apply H; [constructor|done|constructor].
Qed.

Lemma find_byte_app c s1 s2 :
  (c ∉ s1) -> find_byte c (s1 ++ c :: s2) = Some (length s1).
Proof.
  induction s1 as [|b s1 IH]; simpl; [by rewrite decide_True|].
  rewrite not_elem_of_cons. intros [Hne Hn]. rewrite decide_False by congruence. by rewrite IH.
Qed.

(** Trimming keeps a clean string and what follows it but for blanks at the end. *)
Lemma trim_keeps pre s rest :
  blank pre -> clean s ->
  exists rest' tail, rest = rest' ++ tail /\ blank tail /\ trim (pre ++ s ++ rest) default_delims = s ++ rest'.
Proof.
  intros Hpre Hs. destruct (find_last_not_of default_delims rest) as [i|] eqn:E.
  - exists (take (S i) rest), (drop (S i) rest). split; [by rewrite take_drop|].
    split; [by apply find_last_not_of_spec in E as (b & _ & _ & Hb)|].
    unfold trim. rewrite app_assoc, find_last_app, E, <- app_assoc.
    replace (S (length (pre ++ s) + i)) with (length pre + (length s + S i))%nat by (rewrite length_app; lia).
    rewrite !take_app_add, find_first_blank_app by done.
    assert (Hf : find_first_not_of default_delims (s ++ take (S i) rest) = Some O).
    { destruct Hs as (a & _ & Ha & _ & Hn & _). destruct s as [|c s]; [done|]. injection Ha as ->. simpl. by rewrite decide_False. }
    rewrite Hf. simpl. by rewrite Nat.add_0_r, drop_app_length.
  - apply find_last_not_of_None in E. exists [], rest. rewrite app_nil_r. by rewrite trim_around.
Qed.

Lemma trim_blank s : blank s -> trim s default_delims = [].
Proof.
  intros Hs. unfold trim. rewrite (proj2 (find_last_not_of_None _ s) Hs). by rewrite (proj2 (find_first_not_of_None _ s) Hs).
Qed.

Lemma trim_tail s tail : blank tail -> trim (s ++ tail) default_delims = trim s default_delims.
Proof.
  intros Ht. destruct (find_last_not_of default_delims s) as [i|] eqn:E.
  - unfold trim. rewrite find_last_app, (proj2 (find_last_not_of_None _ tail) Ht), E.
    apply find_last_not_of_spec in E as (b & Hb & _). apply lookup_lt_Some in Hb.
    by rewrite take_app_le by lia.
  - apply find_last_not_of_None in E. rewrite !trim_blank; [done|done|]. by apply Forall_app.
Qed.

(** ** What a configuration file says *)

(** A name or a value: no blanks at its ends, possibly empty. *)
Definition trimmed (s : str) : Prop := s = [] \/ clean s.

Lemma trim_trimmed pre s post :
  blank pre -> trimmed s -> blank post -> trim (pre ++ s ++ post) default_delims = s.
Proof.
  intros Hpre [->|Hs] Hpost; [|by apply trim_around]. apply trim_blank. by apply Forall_app.
Qed.

(** The kinds of lines of a file: an empty one, a comment, a header (with anything
    after its bracket), a setting, and a word without an equals sign; [pre], [post]
    and [sp] are blanks. *)
Inductive cfg_line :=
| LBlank (pre : str)
| LComment (pre : str) (mark : byte) (rest : str)
| LSection (pre sp1 name sp2 rest : str)
| LSetting (pre key sp1 sp2 value post : str)
| LBare (pre key post : str).

Definition text_of (l : cfg_line) : str :=
  match l with
  | LBlank pre => pre
  | LComment pre mark rest => pre ++ [mark] ++ rest
  | LSection pre sp1 name sp2 rest => pre ++ ([Byte.x5b] ++ sp1 ++ name ++ sp2 ++ [Byte.x5d]) ++ rest
  | LSetting pre key sp1 sp2 value post => pre ++ (key ++ sp1 ++ [Byte.x3d]) ++ sp2 ++ value ++ post
  | LBare pre key post => pre ++ key ++ post
  end.

(** A key does not begin like a comment or a header and has no equals sign. *)
Definition cfg_key_ok (key : str) : Prop :=
  clean key /\ (Byte.x3d ∉ key) /\
  forall c, head key = Some c -> c <> Byte.x23 /\ c <> Byte.x3b /\ c <> Byte.x5b.

(** The name of a section has no closing bracket and no slash. *)
Definition line_ok (l : cfg_line) : Prop :=
  match l with
  | LBlank pre => blank pre
  | LComment pre mark _ => blank pre /\ (mark = Byte.x23 \/ mark = Byte.x3b)
  | LSection pre sp1 name sp2 _ =>
      blank pre /\ blank sp1 /\ blank sp2 /\ trimmed name /\ (Byte.x5d ∉ name) /\ (Byte.x2f ∉ name)
  | LSetting pre key sp1 sp2 value post =>
      blank pre /\ cfg_key_ok key /\ blank sp1 /\ blank sp2 /\ trimmed value /\ blank post
  | LBare pre key post => blank pre /\ cfg_key_ok key /\ blank post
  end.

(** The value of the first setting of [key] in a section of the name [section], in
    lines that begin inside the section [current]; a word alone is its own value. *)
Fixpoint first_setting (section key current : str) (ls : list cfg_line) : option str :=
  match ls with
  | [] => None
  | LBlank _ :: ls | LComment _ _ _ :: ls => first_setting section key current ls
  | LSection _ _ name _ _ :: ls => first_setting section key name ls
  | LSetting _ k _ _ v _ :: ls =>
      if decide (current = section /\ k = key) then Some v else first_setting section key current ls
  | LBare _ k _ :: ls =>
      if decide (current = section /\ k = key) then Some k else first_setting section key current ls
  end.

Lemma not_blank c : negb (bool_decide (c ∈ default_delims)) = true -> c ∉ default_delims.
Proof. by case_bool_decide. Qed.

Lemma blank_without c s : (c ∉ default_delims) -> blank s -> (c ∉ s).
Proof. intros Hc Hb Hin. unfold blank in Hb. rewrite Forall_forall in Hb. by apply Hc, Hb. Qed.

Lemma clean_between a x b : (a ∉ default_delims) -> (b ∉ default_delims) -> clean ([a] ++ x ++ [b]).
Proof. intros Ha Hb. exists a, b. split; [done|]. rewrite app_assoc, last_snoc. by split. Qed.

Lemma load_section cur m pre sp1 name sp2 rest :
  line_ok (LSection pre sp1 name sp2 rest) -> load_line (cur, m) (text_of (LSection pre sp1 name sp2 rest)) = (name, m).
Proof.
  intros (Hpre & H1 & H2 & Hn & Hb & _). unfold load_line, text_of.
  assert (N5d : Byte.x5d ∉ default_delims) by (by apply not_blank). assert (N5b : Byte.x5b ∉ default_delims) by (by apply not_blank).
  replace ([Byte.x5b] ++ sp1 ++ name ++ sp2 ++ [Byte.x5d]) with ([Byte.x5b] ++ (sp1 ++ name ++ sp2) ++ [Byte.x5d]) by by rewrite <- !app_assoc.
  destruct (trim_keeps pre ([Byte.x5b] ++ (sp1 ++ name ++ sp2) ++ [Byte.x5d]) rest) as (rest' & _ & _ & _ & ->);
    [done|by apply clean_between|].
  cbn [app]. rewrite !decide_False, decide_True by done. rewrite <- (app_assoc _ [Byte.x5d] rest').
  change (Byte.x5b :: (sp1 ++ name ++ sp2) ++ [Byte.x5d] ++ rest') with ((Byte.x5b :: sp1 ++ name ++ sp2) ++ Byte.x5d :: rest').
  rewrite find_byte_app.
  - cbn [length]. replace (S (length (sp1 ++ name ++ sp2)) - 1)%nat with (length (sp1 ++ name ++ sp2)) by lia.
    by rewrite take_app_length, trim_trimmed.
  - rewrite not_elem_of_cons, !not_elem_of_app. auto using blank_without.
Qed.

(** What a setting does to the map: the first one stays. *)
Definition keep_first (cur k v : str) (m : config_map) : config_map :=
  match m !! config_key cur k with Some _ => m | None => <[config_key cur k := v]> m end.

Lemma load_setting cur m pre key sp1 sp2 value post :
  line_ok (LSetting pre key sp1 sp2 value post) ->
  load_line (cur, m) (text_of (LSetting pre key sp1 sp2 value post)) = (cur, keep_first cur key value m).
Proof.
  intros (Hpre & (Hk & Hke & Hkh) & H1 & H2 & Hv & Hpost). unfold load_line, text_of.
  assert (N3d : Byte.x3d ∉ default_delims) by (by apply not_blank).
  destruct (trim_keeps pre (key ++ sp1 ++ [Byte.x3d]) (sp2 ++ value ++ post)) as (rest & tail & Er & Ht & ->); [done| |].
  { destruct Hk as (a & _ & Ha & _ & Hna & _). exists a, Byte.x3d. rewrite app_assoc, last_snoc. split; [by destruct key|done]. }
  assert (Hval : trim rest default_delims = value) by (rewrite <- (trim_tail rest tail), <- Er by done; by apply trim_trimmed).
  destruct key as [|c key]; [by destruct Hk as (? & _ & ? & _)|]. destruct (Hkh c eq_refl) as (N1 & N2 & N3).
  cbn [app]. rewrite !decide_False by done.
  replace (c :: (key ++ sp1 ++ [Byte.x3d]) ++ rest) with (((c :: key) ++ sp1) ++ Byte.x3d :: rest) by (cbn [app]; by rewrite <- !app_assoc).
  rewrite find_byte_app by (rewrite not_elem_of_app; auto using blank_without). rewrite take_app_length.
  rewrite (cons_middle Byte.x3d), app_assoc, (drop_app_length' (_ ++ [_])) by (rewrite (length_app _ [_]); simpl; lia).
  rewrite Hval, <- (app_nil_l ((c :: key) ++ sp1)), trim_around by (done || constructor). done.
Qed.

Lemma load_bare cur m pre key post :
  line_ok (LBare pre key post) -> load_line (cur, m) (text_of (LBare pre key post)) = (cur, keep_first cur key key m).
Proof.
  intros (Hpre & (Hk & Hke & Hkh) & Hpost). unfold load_line, text_of. rewrite trim_around by done.
  destruct key as [|c key]; [by destruct Hk as (? & _ & ? & _)|]. destruct (Hkh c eq_refl) as (N1 & N2 & N3).
  rewrite !decide_False by done. replace (find_byte Byte.x3d (c :: key)) with (@None nat); [by rewrite trim_clean|].
  clear - Hke. induction (c :: key) as [|b s IH]; [done|]. apply not_elem_of_cons in Hke as [Hne Hn]. simpl.
  by rewrite decide_False, <- IH by congruence.
Qed.

Lemma load_skipped st l : line_ok l -> match l with LBlank _ | LComment _ _ _ => load_line st (text_of l) = st | _ => True end.
Proof.
  destruct l as [pre|pre mark rest| | |]; try done; unfold load_line, text_of; destruct st as [cur m].
  - intros Hb. by rewrite trim_blank.
  - intros [Hb Hm]. destruct (trim_keeps pre [mark] rest) as (rest' & _ & _ & _ & ->); [done| |].
    { exists mark, mark. repeat (split; [done|]). split; destruct Hm as [-> | ->]; by apply not_blank. }
    by destruct Hm as [-> | ->].
Qed.

(** Sections without a slash do not share names of settings. *)
Lemma config_key_inj s1 k1 s2 k2 :
  (Byte.x2f ∉ s1) -> (Byte.x2f ∉ s2) -> config_key s1 k1 = config_key s2 k2 -> s1 = s2 /\ k1 = k2.
Proof.
  unfold config_key. revert s2. induction s1 as [|a s1 IH]; intros [|b s2] H1 H2 E; cbn [app] in E; injection E.
  - by intros ->.
  - intros _ <-. by destruct H2; left.
  - intros _ ->. by destruct H1; left.
  - intros E' ->. rewrite not_elem_of_cons in H1. rewrite not_elem_of_cons in H2. destruct H1, H2.
    by destruct (IH s2) as [-> ->].
Qed.

Lemma keep_first_lookup cur k v m section key :
  (Byte.x2f ∉ cur) -> (Byte.x2f ∉ section) ->
  keep_first cur k v m !! config_key section key =
  match m !! config_key section key with
  | Some w => Some w
  | None => if decide (cur = section /\ k = key) then Some v else None
  end.
Proof.
  intros Hc Hs. unfold keep_first. case_decide as Hd.
  - destruct Hd as [-> ->]. destruct (m !! config_key section key) eqn:E; rewrite ?E; [done|]. by rewrite lookup_insert_eq.
  - assert (Hne : config_key cur k <> config_key section key) by (intros E; by apply Hd, config_key_inj).
    destruct (m !! config_key cur k); [|rewrite lookup_insert_ne by done]; by destruct (m !! config_key section key).
Qed.

Lemma load_lines section key ls cur m :
  Forall line_ok ls -> (Byte.x2f ∉ section) -> (Byte.x2f ∉ cur) ->
  (foldl load_line (cur, m) (text_of <$> ls)).2 !! config_key section key =
  match m !! config_key section key with Some w => Some w | None => first_setting section key cur ls end.
Proof.
  intros Hls Hs. revert cur m. induction Hls as [|l ls Hl _ IH]; intros cur m Hc; [simpl; by destruct (m !! config_key section key)|].
  cbn [fmap list_fmap foldl first_setting]. pose proof (load_skipped (cur, m) l Hl) as Hskip.
  destruct l as [pre|pre mark rest|pre sp1 name sp2 rest|pre k sp1 sp2 v post|pre k post]; rewrite ?Hskip; auto.
  - rewrite load_section by done. apply IH. apply Hl.
  - rewrite load_setting, IH, keep_first_lookup by done. destruct (m !! config_key section key); [done|]. by case_decide.
  - rewrite load_bare, IH, keep_first_lookup by done. destruct (m !! config_key section key); [done|]. by case_decide.
Qed.

(** ** Properties *)

(** C32.  A configuration file of empty lines, comments, headers (whatever follows
    their bracket), settings and words without an equals sign, with any blanks around
    names, equals signs and values, and section names without a slash (the code joins
    section and key with one): [getkv] returns the value of the first setting of that
    key below a header of that section, the word itself for a word, and the empty
    string when there is none. *)
Theorem config_roundtrip ls section key :
  Forall line_ok ls -> (Byte.x2f ∉ section) ->
  getkv (load_config (text_of <$> ls)) section key = default [] (first_setting section key [] ls).
Proof.
  intros Hls Hs. unfold getkv, load_config. rewrite load_lines by (done || apply not_elem_of_nil). by rewrite lookup_empty.
Qed.

Definition demo_capacity : list cfg_line :=
  [LComment [Byte.x20] Byte.x23 (lit "demo"); LSection [] [] general [Byte.x20] (lit "; device");
   LSetting [Byte.x09] (lit "capacity") [Byte.x20] [Byte.x20] (lit "2 GB") [Byte.x0d];
   LBlank []; LSetting [] (lit "capacity") [] [] (lit "3 GB") []].

Definition demo_polling : list cfg_line :=
  [LSection [] [] general [] []; LSetting [] (lit "polling") [Byte.x20] [Byte.x20] (lit "true") []].

Lemma clean_bytes s :
  match head s, last s with Some a, Some b => (32 <? byteZ a) && (32 <? byteZ b) | _, _ => false end = true -> clean s.
Proof.
  assert (Hd : forall b, 32 < byteZ b -> b ∉ default_delims).
  { intros b Hb. unfold default_delims. rewrite !not_elem_of_cons. repeat split; try apply not_elem_of_nil; intros ->; done. }
  destruct (head s) as [a|] eqn:Ha, (last s) as [b|] eqn:Hb; try done. intros H. exists a, b. repeat split; try done; apply Hd; lia.
Qed.

Lemma without_byte c s : forallb (fun b => negb (Byte.eqb b c)) s = true -> (c ∉ s).
Proof.
  induction s as [|b s IH]; simpl; [intros _; apply not_elem_of_nil|]. intros [H1 H2]%andb_true_iff.
  apply not_elem_of_cons. split; [|auto]. intros ->. by rewrite Byte.byte_dec_lb in H1.
Qed.

Lemma blank_bytes s : forallb (fun b => bool_decide (b ∈ default_delims)) s = true -> blank s.
Proof. intros H. apply Forall_forall. intros b Hb. rewrite forallb_forall in H. eapply bool_decide_eq_true, H. by apply list_elem_of_In. Qed.

Lemma demo_capacity_ok : Forall line_ok demo_capacity.
Proof.
  assert (Hk : cfg_key_ok (lit "capacity")).
  { split; [by apply clean_bytes|]. split; [by apply without_byte|]. by intros c [= <-]. }
  unfold demo_capacity. rewrite !Forall_cons. cbn [line_ok].
  split_and!; try done; first [by left | by apply blank_bytes | by apply without_byte | by right; apply clean_bytes].
Qed.

Lemma config_roundtrip_witness :
  getkv (load_config (text_of <$> demo_capacity)) general (lit "capacity") = lit "2 GB".
Proof.
  rewrite (config_roundtrip demo_capacity); [reflexivity|exact demo_capacity_ok|].
  apply without_byte. reflexivity.
Defined.

(** ** The capacity setting *)

Lemma digits_app ds u acc :
  Forall (fun b => is_digit b = true) ds -> (forall b, head u = Some b -> is_digit b = false) ->
  digits (ds ++ u) acc = ((digits ds acc).1, length ds).
Proof.
  intros Hds Hu. revert acc. induction Hds as [|b ds Hb _ IH]; intros acc; simpl.
  - destruct u as [|b u]; [done|]. simpl. by rewrite (Hu b eq_refl).
  - rewrite Hb, IH. by destruct (digits ds _).
Qed.

Lemma digit_not_space b : is_digit b = true -> is_space b = false.
Proof. unfold is_digit, is_space. lia. Qed.

Lemma digit_not_sign b : is_digit b = true -> b <> Byte.x2d /\ b <> Byte.x2b.
Proof. intros H. split; intros ->; done. Qed.

Lemma stoull_digits ds u :
  ds <> [] -> Forall (fun b => is_digit b = true) ds ->
  (forall b, head u = Some b -> is_digit b = false) -> (digits ds 0).1 < 2 ^ 64 ->
  0 <= (digits ds 0).1 -> stoull (ds ++ u) = Some ((digits ds 0).1, length ds).
Proof.
  intros Hne Hds Hu Hmax Hmin. destruct ds as [|b ds]; [done|].
  pose proof (Forall_inv Hds) as Hb. destruct (digit_not_sign b Hb) as [N1 N2].
  unfold stoull. cbn [app count_spaces]. rewrite (digit_not_space b Hb), drop_0.
  rewrite !decide_False by done. rewrite drop_0, app_comm_cons, digits_app by done. simpl length.
  cbn [Nat.eqb]. rewrite (proj2 (Z.leb_gt _ _)) by lia. by rewrite u64_small by lia.
Qed.

Lemma digits_nonneg s acc : 0 <= acc -> 0 <= (digits s acc).1.
Proof.
  revert acc. induction s as [|b s IH]; intros acc Ha; simpl; [done|].
  destruct (is_digit b) eqn:E; [|done]. unfold is_digit in E.
  specialize (IH (10 * acc + (byteZ b - 48))). destruct (digits s _). simpl in *. lia.
Qed.

(**  A capacity setting of decimal digits followed by a unit is that many
    gigabytes when the unit contains "gb" in any case, and that many megabytes
    otherwise, modulo 2^64.  The number zero stands for 4 GB, which is then
    scaled by the unit again. *)
Theorem capacity_setting ds u :
  ds <> [] -> Forall (fun b => is_digit b = true) ds ->
  (forall b, head u = Some b -> is_digit b = false) -> (digits ds 0).1 < 2 ^ 64 ->
  let v := (digits ds 0).1 in
  let n := if v =? 0 then 4 * GB else v in
  parse_capacity (ds ++ u) =
    Some (u64 (n * (if contains (lit "gb") (to_lower <$> u) then GB else 1024 * 1024))).
Proof.
  intros Hne Hds Hu Hmax v n. unfold parse_capacity.
  destruct (ds ++ u) as [|b s] eqn:E; [by destruct ds|]. rewrite <- E.
  pose proof (digits_nonneg ds 0 ltac:(lia)) as Hmin. fold v in Hmin, Hmax.
  rewrite stoull_digits by done. fold v. rewrite drop_app_length.
  replace (if v <=? 0 then 4 * GB else v) with n
    by (unfold n; destruct (Z.leb_spec v 0), (Z.eqb_spec v 0); lia).
  destruct (contains (lit "gb") _); [done|]. by destruct (contains (lit "mb") _).
Qed.

Lemma capacity_setting_witness :
  parse_capacity (lit "2" ++ lit " Gb") = Some (2 * GB) /\
  parse_capacity (lit "0" ++ lit " GB") = Some (4 * GB * GB).
Proof.
  split.
  - apply (capacity_setting (lit "2") (lit " Gb"));
      [discriminate|repeat constructor|intros b [= <-]; reflexivity|reflexivity].
  - apply (capacity_setting (lit "0") (lit " GB"));
      [discriminate|repeat constructor|intros b [= <-]; reflexivity|reflexivity].
Defined.
