(* ===== verification/Device.v ===== *)
(** * Devices

    [emulator/src/kv_device.cpp]: the device object with its queues and its
    namespace, the creation and removal of queues, and the entry points that
    check their arguments, build a command and put it on a submission queue.

    Handles hold pointers to objects the device owns.  A pointer to a queue is
    the id of that queue, to a namespace the id of the namespace; [None] is
    [NULL].  Following a pointer to an object that no longer exists is
    undefined in the code: the model returns [Undef]. *)

From stdpp Require Import base numbers list gmap.
From Stdlib Require Import SpecFloat.
From S2P Require Import Prelude.
From S2P Require Import AdiTypes.
From S2P Require Import EmulInv.
From S2P Require Import DeviceApi.
From S2P Require Import Namespace.
From S2P Require Import IoCmd.
From S2P Require Import Queue.
From S2P Require Import History.
From S2P Require Import Emulator.
From S2P Require Import Config.

(** ** Handles *)

Record _kv_device_handle := KvDeviceHandle { dh_devid : Z; dh_dev : option Z }.
Record _kv_queue_handle := KvQueueHandle { qh_qid : Z; qh_dev : option Z; qh_queue : option Z }.
Record _kv_namespace_handle := KvNamespaceHandle { nh_nsid : Z; nh_dev : option Z; nh_ns : option Z }.

Record kv_postprocess_function := KvPostprocess { pf_post_fn : option Z; pf_private_data : Z }.

(** ** [class kv_device_internal] *)

Record kv_device_internal (B : Type) := KvDeviceInternal {
  dev_id : Z;
  m_is_poll : bool;
  dev_capacity : Z;
  m_has_fixed_keylen : bool;
  dev_use_iops_model : bool;
  m_device_info : kv_device;
  m_device_stat : kv_device_stat;
  m_ioque_list : gmap Z (emul_ioqueue B);
  m_sq_to_cq_pairs : gmap Z Z;
  m_ns_list : gmap Z (kv_namespace_internal kvstore)
}.

Arguments KvDeviceInternal {B}.
Arguments dev_id {B}.
Arguments m_is_poll {B}.
Arguments dev_capacity {B}.
Arguments m_has_fixed_keylen {B}.
Arguments dev_use_iops_model {B}.
Arguments m_device_info {B}.
Arguments m_device_stat {B}.
Arguments m_ioque_list {B}.
Arguments m_sq_to_cq_pairs {B}.
Arguments m_ns_list {B}.

(** ** The utilization of the device

    [round((float)((1.0 * consumed / capacity) * 10000))] in IEEE arithmetic:
    doubles have 53 bits, floats 24; [None] where the value is not finite. *)

Definition double_of_Z (z : Z) : spec_float := binary_normalize 53 1024 z 0 false.

Definition float_of_double (x : spec_float) : spec_float :=
  match x with
  | S754_finite s m e => binary_normalize 24 128 (SpecFloat.cond_Zopp s (Zpos m)) e s
  | _ => x
  end.

(** [round]: to the nearest integer, halves away from zero. *)
Definition round_float (x : spec_float) : option Z :=
  match x with
  | S754_zero _ => Some 0
  | S754_finite s m e =>
      let r := if 0 <=? e then Zpos m * 2 ^ e else (2 * Zpos m + 2 ^ (- e)) / (2 * 2 ^ (- e)) in
      Some (if s then - r else r)
  | _ => None
  end.

Definition utilization (consumed capacity : Z) : option Z :=
  let q := SFdiv 53 1024 (SFmul 53 1024 (double_of_Z 1) (double_of_Z consumed))
             (double_of_Z capacity) in
  u16 <$> round_float (float_of_double (SFmul 53 1024 q (double_of_Z 10000))).

Section device.
Context {B : Type} `{!CircularBuffer B io_cmd}.
Implicit Types (d : kv_device_internal B).

Definition dev_set_queues ql pairs (qcount : Z) d : kv_device_internal B :=
  KvDeviceInternal (dev_id d) (m_is_poll d) (dev_capacity d) (m_has_fixed_keylen d)
    (dev_use_iops_model d) (m_device_info d)
    (KvDeviceStat (ds_namespace_count (m_device_stat d)) qcount
       (ds_utilization (m_device_stat d)) (ds_waf (m_device_stat d)))
    ql pairs (m_ns_list d).
Definition dev_set_ns (nl : gmap Z (kv_namespace_internal kvstore)) d : kv_device_internal B :=
  KvDeviceInternal (dev_id d) (m_is_poll d) (dev_capacity d) (m_has_fixed_keylen d)
    (dev_use_iops_model d) (m_device_info d) (m_device_stat d)
    (m_ioque_list d) (m_sq_to_cq_pairs d) nl.
(** [*que = q] through a pointer to the queue [qid]. *)
Definition dev_put_queue (qid : Z) (q : emul_ioqueue B) d : kv_device_internal B :=
  dev_set_queues (<[qid := q]> (m_ioque_list d)) (m_sq_to_cq_pairs d)
    (ds_queue_count (m_device_stat d)) d.

(** The fields of the device information the constructor fills in. *)
Definition device_info_new (capacity : Z) : kv_device :=
  KvDevice 1 1 (64 * 1024 - 1) capacity SAMSUNG_KV_MIN_VALUE_LEN SAMSUNG_KV_MAX_VALUE_LEN
    SAMSUNG_KV_MIN_KEY_LEN SAMSUNG_KV_MAX_KEY_LEN.

(** The constructor after the configuration was read, with the default
    namespace [kv_initialize_device] inserts. *)
Definition kv_device_new (devid : Z) (is_polling fixed iops : bool) (capacity : Z)
    (ns : kv_namespace_internal kvstore) : kv_device_internal B :=
  KvDeviceInternal devid is_polling capacity fixed iops
    (device_info_new capacity) (KvDeviceStat 1 2 0 0) ∅ ∅ {[ KV_NAMESPACE_DEFAULT := ns ]}.

(** ** Queues *)

Definition qid_exist (qid : Z) (qlist : gmap Z (emul_ioqueue B)) : bool :=
  bool_decide (is_Some (qlist !! qid)).

Definition get_ioqueue (qid : Z) d : option (emul_ioqueue B) := m_ioque_list d !! qid.
Definition get_namespace (nsid : Z) d : option (kv_namespace_internal kvstore) := m_ns_list d !! nsid.

Definition get_io_queue_info (qid : Z) (queue_info : option kv_queue) d
    : kv_result * option kv_queue :=
  match queue_info with
  | None => (KV_ERR_PARAM_INVALID, None)
  | Some _ => match m_ioque_list d !! qid with
              | Some q => let '(r, i) := kv_get_queue_info q in (r, Some i)
              | None => (KV_ERR_QUEUE_QID_INVALID, queue_info)
              end
  end.

(** The ids of the submission queues paired with a completion queue. *)
Definition get_paired_SQ_ids (CQ_id : Z) d : gset Z :=
  dom (filter (fun p => p.2 = CQ_id) (m_sq_to_cq_pairs d)).

(** [handler] is what the uninitialised handler field of the new queue holds.
    [que_hdl] says whether the out pointer is non-null; the handle is the second component. *)
Definition create_queue (handler : option Z) (queinfo : option kv_queue) (que_hdl : bool) d
    : kv_result * option _kv_queue_handle * kv_device_internal B :=
  match queinfo with
  | None => (KV_ERR_PARAM_INVALID, None, d)
  | Some qi =>
      if negb que_hdl then (KV_ERR_PARAM_INVALID, None, d)
      else if Z.of_nat (size (m_ioque_list d)) =? 64 * 1024 - 1
      then (KV_ERR_QUEUE_MAX_QUEUE, None, d)
      else if 64 * 1024 - 1 <? q_queue_size qi then (KV_ERR_QUEUE_QSIZE_INVALID, None, d)
      else
        let qid := q_queue_id qi in
        let is_sq := q_queue_type qi =? SUBMISSION_Q_TYPE in
        if qid_exist qid (m_ioque_list d)
        then (if is_sq then KV_ERR_QUEUE_QID_INVALID else KV_ERR_QUEUE_CQID_INVALID, None, d)
        else if is_sq && negb (qid_exist (q_completion_queue_id qi) (m_ioque_list d))
        then (KV_ERR_QUEUE_CQID_INVALID, None, d)
        else
          let out := if is_sq then Some (q_completion_queue_id qi) else None in
          let que := emul_ioqueue_new handler qi out in
          let ql := <[qid := que]> (m_ioque_list d) in
          let pairs := if is_sq
            then match m_sq_to_cq_pairs d !! qid with
                 | Some _ => m_sq_to_cq_pairs d
                 | None => <[qid := q_completion_queue_id qi]> (m_sq_to_cq_pairs d)
                 end
            else m_sq_to_cq_pairs d in
          (KV_SUCCESS, Some (KvQueueHandle qid (Some (dev_id d)) (Some qid)),
           dev_set_queues ql pairs (u16 (ds_queue_count (m_device_stat d) + 1)) d)
  end.

Definition remove_queue (qid : Z) d : kv_result * kv_device_internal B :=
  match get_ioqueue qid d with
  | None => (KV_ERR_QUEUE_QID_INVALID, d)
  | Some que =>
      if (get_type que =? COMPLETION_Q_TYPE) &&
         bool_decide (exists sqid, sqid ∈ get_paired_SQ_ids qid d /\ is_Some (m_ioque_list d !! sqid))
      then (KV_ERR_QUEUE_DELETION_INVALID, d)
      else (KV_SUCCESS,
            dev_set_queues (delete qid (m_ioque_list d)) (delete qid (m_sq_to_cq_pairs d))
              (u16 (ds_queue_count (m_device_stat d) - 1)) d)
  end.

Definition dev_kv_create_queue (handler : option Z) (dev_hdl : option _kv_device_handle)
    (queinfo : option kv_queue) (que_hdl : bool) d
    : kv_result * option _kv_queue_handle * kv_device_internal B :=
  match dev_hdl, queinfo with
  | Some dh, Some _ =>
      if negb que_hdl then (KV_ERR_PARAM_INVALID, None, d)
      else match dh_dev dh with
           | None => (KV_ERR_DEV_NOT_EXIST, None, d)
           | Some _ => create_queue handler queinfo que_hdl d
           end
  | _, _ => (KV_ERR_PARAM_INVALID, None, d)
  end.

(** The handle is freed whatever the result. *)
Definition dev_kv_delete_queue (dev_hdl : option _kv_device_handle)
    (que_hdl : option _kv_queue_handle) d
    : kv_result * option _kv_queue_handle * kv_device_internal B :=
  match dev_hdl, que_hdl with
  | Some dh, Some qh =>
      match dh_dev dh with
      | None => (KV_ERR_DEV_NOT_EXIST, que_hdl, d)
      | Some _ => let '(r, d') := remove_queue (qh_qid qh) d in (r, None, d')
      end
  | _, _ => (KV_ERR_PARAM_INVALID, que_hdl, d)
  end.

(** ** Submitting commands *)

Definition submit_io (que : Z) (cmd : io_cmd) d : dev_outcome (kv_result * kv_device_internal B) :=
  match m_ioque_list d !! que with
  | None => Undef
  | Some q =>
      if negb (get_type q =? SUBMISSION_Q_TYPE) then Ret (KV_ERR_QUEUE_QID_INVALID, d)
      else match enqueue cmd true q with
           | Done (r, q') => Ret (r, dev_put_queue que q' d)
           | Wait => Blocked
           end
  end.

(** *** Building commands

    [raw] is the memory of a new command: the constructor sets only the queue
    id, and each entry point only the fields it names. *)
Variable raw : io_cmd.

(** [cmd->ioctx.post_fn] and [private_data] from the caller's structure. *)
Definition cmd_post_fn (post_fn : option kv_postprocess_function) : option Z :=
  post_fn ≫= pf_post_fn.
Definition cmd_private_data (post_fn : option kv_postprocess_function) : Z :=
  match post_fn with Some p => pf_private_data p | None => c_private_data raw end.

Definition new_cmd (sqid : Z) (key : option (list kv_key)) (value : option kv_value)
    (hiter ks_id : Z) (command : op_command) (post_fn : option kv_postprocess_function) : io_cmd :=
  IoCmd key value (cmd_private_data post_fn) (c_retcode raw)
    (c_result_buffer_size raw) (c_result_buffer_count raw) hiter
    (cmd_post_fn post_fn) ks_id command sqid.

Abbreviation fail r d := (Ret (r, d)).

(** The order of the checks is that of each entry point.  [ks_id] is not set by
    [kv_sanitize]: the command gets what the memory held. *)
Definition dev_kv_sanitize (que_hdl : option _kv_queue_handle) (dev_hdl : option _kv_device_handle)
    (opt : Z) (post_fn : option kv_postprocess_function) d :=
  if negb (opt =? KV_SANITIZE_OPT_KV_ERASE) && negb (opt =? KV_SANITIZE_OPT_CRYPTO_ERASE) &&
     negb (opt =? KV_SANITIZE_OPT_OVERWRITE)
  then fail KV_ERR_OPTION_INVALID d
  else match que_hdl, dev_hdl with
  | Some qh, Some dh =>
      match dh_dev dh, qh_queue qh with
      | None, _ => fail KV_ERR_DEV_NOT_EXIST d
      | _, None => fail KV_ERR_QUEUE_QID_INVALID d
      | Some _, Some que =>
          match get_namespace KV_NAMESPACE_DEFAULT d with
          | None => fail KV_ERR_VENDOR d
          | Some _ => submit_io que (new_cmd que None None (c_result_hiter raw) (c_ks_id raw)
                        (sanitize_info opt) post_fn) d
          end
      end
  | _, _ => fail KV_ERR_PARAM_INVALID d
  end.

Definition dev_kv_purge (que_hdl : option _kv_queue_handle) (ns_hdl : option _kv_namespace_handle)
    (ks_id opt : Z) (post_fn : option kv_postprocess_function) d :=
  match que_hdl, ns_hdl with
  | Some qh, Some nh =>
      if negb (opt =? KV_PURGE_OPT_DEFAULT) && negb (opt =? KV_PURGE_OPT_KV_ERASE) &&
         negb (opt =? KV_PURGE_OPT_CRYPTO_ERASE)
      then fail KV_ERR_OPTION_INVALID d
      else if ks_id_invalid ks_id then fail KV_ERR_KEYSPACE_INVALID d
      else match qh_dev qh, nh_ns nh, qh_queue qh with
           | None, _, _ => fail KV_ERR_DEV_NOT_EXIST d
           | _, None, _ => fail KV_ERR_NS_INVALID d
           | _, _, None => fail KV_ERR_QUEUE_QID_INVALID d
           | Some _, Some _, Some que =>
               submit_io que (new_cmd que None None (c_result_hiter raw) ks_id
                 (purge_info opt) post_fn) d
           end
  | _, _ => fail KV_ERR_PARAM_INVALID d
  end.

Definition dev_kv_open_iterator (que_hdl : option _kv_queue_handle)
    (ns_hdl : option _kv_namespace_handle) (ks_id it_op : Z) (it_cond : option kv_group_condition)
    (post_fn : option kv_postprocess_function) d :=
  match que_hdl, ns_hdl, it_cond with
  | Some qh, Some nh, Some cond =>
      if negb (it_op =? KV_ITERATOR_OPT_KEY) && negb (it_op =? KV_ITERATOR_OPT_KV) &&
         negb (it_op =? KV_ITERATOR_OPT_KV_WITH_DELETE)
      then fail KV_ERR_OPTION_INVALID d
      else if ks_id_invalid ks_id then fail KV_ERR_KEYSPACE_INVALID d
      else match nh_ns nh, qh_dev qh, qh_queue qh with
           | None, _, _ => fail KV_ERR_NS_INVALID d
           | _, None, _ => fail KV_ERR_DEV_NOT_EXIST d
           | _, _, None => fail KV_ERR_QUEUE_QID_INVALID d
           | Some _, Some _, Some que =>
               submit_io que (new_cmd que None None 0 ks_id
                 (iterator_open_info it_op cond) post_fn) d
           end
  | _, _, _ => fail KV_ERR_PARAM_INVALID d
  end.

Definition dev_kv_close_iterator (que_hdl : option _kv_queue_handle)
    (ns_hdl : option _kv_namespace_handle) (post_fn : option kv_postprocess_function)
    (iter_hdl : Z) d :=
  match que_hdl, ns_hdl with
  | Some qh, Some nh =>
      if iter_hdl =? 0 then fail KV_ERR_PARAM_INVALID d
      else match nh_ns nh, qh_dev qh, qh_queue qh with
           | None, _, _ => fail KV_ERR_NS_INVALID d
           | _, None, _ => fail KV_ERR_DEV_NOT_EXIST d
           | _, _, None => fail KV_ERR_QUEUE_QID_INVALID d
           | Some _, Some _, Some que =>
               submit_io que (new_cmd que None None iter_hdl (c_ks_id raw)
                 (iterator_close_info iter_hdl) post_fn) d
           end
  | _, _ => fail KV_ERR_PARAM_INVALID d
  end.

(** The checks and the command shared by the two iteration calls. *)
Definition dev_iterate (que_hdl : option _kv_queue_handle) (ns_hdl : option _kv_namespace_handle)
    (iter_hdl : Z) (post_fn : option kv_postprocess_function) (command : op_command) d :=
  match que_hdl, ns_hdl with
  | Some qh, Some nh =>
      if iter_hdl =? 0 then fail KV_ERR_PARAM_INVALID d
      else match qh_queue qh, qh_dev qh, nh_ns nh with
           | None, _, _ => fail KV_ERR_QUEUE_QID_INVALID d
           | _, None, _ => fail KV_ERR_DEV_NOT_EXIST d
           | _, _, None => fail KV_ERR_NS_INVALID d
           | Some que, Some _, Some _ =>
               submit_io que (new_cmd que None None iter_hdl (c_ks_id raw) command post_fn) d
           end
  | _, _ => fail KV_ERR_PARAM_INVALID d
  end.

Definition dev_kv_iterator_next_set que_hdl ns_hdl (iter_hdl : Z) post_fn
    (iter_list : option kv_iterator_list) d :=
  dev_iterate que_hdl ns_hdl iter_hdl post_fn (iterator_next_info iter_hdl iter_list) d.

Definition dev_kv_iterator_next que_hdl ns_hdl (iter_hdl : Z) post_fn
    (key : option kv_key) (value : option kv_value) d :=
  dev_iterate que_hdl ns_hdl iter_hdl post_fn (iterator_next_single_info iter_hdl key value) d.

(** A synchronous call: the store answers directly, and completes the command.
    The answer, the caller's array and count, and the callbacks run. *)
Definition dev_kv_list_iterators (que_hdl : option _kv_queue_handle)
    (ns_hdl : option _kv_namespace_handle) (post_fn : option kv_postprocess_function)
    (kv_iters : option (list kv_iterator)) (iter_cnt : option Z) d
    : dev_outcome (kv_result * option (list kv_iterator) * option Z * list completion) :=
  match que_hdl, ns_hdl, kv_iters, iter_cnt with
  | Some qh, Some nh, Some _, Some _ =>
      match qh_queue qh, qh_dev qh, nh_ns nh with
      | None, _, _ => Ret (KV_ERR_QUEUE_QID_INVALID, kv_iters, iter_cnt, [])
      | _, None, _ => Ret (KV_ERR_DEV_NOT_EXIST, kv_iters, iter_cnt, [])
      | _, _, None => Ret (KV_ERR_NS_INVALID, kv_iters, iter_cnt, [])
      | Some que, Some _, Some nsid =>
          match m_ioque_list d !! que, m_ns_list d !! nsid with
          | Some _, Some ns =>
              let cmd := new_cmd que None None 0 (c_ks_id raw)
                           (iterator_list_info kv_iters iter_cnt) post_fn in
              let '(r, l, cnt, completed_here) := ns_kv_list_iterators kv_iters iter_cnt ns in
              Ret (r, l, cnt, if completed_here : bool then call_post_process_func cmd else [])
          | _, _ => Undef
          end
      end
  | _, _, _, _ => Ret (KV_ERR_PARAM_INVALID, kv_iters, iter_cnt, [])
  end.

Definition dev_kv_delete (que_hdl : option _kv_queue_handle) (ns_hdl : option _kv_namespace_handle)
    (ks_id : Z) (key : option kv_key) (opt : Z) (post_fn : option kv_postprocess_function) d :=
  match que_hdl, ns_hdl, key with
  | Some qh, Some nh, Some k =>
      let res := validate_key_value k None in
      if negb (is_success res) then fail res d
      else if ks_id_invalid ks_id then fail KV_ERR_KEYSPACE_INVALID d
      else match qh_dev qh, qh_queue qh, nh_ns nh with
           | None, _, _ => fail KV_ERR_DEV_NOT_EXIST d
           | _, None, _ => fail KV_ERR_QUEUE_QID_INVALID d
           | _, _, None => fail KV_ERR_NS_INVALID d
           | Some _, Some que, Some _ =>
               submit_io que (new_cmd que (Some [k]) None (c_result_hiter raw) ks_id
                 (delete_info opt) post_fn) d
           end
  | _, _, _ => fail KV_ERR_PARAM_INVALID d
  end.

Definition dev_kv_delete_group (que_hdl : option _kv_queue_handle)
    (ns_hdl : option _kv_namespace_handle) (ks_id : Z) (grp_cond : option kv_group_condition)
    (post_fn : option kv_postprocess_function) d :=
  match que_hdl, ns_hdl, grp_cond with
  | Some qh, Some nh, Some _ =>
      match qh_dev qh with
      | None => fail KV_ERR_DEV_NOT_EXIST d
      | Some _ =>
          if ks_id_invalid ks_id then fail KV_ERR_KEYSPACE_INVALID d
          else match qh_queue qh, nh_ns nh with
               | None, _ => fail KV_ERR_QUEUE_QID_INVALID d
               | _, None => fail KV_ERR_NS_INVALID d
               | Some que, Some _ =>
                   submit_io que (new_cmd que None None (c_result_hiter raw) ks_id
                     (delete_group_info grp_cond) post_fn) d
               end
      end
  | _, _, _ => fail KV_ERR_PARAM_INVALID d
  end.

(** The first error of [validate_key_value] over an array of keys. *)
Fixpoint validate_keys (keys : list kv_key) : kv_result :=
  match keys with
  | [] => KV_SUCCESS
  | k :: keys' =>
      let res := validate_key_value k None in
      if negb (is_success res) then res else validate_keys keys'
  end.

(** [key_cnt] is the number of keys of the array. *)
Definition dev_kv_exist (que_hdl : option _kv_queue_handle) (ns_hdl : option _kv_namespace_handle)
    (ks_id : Z) (keys : option (list kv_key)) (post_fn : option kv_postprocess_function)
    (buffer_size : Z) (buffer : option (list byte)) d :=
  match que_hdl, ns_hdl, keys, buffer with
  | Some qh, Some nh, Some ks, Some _ =>
      let res := validate_keys ks in
      if negb (is_success res) then fail res d
      else if ks_id_invalid ks_id then fail KV_ERR_KEYSPACE_INVALID d
      else match qh_queue qh, qh_dev qh, nh_ns nh with
           | None, _, _ => fail KV_ERR_QUEUE_QID_INVALID d
           | _, None, _ => fail KV_ERR_DEV_NOT_EXIST d
           | _, _, None => fail KV_ERR_NS_INVALID d
           | Some que, Some _, Some _ =>
               submit_io que (new_cmd que keys None (c_result_hiter raw) ks_id
                 (key_exist_info (Z.of_nat (length ks)) buffer buffer_size) post_fn) d
           end
  | _, _, _, _ => fail KV_ERR_PARAM_INVALID d
  end.

Definition dev_kv_retrieve (que_hdl : option _kv_queue_handle)
    (ns_hdl : option _kv_namespace_handle) (ks_id : Z) (key : option kv_key) (opt : Z)
    (post_fn : option kv_postprocess_function) (value : option kv_value) d :=
  match que_hdl, ns_hdl, key, value with
  | Some qh, Some nh, Some k, Some _ =>
      let res := validate_key_value k value in
      if negb (is_success res) then fail res d
      else if ks_id_invalid ks_id then fail KV_ERR_KEYSPACE_INVALID d
      else match qh_dev qh, qh_queue qh, nh_ns nh with
           | None, _, _ => fail KV_ERR_DEV_NOT_EXIST d
           | _, None, _ => fail KV_ERR_QUEUE_QID_INVALID d
           | _, _, None => fail KV_ERR_NS_INVALID d
           | Some _, Some que, Some _ =>
               submit_io que (new_cmd que (Some [k]) value (c_result_hiter raw) ks_id
                 (get_info opt) post_fn) d
           end
  | _, _, _, _ => fail KV_ERR_PARAM_INVALID d
  end.

Definition dev_kv_store (que_hdl : option _kv_queue_handle) (ns_hdl : option _kv_namespace_handle)
    (ks_id : Z) (key : option kv_key) (value : option kv_value) (opt : Z)
    (post_fn : option kv_postprocess_function) d :=
  match que_hdl, ns_hdl, key, value with
  | Some qh, Some nh, Some k, Some _ =>
      let res := validate_key_value k value in
      if negb (is_success res) then fail res d
      else if ks_id_invalid ks_id then fail KV_ERR_KEYSPACE_INVALID d
      else match qh_dev qh, qh_queue qh, nh_ns nh with
           | None, _, _ => fail KV_ERR_DEV_NOT_EXIST d
           | _, None, _ => fail KV_ERR_QUEUE_QID_INVALID d
           | _, _, None => fail KV_ERR_NS_INVALID d
           | Some _, Some que, Some _ =>
               submit_io que (new_cmd que (Some [k]) value (c_result_hiter raw) ks_id
                 (store_info opt) post_fn) d
           end
  | _, _, _, _ => fail KV_ERR_PARAM_INVALID d
  end.

(** ** Completion, interrupts, information *)

(** The result, the completed commands, the count, and the device. *)
Definition dev_kv_poll_completion (que_hdl : option _kv_queue_handle) (timeout_usec : Z)
    (num_events : option Z) d
    : dev_outcome (kv_result * list io_cmd * option Z * kv_device_internal B) :=
  match que_hdl, num_events with
  | Some qh, Some n =>
      match qh_queue qh with
      | None => Ret (KV_ERR_QUEUE_QID_INVALID, [], num_events, d)
      | Some que =>
          match m_ioque_list d !! que with
          | None => Undef
          | Some q =>
              if negb (get_type q =? COMPLETION_Q_TYPE)
              then Ret (KV_ERR_QUEUE_QID_INVALID, [], num_events, d)
              else let '(r, cs, n', q') := eq_poll_completion timeout_usec n q in
                   Ret (r, cs, Some n', dev_put_queue que q' d)
          end
      end
  | _, _ => Ret (KV_ERR_PARAM_INVALID, [], num_events, d)
  end.

Definition dev_kv_set_interrupt_handler (que_hdl : option _kv_queue_handle)
    (int_hdl : option Z) d :=
  match que_hdl, int_hdl with
  | Some qh, Some _ =>
      match qh_queue qh with
      | None => Ret (KV_ERR_QUEUE_QID_INVALID, d)
      | Some que =>
          match m_ioque_list d !! que with
          | None => Undef
          | Some q =>
              if negb (get_type q =? COMPLETION_Q_TYPE) then Ret (KV_ERR_QUEUE_QID_INVALID, d)
              else let '(r, q') := init_interrupt_handler (m_is_poll d) int_hdl q in
                   Ret (r, dev_put_queue que q' d)
          end
      end
  | _, _ => Ret (KV_ERR_PARAM_INVALID, d)
  end.

(** [get_consumed_space] of every namespace updates its statistics. *)
Definition update_capacity_consumed d : kv_device_internal B :=
  let consumed := map_fold (fun _ n z => z +64 (get_consumed_space n).1) 0 (m_ns_list d) in
  let capacity := map_fold (fun _ n z => z +64 ns_get_total_capacity n) 0 (m_ns_list d) in
  let i := m_device_info d in
  let st := m_device_stat d in
  KvDeviceInternal (dev_id d) (m_is_poll d) capacity (m_has_fixed_keylen d) (dev_use_iops_model d)
    (KvDevice (d_version i) (d_max_namespaces i) (d_max_queues i) capacity
       (d_min_value_len i) (d_max_value_len i) (d_min_key_len i) (d_max_key_len i))
    (KvDeviceStat (ds_namespace_count st) (ds_queue_count st)
       (default 0 (utilization consumed capacity)) (ds_waf st))
    (m_ioque_list d) (m_sq_to_cq_pairs d)
    ((fun n => (get_consumed_space n).2) <$> m_ns_list d).

Definition dev_kv_get_device_info (dev_hdl : _kv_device_handle) (devinfo : option kv_device) d
    : kv_result * option kv_device * kv_device_internal B :=
  match devinfo, dh_dev dev_hdl with
  | None, _ => (KV_ERR_PARAM_INVALID, devinfo, d)
  | _, None => (KV_ERR_DEV_NOT_EXIST, devinfo, d)
  | Some _, Some _ =>
      let d := update_capacity_consumed d in (KV_SUCCESS, Some (m_device_info d), d)
  end.

Definition dev_kv_get_device_stat (dev_hdl : _kv_device_handle) (devstat : option kv_device_stat) d
    : kv_result * option kv_device_stat * kv_device_internal B :=
  match devstat, dh_dev dev_hdl with
  | None, _ => (KV_ERR_PARAM_INVALID, devstat, d)
  | _, None => (KV_ERR_DEV_NOT_EXIST, devstat, d)
  | Some _, Some _ =>
      let d := update_capacity_consumed d in (KV_SUCCESS, Some (m_device_stat d), d)
  end.

(** The ids are listed in the order of the hash table, which is not specified:
    any list [order] of all the queue ids. *)
Definition dev_kv_get_queue_handles (order : list Z) (que_cnt : Z) d : kv_result * list Z * Z :=
  let res := if que_cnt <? Z.of_nat (size (m_ioque_list d)) then KV_WRN_MORE else KV_SUCCESS in
  let qids := take (Z.to_nat que_cnt) order in
  (res, qids, Z.of_nat (length qids)).

(** ** Life of a device *)

(** The class-level state: the devices by their id, and the next id. *)
Record device_table := DeviceTable {
  s_global_device_list : gmap Z (kv_device_internal B);
  s_next_devid : Z                 (* uint32_t *)
}.

Definition get_next_devid (t : device_table) : Z * device_table :=
  (s_next_devid t, DeviceTable (s_global_device_list t) (s_next_devid t +32 1)).

(** Memory the constructors leave uninitialised: the buffers of the history,
    the interrupt handler of the store, the purge mark of the namespace. *)
Record uninit := Uninit { u_hist : kv_history; u_handler : option Z; u_purging : bool }.

(** The constructor of the namespace for an emulated device. *)
Definition default_namespace (u : uninit) (st : device_settings) : kv_namespace_internal kvstore :=
  let nsinfo := KvNamespace KV_NAMESPACE_DEFAULT true (set_capacity st) in
  kv_namespace_new (u_purging u) KV_NAMESPACE_DEFAULT nsinfo
    (KvStore (kv_emulator_new (u_hist u) (u_handler u) (set_capacity st) (set_iops_model st)
                KV_NAMESPACE_DEFAULT) NoopEmulator false).

(** [file] is the configuration file, [is_polling] the caller's option.
    [dev_hdl] is [None] for a null pointer, else the handle it points to.
    The call throws, here [None], when the capacity setting is not a number. *)
Definition kv_initialize_device (u : uninit) (file : list (list byte)) (is_polling : bool)
    (dev_hdl : option (option _kv_device_handle)) (t : device_table)
    : option (kv_result * option (option _kv_device_handle) * device_table) :=
  match dev_hdl with
  | None => Some (KV_ERR_PARAM_INVALID, dev_hdl, t)
  | Some (Some (KvDeviceHandle _ (Some _))) => Some (KV_ERR_DEV_INITIALIZED, dev_hdl, t)
  | Some _ =>
      st ← device_config (load_config file) is_polling;
      let '(devid, t) := get_next_devid t in
      let dev := kv_device_new devid (set_is_poll st) (set_fixed_keylen st) (set_iops_model st)
                   (set_capacity st) (default_namespace u st) in
      let devs := match s_global_device_list t !! devid with
                  | Some _ => s_global_device_list t
                  | None => <[devid := dev]> (s_global_device_list t)
                  end in
      Some (KV_SUCCESS, Some (Some (KvDeviceHandle devid (Some devid))),
            DeviceTable devs (s_next_devid t))
  end.

(** The device object is destroyed with its queues and its namespace. *)
Definition kv_cleanup_device (dev_hdl : _kv_device_handle) (t : device_table)
    : kv_result * device_table :=
  (KV_SUCCESS, DeviceTable (delete (dh_devid dev_hdl) (s_global_device_list t)) (s_next_devid t)).

Definition get_device_instance (devid : Z) (t : device_table) : option (kv_device_internal B) :=
  s_global_device_list t !! devid.

(** ** The asynchronous entry points as one function *)

Inductive dev_call :=
| DStore (ks_id : Z) (key : option kv_key) (value : option kv_value) (opt : Z)
| DRetrieve (ks_id : Z) (key : option kv_key) (opt : Z) (value : option kv_value)
| DDelete (ks_id : Z) (key : option kv_key) (opt : Z)
| DExist (ks_id : Z) (keys : option (list kv_key)) (size : Z) (buffer : option (list byte))
| DPurge (ks_id opt : Z)
| DSanitize (dev_hdl : option _kv_device_handle) (opt : Z)
| DDeleteGroup (ks_id : Z) (cond : option kv_group_condition)
| DOpen (ks_id it_op : Z) (cond : option kv_group_condition)
| DClose (iter_hdl : Z)
| DNextSet (iter_hdl : Z) (il : option kv_iterator_list)
| DNext (iter_hdl : Z) (key : option kv_key) (value : option kv_value).

Definition dev_submit (qh : option _kv_queue_handle) (nh : option _kv_namespace_handle)
    (post_fn : option kv_postprocess_function) (call : dev_call) d
    : dev_outcome (kv_result * kv_device_internal B) :=
  match call with
  | DStore ks key value opt => dev_kv_store qh nh ks key value opt post_fn d
  | DRetrieve ks key opt value => dev_kv_retrieve qh nh ks key opt post_fn value d
  | DDelete ks key opt => dev_kv_delete qh nh ks key opt post_fn d
  | DExist ks keys size buffer => dev_kv_exist qh nh ks keys post_fn size buffer d
  | DPurge ks opt => dev_kv_purge qh nh ks opt post_fn d
  | DSanitize dh opt => dev_kv_sanitize qh dh opt post_fn d
  | DDeleteGroup ks cond => dev_kv_delete_group qh nh ks cond post_fn d
  | DOpen ks op cond => dev_kv_open_iterator qh nh ks op cond post_fn d
  | DClose h => dev_kv_close_iterator qh nh post_fn h d
  | DNextSet h il => dev_kv_iterator_next_set qh nh h post_fn il d
  | DNext h key value => dev_kv_iterator_next qh nh h post_fn key value d
  end.

(** ** What an entry point is asked for

    The limits are written out here: keys of 4 to 255 bytes, values of at most
    2 MiB at an offset that is a multiple of 512, key spaces 0 and 1. *)
Definition key_legal (k : kv_key) : Prop := k_key k <> None /\ 4 <= k_length k <= 255.
Definition value_legal (v : kv_value) : Prop := 0 <= v_length v <= 2097152 /\ v_offset v mod 512 = 0.
Definition space_legal (ks_id : Z) : Prop := 0 <= ks_id <= 1.

(** The calls that may be queued: the handles hold what they should, the pointers
    the call needs are not null, and keys, values, options and iterator handles are
    in range. *)
Definition legal (qh : option _kv_queue_handle) (nh : option _kv_namespace_handle) d (call : dev_call) : Prop :=
  let handles := (exists q, qh = Some q /\ qh_dev q <> None) /\ (exists n, nh = Some n /\ nh_ns n <> None) in
  match call with
  | DStore ks key value _ | DRetrieve ks key _ value =>
      handles /\ space_legal ks /\ (exists k, key = Some k /\ key_legal k) /\ (exists v, value = Some v /\ value_legal v)
  | DDelete ks key _ => handles /\ space_legal ks /\ (exists k, key = Some k /\ key_legal k)
  | DExist ks keys _ buffer =>
      handles /\ space_legal ks /\ (exists l, keys = Some l /\ Forall key_legal l) /\ buffer <> None
  | DPurge ks opt => handles /\ space_legal ks /\ 0 <= opt <= 2
  | DSanitize dh opt =>
      (exists h, dh = Some h /\ dh_dev h <> None) /\ 2 <= opt <= 4 /\ m_ns_list d !! 0 <> None
  | DDeleteGroup ks cond => handles /\ space_legal ks /\ cond <> None
  | DOpen ks it_op cond => handles /\ space_legal ks /\ 0 <= it_op <= 2 /\ cond <> None
  | DClose h | DNextSet h _ | DNext h _ _ => handles /\ h <> 0
  end.

(** The command [c] for the submission queue [que] asks for what the call asks for
    and reports to the caller's callback. *)
Definition carries (que : Z) (post_fn : option kv_postprocess_function) (call : dev_call) (c : io_cmd) : Prop :=
  c_sqid c = que /\
  c_post_fn c = match post_fn with Some p => pf_post_fn p | None => None end /\
  (forall p, post_fn = Some p -> c_private_data c = pf_private_data p) /\
  match call with
  | DStore ks key value opt =>
      c_command c = store_info opt /\ c_ks_id c = ks /\ (exists k, key = Some k /\ c_key c = Some [k]) /\ c_value c = value
  | DRetrieve ks key opt value =>
      c_command c = get_info opt /\ c_ks_id c = ks /\ (exists k, key = Some k /\ c_key c = Some [k]) /\ c_value c = value
  | DDelete ks key opt =>
      c_command c = delete_info opt /\ c_ks_id c = ks /\ (exists k, key = Some k /\ c_key c = Some [k])
  | DExist ks keys size buffer =>
      c_ks_id c = ks /\ c_key c = keys /\
      exists l, keys = Some l /\ c_command c = key_exist_info (Z.of_nat (length l)) buffer size
  | DPurge ks opt => c_command c = purge_info opt /\ c_ks_id c = ks
  | DSanitize _ opt => c_command c = sanitize_info opt
  | DDeleteGroup ks cond => c_command c = delete_group_info cond /\ c_ks_id c = ks
  | DOpen ks it_op cond =>
      c_ks_id c = ks /\ exists g, cond = Some g /\ c_command c = iterator_open_info it_op g
  | DClose h => c_command c = iterator_close_info h /\ c_result_hiter c = h
  | DNextSet h il => c_command c = iterator_next_info h il /\ c_result_hiter c = h
  | DNext h key value => c_command c = iterator_next_single_info h key value /\ c_result_hiter c = h
  end.

(** ** The invariant of the queues

    Every queue is listed under its own id; every submission queue is paired
    with a completion queue that exists, and the pairs are exactly those; the
    device counts its queues, starting from the two administration queues. *)
Record queues_wf (d : kv_device_internal B) : Prop := {
  qw_id : forall qid q, m_ioque_list d !! qid = Some q -> get_qid q = qid;
  qw_sq : forall qid q, m_ioque_list d !! qid = Some q -> get_type q = SUBMISSION_Q_TYPE ->
    exists cqid cq, get_out_queue q = Some cqid /\ m_sq_to_cq_pairs d !! qid = Some cqid /\
      m_ioque_list d !! cqid = Some cq /\ get_type cq = COMPLETION_Q_TYPE;
  qw_pairs : forall qid cqid, m_sq_to_cq_pairs d !! qid = Some cqid ->
    exists q, m_ioque_list d !! qid = Some q /\ get_type q = SUBMISSION_Q_TYPE;
  qw_count : ds_queue_count (m_device_stat d) = u16 (2 + Z.of_nat (size (m_ioque_list d)))
}.

(** A queue description whose completion queue, if it is a submission queue,
    is not itself a submission queue. *)
Definition names_cq (qi : kv_queue) d : Prop :=
  (q_queue_type qi = SUBMISSION_Q_TYPE \/ q_queue_type qi = COMPLETION_Q_TYPE) /\
  (q_queue_type qi = SUBMISSION_Q_TYPE -> forall q,
     m_ioque_list d !! q_completion_queue_id qi = Some q -> get_type q = COMPLETION_Q_TYPE).

Inductive queue_step : kv_device_internal B -> kv_device_internal B -> Prop :=
| qs_create handler qi d :
    names_cq qi d -> queue_step d (create_queue handler (Some qi) true d).2
| qs_remove qid d : queue_step d (remove_queue qid d).2
| qs_submit que cmd d r d' :
    submit_io que cmd d = Ret (r, d') -> queue_step d d'
| qs_poll qh timeout num d r cs num' d' :
    dev_kv_poll_completion qh timeout num d = Ret (r, cs, num', d') -> queue_step d d'
| qs_handler qh h d r d' :
    dev_kv_set_interrupt_handler qh h d = Ret (r, d') -> queue_step d d'
| qs_fetch qid q x d r c q' :
    m_ioque_list d !! qid = Some q -> dequeue true 0 x q = Done (r, c, q') ->
    queue_step d (dev_put_queue qid q' d)
| qs_complete qid q c d r q' :
    m_ioque_list d !! qid = Some q -> enqueue c true q = Done (r, q') ->
    queue_step d (dev_put_queue qid q' d).

(** ** Lemmas *)

(** Queue operations keep the description and the partner of a queue. *)
Definition same_queue (q q' : emul_ioqueue B) : Prop :=
  eq_queinfo q' = eq_queinfo q /\ eq_out q' = eq_out q.

Lemma enqueue_same c b (q : emul_ioqueue B) r q' : enqueue c b q = Done (r, q') -> same_queue q q'.
Proof. unfold enqueue, enqueue_loop. intros. by repeat case_match; simplify_eq. Qed.

Lemma dequeue_same b t x (q : emul_ioqueue B) r c q' :
  dequeue b t x q = Done (r, c, q') -> same_queue q q'.
Proof. unfold dequeue. intros. by repeat case_match; simplify_eq. Qed.

Lemma poll_loop_same n t r (q : emul_ioqueue B) : same_queue q (poll_loop n t r q).2.
Proof.
  revert r q. induction n as [|n IH]; intros r q; cbn [poll_loop]; [done|].
  destruct (dequeue false t false q) as [[[r' c] q']|] eqn:E; [|done].
  apply dequeue_same in E as [E1 E2].
  destruct r'; try done. destruct c as [c|]; specialize (IH KV_SUCCESS q').
  - destruct (poll_loop n t KV_SUCCESS q') as [[r2 cs] q2]. simpl in *.
    destruct IH as [I1 I2]. split; congruence.
  - destruct IH as [I1 I2]. split; congruence.
Qed.

Lemma poll_same t n (q : emul_ioqueue B) : same_queue q (eq_poll_completion t n q).2.
Proof.
  unfold eq_poll_completion. case_match; [done|].
  pose proof (poll_loop_same (Z.to_nat (poll_count n)) t KV_SUCCESS q) as Hs.
  destruct (poll_loop _ _ _ _) as [[r cs] q']. by case_match.
Qed.

Lemma queues_wf_put qid q q' d :
  queues_wf d -> m_ioque_list d !! qid = Some q -> same_queue q q' ->
  queues_wf (dev_put_queue qid q' d).
Proof.
  intros [H1 H2 H3 H4] Hq [Hi Ho].
  assert (Hlook : forall id x, <[qid := q']> (m_ioque_list d) !! id = Some x ->
    exists y, m_ioque_list d !! id = Some y /\ same_queue y x).
  { intros id x. rewrite lookup_insert_Some. intros [[<- <-]|[_ Hx]]; [by exists q|by exists x]. }
  assert (Hback : forall id y, m_ioque_list d !! id = Some y ->
    exists x, <[qid := q']> (m_ioque_list d) !! id = Some x /\ same_queue y x).
  { intros id y Hy. destruct (decide (id = qid)) as [->|].
    - exists q'. rewrite lookup_insert_eq. rewrite Hq in Hy. by injection Hy as <-.
    - exists y. by rewrite lookup_insert_ne. }
  split; simpl.
  - intros id x Hx. destruct (Hlook id x Hx) as (y & Hy & E & _).
    unfold get_qid in *. rewrite E. by apply (H1 id y).
  - intros id x Hx Ht. destruct (Hlook id x Hx) as (y & Hy & E1 & E2).
    unfold get_type, get_out_queue in *. rewrite E1 in Ht.
    destruct (H2 id y Hy Ht) as (cqid & cq & A1 & A2 & A3 & A4).
    destruct (Hback cqid cq A3) as (cq' & B1 & B2 & _). exists cqid, cq'.
    rewrite E2, B2. done.
  - intros id cqid Hp. destruct (H3 id cqid Hp) as (y & Hy & Ht).
    destruct (Hback id y Hy) as (x & Hx & E & _). exists x. unfold get_type in *. by rewrite E.
  - by rewrite map_size_insert_Some by (by eexists).
Qed.

Lemma u16_add_l a b : u16 (u16 a + b) = u16 (a + b).
Proof. unfold u16. by rewrite Zplus_mod_idemp_l. Qed.

Lemma u16_sub_l a b : u16 (u16 a - b) = u16 (a - b).
Proof. unfold u16. by rewrite Zminus_mod_idemp_l. Qed.

Lemma create_queue_wf handler qi d :
  names_cq qi d -> queues_wf d -> queues_wf (create_queue handler (Some qi) true d).2.
Proof.
  intros [Htype Hcq] Hw. pose proof Hw as [H1 H2 H3 H4]. unfold create_queue. simpl.
  case_match; [done|]. case_match; [done|].
  destruct (qid_exist (q_queue_id qi) (m_ioque_list d)) eqn:Hex; [by case_match|].
  unfold qid_exist in *. apply bool_decide_eq_false in Hex. rewrite <- eq_None_not_Some in Hex.
  assert (Hne : forall id q, m_ioque_list d !! id = Some q -> q_queue_id qi <> id) by congruence.
  destruct (Z.eqb_spec (q_queue_type qi) SUBMISSION_Q_TYPE) as [Hsq|Hnsq]; simpl.
  - destruct (bool_decide (is_Some _)) eqn:Hcx; simpl; [|done].
    apply bool_decide_eq_true in Hcx as [cq Hcq'].
    assert (Hp : m_sq_to_cq_pairs d !! q_queue_id qi = None).
    { destruct (m_sq_to_cq_pairs d !! q_queue_id qi) eqn:E; [|done].
      apply H3 in E as (q & Hq & _). congruence. }
    rewrite Hp. split; simpl.
    + intros id q [[<- <-]|[_ Hq]]%lookup_insert_Some; [done|eauto].
    + intros id q [[<- <-]|[Hid Hq]]%lookup_insert_Some Ht.
      * exists (q_completion_queue_id qi), cq. split; [done|]. rewrite lookup_insert_eq.
        rewrite lookup_insert_ne by eauto. split; [done|]. split; [done|]. by apply Hcq.
      * destruct (H2 id q Hq Ht) as (cqid & cq2 & A1 & A2 & A3 & A4). exists cqid, cq2.
        rewrite !lookup_insert_ne by eauto. done.
    + intros id cqid [[<- <-]|[Hid Hq]]%lookup_insert_Some; [rewrite lookup_insert_eq; eauto|].
      rewrite lookup_insert_ne by done. eauto.
    + rewrite map_size_insert_None, H4, u16_add_l by done. f_equal; lia.
  - split; simpl.
    + intros id q [[<- <-]|[_ Hq]]%lookup_insert_Some; [done|eauto].
    + intros id q [[<- <-]|[Hid Hq]]%lookup_insert_Some Ht; [done|].
      destruct (H2 id q Hq Ht) as (cqid & cq2 & A1 & A2 & A3 & A4). exists cqid, cq2.
      rewrite lookup_insert_ne by eauto. done.
    + intros id cqid Hq. destruct (H3 id cqid Hq) as (q & Hq' & ?). exists q.
      by rewrite lookup_insert_ne by eauto.
    + rewrite map_size_insert_None, H4, u16_add_l by done. f_equal; lia.
Qed.

Lemma remove_queue_wf qid d : queues_wf d -> queues_wf (remove_queue qid d).2.
Proof.
  intros [H1 H2 H3 H4]. unfold remove_queue, get_ioqueue.
  destruct (m_ioque_list d !! qid) as [q|] eqn:Hq; [|by split].
  destruct (_ && _) eqn:Hc; [by split|]. split; simpl.
  - intros id x [_ Hx]%lookup_delete_Some. eauto.
  - intros id x [Hid Hx]%lookup_delete_Some Ht.
    destruct (H2 id x Hx Ht) as (cqid & cq & A1 & A2 & A3 & A4). exists cqid, cq.
    rewrite lookup_delete_ne by done. split; [done|]. split; [done|].
    rewrite lookup_delete_ne; [done|]. intros <-.
    rewrite Hq in A3. injection A3 as <-. rewrite A4 in Hc. simpl in Hc.
    apply bool_decide_eq_false in Hc. apply Hc. exists id. split; [|by eexists].
    unfold get_paired_SQ_ids. apply elem_of_dom. exists qid. by apply map_lookup_filter_Some_2.
  - intros id cqid [Hid Hp]%lookup_delete_Some. destruct (H3 id cqid Hp) as (x & Hx & Ht).
    exists x. by rewrite lookup_delete_ne.
  - rewrite H4, u16_sub_l. rewrite map_size_delete_Some by (by eexists).
    pose proof (map_size_ne_0_lookup_2 (m_ioque_list d) qid (mk_is_Some _ _ Hq)). f_equal; lia.
Qed.

Lemma queue_step_wf d d' : queue_step d d' -> queues_wf d -> queues_wf d'.
Proof.
  intros Hs Hw. destruct Hs as [handler qi d Hn|qid d|que cmd d r d' E|qh t num d r cs num' d' E
    |qh h d r d' E|qid q x d r c q' Hq E|qid q c d r q' Hq E].
  - by apply create_queue_wf.
  - by apply remove_queue_wf.
  - unfold submit_io in E. destruct (m_ioque_list d !! que) as [q|] eqn:Hq; [|done].
    case_match; [by simplify_eq|]. destruct (enqueue cmd true q) as [[r' q']|] eqn:Ee; [|done].
    simplify_eq. eapply queues_wf_put; [done|done|by eapply enqueue_same].
  - unfold dev_kv_poll_completion in E. destruct qh as [qh|], num as [num|]; try by simplify_eq.
    destruct (qh_queue qh) as [que|]; [|by simplify_eq].
    destruct (m_ioque_list d !! que) as [q|] eqn:Hq; [|done]. case_match; [by simplify_eq|].
    pose proof (poll_same t num q) as Hs.
    destruct (eq_poll_completion t num q) as [[[? ?] ?] q']. simplify_eq. by eapply queues_wf_put.
  - unfold dev_kv_set_interrupt_handler in E. destruct qh as [qh|], h as [h|]; try by simplify_eq.
    destruct (qh_queue qh) as [que|]; [|by simplify_eq].
    destruct (m_ioque_list d !! que) as [q|] eqn:Hq; [|done]. case_match; [by simplify_eq|].
    unfold init_interrupt_handler in E. destruct (m_is_poll d); simplify_eq; by eapply queues_wf_put.
  - eapply queues_wf_put; [done|done|by eapply dequeue_same].
  - eapply queues_wf_put; [done|done|by eapply enqueue_same].
Qed.

(** *** Submission *)

Lemma dev_put_same qid q d : m_ioque_list d !! qid = Some q -> dev_put_queue qid q d = d.
Proof.
  intros Hq. unfold dev_put_queue, dev_set_queues. rewrite insert_id by done.
  by destruct d as [? ? ? ? ? ? [] ? ? ?].
Qed.

(** [c] was put on the submission queue [que] of the device. *)
Definition submitted_to (que : Z) d d' (c : io_cmd) : Prop :=
  exists q q', m_ioque_list d !! que = Some q /\ get_type q = SUBMISSION_Q_TYPE /\
    enqueue c true q = Done (KV_SUCCESS, q') /\ d' = dev_put_queue que q' d.

(** A queue that takes commands. *)
Definition accepting (que : Z) d : Prop :=
  exists q, m_ioque_list d !! que = Some q /\ get_type q = SUBMISSION_Q_TYPE /\ eq_shutdown q = false.

Lemma submit_io_cases que c d r d' :
  submit_io que c d = Ret (r, d') ->
  (r = KV_SUCCESS /\ accepting que d /\ submitted_to que d d' c) \/ (r <> KV_SUCCESS /\ ~ accepting que d /\ d' = d).
Proof.
  unfold submit_io. intros E. destruct (m_ioque_list d !! que) as [q|] eqn:Hq; [|done].
  destruct (Z.eqb_spec (get_type q) SUBMISSION_Q_TYPE) as [Ht|Ht]; cbn [negb] in E.
  - destruct (enqueue c true q) as [[r' q']|] eqn:Ee; [|done]. injection E as <- <-.
    pose proof Ee as Ee'. unfold enqueue, enqueue_loop in Ee'. destruct (eq_shutdown q) eqn:Hs.
    + injection Ee' as <- <-. right. split; [done|]. split; [|by apply dev_put_same].
      intros (q2 & Hq2 & _ & Hs2). rewrite Hq in Hq2. injection Hq2 as <-. congruence.
    + case_match; [done|]. injection Ee' as <- <-. left. split; [done|]. split; [by exists q|]. by eexists q, _.
  - injection E as <- <-. right. split; [done|]. split; [|done]. intros (q2 & Hq2 & Ht2 & _). congruence.
Qed.

Lemma submit_io_waits que c d :
  submit_io que c d = Blocked ->
  exists q, m_ioque_list d !! que = Some q /\ accepting que d /\ cb_full (eq_queue q) = true.
Proof.
  unfold submit_io. intros E. destruct (m_ioque_list d !! que) as [q|] eqn:Hq; [|done].
  destruct (Z.eqb_spec (get_type q) SUBMISSION_Q_TYPE) as [Ht|Ht]; cbn [negb] in E; [|done].
  destruct (enqueue c true q) as [[? ?]|] eqn:Ee; [done|]. unfold enqueue, enqueue_loop in Ee.
  destruct (eq_shutdown q) eqn:Hs; [done|]. destruct (cb_full (eq_queue q)) eqn:Hf; [|done].
  exists q. split; [done|]. split; [|done]. by exists q.
Qed.

Lemma is_success_spec r : negb (is_success r) = false <-> r = KV_SUCCESS.
Proof. rewrite negb_false_iff. apply bool_decide_eq_true. Qed.

Lemma validate_key_iff k : negb (is_success (validate_key_value k None)) = false <-> key_legal k.
Proof.
  rewrite is_success_spec. unfold validate_key_value, key_legal. destruct (k_key k); [|by split; [done|intros [? _]]].
  destruct (orb _ _) eqn:E; (split; [intros ?; first [done|split; [done|lia]]|intros [_ ?]; first [done|lia]]).
Qed.

Lemma validate_pair_iff k v :
  negb (is_success (validate_key_value k (Some v))) = false <-> key_legal k /\ value_legal v.
Proof.
  rewrite is_success_spec. unfold validate_key_value, key_legal, value_legal. destruct (k_key k); [|by split; [done|intros [[? _] _]]].
  change (KV_ALIGNMENT_UNIT - 1) with (Z.ones 9). rewrite Z.land_ones by lia. change (2 ^ 9) with 512.
  destruct (orb _ _) eqn:E; [split; [done|lia]|].
  destruct (orb (v_length v <? _) _) eqn:E2; [split; [done|lia]|].
  destruct (Z.eqb_spec (v_offset v mod 512) 0); cbn [negb]; (split; [intros ?; first [done|split_and!; done || lia]|intros ?; first [done|lia]]).
Qed.

Lemma validate_keys_iff ks : negb (is_success (validate_keys ks)) = false <-> Forall key_legal ks.
Proof.
  induction ks as [|k ks IH]; [by rewrite is_success_spec, Forall_nil|]. rewrite Forall_cons, <- IH, <- validate_key_iff. simpl.
  destruct (negb (is_success (validate_key_value k None))) eqn:E; rewrite ?E; [split; [intros ?; congruence|intros []; congruence]|]. split; [auto|intros [_ ?]; auto].
Qed.

Lemma not_success r : negb (is_success r) = true -> r <> KV_SUCCESS.
Proof. intros H. apply negb_true_iff in H. by apply bool_decide_eq_false in H. Qed.

(** Reads the outcome of each check off its boolean. *)
Ltac check_facts :=
  repeat match goal with
  | H : negb (is_success (validate_key_value _ None)) = false |- _ => apply validate_key_iff in H
  | H : negb (is_success (validate_key_value _ (Some _))) = false |- _ => apply validate_pair_iff in H as [? ?]
  | H : negb (is_success (validate_keys _)) = false |- _ => apply validate_keys_iff in H
  | H : ks_id_invalid ?ks = false |- _ =>
      assert (space_legal ks) by (unfold ks_id_invalid, space_legal in *; lia); clear H
  end.

(** A check that failed contradicts the corresponding part of [legal]. *)
Ltac refute_legal :=
  let Hl := fresh "Hl" in let que := fresh "que" in let Hq := fresh "Hq" in
  intros [Hl [que Hq]]; unfold legal in Hl; destruct_and? Hl; destruct_and?;
  repeat match goal with H : exists _, _ |- _ => destruct H as [? ?]; destruct_and? end; simplify_eq/=;
  first [ congruence
        | match goal with
          | H : negb (is_success (validate_key_value _ None)) = true |- _ =>
              eapply eq_true_false_abs; [exact H|]; by apply validate_key_iff
          | H : negb (is_success (validate_key_value _ (Some _))) = true |- _ =>
              eapply eq_true_false_abs; [exact H|]; by apply validate_pair_iff
          | H : negb (is_success (validate_keys _)) = true |- _ =>
              eapply eq_true_false_abs; [exact H|]; by apply validate_keys_iff
          end
        | unfold ks_id_invalid, space_legal in *; lia ].

(** Every call either fails a check, or submits the command it stands for. *)
Lemma dev_submit_cases qh nh post_fn call d :
  (exists r, dev_submit qh nh post_fn call d = Ret (r, d) /\ r <> KV_SUCCESS /\
     ~ (legal qh nh d call /\ exists que, qh ≫= qh_queue = Some que)) \/
  exists que c, qh ≫= qh_queue = Some que /\ legal qh nh d call /\ carries que post_fn call c /\
    dev_submit qh nh post_fn call d = submit_io que c d.
Proof.
  remember (dev_submit qh nh post_fn call d) as o eqn:E. symmetry in E. destruct call; cbn [dev_submit] in E;
    unfold dev_kv_store, dev_kv_retrieve, dev_kv_delete, dev_kv_exist, dev_kv_purge,
      dev_kv_sanitize, dev_kv_delete_group, dev_kv_open_iterator, dev_kv_close_iterator,
      dev_kv_iterator_next_set, dev_kv_iterator_next, dev_iterate in E;
    repeat match type of E with
    | context [match ?x with _ => _ end] => destruct x eqn:?; cbn [negb] in E
    end.
  all: first
    [ left; eexists; split; [symmetry; exact E|]; split; [done || by apply not_success|]; refute_legal
    | right; eexists _, _; split; [eassumption|]; check_facts; split; [|split; [|symmetry; exact E]] ].
  all: try (unfold carries; cbn; split_and!; eauto; by intros ? ->).
  all: unfold legal, get_namespace in *; split_and!; eauto; try congruence; try lia; eexists; (split; [done|congruence]).
Qed.

(** ** Properties *)

(** C11.  From a new device on, as long as every submission queue is created
    with a completion queue as its partner, no operation leaves a submission
    queue whose partner is gone: each one points to an existing completion queue, the table of
    pairs lists exactly the existing submission queues, and the device's queue
    count is the number of queues plus two. *)
Theorem queue_topology devid poll fixed iops capacity ns d :
  rtc queue_step (kv_device_new devid poll fixed iops capacity ns) d -> queues_wf d.
Proof.
  intros Hs. assert (H0 : queues_wf (kv_device_new devid poll fixed iops capacity ns)) by (by split).
  revert H0. induction Hs; eauto using queue_step_wf.
Qed.

End device.

(** ** Initialisation *)

(** Initialising a device whose configuration is readable gives it the
    next id, the settings of the configuration, no queues, and one namespace
    with an empty, well-formed store of the configured capacity; the other
    devices are untouched. *)
Theorem initialize_device_fresh {B} `{!CircularBuffer B io_cmd} u file poll st (t : device_table) :
  device_config (load_config file) poll = Some st ->
  s_global_device_list t !! s_next_devid t = None ->
  exists hdl t' (d : kv_device_internal B) ns,
    kv_initialize_device u file poll (Some None) t = Some (KV_SUCCESS, Some (Some hdl), t') /\
    dh_devid hdl = s_next_devid t /\
    s_global_device_list t' = <[s_next_devid t := d]> (s_global_device_list t) /\
    queues_wf d /\ d_capacity (m_device_info d) = set_capacity st /\
    m_has_fixed_keylen d = set_fixed_keylen st /\
    m_ns_list d = {[ KV_NAMESPACE_DEFAULT := ns ]} /\ ns_wf ns /\
    m_map (m_emul (m_kvstore ns)) = [[]; []] /\ ns_get_available ns = set_capacity st.
Proof.
  intros Hst Hfree. unfold kv_initialize_device. rewrite Hst. simpl. rewrite Hfree.
  do 4 eexists. split; [reflexivity|]. split; [reflexivity|]. split; [reflexivity|].
  split; [by split|]. split; [done|]. split; [done|]. split; [reflexivity|].
  split; [|done]. apply emul_init_wf. by do 5 eexists.
Qed.

Lemma initialize_device_fresh_witness :
  let t : device_table (B := list_buffer io_cmd) := DeviceTable ∅ 1 in
  let u := Uninit (kv_history_new (repeat 0%nat 17) (repeat 0 17)) None true in
  exists hdl t' d ns,
    kv_initialize_device u (text_of <$> demo_capacity) true (Some None) t
      = Some (KV_SUCCESS, Some (Some hdl), t') /\
    s_global_device_list t' = {[ 1 := d ]} /\ m_ns_list d = {[ 0 := ns ]} /\
    ns_get_available ns = 2 * GB.
Proof.
  intros t u.
  destruct (initialize_device_fresh u (text_of <$> demo_capacity) true
    (DeviceSettings (2 * GB) true true true) t) as (hdl & t' & d & ns & H1 & _ & H2 & _ & _ & _ & H3 & _ & _ & H4).
  - vm_compute. reflexivity.
  - reflexivity.
  - exists hdl, t', d, ns. split; [exact H1|]. split; [exact H2|]. split; [exact H3|exact H4].
Defined.

(** ** A concrete device *)

Abbreviation demo_device := (kv_device_internal (list_buffer io_cmd)).

Definition d_demo : demo_device := kv_device_new 1 true true false 1000 n_demo.

(** The device after creating a completion queue 2 and a submission queue 1. *)
Definition d_queues : demo_device :=
  (create_queue None (Some demo_sq) true (create_queue None (Some demo_cq) true d_demo).2).2.

Definition demo_qh : _kv_queue_handle := KvQueueHandle 1 (Some 1) (Some 1).
Definition demo_nh : _kv_namespace_handle := KvNamespaceHandle 0 (Some 1) (Some 0).
Definition demo_pf : kv_postprocess_function := KvPostprocess (Some 99) 7.

Lemma d_queues_wf : queues_wf d_queues.
Proof.
  apply create_queue_wf; [|apply create_queue_wf].
  - split; [by left|]. intros _ q [= <-]. done.
  - split; [by right|done].
  - by split.
Qed.

Lemma queue_topology_witness :
  queues_wf (create_queue None (Some demo_cq) true d_demo).2 /\
  ds_queue_count (m_device_stat (create_queue None (Some demo_cq) true d_demo).2) = 3.
Proof.
  split; [|reflexivity].
  apply (queue_topology 1 true true false 1000 n_demo). apply rtc_once, qs_create.
  split; [right; reflexivity|]. intros H. discriminate H.
Defined.


(**  [create_queue] accepts a submission queue as the completion queue of
    another one; [remove_queue] then removes that queue and leaves the other
    with a pointer to a queue that no longer exists. *)
Theorem submission_queue_as_completion_queue :
  let qi := KvQueue 5 8 1 SUBMISSION_Q_TYPE in
  let '(r1, _, d1) := create_queue None (Some qi) true d_queues in
  let '(r2, d2) := remove_queue 1 d1 in
  r1 = KV_SUCCESS /\ r2 = KV_SUCCESS /\
  exists q, m_ioque_list d2 !! 5 = Some q /\ get_out_queue q = Some 1 /\ m_ioque_list d2 !! 1 = None.
Proof. split; [reflexivity|]. split; [reflexivity|]. eexists. repeat split. Qed.

(**  The handle of a close command is not checked against the number of
    iterators: handle 200 is accepted and queued, although the table that the
    command then writes at index 199 has sixteen entries. *)
Theorem close_iterator_unchecked :
  exists d' c,
    dev_submit demo_store (Some demo_qh) (Some demo_nh) None (DClose 200) d_queues
      = Ret (KV_SUCCESS, d') /\
    submitted_to 1 d_queues d' c /\ c_command c = iterator_close_info 200 /\ ~ cmd_ok c /\
    length (Emulator.m_iterator_list e_demo) = 16%nat.
Proof.
  eexists _, _. split; [reflexivity|]. split.
  - eexists _, _. split; [reflexivity|]. split; [reflexivity|]. split; reflexivity.
  - split; [reflexivity|]. split; [|reflexivity]. intros H. by apply H.
Qed.
