(* ===== verification/Adi.v ===== *)
(** * The C interface of the emulator

    [emulator/src/kvs_adi.cpp]: the functions a client calls.  They check their
    pointers and forward to the device; opening an iterator converts the group
    condition from the big-endian form of the interface to the form the store
    compares with.  The theorems relate the two forms. *)

From stdpp Require Import base numbers list gmap.
From S2P Require Import Prelude.
From S2P Require Import AdiTypes.
From S2P Require Import OrdMap.
From S2P Require Import Emulator.
From S2P Require Import EmulInv.
From S2P Require Import EmulIter.
From S2P Require Import DeviceApi.
From S2P Require Import Namespace.
From S2P Require Import IoCmd.
From S2P Require Import Queue.
From S2P Require Import Device.

(** The value of the key 61 00 00 01 in key space 1. *)
Definition om_find_a (e : kv_emulator) : option (list byte) :=
  om_find CmpEmulPrefix key_a (ks_map 1 e).

Section adi.
Context {B : Type} `{!CircularBuffer B io_cmd}.
Implicit Types (d : kv_device_internal B).
Variable raw : io_cmd.

(** ** Queues and namespaces *)

Definition adi_create_queue (handler : option Z) dev_hdl queinfo que_hdl d :=
  dev_kv_create_queue handler dev_hdl queinfo que_hdl d.

Definition adi_delete_queue dev_hdl que_hdl d := dev_kv_delete_queue dev_hdl que_hdl d.

(** The handle is freed; the namespace stays. *)
Definition adi_delete_namespace (ns_hdl : option _kv_namespace_handle)
    : kv_result * option _kv_namespace_handle :=
  match ns_hdl with
  | Some _ => (KV_SUCCESS, None)
  | None => (KV_ERR_NS_DEFAULT, None)
  end.

Definition adi_get_namespace_stat (dev_hdl : option _kv_device_handle)
    (ns_hdl : _kv_namespace_handle) (ns_st : option kv_namespace_stat) d
    : dev_outcome (kv_result * option kv_namespace_stat * kv_device_internal B) :=
  match dev_hdl, ns_st with
  | Some dh, Some _ =>
      match dh_dev dh, nh_ns ns_hdl with
      | None, _ => Ret (KV_ERR_DEV_NOT_EXIST, ns_st, d)
      | _, None => Ret (KV_ERR_NS_INVALID, ns_st, d)
      | Some _, Some nsid =>
          match m_ns_list d !! nsid with
          | None => Undef
          | Some ns => let '(r, st, ns') := ns_kv_get_namespace_stat ns_st ns in
                       Ret (r, st, dev_set_ns (<[nsid := ns']> (m_ns_list d)) d)
          end
      end
  | _, _ => Ret (KV_ERR_PARAM_INVALID, ns_st, d)
  end.

Definition adi_get_namespace_info (dev_hdl : option _kv_device_handle)
    (ns_hdl : _kv_namespace_handle) (nsinfo : option kv_namespace) d
    : dev_outcome (kv_result * option kv_namespace) :=
  match dev_hdl, nsinfo with
  | Some dh, Some _ =>
      match dh_dev dh, nh_ns ns_hdl with
      | None, _ => Ret (KV_ERR_DEV_NOT_EXIST, nsinfo)
      | _, None => Ret (KV_ERR_NS_INVALID, nsinfo)
      | Some _, Some nsid =>
          match m_ns_list d !! nsid with
          | None => Undef
          | Some ns => Ret (ns_kv_get_namespace_info nsinfo ns)
          end
      end
  | _, _ => Ret (KV_ERR_PARAM_INVALID, nsinfo)
  end.

(** Switching the default namespace to the no-op store and back. *)
Definition adi_bypass_namespace (ns_hdl : _kv_namespace_handle) (bypass : bool) d
    : dev_outcome (kv_result * kv_device_internal B) :=
  match nh_ns ns_hdl with
  | None => Ret (KV_ERR_NS_INVALID, d)
  | Some nsid =>
      match m_ns_list d !! nsid with
      | None => Undef
      | Some ns => Ret (KV_SUCCESS, dev_set_ns (<[nsid := swap_device bypass ns]> (m_ns_list d)) d)
      end
  end.

(** [ns_hdl] says whether the out pointer is non-null. *)
Definition get_namespace_default (dev_hdl : option _kv_device_handle) (ns_hdl : bool) d
    : kv_result * option _kv_namespace_handle :=
  match dev_hdl with
  | None => (KV_ERR_PARAM_INVALID, None)
  | Some dh =>
      if negb ns_hdl then (KV_ERR_PARAM_INVALID, None)
      else match dh_dev dh with
           | None => (KV_ERR_DEV_NOT_EXIST, None)
           | Some dev =>
               match get_namespace KV_NAMESPACE_DEFAULT d with
               | None => (KV_ERR_NS_INVALID, None)
               | Some ns => (KV_SUCCESS, Some (KvNamespaceHandle (ns_nsid ns) (Some dev)
                                                (Some KV_NAMESPACE_DEFAULT)))
               end
           end
  end.

Definition get_queued_commands_count (que_hdl : option _kv_queue_handle) d : dev_outcome Z :=
  match que_hdl with
  | None => Ret 0
  | Some qh =>
      match qh_queue qh with
      | None => Ret 0
      | Some que => match m_ioque_list d !! que with
                    | None => Undef
                    | Some q => Ret (eq_size q)
                    end
      end
  end.

(** ** Commands *)

Definition adi_purge (qh : option _kv_queue_handle) (nh : option _kv_namespace_handle)
    (ks_id opt : Z) post_fn d :=
  match qh, nh with
  | Some _, Some _ => dev_kv_purge raw qh nh ks_id opt post_fn d
  | _, _ => Ret (KV_ERR_PARAM_INVALID, d)
  end.

(** The condition in the byte order the store uses. *)
Definition cond_htobe (c : kv_group_condition) : kv_group_condition :=
  KvGroupCondition (htobe32 (gc_bitmask c)) (htobe32 (gc_bit_pattern c)).

Definition adi_open_iterator (qh : option _kv_queue_handle) (nh : option _kv_namespace_handle)
    (ks_id it_op : Z) (it_cond : option kv_group_condition) post_fn d :=
  match qh, nh, it_cond with
  | Some _, Some _, Some c =>
      dev_kv_open_iterator raw qh nh ks_id it_op (Some (cond_htobe c)) post_fn d
  | _, _, _ => Ret (KV_ERR_PARAM_INVALID, d)
  end.

Definition adi_close_iterator (qh : option _kv_queue_handle) (nh : option _kv_namespace_handle)
    (iter_hdl : Z) post_fn d :=
  match qh, nh with
  | Some _, Some _ => if iter_hdl =? 0 then Ret (KV_ERR_PARAM_INVALID, d)
                      else dev_kv_close_iterator raw qh nh post_fn iter_hdl d
  | _, _ => Ret (KV_ERR_PARAM_INVALID, d)
  end.

Definition adi_iterator_next (qh : option _kv_queue_handle) (nh : option _kv_namespace_handle)
    (iter_hdl : Z) (iter_list : option kv_iterator_list) post_fn d :=
  match qh, nh, iter_list with
  | Some _, Some _, Some _ =>
      if iter_hdl =? 0 then Ret (KV_ERR_PARAM_INVALID, d)
      else dev_kv_iterator_next_set raw qh nh iter_hdl post_fn iter_list d
  | _, _, _ => Ret (KV_ERR_PARAM_INVALID, d)
  end.

Definition adi_delete (qh : option _kv_queue_handle) (nh : option _kv_namespace_handle)
    (ks_id : Z) (key : option kv_key) (opt : Z) post_fn d :=
  match qh, nh, key with
  | Some _, Some _, Some _ => dev_kv_delete raw qh nh ks_id key opt post_fn d
  | _, _, _ => Ret (KV_ERR_PARAM_INVALID, d)
  end.

(** The condition is passed on as it is. *)
Definition adi_delete_group (qh : option _kv_queue_handle) (nh : option _kv_namespace_handle)
    (ks_id : Z) (grp_cond : option kv_group_condition) post_fn d :=
  match qh, nh, grp_cond with
  | Some _, Some _, Some _ => dev_kv_delete_group raw qh nh ks_id grp_cond post_fn d
  | _, _, _ => Ret (KV_ERR_PARAM_INVALID, d)
  end.

Definition adi_exist (qh : option _kv_queue_handle) (nh : option _kv_namespace_handle)
    (ks_id : Z) (keys : option (list kv_key)) (buffer_size : Z) (buffer : option (list byte)) post_fn d :=
  match qh, nh, keys, buffer with
  | Some _, Some _, Some _, Some _ => dev_kv_exist raw qh nh ks_id keys post_fn buffer_size buffer d
  | _, _, _, _ => Ret (KV_ERR_PARAM_INVALID, d)
  end.

Definition adi_retrieve (qh : option _kv_queue_handle) (nh : option _kv_namespace_handle)
    (ks_id : Z) (key : option kv_key) (opt : Z) (value : option kv_value) post_fn d :=
  match qh, nh, key, value with
  | Some _, Some _, Some _, Some _ => dev_kv_retrieve raw qh nh ks_id key opt post_fn value d
  | _, _, _, _ => Ret (KV_ERR_PARAM_INVALID, d)
  end.

Definition adi_store (qh : option _kv_queue_handle) (nh : option _kv_namespace_handle)
    (ks_id : Z) (key : option kv_key) (value : option kv_value) (opt : Z) post_fn d :=
  match qh, nh, key, value with
  | Some _, Some _, Some _, Some _ => dev_kv_store raw qh nh ks_id key value opt post_fn d
  | _, _, _, _ => Ret (KV_ERR_PARAM_INVALID, d)
  end.

Definition adi_poll_completion (qh : option _kv_queue_handle) (timeout_usec : Z)
    (num_events : option Z) d :=
  match qh, num_events with
  | Some _, Some _ => dev_kv_poll_completion qh timeout_usec num_events d
  | _, _ => Ret (KV_ERR_PARAM_INVALID, [], num_events, d)
  end.

Definition adi_set_interrupt_handler (qh : option _kv_queue_handle) (int_hdl : option Z) d :=
  match qh, int_hdl with
  | Some _, Some _ => dev_kv_set_interrupt_handler qh int_hdl d
  | _, _ => Ret (KV_ERR_PARAM_INVALID, d)
  end.
End adi.

(** ** The two forms of a group condition *)

(** The first four bytes of a key as a big-endian number. *)
Definition be_prefix (k : list byte) : Z := le_int (rev (take 4 k)).

Lemma testbit_byte_cons b x n :
  0 <= b < 256 -> 0 <= n ->
  Z.testbit (b + 256 * x) n = if n <? 8 then Z.testbit b n else Z.testbit x (n - 8).
Proof.
  intros Hb Hn. destruct (Z.ltb_spec n 8).
  - rewrite <- (Z.mod_pow2_bits_low (b + 256 * x) 8 n) by lia. change (2 ^ 8) with 256.
    rewrite Z.add_comm, Z.mul_comm, Z.add_comm, Z_mod_plus_full, Z.mod_small by lia. done.
  - replace n with (n - 8 + 8) at 1 by lia. rewrite <- Z.shiftr_spec by lia.
    rewrite Z.shiftr_div_pow2 by lia. change (2 ^ 8) with 256.
    rewrite (Z.mul_comm 256), Z.div_add, Z.div_small by lia. done.
Qed.

Definition band (x y : byte) : byte := Zbyte (Z.land (byteZ x) (byteZ y)).

Lemma land_byte_range x y : 0 <= x < 256 -> 0 <= Z.land x y < 256.
Proof.
  intros Hx. split; [apply Z.land_nonneg; lia|].
  rewrite <- (Z.mod_small x 256) by done. change 256 with (2 ^ 8). rewrite <- Z.land_ones by lia.
  rewrite <- Z.land_assoc, (Z.land_comm (Z.ones 8)), Z.land_assoc, Z.land_ones by lia.
  apply Z.mod_pos_bound. lia.
Qed.

Lemma byteZ_band x y : byteZ (band x y) = Z.land (byteZ x) (byteZ y).
Proof.
  unfold band. rewrite byteZ_Zbyte. unfold u8. apply Z.mod_small.
  apply land_byte_range, byteZ_range.
Qed.

Lemma le_int_land l1 l2 :
  length l1 = length l2 -> Z.land (le_int l1) (le_int l2) = le_int (zip_with band l1 l2).
Proof.
  revert l2. induction l1 as [|x l1 IH]; intros [|y l2] Hl; try done. simpl in Hl.
  cbn [le_int zip_with]. rewrite <- IH by lia. rewrite byteZ_band.
  pose proof (byteZ_range x). pose proof (byteZ_range y).
  pose proof (land_byte_range (byteZ x) (byteZ y)).
  apply Z.bits_inj'. intros n Hn. rewrite Z.land_spec, !testbit_byte_cons by lia.
  destruct (n <? 8); by rewrite Z.land_spec.
Qed.

Lemma band_Zbyte x y : band (Zbyte x) (Zbyte y) = Zbyte (Z.land x y).
Proof.
  apply (inj byteZ). rewrite byteZ_band, !byteZ_Zbyte. unfold u8. rewrite <- !Z.land_ones by lia.
  rewrite <- !Z.land_assoc. f_equal. rewrite (Z.land_comm (Z.ones 8)), <- Z.land_assoc.
  by rewrite Z.land_diag.
Qed.

Lemma zip_band_int_le n x y : zip_with band (int_le n x) (int_le n y) = int_le n (Z.land x y).
Proof.
  revert x y. induction n as [|n IH]; intros x y; [done|]. cbn [int_le zip_with].
  rewrite band_Zbyte, IH. f_equal. f_equal. change 256 with (2 ^ 8).
  rewrite <- !Z.shiftr_div_pow2 by lia. by rewrite Z.shiftr_land.
Qed.

(** Swapping the bytes commutes with masking. *)
Lemma htobe32_land x y : Z.land (htobe32 x) (htobe32 y) = htobe32 (Z.land x y).
Proof.
  unfold htobe32. rewrite le_int_land by (by rewrite !length_rev, !length_int_le).
  f_equal. rewrite <- zip_band_int_le. done.
Qed.

Lemma htobe32_inj x y :
  0 <= x < 2 ^ 32 -> 0 <= y < 2 ^ 32 -> htobe32 x = htobe32 y -> x = y.
Proof. intros Hx Hy E. by rewrite <- (htobe32_involutive x), <- (htobe32_involutive y), E. Qed.

Lemma key_prefix_be k : (4 <= length k)%nat -> key_prefix k = htobe32 (be_prefix k).
Proof.
  intros Hk. unfold key_prefix, htobe32, be_prefix.
  assert (Hl : length (rev (take 4 k)) = 4%nat) by (rewrite length_rev, length_take; lia).
  rewrite <- Hl at 2. by rewrite int_le_le_int, rev_involutive.
Qed.

Lemma land_u32_range x y : 0 <= x < 2 ^ 32 -> 0 <= Z.land x y < 2 ^ 32.
Proof.
  intros Hx. split; [apply Z.land_nonneg; lia|].
  rewrite <- (Z.mod_small x (2 ^ 32)) by done. rewrite <- Z.land_ones by lia.
  rewrite <- Z.land_assoc, (Z.land_comm (Z.ones 32)), Z.land_assoc, Z.land_ones by lia.
  apply Z.mod_pos_bound. lia.
Qed.

Lemma be_prefix_range k : 0 <= be_prefix k < 2 ^ 32.
Proof.
  unfold be_prefix. pose proof (le_int_range (rev (take 4 k))) as H. split; [lia|].
  eapply Z.lt_le_trans; [apply H|]. change (2 ^ 32) with (256 ^ 4).
  apply Z.pow_le_mono_r; [lia|]. rewrite length_rev, length_take. lia.
Qed.

(** What an opened iterator matches: the first four bytes, read as a big-endian
    number, agree with the pattern on the bits of the mask. *)
Lemma cond_match_htobe c k :
  cond_ok c -> (4 <= length k)%nat ->
  cond_match (cond_htobe c) k =
    (Z.land (be_prefix k) (gc_bitmask c) =? Z.land (gc_bit_pattern c) (gc_bitmask c)).
Proof.
  intros [Hm Hp] Hk. unfold cond_match, cond_htobe. cbn [gc_bitmask gc_bit_pattern].
  rewrite key_prefix_be, !htobe32_land by done.
  destruct (Z.eqb_spec (Z.land (be_prefix k) (gc_bitmask c)) (Z.land (gc_bit_pattern c) (gc_bitmask c)))
    as [->|Hne]; [apply Z.eqb_refl|].
  apply Z.eqb_neq. intros E. apply Hne. apply htobe32_inj; [..|done];
    apply land_u32_range; [apply be_prefix_range|done].
Qed.

(** ** Properties *)

(**  The two group operations of the interface read the same condition
    differently: opening an iterator swaps its bytes and deleting a group does
    not.  The condition "all bits, 61 00 00 01" iterates over that key, while
    the deletion it causes keeps it. *)
Theorem delete_group_other_byte_order :
  let c := KvGroupCondition 4294967295 1627389953 in
  let open := adi_open_iterator demo_store (Some demo_qh) (Some demo_nh) 1 0 (Some c) None d_queues in
  let del := adi_delete_group demo_store (Some demo_qh) (Some demo_nh) 1 (Some c) None d_queues in
  (exists d1 c1, open = Ret (KV_SUCCESS, d1) /\ submitted_to 1 d_queues d1 c1 /\
     c_command c1 = iterator_open_info 0 (cond_htobe c)) /\
  (exists d2 c2, del = Ret (KV_SUCCESS, d2) /\ submitted_to 1 d_queues d2 c2 /\
     c_command c2 = delete_group_info (Some c)) /\
  cond_match (cond_htobe c) key_a = true /\
  om_find_a (kv_delete_group 1 c e_two).2 = Some [Byte.x05; Byte.x06].
Proof.
  split; [|split; [|split; [reflexivity|reflexivity]]].
  - eexists _, _. split; [reflexivity|]. split.
    + eexists _, _. split; [reflexivity|]. split; [reflexivity|]. split; reflexivity.
    + reflexivity.
  - eexists _, _. split; [reflexivity|]. split.
    + eexists _, _. split; [reflexivity|]. split; [reflexivity|]. split; reflexivity.
    + reflexivity.
Qed.
