(* ===== verification/KvsTypes.v ===== *)
(** * Types and checks of the public API

    The result codes, constants and structures of [core/include], the
    translation of result codes, and the checks of keys, values and iterator
    filters that the front end ([cfrontend.cpp]) applies before it calls a
    driver.

    [kvs_key], [kvs_value] and [kvs_iterator_list] have the fields of the
    device layer's structures, and the drivers cast pointers to the one into
    pointers to the other: the model uses one type for both. *)

From stdpp Require Import base numbers list.
From S2P Require Import Prelude.
From S2P Require Import AdiTypes.
From S2P Require Import Emulator.
From S2P Require Import EmulInv.
From S2P Require Import EmulIter.
From S2P Require Import Adi.

Abbreviation kvs_key := kv_key.
Abbreviation kvs_value := kv_value.
Abbreviation kvs_iterator_list := kv_iterator_list.

(** ** Constants of [kvs_const.h], [kvs_struct.h] and [private_types.h] *)

Abbreviation KVS_MIN_KEY_LENGTH := 4%Z (only parsing).
Abbreviation KVS_MAX_KEY_LENGTH := 255%Z (only parsing).
Abbreviation KVS_MIN_VALUE_LENGTH := 0%Z (only parsing).
Abbreviation KVS_MAX_VALUE_LENGTH := (2 * 1024 * 1024)%Z (only parsing).
Abbreviation KVS_OPTIMAL_VALUE_LENGTH := 4096%Z (only parsing).
Abbreviation KVS_ALIGNMENT_UNIT := 512%Z (only parsing).
Abbreviation KVS_VALUE_LENGTH_ALIGNMENT_UNIT := 4%Z (only parsing).
Abbreviation KVS_ITERATOR_BUFFER_SIZE := (32 * 1024)%Z (only parsing).
Abbreviation MAX_CONT_PATH_LEN := 255%Z (only parsing).
Abbreviation MAX_KEYSPACE_NAME_LEN := MAX_CONT_PATH_LEN%Z (only parsing).

Abbreviation KVS_CMD_DELETE := 1%Z (only parsing).
Abbreviation KVS_CMD_EXIST := 3%Z (only parsing).
Abbreviation KVS_CMD_ITER_CREATE := 4%Z (only parsing).
Abbreviation KVS_CMD_ITER_DELETE := 5%Z (only parsing).
Abbreviation KVS_CMD_ITER_NEXT := 6%Z (only parsing).
Abbreviation KVS_CMD_RETRIEVE := 7%Z (only parsing).
Abbreviation KVS_CMD_STORE := 8%Z (only parsing).

Abbreviation KVS_KEY_ORDER_NONE := 0%Z (only parsing).
Abbreviation KVS_ITERATOR_KEY := 0%Z (only parsing).
Abbreviation KVS_ITERATOR_KEY_VALUE := 1%Z (only parsing).
Abbreviation KVS_STORE_POST := 0%Z (only parsing).
Abbreviation KVS_STORE_UPDATE_ONLY := 1%Z (only parsing).
Abbreviation KVS_STORE_NOOVERWRITE := 2%Z (only parsing).
Abbreviation KVS_STORE_APPEND := 3%Z (only parsing).

Abbreviation KS_MAX_CONT := 1%Z (only parsing).
Abbreviation META_DATA_KEYSPACE_ID := 0%Z (only parsing).
Abbreviation USER_DATA_KEYSPACE_START_ID := 1%Z (only parsing).
Abbreviation DMA_ALIGN := 4%Z (only parsing).

(** ** Result codes *)

Inductive kvs_result : Set :=
| KVS_SUCCESS
| KVS_ERR_BUFFER_SMALL
| KVS_ERR_DEV_CAPAPCITY
| KVS_ERR_DEV_NOT_EXIST
| KVS_ERR_KS_CAPACITY
| KVS_ERR_KS_EXIST
| KVS_ERR_KS_INDEX
| KVS_ERR_KS_NAME
| KVS_ERR_KS_NOT_EXIST
| KVS_ERR_KS_NOT_OPEN
| KVS_ERR_KS_OPEN
| KVS_ERR_ITERATOR_FILTER_INVALID
| KVS_ERR_ITERATOR_MAX
| KVS_ERR_ITERATOR_NOT_EXIST
| KVS_ERR_ITERATOR_OPEN
| KVS_ERR_KEY_LENGTH_INVALID
| KVS_ERR_KEY_NOT_EXIST
| KVS_ERR_OPTION_INVALID
| KVS_ERR_PARAM_INVALID
| KVS_ERR_SYS_IO
| KVS_ERR_VALUE_LENGTH_INVALID
| KVS_ERR_VALUE_OFFSET_INVALID
| KVS_ERR_VALUE_OFFSET_MISALIGNED
| KVS_ERR_VALUE_UPDATE_NOT_ALLOWED
| KVS_ERR_DEV_NOT_OPENED.

#[export] Instance kvs_result_eq_dec : EqDecision kvs_result.
Proof. solve_decision. Defined.

Definition kvs_result_code (r : kvs_result) : Z :=
  match r with
  | KVS_SUCCESS => 0
  | KVS_ERR_BUFFER_SMALL => 1
  | KVS_ERR_DEV_CAPAPCITY => 2
  | KVS_ERR_DEV_NOT_EXIST => 3
  | KVS_ERR_KS_CAPACITY => 4
  | KVS_ERR_KS_EXIST => 5
  | KVS_ERR_KS_INDEX => 6
  | KVS_ERR_KS_NAME => 7
  | KVS_ERR_KS_NOT_EXIST => 8
  | KVS_ERR_KS_NOT_OPEN => 9
  | KVS_ERR_KS_OPEN => 10
  | KVS_ERR_ITERATOR_FILTER_INVALID => 11
  | KVS_ERR_ITERATOR_MAX => 12
  | KVS_ERR_ITERATOR_NOT_EXIST => 13
  | KVS_ERR_ITERATOR_OPEN => 14
  | KVS_ERR_KEY_LENGTH_INVALID => 15
  | KVS_ERR_KEY_NOT_EXIST => 16
  | KVS_ERR_OPTION_INVALID => 17
  | KVS_ERR_PARAM_INVALID => 18
  | KVS_ERR_SYS_IO => 19
  | KVS_ERR_VALUE_LENGTH_INVALID => 20
  | KVS_ERR_VALUE_OFFSET_INVALID => 21
  | KVS_ERR_VALUE_OFFSET_MISALIGNED => 22
  | KVS_ERR_VALUE_UPDATE_NOT_ALLOWED => 23
  | KVS_ERR_DEV_NOT_OPENED => 24
  end.

(** The table [code_map] of the emulator driver. *)
Definition code_map (r : kv_result) : kvs_result :=
  match r with
  | KV_SUCCESS => KVS_SUCCESS
  | KV_WRN_MORE => KVS_ERR_SYS_IO
  | KV_ERR_DEV_CAPACITY => KVS_ERR_KS_CAPACITY
  | KV_ERR_DEV_INIT => KVS_ERR_SYS_IO
  | KV_ERR_DEV_INITIALIZED => KVS_ERR_SYS_IO
  | KV_ERR_DEV_NOT_EXIST => KVS_ERR_DEV_NOT_EXIST
  | KV_ERR_DEV_SANITIZE_FAILED => KVS_ERR_SYS_IO
  | KV_ERR_ITERATOR_NOT_EXIST => KVS_ERR_ITERATOR_NOT_EXIST
  | KV_ERR_ITERATOR_ALREADY_OPEN => KVS_ERR_ITERATOR_OPEN
  | KV_ERR_KEY_INVALID => KVS_ERR_SYS_IO
  | KV_ERR_KEY_LENGTH_INVALID => KVS_ERR_KEY_LENGTH_INVALID
  | KV_ERR_KEY_NOT_EXIST => KVS_ERR_KEY_NOT_EXIST
  | KV_ERR_NS_DEFAULT => KVS_ERR_SYS_IO
  | KV_ERR_NS_INVALID => KVS_ERR_SYS_IO
  | KV_ERR_OPTION_INVALID => KVS_ERR_OPTION_INVALID
  | KV_ERR_PARAM_INVALID => KVS_ERR_PARAM_INVALID
  | KV_ERR_PURGE_IN_PRGRESS => KVS_ERR_SYS_IO
  | KV_ERR_SYS_IO => KVS_ERR_SYS_IO
  | KV_ERR_VALUE_LENGTH_INVALID => KVS_ERR_VALUE_LENGTH_INVALID
  | KV_ERR_VALUE_LENGTH_MISALIGNED => KVS_ERR_VALUE_OFFSET_MISALIGNED
  | KV_ERR_VALUE_OFFSET_INVALID => KVS_ERR_VALUE_OFFSET_INVALID
  | KV_ERR_VENDOR => KVS_ERR_SYS_IO
  | KV_ERR_PERMISSION => KVS_ERR_SYS_IO
  | KV_ERR_MISALIGNED_VALUE_OFFSET => KVS_ERR_VALUE_OFFSET_MISALIGNED
  | KV_ERR_BUFFER_SMALL => KVS_ERR_BUFFER_SMALL
  | KV_ERR_DEV_MAX_NS => KVS_ERR_SYS_IO
  | KV_ERR_ITERATOR_COND_INVALID => KVS_ERR_ITERATOR_FILTER_INVALID
  | KV_ERR_KEY_EXIST => KVS_ERR_VALUE_UPDATE_NOT_ALLOWED
  | KV_ERR_NS_ATTAHED => KVS_ERR_SYS_IO
  | KV_ERR_NS_CAPACITY => KVS_ERR_KS_CAPACITY
  | KV_ERR_NS_NOT_ATTACHED => KVS_ERR_SYS_IO
  | KV_ERR_QUEUE_CQID_INVALID => KVS_ERR_SYS_IO
  | KV_ERR_QUEUE_SQID_INVALID => KVS_ERR_SYS_IO
  | KV_ERR_QUEUE_DELETION_INVALID => KVS_ERR_SYS_IO
  | KV_ERR_QUEUE_MAX_QUEUE => KVS_ERR_SYS_IO
  | KV_ERR_QUEUE_QID_INVALID => KVS_ERR_SYS_IO
  | KV_ERR_QUEUE_QSIZE_INVALID => KVS_ERR_SYS_IO
  | KV_ERR_TIMEOUT => KVS_ERR_SYS_IO
  | KV_ERR_UNCORRECTIBLE => KVS_ERR_SYS_IO
  | KV_ERR_QUEUE_IN_SHUTDOWN => KVS_ERR_SYS_IO
  | KV_ERR_QUEUE_IS_FULL => KVS_ERR_SYS_IO
  | KV_ERR_COMMAND_SUBMITTED => KVS_ERR_SYS_IO
  | KV_ERR_TOO_MANY_ITERATORS_OPEN => KVS_ERR_ITERATOR_MAX
  | KV_ERR_SYS_BUSY => KVS_ERR_SYS_IO
  | KV_ERR_COMMAND_INITIALIZED => KVS_ERR_SYS_IO
  | KV_ERR_DD_UNSUPPORTED_CMD => KVS_ERR_SYS_IO
  | KV_ERR_ITERATE_REQUEST_FAIL => KVS_ERR_SYS_IO
  | KV_ERR_DD_UNSUPPORTED => KVS_ERR_SYS_IO
  | KV_ERR_KEYSPACE_INVALID => KVS_ERR_SYS_IO
  end.

(** A code that is not in the table is an I/O error. *)
Definition convert_return_code (kv_return_code : Z) : kvs_result :=
  match kv_result_of_code kv_return_code with
  | Some r => code_map r
  | None => KVS_ERR_SYS_IO
  end.

Lemma convert_return_code_map r : convert_return_code (kv_result_code r) = code_map r.
Proof. unfold convert_return_code. by rewrite kv_result_of_code_code. Qed.

Definition kvs_is_success (r : kvs_result) : bool := bool_decide (r = KVS_SUCCESS).

(** ** Checks of keys and values *)

Definition validate_kv_pair_ (key : option kvs_key) (value : option kvs_value)
    (max_valid_val_len : Z) : kvs_result :=
  let rk :=
    match key with
    | None => KVS_SUCCESS
    | Some k =>
        if (k_length k <? KVS_MIN_KEY_LENGTH) || (KVS_MAX_KEY_LENGTH <? k_length k)
        then KVS_ERR_KEY_LENGTH_INVALID
        else match k_key k with None => KVS_ERR_PARAM_INVALID | Some _ => KVS_SUCCESS end
    end in
  if negb (kvs_is_success rk) then rk
  else
    match value with
    | None => KVS_SUCCESS
    | Some v =>
        if (v_length v <? KVS_MIN_VALUE_LENGTH) || (max_valid_val_len <? v_length v)
        then KVS_ERR_VALUE_LENGTH_INVALID
        else if negb (Z.land (v_offset v) (KVS_ALIGNMENT_UNIT - 1) =? 0)
        then KVS_ERR_VALUE_OFFSET_MISALIGNED
        else match v_value v with
             | None => if 0 <? v_length v then KVS_ERR_PARAM_INVALID else KVS_SUCCESS
             | Some _ => KVS_SUCCESS
             end
    end.

Definition validate_request (key : option kvs_key) (value : option kvs_value) : kvs_result :=
  validate_kv_pair_ key value KVS_MAX_VALUE_LENGTH.

(** ** Iterator filters *)

Record kvs_key_group_filter := KvsKeyGroupFilter {
  kf_bitmask : list byte;          (* four bytes each *)
  kf_bit_pattern : list byte
}.

Definition filter_byte (l : list byte) (i : nat) : Z := byteZ (default Byte.x00 (l !! i)).

(** The first byte becomes the most significant one. *)
Definition filter_word (l : list byte) : Z :=
  Z.lor (Z.lor (Z.lor (filter_byte l 3) (Z.shiftl (filter_byte l 2) 8))
    (Z.shiftl (filter_byte l 1) 16)) (Z.shiftl (filter_byte l 0) 24).

Definition filter2context (fltr : kvs_key_group_filter) : Z * Z :=
  (filter_word (kf_bitmask fltr), filter_word (kf_bit_pattern fltr)).

Abbreviation BITMASK_LEN := 32%Z (only parsing).

(** [bitmask & (1<<bit_idx)] for the bit that is [cnt] below the highest. *)
Definition mask_bit (bitmask cnt : Z) : bool :=
  negb (Z.land bitmask (Z.shiftl 1 (BITMASK_LEN - cnt - 1)) =? 0).

(** The first loop of [_is_valid_bitmask]: [cnt] when it stops. *)
Fixpoint scan_ones (fuel : nat) (bitmask cnt : Z) : Z :=
  match fuel with
  | O => cnt
  | S f => if cnt <? BITMASK_LEN
           then if negb (mask_bit bitmask cnt) then cnt else scan_ones f bitmask (cnt + 1)
           else cnt
  end.

(** The second loop, and what the function returns after it. *)
Fixpoint scan_zeros (fuel : nat) (bitmask cnt : Z) : bool :=
  match fuel with
  | O => true
  | S f => if cnt <? BITMASK_LEN
           then if mask_bit bitmask cnt then false else scan_zeros f bitmask (cnt + 1)
           else true
  end.

(** 32 turns reach the end of both loops. *)
Definition _is_valid_bitmask (bitmask : Z) : bool :=
  let cnt := scan_ones 32 bitmask 0 in
  if cnt =? BITMASK_LEN then true else scan_zeros 32 bitmask (cnt + 1).

(** ** The bitmask check *)

Lemma mask_bit_testbit m cnt :
  0 <= m -> 0 <= cnt < 32 -> mask_bit m cnt = Z.testbit m (31 - cnt).
Proof.
  intros Hm Hc. unfold mask_bit. replace (32 - cnt - 1) with (31 - cnt) by lia.
  destruct (Z.testbit m (31 - cnt)) eqn:E.
  - destruct (Z.eqb_spec (Z.land m (Z.shiftl 1 (31 - cnt))) 0) as [H|]; [|done].
    apply (f_equal (fun z => Z.testbit z (31 - cnt))) in H.
    rewrite Z.land_spec, E, Z.shiftl_spec, Z.bits_0 in H by lia.
    by rewrite Z.sub_diag in H.
  - replace (Z.land m (Z.shiftl 1 (31 - cnt))) with 0; [done|].
    symmetry. apply Z.bits_inj'. intros n Hn. rewrite Z.land_spec, Z.bits_0, Z.shiftl_spec by lia.
    destruct (decide (n = 31 - cnt)) as [->|]; [by rewrite E|].
    destruct (Z.lt_ge_cases n (31 - cnt)).
    + rewrite (Z.testbit_neg_r 1) by lia. apply andb_false_r.
    + rewrite (Z.bits_above_log2 1) by (simpl; lia). apply andb_false_r.
Qed.

Lemma scan_ones_spec fuel m cnt :
  0 <= m -> 0 <= cnt <= 32 -> (Z.to_nat (32 - cnt) <= fuel)%nat ->
  let c := scan_ones fuel m cnt in
  cnt <= c <= 32 /\ (forall i, 32 - c <= i < 32 - cnt -> Z.testbit m i = true) /\
  (c < 32 -> Z.testbit m (31 - c) = false).
Proof.
  revert cnt. induction fuel as [|f IH]; intros cnt Hm Hc Hf; cbn [scan_ones].
  - repeat split; try lia.
  - destruct (Z.ltb_spec cnt 32); [|repeat split; lia].
    rewrite mask_bit_testbit by lia. destruct (Z.testbit m (31 - cnt)) eqn:E; simpl.
    + destruct (IH (cnt + 1)) as (H1 & H2 & H3); [lia..|].
      split; [lia|]. split; [|done]. intros i Hi.
      destruct (decide (i = 31 - cnt)) as [->|]; [done|]. apply H2. lia.
    + repeat split; try lia. done.
Qed.

Lemma scan_zeros_spec fuel m cnt :
  0 <= m -> 0 <= cnt <= 32 -> (Z.to_nat (32 - cnt) <= fuel)%nat ->
  scan_zeros fuel m cnt = true <-> (forall i, 0 <= i < 32 - cnt -> Z.testbit m i = false).
Proof.
  revert cnt. induction fuel as [|f IH]; intros cnt Hm Hc Hf; cbn [scan_zeros].
  - split; [lia|done].
  - destruct (Z.ltb_spec cnt 32); [|split; [lia|done]].
    rewrite mask_bit_testbit by lia. destruct (Z.testbit m (31 - cnt)) eqn:E.
    + split; [done|]. intros H'. rewrite H' in E; [done|lia].
    + rewrite IH by lia. split; intros H' i Hi; [|apply H'; lia].
      destruct (decide (i = 31 - cnt)) as [->|]; [done|]. apply H'. lia.
Qed.

Lemma filter_word_be l : length l = 4%nat -> filter_word l = be_prefix l.
Proof.
  intros Hl. destruct l as [|a [|b [|c [|e [|? ?]]]]]; try done. clear Hl.
  unfold filter_word, be_prefix. cbn [rev app take le_int].
  change (filter_byte [a; b; c; e] 0) with (byteZ a).
  change (filter_byte [a; b; c; e] 1) with (byteZ b).
  change (filter_byte [a; b; c; e] 2) with (byteZ c).
  change (filter_byte [a; b; c; e] 3) with (byteZ e).
  pose proof (byteZ_range a). pose proof (byteZ_range b).
  pose proof (byteZ_range c). pose proof (byteZ_range e).
  assert (Hor : forall x y s, 0 <= x < 2 ^ s -> 0 <= s -> Z.lor x (Z.shiftl y s) = x + 2 ^ s * y).
  { intros x y s Hx Hs. rewrite <- Z.add_nocarry_lor; [rewrite Z.shiftl_mul_pow2 by done; lia|].
    apply Z.bits_inj'. intros n Hn. rewrite Z.land_spec, Z.bits_0, Z.shiftl_spec by done.
    destruct (Z.lt_ge_cases n s); [rewrite (Z.testbit_neg_r y) by lia; apply andb_false_r|].
    rewrite <- (Z.mod_small x (2 ^ s)), Z.mod_pow2_bits_high by lia. done. }
  rewrite (Hor (byteZ e) (byteZ c) 8) by lia. rewrite (Hor _ (byteZ b) 16) by lia.
  rewrite (Hor _ (byteZ a) 24) by lia. lia.
Qed.

(** Masking and comparing big-endian numbers is masking and comparing bytes. *)
Lemma be_prefix_band k m p :
  (4 <= length k)%nat -> length m = 4%nat -> length p = 4%nat ->
  (Z.land (be_prefix k) (be_prefix m) =? Z.land (be_prefix p) (be_prefix m)) =
  bool_decide (zip_with band (take 4 k) m = zip_with band p m).
Proof.
  intros Hk Hm Hp. unfold be_prefix.
  destruct k as [|k0 [|k1 [|k2 [|k3 k]]]]; simpl in Hk; try lia.
  destruct m as [|m0 [|m1 [|m2 [|m3 [|? ?]]]]]; try done.
  destruct p as [|p0 [|p1 [|p2 [|p3 [|? ?]]]]]; try done.
  rewrite !(firstn_cons _ k0), !(firstn_cons _ k1), !(firstn_cons _ k2), !(firstn_cons _ k3), !take_0.
  cbn [take rev app]. rewrite !le_int_land by done. cbn [zip_with].
  apply eq_true_iff_eq. rewrite Z.eqb_eq, bool_decide_eq_true. split.
  - intros E%le_int_inj; [|done]. by injection E as -> -> -> ->.
  - intros E. by injection E as -> -> -> ->.
Qed.

(** ** Properties *)

(** C34.  The front end accepts exactly the bitmasks whose set bits are the most
    significant ones (including none and all of them). *)
Theorem valid_bitmask m :
  0 <= m < 2 ^ 32 ->
  _is_valid_bitmask m = true <-> exists j, 0 <= j <= 32 /\ m = top_mask j.
Proof.
  intros Hm. unfold _is_valid_bitmask.
  destruct (scan_ones_spec 32 m 0) as (H1 & H2 & H3); [lia..|].
  set (c := scan_ones 32 m 0) in *.
  assert (Hex : (exists j, 0 <= j <= 32 /\ m = top_mask j) <->
                (forall i, 0 <= i < 32 - c -> Z.testbit m i = false)).
  { split.
    - intros (j & Hj & ->) i Hi. rewrite testbit_top_mask by lia.
      assert (Hf : (j <=? 31 - c) = false).
      { specialize (H3 ltac:(lia)). rewrite testbit_top_mask in H3 by lia.
        destruct (Z.ltb_spec (31 - c) 32); [|lia]. by rewrite andb_true_r in H3. }
      apply Z.leb_gt in Hf. by rewrite (proj2 (Z.leb_gt _ _)) by lia.
    - intros H. exists (32 - c). split; [lia|]. apply Z.bits_inj'. intros i Hi.
      rewrite testbit_top_mask by lia. destruct (Z.leb_spec (32 - c) i); [|by apply H].
      destruct (Z.ltb_spec i 32); [by apply H2; lia|]. by apply testbit_u32_high. }
  rewrite Hex. destruct (Z.eqb_spec c 32) as [->|]; [split; [lia|done]|].
  rewrite scan_zeros_spec by lia. split; intros H i Hi; [|apply H; lia].
  destruct (decide (i = 31 - c)) as [->|]; [apply H3; lia|]. apply H. lia.
Qed.

Lemma valid_bitmask_witness :
  _is_valid_bitmask 4294901760 = true.
Proof. apply valid_bitmask; [lia|]. exists 16. split; [lia|reflexivity]. Defined.

Lemma filter_group_eq f k :
  length (kf_bitmask f) = 4%nat -> length (kf_bit_pattern f) = 4%nat -> (4 <= length k)%nat ->
  let '(m, p) := filter2context f in
  cond_match (cond_htobe (KvGroupCondition m p)) k =
    bool_decide (zip_with band (take 4 k) (kf_bitmask f) =
                 zip_with band (kf_bit_pattern f) (kf_bitmask f)).
Proof.
  intros Hm Hp Hk. unfold filter2context. rewrite !filter_word_be by done.
  rewrite cond_match_htobe; [|split; apply be_prefix_range|done]. by apply be_prefix_band.
Qed.

(** The group of an iterator created through the API is the documented
    one: the filter passes the front end and the device layer such that a key
    matches exactly when, byte by byte, its first four bytes agree with the bit
    pattern on the bits of the mask. *)
Theorem filter_group f k :
  length (kf_bitmask f) = 4%nat -> length (kf_bit_pattern f) = 4%nat -> (4 <= length k)%nat ->
  let '(m, p) := filter2context f in
  cond_match (cond_htobe (KvGroupCondition m p)) k =
    bool_decide (zip_with band (take 4 k) (kf_bitmask f) =
                 zip_with band (kf_bit_pattern f) (kf_bitmask f)).
Proof. apply filter_group_eq. Qed.

Lemma filter_group_witness :
  let f := KvsKeyGroupFilter [Byte.xff; Byte.x00; Byte.x00; Byte.x00]
                             [Byte.x61; Byte.x00; Byte.x00; Byte.x00] in
  cond_match (cond_htobe (KvGroupCondition 4278190080 1627389952)) key_a = true.
Proof.
  intros f. etransitivity; [exact (filter_group f key_a eq_refl eq_refl ltac:(vm_compute; lia))|].
  reflexivity.
Defined.
