(* ===== verification/KvsDriver.v ===== *)
(** * The driver interface of the API

    [class KvsDriver] ([private_types.h]): what the front end expects of a
    driver.  The methods are the fields of a type class; the laws state, for the
    synchronous calls, that a driver keeps one finite map per key space.  The
    front end's theorems are proved from the laws; the drivers of the emulator and
    of the kernel are instances. *)

From stdpp Require Import base numbers list gmap.
From S2P Require Import Prelude.
From S2P Require Import AdiTypes.
From S2P Require Import EmulInv.
From S2P Require Import EmulSpec.
From S2P Require Import Device.
From S2P Require Import KvsTypes.

(** ** Data of the interface *)

(** The flag [syncio] with the arguments only an asynchronous call uses. *)
Inductive io_mode :=
| Sync
| Async (private1 private2 : Z) (post_fn : option Z).

Record kvs_exist_list := KvsExistList {
  el_num_keys : Z;
  el_length : Z;
  el_result_buffer : option (list byte)
}.

(** ** The methods

    The first argument is the key space id of the handle; the structures that a
    call writes to are returned with it. *)
Class KvsDriver (D : Type) := {
  store_tuple : Z -> kvs_key -> kvs_value -> Z -> io_mode -> D -> dev_outcome (kvs_result * D);
  retrieve_tuple : Z -> kvs_key -> kvs_value -> bool -> io_mode -> D ->
    dev_outcome (kvs_result * kvs_value * D);
  delete_tuple : Z -> kvs_key -> bool -> io_mode -> D -> dev_outcome (kvs_result * D);
  exist_tuple : Z -> list kvs_key -> kvs_exist_list -> io_mode -> D ->
    dev_outcome (kvs_result * kvs_exist_list * D);
  create_iterator : Z -> Z -> Z -> Z -> Z -> D -> dev_outcome (kvs_result * Z * D);
  delete_iterator : Z -> D -> dev_outcome (kvs_result * D);
  iterator_next : Z -> kvs_iterator_list -> io_mode -> D ->
    dev_outcome (kvs_result * kvs_iterator_list * D);
  get_used_size : D -> dev_outcome (kvs_result * option Z * D);   (* [None]: not written *)
  get_total_size : D -> dev_outcome (kvs_result * option Z * D)
}.

(** ** What a driver promises *)

(** Keys and values with the bytes they announce, and lengths the API allows. *)
Definition drv_key_ok (k : kvs_key) : Prop :=
  key_ok k /\ KVS_MIN_KEY_LENGTH <= k_length k <= KVS_MAX_KEY_LENGTH.
Definition drv_value_ok (v : kvs_value) : Prop :=
  value_ok v /\ 0 <= v_length v <= KVS_MAX_VALUE_LENGTH /\
  0 <= v_offset v < 2 ^ 32 /\ v_offset v mod KVS_ALIGNMENT_UNIT = 0.

(** Storing in a map: the answer and the new map. *)
Definition map_store (st_type : Z) (k v : list byte) (m : bytes_map) : kvs_result * bytes_map :=
  match m !! k with
  | Some _ => if st_type =? KVS_STORE_NOOVERWRITE then (KVS_ERR_VALUE_UPDATE_NOT_ALLOWED, m)
              else (KVS_SUCCESS, <[k := v]> m)
  | None => (KVS_SUCCESS, <[k := v]> m)
  end.

(** Reading from a map: the answer and the caller's structure.  The size
    reported is what the value has from the offset on; [unread] is what a failed
    read leaves in the structure, which depends on the driver. *)
Definition map_retrieve (unread : kvs_value -> kvs_value) (k : list byte) (value : kvs_value)
    (m : bytes_map) : kvs_result * kvs_value :=
  let off := v_offset value in
  match m !! k with
  | None => (KVS_ERR_KEY_NOT_EXIST, unread value)
  | Some d =>
      if bool_decide (off <> 0 /\ lenZ d <= off)
      then (KVS_ERR_VALUE_OFFSET_INVALID, unread value)
      else
        let data := slice off (v_length value) d in
        (if bool_decide (v_length value < lenZ d - off) then KVS_ERR_BUFFER_SMALL else KVS_SUCCESS,
         KvValue (memcpy_at 0 data <$> v_value value) (lenZ data) (lenZ d -32 off) off)
  end.

Definition map_delete (err : bool) (k : list byte) (m : bytes_map) : kvs_result * bytes_map :=
  match m !! k with
  | Some _ => (KVS_SUCCESS, delete k m)
  | None => (if err then KVS_ERR_KEY_NOT_EXIST else KVS_SUCCESS, m)
  end.

Class KvsDriverLaws (D : Type) `{!KvsDriver D} := {
  drv_ok : D -> Prop;                       (* in service, no call outstanding *)
  drv_abs : D -> astore;                    (* the contents of the key spaces *)
  drv_read_ok : kvs_value -> Prop;          (* the structures a read may be given *)
  drv_unread : kvs_value -> kvs_value;      (* what a failed read makes of them *)
  law_drv_spaces d : drv_ok d -> length (drv_abs d) = 2%nat;
  law_drv_read_ok buf n : 0 <= n -> drv_read_ok (KvValue (Some buf) n 0 0);
  law_store_tuple d ks key value st :
    drv_ok d -> ks_ok ks -> drv_key_ok key -> drv_value_ok value ->
    st = KVS_STORE_POST \/ st = KVS_STORE_NOOVERWRITE ->
    let '(r, m) := map_store st (key_bytes key) (value_bytes value) (as_ks ks (drv_abs d)) in
    exists d', store_tuple ks key value st Sync d = Ret (r, d') /\ drv_ok d' /\
      drv_abs d' = as_update ks (fun _ => m) (drv_abs d);
  law_retrieve_tuple d ks key value :
    drv_ok d -> ks_ok ks -> drv_key_ok key -> drv_value_ok value ->
    drv_read_ok value -> v_length value mod KVS_VALUE_LENGTH_ALIGNMENT_UNIT = 0 ->
    let '(r, value') := map_retrieve drv_unread (key_bytes key) value (as_ks ks (drv_abs d)) in
    exists d', retrieve_tuple ks key value false Sync d = Ret (r, value', d') /\ drv_ok d' /\
      drv_abs d' = drv_abs d;
  law_delete_tuple d ks key err :
    drv_ok d -> ks_ok ks -> drv_key_ok key ->
    let '(r, m) := map_delete err (key_bytes key) (as_ks ks (drv_abs d)) in
    exists d', delete_tuple ks key err Sync d = Ret (r, d') /\ drv_ok d' /\
      drv_abs d' = as_update ks (fun _ => m) (drv_abs d);
  law_exist_tuple d ks key n b :
    drv_ok d -> ks_ok ks -> drv_key_ok key ->
    exists d', exist_tuple ks [key] (KvsExistList n 1 (Some [b])) Sync d =
      Ret (KVS_SUCCESS,
           KvsExistList n 1 (Some [if bool_decide (is_Some (as_ks ks (drv_abs d) !! key_bytes key))
                                   then Byte.x01 else Byte.x00]), d') /\
      drv_ok d' /\ drv_abs d' = drv_abs d
}.
