(* ===== verification/EmulDriver.v ===== *)
(** * The emulator driver of the API

    [api/src/driver_adapter/kvemuldriver.cpp]: [class KvEmulator] translates
    the calls of the front end into commands of the device layer, and the
    results back.  A command carries a context from a fixed pool; the callback
    [on_io_complete] finds the context through [private_data].

    A synchronous call waits for its context to be marked as done.  The model
    runs the threads that can make that happen (the worker of the submission
    queue and, in interrupt mode, the interrupt thread of the completion queue)
    in one fixed order until the mark is set; the theorem on pipelines in
    [Queue] says that no other order gives other results.  The call is
    [Blocked] when no thread can run and the mark is not set. *)

From stdpp Require Import base numbers list gmap.
From S2P Require Import Prelude.
From S2P Require Import AdiTypes.
From S2P Require Import DeviceApi.
From S2P Require Import Emulator.
From S2P Require Import EmulInv.
From S2P Require Import EmulSpec.
From S2P Require Import Namespace.
From S2P Require Import IoCmd.
From S2P Require Import Queue.
From S2P Require Import Device.
From S2P Require Import Adi.
From S2P Require Import KvsTypes.
From S2P Require Import KvsDriver.

Abbreviation MAX_POOLSIZE := 10240%Z (only parsing).

(** The contexts [init] puts into the pool. *)
Definition initial_pool : list Z := seqZ 0 MAX_POOLSIZE.

(** ** [kv_emul_context]

    [cx_cmd] is the completed command with the structures of the caller that it
    points to: what the caller finds in its memory. *)
Record kv_emul_context := KvEmulContext {
  cx_on_complete : option Z;
  cx_context : Z;                  (* iocb.context, the operation *)
  cx_private1 : Z;
  cx_private2 : Z;
  cx_syncio : bool;
  cx_done_sync : bool;
  cx_result : Z;                   (* iocb.result *)
  cx_cmd : option io_cmd
}.

(** A call of a user's callback with a context. *)
Record callback := Callback { cb_fn : Z; cb_context : kv_emul_context }.

(** ** [class KvEmulator]

    [ke_dev] is the device the handles point to, [ke_irq] says whether the
    interrupt thread of the completion queue was started, [ke_pool] and
    [ke_ctx] are the free and the used contexts, and [ke_log] the user's
    callbacks run so far.  [ke_raw] is what the memory of a new command holds
    before its fields are set. *)
Record KvEmulator (B : Type) := MkKvEmulator {
  ke_dev : kv_device_internal B;
  ke_devH : option _kv_device_handle;
  ke_nsH : option _kv_namespace_handle;
  ke_sqH : option _kv_queue_handle;
  ke_cqH : option _kv_queue_handle;
  ke_int_handler : bool;
  ke_irq : bool;
  ke_pool : list Z;
  ke_ctx : gmap Z kv_emul_context;
  ke_log : list callback;
  ke_raw : io_cmd
}.

Arguments MkKvEmulator {B}.
Arguments ke_dev {B}.
Arguments ke_devH {B}.
Arguments ke_nsH {B}.
Arguments ke_sqH {B}.
Arguments ke_cqH {B}.
Arguments ke_int_handler {B}.
Arguments ke_irq {B}.
Arguments ke_pool {B}.
Arguments ke_ctx {B}.
Arguments ke_log {B}.
Arguments ke_raw {B}.

Section driver.
Context {B : Type} `{!CircularBuffer B io_cmd}.
Implicit Types (d : kv_device_internal B) (ke : KvEmulator B) (c : io_cmd).

Definition ke_set_dev d ke : KvEmulator B :=
  MkKvEmulator d (ke_devH ke) (ke_nsH ke) (ke_sqH ke) (ke_cqH ke) (ke_int_handler ke) (ke_irq ke)
    (ke_pool ke) (ke_ctx ke) (ke_log ke) (ke_raw ke).
Definition ke_set_contexts (pool : list Z) (ctx : gmap Z kv_emul_context) ke : KvEmulator B :=
  MkKvEmulator (ke_dev ke) (ke_devH ke) (ke_nsH ke) (ke_sqH ke) (ke_cqH ke) (ke_int_handler ke) (ke_irq ke)
    pool ctx (ke_log ke) (ke_raw ke).
Definition ke_add_log (cb : list callback) ke : KvEmulator B :=
  MkKvEmulator (ke_dev ke) (ke_devH ke) (ke_nsH ke) (ke_sqH ke) (ke_cqH ke) (ke_int_handler ke) (ke_irq ke)
    (ke_pool ke) (ke_ctx ke) (ke_log ke ++ cb) (ke_raw ke).

(** ** Contexts *)

Definition is_sync (m : io_mode) : bool := match m with Sync => true | Async _ _ _ => false end.

(** [malloc_context] and the fields [prep_io_context] sets; with an empty pool
    the caller waits. *)
Definition prep_io_context (opcode : Z) (mode : io_mode) ke : dev_outcome (Z * KvEmulator B) :=
  match ke_pool ke with
  | [] => Blocked
  | id :: pool =>
      let '(p1, p2, f) := match mode with
                          | Sync => (0, 0, None)
                          | Async p1 p2 f => (p1, p2, f)
                          end in
      Ret (id, ke_set_contexts pool
                 (<[id := KvEmulContext f opcode p1 p2 (is_sync mode) false 0 None]> (ke_ctx ke)) ke)
  end.

Definition free_context (id : Z) ke : KvEmulator B :=
  ke_set_contexts (ke_pool ke ++ [id]) (delete id (ke_ctx ke)) ke.

(** ** The callback of every command *)

(** [actual_value_size -= offset] on the value of a read; the value of the
    context and that of the command are the same structure. *)
Definition adjust_actual (v : kvs_value) : kvs_value :=
  KvValue (v_value v) (v_length v) (v_actual_value_size v -32 v_offset v) (v_offset v).

Definition completed_cmd c : io_cmd :=
  if opcode (c_command c) =? KV_OPC_GET then set_value (adjust_actual <$> c_value c) c else c.

Definition on_io_complete c ke : dev_outcome (KvEmulator B) :=
  match ke_ctx ke !! c_private_data c with
  | None => Undef
  | Some ctx =>
      let id := c_private_data c in
      let op := opcode (c_command c) in
      let c1 := completed_cmd c in
      let code := kv_result_code (c_retcode c) in
      if cx_syncio ctx
      then
        let ctx' := KvEmulContext (cx_on_complete ctx) (cx_context ctx) (cx_private1 ctx)
          (cx_private2 ctx) true (ke_int_handler ke || cx_done_sync ctx) code (Some c1) in
        Ret (ke_set_contexts (ke_pool ke) (<[id := ctx']> (ke_ctx ke)) ke)
      else
        let ctx' := KvEmulContext (cx_on_complete ctx) (cx_context ctx) (cx_private1 ctx)
          (cx_private2 ctx) false (cx_done_sync ctx)
          (kvs_result_code (convert_return_code code)) (Some c1) in
        let cb := match cx_on_complete ctx with
                  | Some f => if (op =? KV_OPC_OPEN_ITERATOR) || (op =? KV_OPC_CLOSE_ITERATOR)
                              then [] else [Callback f ctx']
                  | None => []
                  end in
        Ret (free_context id (ke_add_log cb ke))
  end.

(** The callbacks of the commands a poll or an interrupt turn took off the
    completion queue, in order. *)
Fixpoint complete_all (cs : list io_cmd) ke : dev_outcome (KvEmulator B) :=
  match cs with
  | [] => Ret ke
  | c :: cs' => on_io_complete c ke ≫= complete_all cs'
  end.

(** ** The threads *)

(** One turn of [process_submitted_commands] on the queue [que]. *)
Definition worker_turn (que : Z) d : dev_outcome (kv_device_internal B) :=
  match m_ioque_list d !! que, m_ns_list d !! KV_NAMESPACE_DEFAULT with
  | Some q, Some ns =>
      match dequeue true 0 false q with
      | Done (KV_SUCCESS, Some c, q') =>
          let '(c', ns') := execute_cmd (m_has_fixed_keylen d) c ns in
          let d1 := dev_set_ns (<[KV_NAMESPACE_DEFAULT := ns']> (m_ns_list d)) (dev_put_queue que q' d) in
          match get_out_queue q with
          | None => Ret d1
          | Some cq =>
              match m_ioque_list d1 !! cq with
              | None => Undef
              | Some out => match enqueue c' true out with
                            | Done (_, out') => Ret (dev_put_queue cq out' d1)
                            | Wait => Blocked
                            end
              end
          end
      | _ => Blocked
      end
  | _, _ => Undef
  end.

(** One turn of [process_interrupts] on the queue [que]. *)
Definition interrupt_turn (que : Z) ke : dev_outcome (KvEmulator B) :=
  match m_ioque_list (ke_dev ke) !! que with
  | None => Undef
  | Some q =>
      match dequeue true 0 false q with
      | Done (KV_SUCCESS, Some c, q') =>
          on_io_complete c (ke_set_dev (dev_put_queue que q' (ke_dev ke)) ke)
      | _ => Blocked
      end
  end.

(** The queue a handle points to. *)
Definition handle_queue (qh : option _kv_queue_handle) : Z := default 0 (qh ≫= qh_queue).

(** A turn of the interrupt thread if it has work, else one of the worker. *)
Definition thread_turn ke : dev_outcome (KvEmulator B) :=
  let worker := d' ← worker_turn (handle_queue (ke_sqH ke)) (ke_dev ke); Ret (ke_set_dev d' ke) in
  if ke_irq ke
  then match interrupt_turn (handle_queue (ke_cqH ke)) ke with
       | Blocked => worker
       | r => r
       end
  else worker.

(** [while (ctx->done_sync == 0) wait]; no thread has more than [fuel] turns
    left when the call starts, see [turns_left]. *)
Fixpoint wait_sync (fuel : nat) (id : Z) ke : dev_outcome (KvEmulator B) :=
  match ke_ctx ke !! id with
  | None => Undef
  | Some ctx =>
      if cx_done_sync ctx then Ret ke
      else match fuel with
           | O => Blocked
           | S f => thread_turn ke ≫= wait_sync f id
           end
  end.

Definition queue_size (qh : option _kv_queue_handle) d : nat :=
  match m_ioque_list d !! handle_queue qh with
  | Some q => Z.to_nat (eq_size q)
  | None => 0
  end.

(** A command on the submission queue needs two turns, one on the completion
    queue one. *)
Definition turns_left ke : nat :=
  2 * queue_size (ke_sqH ke) (ke_dev ke) + queue_size (ke_cqH ke) (ke_dev ke).

(** ** The calls *)

(** The function pointer the driver passes with every command. *)
Abbreviation ON_IO_COMPLETE := 1%Z (only parsing).
Definition driver_post_fn (id : Z) : option kv_postprocess_function :=
  Some (KvPostprocess (Some ON_IO_COMPLETE) id).

(** What follows [prep_io_context] in every call that may be asynchronous:
    submit, on failure free the context, else wait if the call is synchronous.
    The result comes with the completed command. *)
Definition run_tuple (id : Z) (mode : io_mode)
    (submit : kv_device_internal B -> dev_outcome (kv_result * kv_device_internal B)) ke
    : dev_outcome (kvs_result * option io_cmd * KvEmulator B) :=
  '(r, d') ← submit (ke_dev ke);
  let ke := ke_set_dev d' ke in
  let ret := kv_result_code r in
  if negb (is_success r) then Ret (convert_return_code ret, None, free_context id ke)
  else if negb (is_sync mode) then Ret (convert_return_code ret, None, ke)
  else
    ke ← wait_sync (turns_left ke) id ke;
    match ke_ctx ke !! id with
    | None => Undef
    | Some ctx => Ret (convert_return_code (cx_result ctx), cx_cmd ctx, free_context id ke)
    end.

(** The translation of the store options; [None] is the default branch. *)
Definition trans_store_cmd_opt (st_type : Z) : option Z :=
  if st_type =? KVS_STORE_POST then Some KV_STORE_OPT_DEFAULT
  else if st_type =? KVS_STORE_UPDATE_ONLY then Some KV_STORE_OPT_UPDATE_ONLY
  else if st_type =? KVS_STORE_NOOVERWRITE then Some KV_STORE_OPT_IDEMPOTENT
  else if st_type =? KVS_STORE_APPEND then Some KV_STORE_OPT_APPEND
  else None.

Definition emul_store_tuple (ks : Z) (key : kvs_key) (value : kvs_value) (st_type : Z)
    (mode : io_mode) ke : dev_outcome (kvs_result * KvEmulator B) :=
  '(id, ke) ← prep_io_context KVS_CMD_STORE mode ke;
  match trans_store_cmd_opt st_type with
  | None => Ret (KVS_ERR_OPTION_INVALID, free_context id ke)
  | Some opt =>
      '(r, _, ke) ← run_tuple id mode (adi_store (ke_raw ke) (ke_sqH ke) (ke_nsH ke) ks (Some key)
                      (Some value) opt (driver_post_fn id)) ke;
      Ret (r, ke)
  end.

Definition emul_retrieve_tuple (ks : Z) (key : kvs_key) (value : kvs_value) (retrieve_delete : bool)
    (mode : io_mode) ke : dev_outcome (kvs_result * kvs_value * KvEmulator B) :=
  '(id, ke) ← prep_io_context KVS_CMD_RETRIEVE mode ke;
  let opt := if negb retrieve_delete then KV_RETRIEVE_OPT_DEFAULT else KV_RETRIEVE_OPT_DELETE in
  '(r, c, ke) ← run_tuple id mode (adi_retrieve (ke_raw ke) (ke_sqH ke) (ke_nsH ke) ks (Some key) opt
                  (Some value) (driver_post_fn id)) ke;
  Ret (r, default value (c ≫= c_value), ke).

Definition emul_delete_tuple (ks : Z) (key : kvs_key) (delete_error : bool) (mode : io_mode) ke
    : dev_outcome (kvs_result * KvEmulator B) :=
  '(id, ke) ← prep_io_context KVS_CMD_DELETE mode ke;
  let opt := if negb delete_error then KV_DELETE_OPT_DEFAULT else KV_DELETE_OPT_ERROR in
  '(r, _, ke) ← run_tuple id mode (adi_delete (ke_raw ke) (ke_sqH ke) (ke_nsH ke) ks (Some key) opt
                  (driver_post_fn id)) ke;
  Ret (r, ke).

(** The result buffer of a completed existence check. *)
Definition exist_result (c : io_cmd) : option (list byte) :=
  match c_command c with key_exist_info _ buf _ => buf | _ => None end.

Definition emul_exist_tuple (ks : Z) (keys : list kvs_key) (el : kvs_exist_list) (mode : io_mode) ke
    : dev_outcome (kvs_result * kvs_exist_list * KvEmulator B) :=
  '(id, ke) ← prep_io_context KVS_CMD_EXIST mode ke;
  '(r, c, ke) ← run_tuple id mode (adi_exist (ke_raw ke) (ke_sqH ke) (ke_nsH ke) ks (Some keys)
                  (el_length el) (el_result_buffer el) (driver_post_fn id)) ke;
  let buf := match c ≫= exist_result with Some b => Some b | None => el_result_buffer el end in
  Ret (r, KvsExistList (el_num_keys el) (el_length el) buf, ke).

(** *** Iterators *)

(** [do kv_poll_completion while (processed == 0)], with a turn of the worker
    between two polls. *)
Fixpoint poll_until (fuel : nat) ke : dev_outcome (KvEmulator B) :=
  '(_, cs, n, d') ← adi_poll_completion (ke_cqH ke) 0 (Some 0) (ke_dev ke);
  ke ← complete_all cs (ke_set_dev d' ke);
  if negb (default 0 n =? 0) then Ret ke
  else match fuel with
       | O => Blocked
       | S f => d' ← worker_turn (handle_queue (ke_sqH ke)) (ke_dev ke);
                poll_until f (ke_set_dev d' ke)
       end.

(** Waiting for an iterator command: by polling without an interrupt handler. *)
Definition wait_iterator (id : Z) ke : dev_outcome (KvEmulator B) :=
  if negb (ke_int_handler ke) then poll_until (turns_left ke) ke
  else wait_sync (turns_left ke) id ke.

(** [iter_hd] is what the caller's handle holds before the call. *)
Definition emul_create_iterator (ks iter_type bitmask bit_pattern iter_hd : Z) ke
    : dev_outcome (kvs_result * Z * KvEmulator B) :=
  '(id, ke) ← prep_io_context KVS_CMD_ITER_CREATE Sync ke;
  let opt := if iter_type =? KVS_ITERATOR_KEY then KV_ITERATOR_OPT_KEY else KV_ITERATOR_OPT_KV in
  '(r, d') ← adi_open_iterator (ke_raw ke) (ke_sqH ke) (ke_nsH ke) ks opt
               (Some (KvGroupCondition bitmask bit_pattern)) (driver_post_fn id) (ke_dev ke);
  let ke := ke_set_dev d' ke in
  if negb (is_success r)
  then Ret (convert_return_code (kv_result_code r), iter_hd, free_context id ke)
  else
    ke ← wait_iterator id ke;
    match ke_ctx ke !! id with
    | None => Undef
    | Some ctx =>
        let hd := match cx_cmd ctx with Some c => u8 (c_result_hiter c) | None => iter_hd end in
        Ret (convert_return_code (cx_result ctx), hd, free_context id ke)
    end.

(** The result of the command is not looked at. *)
Definition emul_delete_iterator (hiter : Z) ke : dev_outcome (kvs_result * KvEmulator B) :=
  '(id, ke) ← prep_io_context KVS_CMD_ITER_DELETE Sync ke;
  '(r, d') ← adi_close_iterator (ke_raw ke) (ke_sqH ke) (ke_nsH ke) hiter (driver_post_fn id) (ke_dev ke);
  let ke := ke_set_dev d' ke in
  if negb (is_success r)
  then Ret (convert_return_code (kv_result_code r), free_context id ke)
  else ke ← wait_iterator id ke; Ret (KVS_SUCCESS, free_context id ke).

(** The iterator list of a completed command. *)
Definition next_result (c : io_cmd) : option kv_iterator_list :=
  match c_command c with iterator_next_info _ il => il | _ => None end.

Definition emul_iterator_next (hiter : Z) (iter_list : kvs_iterator_list) (mode : io_mode) ke
    : dev_outcome (kvs_result * kvs_iterator_list * KvEmulator B) :=
  '(id, ke) ← prep_io_context KVS_CMD_ITER_NEXT mode ke;
  '(r, c, ke) ← run_tuple id mode (adi_iterator_next (ke_raw ke) (ke_sqH ke) (ke_nsH ke) hiter
                  (Some iter_list) (driver_post_fn id)) ke;
  Ret (r, default iter_list (c ≫= next_result), ke).

(** *** Device information and completions *)

(** The process exits when the device does not answer: the call never returns. *)
Definition emul_get_used_size ke : dev_outcome (kvs_result * option Z * KvEmulator B) :=
  match ke_devH ke with
  | None => Undef
  | Some dh =>
      let '(r, st, d') := dev_kv_get_device_stat dh (Some (KvDeviceStat 0 0 0 0)) (ke_dev ke) in
      match is_success r, st with
      | true, Some st => Ret (convert_return_code (kv_result_code r), Some (ds_utilization st),
                              ke_set_dev d' ke)
      | _, _ => Blocked
      end
  end.

Definition emul_get_total_size ke : dev_outcome (kvs_result * option Z * KvEmulator B) :=
  match ke_devH ke with
  | None => Undef
  | Some dh =>
      let '(r, info, d') := dev_kv_get_device_info dh (Some (device_info_new 0)) (ke_dev ke) in
      match is_success r, info with
      | true, Some info => Ret (convert_return_code (kv_result_code r), Some (d_capacity info),
                                ke_set_dev d' ke)
      | _, _ => Blocked
      end
  end.

(** One poll: the number of completions, whatever [max] is. *)
Definition process_completions ke : dev_outcome (Z * KvEmulator B) :=
  '(_, cs, n, d') ← adi_poll_completion (ke_cqH ke) 0 (Some 0) (ke_dev ke);
  ke ← complete_all cs (ke_set_dev d' ke);
  Ret (default 0 n, ke).

(** ** Life of a driver *)

(** [KvEmulator::create_queue]; [qid] is its static counter, [handler] what the
    new queue's handler field holds.  The new counter, the handle, whether an
    interrupt handler was set, whether its thread runs, and the device. *)
Definition driver_create_queue (handler : option Z) (qid qdepth qtype cqid is_polling : Z)
    (devH : option _kv_device_handle) d
    : dev_outcome (Z * option _kv_queue_handle * bool * bool * kv_device_internal B) :=
  let qid := qid + 1 in
  let qinfo := KvQueue (u16 qid) (u16 qdepth) (u16 cqid) qtype in
  let '(_, h, d) := adi_create_queue handler devH (Some qinfo) true d in
  if (qtype =? COMPLETION_Q_TYPE) && (is_polling =? 0)
  then '(r, d) ← adi_set_interrupt_handler h (Some 0) d; Ret (qid, h, true, is_success r, d)
  else Ret (qid, h, false, false, d).

(** [KvEmulator::init].  The outer [None] is the exception of a malformed
    configuration; the new driver owns its device from then on. *)
Definition emul_driver_init (u : uninit) (raw : io_cmd) (file : list (list byte))
    (queuedepth is_polling qid : Z) (t : device_table)
    : option (dev_outcome (kvs_result * option (KvEmulator B) * Z * device_table)) :=
  '(r, hdl, t) ← kv_initialize_device u file (is_polling =? 1) (Some None) t;
  Some (
    match hdl with
    | Some (Some devH) =>
        match get_device_instance (dh_devid devH) t with
        | None => Undef
        | Some d =>
            if negb (is_success r) then Ret (convert_return_code (kv_result_code r), None, qid, t)
            else
              let '(r, nsH) := get_namespace_default (Some devH) true d in
              if negb (is_success r)
              then Ret (convert_return_code (kv_result_code r), None, qid, t)
              else
                '(cqid, cqH, int_handler, irq, d) ←
                  driver_create_queue (u_handler u) qid queuedepth COMPLETION_Q_TYPE 0 is_polling
                    (Some devH) d;
                '(sqid, sqH, _, _, d) ←
                  driver_create_queue (u_handler u) cqid queuedepth SUBMISSION_Q_TYPE cqid is_polling
                    (Some devH) d;
                Ret (convert_return_code (kv_result_code r),
                     Some (MkKvEmulator d (Some devH) nsH sqH cqH int_handler irq
                             initial_pool ∅ [] raw), sqid, t)
        end
    | _ => Ret (convert_return_code (kv_result_code r), None, qid, t)
    end).

(** The destructor up to [kv_cleanup_device]: the device without the queues, or
    the exit of the process. *)
Definition emul_driver_close ke : dev_outcome (kv_device_internal B) :=
  let '(r1, _, d) := adi_delete_queue (ke_devH ke) (ke_sqH ke) (ke_dev ke) in
  if negb (is_success r1) then Blocked
  else
    let '(r2, _, d) := adi_delete_queue (ke_devH ke) (ke_cqH ke) d in
    if negb (is_success r2) then Blocked else Ret d.
End driver.

#[export] Instance emul_driver {B} `{!CircularBuffer B io_cmd} : KvsDriver (KvEmulator B) := {|
  store_tuple := emul_store_tuple;
  retrieve_tuple := emul_retrieve_tuple;
  delete_tuple := emul_delete_tuple;
  exist_tuple := emul_exist_tuple;
  create_iterator := emul_create_iterator;
  delete_iterator := emul_delete_iterator;
  iterator_next := emul_iterator_next;
  get_used_size := emul_get_used_size;
  get_total_size := emul_get_total_size
|}.
