(* ===== verification/EmulDriverLaws.v ===== *)
(** * The emulator driver keeps the promises of a driver

    A driver in service (interrupt mode, its queues empty and with room, a
    well-formed store) answers every synchronous call, through the context pool,
    the queues and their threads, the namespace and the store, as the abstract
    map does. *)

From stdpp Require Import base numbers list gmap.
From S2P Require Import Prelude.
From S2P Require Import AdiTypes.
From S2P Require Import OrdMap.
From S2P Require Import DeviceApi.
From S2P Require Import Emulator.
From S2P Require Import EmulInv.
From S2P Require Import EmulSpec.
From S2P Require Import Namespace.
From S2P Require Import IoCmd.
From S2P Require Import Queue.
From S2P Require Import Config.
From S2P Require Import History.
From S2P Require Import EmulIter.
From S2P Require Import Device.
From S2P Require Import Adi.
From S2P Require Import KvsTypes.
From S2P Require Import KvsDriver.
From S2P Require Import EmulDriver.

Section laws.
Context {B : Type} `{!CircularBuffer B io_cmd} `{!CircularBufferLaws B io_cmd}.
Implicit Types (d : kv_device_internal B) (ke : KvEmulator B) (c : io_cmd)
  (ns : kv_namespace_internal kvstore) (q : emul_ioqueue B).

Abbreviation qlist q := (cb_list (eq_queue q)).

(** ** The device at work *)

(** A queue in use with the commands [l]. *)
Definition queue_at (qid type : Z) (out : option Z) (l : list io_cmd) d : Prop :=
  exists q, m_ioque_list d !! qid = Some q /\ get_type q = type /\ get_out_queue q = out /\
    eq_shutdown q = false /\ qlist q = l /\ 1 <= cb_capacity (eq_queue q).

(** A submission queue with [ls], its completion queue with [lc], the namespace. *)
Definition dev_at (sq cq : Z) (ls lc : list io_cmd) ns d : Prop :=
  sq <> cq /\ queue_at sq SUBMISSION_Q_TYPE (Some cq) ls d /\
  queue_at cq COMPLETION_Q_TYPE None lc d /\ m_ns_list d !! KV_NAMESPACE_DEFAULT = Some ns.

Lemma enqueue_room c q :
  eq_shutdown q = false -> qlist q = [] -> 1 <= cb_capacity (eq_queue q) ->
  enqueue c true q = Done (KV_SUCCESS, eq_set_queue (cb_push_back c (eq_queue q)) q) /\
  qlist (eq_set_queue (cb_push_back c (eq_queue q)) q) = [c] /\
  cb_capacity (cb_push_back c (eq_queue q)) = cb_capacity (eq_queue q).
Proof.
  intros Hs Hl Hc. unfold enqueue, enqueue_loop, need_shutdown.
  assert (Hf : cb_full (eq_queue q) = false).
  { rewrite cb_full_list, Hl. apply Z.leb_gt. simpl. lia. }
  rewrite Hs, Hf. simpl. rewrite cb_push_list, cb_push_capacity, Hl by done. done.
Qed.

Lemma dequeue_one c q :
  eq_shutdown q = false -> qlist q = [c] ->
  dequeue true 0 false q =
    Done (KV_SUCCESS, Some c, eq_set_queue (cb_pop_front (eq_queue q)) q) /\
  qlist (eq_set_queue (cb_pop_front (eq_queue q)) q) = [] /\
  cb_capacity (cb_pop_front (eq_queue q)) = cb_capacity (eq_queue q).
Proof.
  intros Hs Hl. unfold dequeue, need_shutdown. simpl.
  rewrite cb_empty_list, cb_front_list, cb_pop_list, cb_pop_capacity, Hl, Hs. done.
Qed.

Lemma dequeue_empty q :
  eq_shutdown q = false -> qlist q = [] -> dequeue true 0 false q = Wait.
Proof. intros Hs Hl. unfold dequeue, need_shutdown. by rewrite cb_empty_list, Hl, Hs. Qed.

Lemma queue_at_put qid type out l' q b d :
  m_ioque_list d !! qid = Some q -> get_type q = type -> get_out_queue q = out ->
  eq_shutdown q = false -> cb_list b = l' -> 1 <= cb_capacity b ->
  queue_at qid type out l' (dev_put_queue qid (eq_set_queue b q) d).
Proof. intros. eexists. simpl. rewrite lookup_insert_eq. by repeat split. Qed.

Lemma queue_at_put_ne qid qid' type out l q d :
  qid <> qid' -> queue_at qid type out l d -> queue_at qid type out l (dev_put_queue qid' q d).
Proof.
  intros Hne (q0 & H0 & H). exists q0. split; [|done]. simpl. by rewrite lookup_insert_ne.
Qed.

Lemma submit_io_at sq cq ns c d :
  dev_at sq cq [] [] ns d ->
  exists d', submit_io sq c d = Ret (KV_SUCCESS, d') /\ dev_at sq cq [c] [] ns d' /\
    m_has_fixed_keylen d' = m_has_fixed_keylen d.
Proof.
  intros (Hne & (q & Hq & Ht & Ho & Hs & Hl & Hc) & Hcq & Hns).
  destruct (enqueue_room c q Hs Hl Hc) as (E & L & C).
  unfold submit_io. rewrite Hq, Ht, E. simpl. eexists. split; [reflexivity|].
  split; [|done]. split; [done|]. split; [|split; [by apply queue_at_put_ne|done]].
  eapply queue_at_put; eauto. by rewrite C.
Qed.

Lemma worker_turn_at sq cq ns c d :
  dev_at sq cq [c] [] ns d ->
  let '(c', ns') := execute_cmd (m_has_fixed_keylen d) c ns in
  exists d', worker_turn sq d = Ret d' /\ dev_at sq cq [] [c'] ns' d'.
Proof.
  intros (Hne & (q & Hq & Ht & Ho & Hs & Hl & Hc) & (q2 & Hq2 & Ht2 & Ho2 & Hs2 & Hl2 & Hc2) & Hns).
  destruct (execute_cmd _ c ns) as [c' ns'] eqn:E.
  destruct (dequeue_one c q Hs Hl) as (E1 & L1 & C1).
  destruct (enqueue_room c' q2 Hs2 Hl2 Hc2) as (E2 & L2 & C2).
  unfold worker_turn. rewrite Hq, Hns, E1, E, Ho. simpl.
  rewrite lookup_insert_ne, Hq2 by done. rewrite E2. eexists. split; [reflexivity|].
  split; [done|]. split; [|split].
  - apply queue_at_put_ne; [done|]. eexists. simpl. rewrite lookup_insert_eq.
    split; [reflexivity|]. simpl. rewrite C1. by repeat split.
  - eapply queue_at_put; eauto; [simpl; by rewrite lookup_insert_ne|by rewrite C2].
  - simpl. by rewrite lookup_insert_eq.
Qed.

Lemma worker_turn_idle sq cq lc ns d :
  dev_at sq cq [] lc ns d -> worker_turn sq d = Blocked.
Proof.
  intros (_ & (q & Hq & _ & _ & Hs & Hl & _) & _ & Hns). unfold worker_turn.
  by rewrite Hq, Hns, dequeue_empty.
Qed.

Lemma interrupt_turn_idle sq cq ls ns ke :
  dev_at sq cq ls [] ns (ke_dev ke) -> interrupt_turn cq ke = Blocked.
Proof.
  intros (_ & _ & (q & Hq & _ & _ & Hs & Hl & _) & _). unfold interrupt_turn.
  by rewrite Hq, dequeue_empty.
Qed.

Lemma interrupt_turn_at sq cq ns c ke :
  dev_at sq cq [] [c] ns (ke_dev ke) ->
  exists d', interrupt_turn cq ke = on_io_complete c (ke_set_dev d' ke) /\
    dev_at sq cq [] [] ns d'.
Proof.
  intros (Hne & Hsq & (q & Hq & Ht & Ho & Hs & Hl & Hc) & Hns).
  destruct (dequeue_one c q Hs Hl) as (E & L & C). unfold interrupt_turn. rewrite Hq, E.
  eexists. split; [reflexivity|]. split; [done|].
  split; [by apply queue_at_put_ne|]. split; [|done].
  eapply queue_at_put; eauto. by rewrite C.
Qed.

(** ** A driver in service *)

Definition ke_at (sq cq : Z) ns ke : Prop :=
  dev_at sq cq [] [] ns (ke_dev ke) /\
  (exists qh dev, ke_sqH ke = Some qh /\ qh_dev qh = Some dev /\ qh_queue qh = Some sq) /\
  (exists qh, ke_cqH ke = Some qh /\ qh_queue qh = Some cq) /\
  (exists nh nsid, ke_nsH ke = Some nh /\ nh_ns nh = Some nsid) /\
  ke_int_handler ke = true /\ ke_irq ke = true /\ ke_pool ke <> [].

Lemma queue_at_size qh qid type out l d :
  qh ≫= qh_queue = Some qid -> queue_at qid type out l d -> queue_size qh d = length l.
Proof.
  intros Hh (q & Hq & _ & _ & _ & Hl & _). unfold queue_size, handle_queue. rewrite Hh. simpl.
  rewrite Hq. unfold eq_size. rewrite cb_size_list, Hl. lia.
Qed.

Lemma turns_left_at sq cq ls lc ns ke :
  ke_sqH ke ≫= qh_queue = Some sq -> ke_cqH ke ≫= qh_queue = Some cq ->
  dev_at sq cq ls lc ns (ke_dev ke) -> turns_left ke = (2 * length ls + length lc)%nat.
Proof.
  intros Hs Hc (_ & Hq1 & Hq2 & _). unfold turns_left.
  by rewrite (queue_at_size _ _ _ _ _ _ Hs Hq1), (queue_at_size _ _ _ _ _ _ Hc Hq2).
Qed.

Lemma wait_sync_step f id ke ke' ctx :
  ke_ctx ke !! id = Some ctx -> cx_done_sync ctx = false -> thread_turn ke = Ret ke' ->
  wait_sync (S f) id ke = wait_sync f id ke'.
Proof. intros Hc Hd Ht. cbn [wait_sync]. by rewrite Hc, Hd, Ht. Qed.

Lemma wait_sync_done f id ke ctx :
  ke_ctx ke !! id = Some ctx -> cx_done_sync ctx = true -> wait_sync f id ke = Ret ke.
Proof. intros Hc Hd. destruct f; cbn [wait_sync]; by rewrite Hc, Hd. Qed.

(** The two turns that complete the only command on the submission queue. *)
Lemma wait_sync_one sq cq ns c ke ctx :
  dev_at sq cq [c] [] ns (ke_dev ke) ->
  handle_queue (ke_sqH ke) = sq -> handle_queue (ke_cqH ke) = cq ->
  ke_int_handler ke = true -> ke_irq ke = true ->
  ke_ctx ke !! c_private_data c = Some ctx -> cx_syncio ctx = true -> cx_done_sync ctx = false ->
  let '(c', ns') := execute_cmd (m_has_fixed_keylen (ke_dev ke)) c ns in
  exists d' ctx', dev_at sq cq [] [] ns' d' /\
    cx_result ctx' = kv_result_code (c_retcode c') /\ cx_cmd ctx' = Some (completed_cmd c') /\
    wait_sync 2 (c_private_data c) ke =
      Ret (ke_set_contexts (ke_pool ke) (<[c_private_data c := ctx']> (ke_ctx ke)) (ke_set_dev d' ke)).
Proof.
  intros Hd Hsq Hcq Hint Hirq Hctx Hsync Hdone.
  pose proof (worker_turn_at _ _ _ _ _ Hd) as Hw.
  pose proof (execute_cmd_same (m_has_fixed_keylen (ke_dev ke)) c ns) as (_ & Hpd & _).
  destruct (execute_cmd _ c ns) as [c' ns']. simpl in Hpd. destruct Hw as (d1 & Hw & Hd1).
  destruct (interrupt_turn_at sq cq ns' c' (ke_set_dev d1 ke) Hd1) as (d2 & Hi & Hd2).
  eexists d2, _. split; [done|]. repeat split; [| |].
  3: { erewrite wait_sync_step; [|done..|].
       2: { unfold thread_turn. by rewrite Hirq, Hcq, Hsq, (interrupt_turn_idle sq cq [c] ns ke Hd), Hw. }
       erewrite wait_sync_step; [|done..|].
       2: { unfold thread_turn. cbn [ke_irq ke_cqH ke_set_dev]. rewrite Hirq, Hcq, Hi.
            unfold on_io_complete. cbn [ke_ctx ke_set_dev]. by rewrite Hpd, Hctx, Hsync. }
       eapply wait_sync_done; [apply lookup_insert_eq|]. simpl. by rewrite Hint. }
  all: reflexivity.
Qed.

(** A synchronous call that submits one command: it returns the result of
    executing the command on the namespace, and the driver stays in service. *)
Lemma sync_call sq cq ns op ke submit mkc :
  ke_at sq cq ns ke ->
  (forall id d, submit id d = submit_io sq (mkc id) d) ->
  (forall id, c_private_data (mkc id) = id) ->
  exists id ke1, prep_io_context op Sync ke = Ret (id, ke1) /\
    ke_sqH ke1 = ke_sqH ke /\ ke_nsH ke1 = ke_nsH ke /\ ke_raw ke1 = ke_raw ke /\
    let '(c', ns') := execute_cmd (m_has_fixed_keylen (ke_dev ke)) (mkc id) ns in
    exists ke', ke_at sq cq ns' ke' /\
      run_tuple id Sync (submit id) ke1 = Ret (code_map (c_retcode c'), Some (completed_cmd c'), ke').
Proof.
  intros (Hd & (qh & dev & Hqh & Hqd & Hqq) & (ch & Hch & Hcq) & Hnh & Hint & Hirq & Hpool) Hsub Hpd.
  assert (Hqs : ke_sqH ke ≫= qh_queue = Some sq) by (by rewrite Hqh).
  assert (Hqc : ke_cqH ke ≫= qh_queue = Some cq) by (by rewrite Hch).
  unfold prep_io_context. destruct (ke_pool ke) as [|id pool]; [done|].
  eexists id, _. split; [reflexivity|]. split; [done|]. split; [done|]. split; [done|].
  destruct (submit_io_at sq cq ns (mkc id) (ke_dev ke) Hd) as (d1 & Hs & Hd1 & Hfix).
  unfold run_tuple. cbn [ke_dev ke_set_contexts]. rewrite Hsub, Hs. cbn [mbind dev_outcome_bind].
  match goal with |- context [free_context id ?k] => set (ke2 := k) end.
  pose proof (turns_left_at sq cq [mkc id] [] ns ke2 Hqs Hqc Hd1 : _ = 2%nat) as Hfuel.
  pose proof (wait_sync_one sq cq ns (mkc id) ke2
    (KvEmulContext None op 0 0 true false 0 None)) as Hw.
  specialize (Hw Hd1 ltac:(unfold handle_queue; simpl; by rewrite Hqs)
    ltac:(unfold handle_queue; simpl; by rewrite Hqc) Hint Hirq
    ltac:(rewrite Hpd; apply lookup_insert_eq) eq_refl eq_refl).
  cbn [ke_dev ke_set_dev ke2] in Hw. rewrite Hfix in Hw.
  destruct (execute_cmd _ (mkc id) ns) as [c' ns']. destruct Hw as (d2 & ctx' & Hd2 & Hres & Hcmd & Hw).
  rewrite Hpd in Hw. change (is_success KV_SUCCESS) with true. cbn [negb is_sync].
  eexists. split; cycle 1.
  - rewrite Hfuel, Hw. cbn [mbind dev_outcome_bind ke_ctx ke_set_contexts].
    rewrite lookup_insert_eq, Hres, Hcmd, convert_return_code_map. reflexivity.
  - split; [done|]. simpl. repeat split; eauto 10. by destruct pool.
Qed.

(** ** The store behind the driver *)

Definition ns_emul ns : kv_emulator := m_emul (m_kvstore ns).

Definition ns_ready ns : Prop :=
  use_dummy (m_kvstore ns) = false /\ emul_wf (ns_emul ns) /\ 0 < m_capacity (ns_emul ns).

Definition ke_ok ke : Prop := exists sq cq ns, ke_at sq cq ns ke /\ ns_ready ns.

Definition ke_abs ke : astore :=
  match m_ns_list (ke_dev ke) !! KV_NAMESPACE_DEFAULT with
  | Some ns => abs (ns_emul ns)
  | None => [∅; ∅]
  end.

Lemma ke_at_abs sq cq ns ke : ke_at sq cq ns ke -> ke_abs ke = abs (ns_emul ns).
Proof. intros ((_ & _ & _ & Hns) & _). unfold ke_abs. by rewrite Hns. Qed.

(** The completed command [c] carries the answer [resp]. *)
Definition answers (c : io_cmd) (resp : emul_resp) : Prop :=
  match resp with
  | RStore r _ | RDelete r _ | RPurge r => c_retcode c = r
  | RRetrieve r v => c_retcode c = r /\ c_value c = Some v /\ opcode (c_command c) = KV_OPC_GET
  end.

(** [c] does to the namespace what [o] does to its store. *)
Definition cmd_runs (c : io_cmd) (o : emul_op) : Prop :=
  forall fixed ns, use_dummy (m_kvstore ns) = false ->
  let '(c', ns') := execute_cmd fixed c ns in
  let '(resp, e') := emul_run o (ns_emul ns) in
  ns_emul ns' = e' /\ use_dummy (m_kvstore ns') = false /\ answers c' resp.

#[local] Arguments kv_store : simpl never.
#[local] Arguments kv_retrieve : simpl never.
#[local] Arguments kv_delete : simpl never.

Lemma u8_ks ks : ks_ok ks -> u8 ks = ks /\ ks_id_invalid ks = false.
Proof.
  unfold ks_ok, u8, ks_id_invalid.
  intros. split; [apply Z.mod_small|]; lia.
Qed.

Lemma store_runs raw sq ks k v h opt post :
  ks_ok ks -> cmd_runs (new_cmd raw sq (Some [k]) (Some v) h ks (store_info opt) post) (OStore ks k v opt).
Proof.
  intros [Hu Hi]%u8_ks fixed ns Hd. unfold execute_cmd, cmd_ks_id, ns_kv_store. simpl. rewrite Hu, Hi.
  unfold on_kvstore. rewrite Hd. simpl. unfold ns_emul.
  destruct (kv_store ks k v opt 0 _) as [[r n] e']. simpl. by destruct (is_success r).
Qed.

Lemma retrieve_runs raw sq ks k v h opt post :
  ks_ok ks -> cmd_runs (new_cmd raw sq (Some [k]) (Some v) h ks (get_info opt) post) (ORetrieve ks k opt v).
Proof.
  intros [Hu Hi]%u8_ks fixed ns Hd. unfold execute_cmd, cmd_ks_id, ns_kv_retrieve. simpl. rewrite Hu, Hi.
  unfold on_kvstore. rewrite Hd. simpl. unfold ns_emul.
  by destruct (kv_retrieve ks k opt v _) as [[r v'] e'].
Qed.

Lemma delete_runs raw sq ks k h opt post :
  ks_ok ks -> cmd_runs (new_cmd raw sq (Some [k]) None h ks (delete_info opt) post) (ODelete ks k opt).
Proof.
  intros [Hu Hi]%u8_ks fixed ns Hd. unfold execute_cmd, cmd_ks_id, ns_kv_delete. simpl. rewrite Hu, Hi.
  unfold on_kvstore. rewrite Hd. simpl. unfold ns_emul.
  change (cmd_key _) with (Some k).
  destruct (kv_delete ks (Some k) opt (Some 0) _) as [[r n] e'].
  destruct n as [n|]; simpl; by destruct (is_success r).
Qed.

(** *** The abstract store seen through the driver *)

Lemma spec_store_map ks key value st opt s :
  ks_ok ks -> length s = 2%nat -> st = KVS_STORE_POST \/ st = KVS_STORE_NOOVERWRITE ->
  trans_store_cmd_opt st = Some opt ->
  let '(r, m) := map_store st (key_bytes key) (value_bytes value) (as_ks ks s) in
  exists r' n, spec_run (OStore ks key value opt) s = (RStore r' n, as_update ks (fun _ => m) s) /\
    code_map r' = r.
Proof.
  intros Hks Hs Hst Ho. unfold map_store, spec_run.
  destruct Hst as [-> | ->]; injection Ho as <-; simpl;
    destruct (as_ks ks s !! key_bytes key); eexists _, _;
    (split; [rewrite ?as_update_id by done; reflexivity|reflexivity]).
Qed.

Lemma spec_retrieve_map ks key value s :
  ks_ok ks -> length s = 2%nat ->
  let '(r, v) := map_retrieve adjust_actual (key_bytes key) value (as_ks ks s) in
  exists r' v', spec_run (ORetrieve ks key KV_RETRIEVE_OPT_DEFAULT value) s = (RRetrieve r' v', s) /\
    code_map r' = r /\ adjust_actual v' = v.
Proof.
  intros Hks Hs. unfold map_retrieve, spec_run. simpl.
  destruct (as_ks ks s !! key_bytes key) as [d|]; [case_bool_decide|]; eexists _, _;
    (split; [reflexivity|]); split; try reflexivity; by case_bool_decide.
Qed.

Lemma spec_delete_map ks key err s :
  ks_ok ks -> length s = 2%nat ->
  let '(r, m) := map_delete err (key_bytes key) (as_ks ks s) in
  exists r' n, spec_run (ODelete ks key (if negb err then KV_DELETE_OPT_DEFAULT else KV_DELETE_OPT_ERROR)) s
      = (RDelete r' n, as_update ks (fun _ => m) s) /\ code_map r' = r.
Proof.
  intros Hks Hs. unfold map_delete, spec_run.
  destruct err; simpl; destruct (as_ks ks s !! key_bytes key); eexists _, _;
    (split; [rewrite ?as_update_id by done; reflexivity|reflexivity]).
Qed.

(** What a call does to the driver, given the command it submits. *)
Lemma ns_ready_run o ns ns' resp e' :
  ns_ready ns -> op_ok o -> emul_run o (ns_emul ns) = (resp, e') ->
  ns_emul ns' = e' -> use_dummy (m_kvstore ns') = false ->
  ns_ready ns' /\ spec_run o (abs (ns_emul ns)) = (resp, abs (ns_emul ns')).
Proof.
  intros (Hd & Hwf & Hcap) Hok E He Hd'. pose proof (emul_run_refines o _ Hwf Hcap Hok) as Hr.
  destruct (emul_run_keeps o _ Hwf Hok) as [Hwf' Hcap'].
  rewrite E in Hr, Hwf', Hcap'. simpl in *. split; [|by rewrite Hr, He].
  split; [done|]. rewrite He, Hcap'. done.
Qed.

(** *** The commands the calls submit *)

Lemma validate_drv key value :
  drv_key_ok key -> (forall v, value = Some v -> drv_value_ok v) ->
  validate_key_value key value = KV_SUCCESS.
Proof.
  intros [(l & Hl & _) Hk] Hv. unfold validate_key_value. rewrite Hl.
  replace ((255 <? k_length key) || (k_length key <? 4)) with false by lia.
  destruct value as [v|]; [|done]. destruct (Hv v eq_refl) as (_ & Hlen & Hoff & Hal).
  replace ((v_length v <? 0) || (2 * 1024 * 1024 <? v_length v)) with false by lia.
  change (KV_ALIGNMENT_UNIT - 1) with (Z.ones 9). rewrite Z.land_ones by lia.
  change (2 ^ 9) with KVS_ALIGNMENT_UNIT. by rewrite Hal.
Qed.

(** The handles of the driver name the submission queue [sq]. *)
Definition handles (sq : Z) ke : Prop :=
  (exists qh dev, ke_sqH ke = Some qh /\ qh_dev qh = Some dev /\ qh_queue qh = Some sq) /\
  (exists nh nsid, ke_nsH ke = Some nh /\ nh_ns nh = Some nsid).

Ltac submits f :=
  intros ((qh & dev & Hqh & Hqd & Hqq) & (nh & nsid & Hnh & Hnn)) [_ Hks]%u8_ks Hk;
  rewrite Hqh, Hnh; simpl; unfold f; intros;
  rewrite validate_drv, Hks, Hqd, Hqq, Hnn; [done..|]; by intros ? [= <-].

Lemma adi_store_submits ke sq raw ks key value opt post d :
  handles sq ke -> ks_ok ks -> drv_key_ok key -> drv_value_ok value ->
  adi_store raw (ke_sqH ke) (ke_nsH ke) ks (Some key) (Some value) opt post d =
  submit_io sq (new_cmd raw sq (Some [key]) (Some value) (c_result_hiter raw) ks (store_info opt) post) d.
Proof. submits (@dev_kv_store). Qed.

Lemma adi_retrieve_submits ke sq raw ks key value opt post d :
  handles sq ke -> ks_ok ks -> drv_key_ok key -> drv_value_ok value ->
  adi_retrieve raw (ke_sqH ke) (ke_nsH ke) ks (Some key) opt (Some value) post d =
  submit_io sq (new_cmd raw sq (Some [key]) (Some value) (c_result_hiter raw) ks (get_info opt) post) d.
Proof. submits (@dev_kv_retrieve). Qed.

Lemma adi_delete_submits ke sq raw ks key opt post d :
  handles sq ke -> ks_ok ks -> drv_key_ok key ->
  adi_delete raw (ke_sqH ke) (ke_nsH ke) ks (Some key) opt post d =
  submit_io sq (new_cmd raw sq (Some [key]) None (c_result_hiter raw) ks (delete_info opt) post) d.
Proof. submits (@dev_kv_delete). Qed.

Lemma adi_exist_submits ke sq raw ks key size buf post d :
  handles sq ke -> ks_ok ks -> drv_key_ok key ->
  adi_exist raw (ke_sqH ke) (ke_nsH ke) ks (Some [key]) size (Some buf) post d =
  submit_io sq (new_cmd raw sq (Some [key]) None (c_result_hiter raw) ks
    (key_exist_info 1 (Some buf) size) post) d.
Proof. unfold adi_exist. submits (@dev_kv_exist). Qed.

(** ** The laws *)

Lemma ke_ok_spaces ke : ke_ok ke -> length (ke_abs ke) = 2%nat.
Proof.
  intros (sq & cq & ns & Hat & _ & Hwf & _). rewrite (ke_at_abs _ _ _ _ Hat). unfold abs.
  rewrite length_fmap. by destruct Hwf.
Qed.

(** A call that submits the command of the abstract operation [o]. *)
Lemma driver_call o op ke submit mkc :
  ke_ok ke -> op_ok o ->
  (forall sq id d, handles sq ke -> submit id d = submit_io sq (mkc sq id) d) ->
  (forall sq id, c_private_data (mkc sq id) = id /\ cmd_runs (mkc sq id) o) ->
  exists id ke1 c' ke' resp, prep_io_context op Sync ke = Ret (id, ke1) /\
    ke_sqH ke1 = ke_sqH ke /\ ke_nsH ke1 = ke_nsH ke /\ ke_raw ke1 = ke_raw ke /\
    run_tuple id Sync (submit id) ke1 = Ret (code_map (c_retcode c'), Some (completed_cmd c'), ke') /\
    ke_ok ke' /\ spec_run o (ke_abs ke) = (resp, ke_abs ke') /\ answers c' resp.
Proof.
  intros (sq & cq & ns & Hat & Hready) Hop Hsub Hmk.
  destruct (sync_call sq cq ns op ke submit (mkc sq) Hat) as (id & ke1 & Hprep & H1 & H2 & H3 & Hrun).
  { intros. apply Hsub. by destruct Hat as (_ & ? & _ & ? & _). }
  { intros. apply Hmk. }
  pose proof (proj2 (Hmk sq id) (m_has_fixed_keylen (ke_dev ke)) ns (proj1 Hready)) as Hexec.
  destruct (execute_cmd _ _ ns) as [c' ns']. destruct Hrun as (ke' & Hat' & Hrun).
  destruct (emul_run _ _) as [resp e'] eqn:E. destruct Hexec as (He & Hd & Hresp).
  destruct (ns_ready_run _ _ ns' _ _ Hready Hop E He Hd) as [Hready' Hsp].
  exists id, ke1, c', ke', resp. repeat (split; [done|]). split; [by exists sq, cq, ns'|].
  by rewrite (ke_at_abs _ _ _ _ Hat), (ke_at_abs _ _ _ _ Hat').
Qed.

Lemma emul_store_law ke ks key value st :
  ke_ok ke -> ks_ok ks -> drv_key_ok key -> drv_value_ok value ->
  st = KVS_STORE_POST \/ st = KVS_STORE_NOOVERWRITE ->
  let '(r, m) := map_store st (key_bytes key) (value_bytes value) (as_ks ks (ke_abs ke)) in
  exists ke', emul_store_tuple ks key value st Sync ke = Ret (r, ke') /\ ke_ok ke' /\
    ke_abs ke' = as_update ks (fun _ => m) (ke_abs ke).
Proof.
  intros Hok Hks Hk Hv Hst.
  assert (Ho : exists opt, trans_store_cmd_opt st = Some opt) by (destruct Hst as [-> | ->]; by eexists).
  destruct Ho as [opt Ho].
  pose proof (spec_store_map ks key value st opt (ke_abs ke) Hks (ke_ok_spaces ke Hok) Hst Ho) as Hspec.
  destruct (map_store _ _ _ _) as [r m]. destruct Hspec as (r' & n & Hspec & Hr).
  destruct (driver_call (OStore ks key value opt) KVS_CMD_STORE ke
    (fun id => adi_store (ke_raw ke) (ke_sqH ke) (ke_nsH ke) ks (Some key) (Some value) opt (driver_post_fn id))
    (fun sq id => new_cmd (ke_raw ke) sq (Some [key]) (Some value) (c_result_hiter (ke_raw ke)) ks
       (store_info opt) (driver_post_fn id)) Hok)
    as (id & ke1 & c' & ke' & resp & Hprep & H1 & H2 & H3 & Hrun & Hok' & Hsp & Hans).
  { split; [done|]. split; [done|]. destruct Hv as (? & ? & _). split; [done|apply H0]. }
  { intros. by apply adi_store_submits. }
  { intros. split; [done|]. by apply store_runs. }
  rewrite Hspec in Hsp. injection Hsp as <- Habs. simpl in Hans.
  exists ke'. unfold emul_store_tuple. rewrite Hprep. cbn [mbind dev_outcome_bind].
  rewrite Ho, H1, H2, H3, Hrun. cbn [mbind dev_outcome_bind]. by rewrite Hans, Hr.
Qed.

Lemma emul_retrieve_law ke ks key value :
  ke_ok ke -> ks_ok ks -> drv_key_ok key -> drv_value_ok value ->
  let '(r, value') := map_retrieve adjust_actual (key_bytes key) value (as_ks ks (ke_abs ke)) in
  exists ke', emul_retrieve_tuple ks key value false Sync ke = Ret (r, value', ke') /\ ke_ok ke' /\
    ke_abs ke' = ke_abs ke.
Proof.
  intros Hok Hks Hk Hv.
  pose proof (spec_retrieve_map ks key value (ke_abs ke) Hks (ke_ok_spaces ke Hok)) as Hspec.
  destruct (map_retrieve _ _ _ _) as [r v]. destruct Hspec as (r' & v' & Hspec & Hr & Hadj).
  destruct (driver_call (ORetrieve ks key KV_RETRIEVE_OPT_DEFAULT value) KVS_CMD_RETRIEVE ke
    (fun id => adi_retrieve (ke_raw ke) (ke_sqH ke) (ke_nsH ke) ks (Some key) KV_RETRIEVE_OPT_DEFAULT
       (Some value) (driver_post_fn id))
    (fun sq id => new_cmd (ke_raw ke) sq (Some [key]) (Some value) (c_result_hiter (ke_raw ke)) ks
       (get_info KV_RETRIEVE_OPT_DEFAULT) (driver_post_fn id)) Hok)
    as (id & ke1 & c' & ke' & resp & Hprep & H1 & H2 & H3 & Hrun & Hok' & Hsp & Hans).
  { split; [done|]. split; [done|]. destruct Hv as (? & ? & ? & _).
    lia. }
  { intros. by apply adi_retrieve_submits. }
  { intros. split; [done|]. by apply retrieve_runs. }
  rewrite Hspec in Hsp. injection Hsp as <- Habs. destruct Hans as (Hc & Hcv & Hop).
  exists ke'. unfold emul_retrieve_tuple. rewrite Hprep. cbn [mbind dev_outcome_bind negb].
  rewrite H1, H2, H3, Hrun. cbn [mbind dev_outcome_bind].
  unfold completed_cmd. rewrite Hop, Hcv, Hc, Hr. simpl. by rewrite Hadj.
Qed.

Lemma emul_delete_law ke ks key err :
  ke_ok ke -> ks_ok ks -> drv_key_ok key ->
  let '(r, m) := map_delete err (key_bytes key) (as_ks ks (ke_abs ke)) in
  exists ke', emul_delete_tuple ks key err Sync ke = Ret (r, ke') /\ ke_ok ke' /\
    ke_abs ke' = as_update ks (fun _ => m) (ke_abs ke).
Proof.
  intros Hok Hks Hk.
  set (opt := if negb err then KV_DELETE_OPT_DEFAULT else KV_DELETE_OPT_ERROR).
  pose proof (spec_delete_map ks key err (ke_abs ke) Hks (ke_ok_spaces ke Hok)) as Hspec.
  destruct (map_delete _ _ _) as [r m]. destruct Hspec as (r' & n & Hspec & Hr).
  destruct (driver_call (ODelete ks key opt) KVS_CMD_DELETE ke
    (fun id => adi_delete (ke_raw ke) (ke_sqH ke) (ke_nsH ke) ks (Some key) opt (driver_post_fn id))
    (fun sq id => new_cmd (ke_raw ke) sq (Some [key]) None (c_result_hiter (ke_raw ke)) ks
       (delete_info opt) (driver_post_fn id)) Hok)
    as (id & ke1 & c' & ke' & resp & Hprep & H1 & H2 & H3 & Hrun & Hok' & Hsp & Hans).
  { by split. }
  { intros. by apply adi_delete_submits. }
  { intros. split; [done|]. by apply delete_runs. }
  fold opt in Hspec. rewrite Hspec in Hsp. injection Hsp as <- Habs. simpl in Hans.
  exists ke'. unfold emul_delete_tuple. rewrite Hprep. cbn [mbind dev_outcome_bind].
  fold opt. rewrite H1, H2, H3, Hrun. cbn [mbind dev_outcome_bind]. by rewrite Hans, Hr.
Qed.

Lemma execute_exist fixed raw sq ks k h b post ns :
  ks_ok ks -> use_dummy (m_kvstore ns) = false ->
  exists c', execute_cmd fixed
      (new_cmd raw sq (Some [k]) None h ks (key_exist_info 1 (Some [b]) 1) post) ns = (c', ns) /\
    c_retcode c' = KV_SUCCESS /\
    c_command c' = key_exist_info 1 (Some [if bool_decide
      (is_Some (as_ks ks (abs (ns_emul ns)) !! key_bytes k)) then Byte.x01 else Byte.x00]) 1.
Proof.
  intros [Hu Hi]%u8_ks Hd. unfold execute_cmd, cmd_ks_id, ns_kv_exist. simpl. rewrite Hu, Hi.
  unfold read_kvstore. rewrite Hd. simpl. eexists. split; [reflexivity|].
  split; [reflexivity|]. simpl. do 3 f_equal. rewrite abs_find. fold (ns_emul ns).
  destruct (om_find _ _ _); reflexivity.
Qed.

Lemma emul_exist_law ke ks key n b :
  ke_ok ke -> ks_ok ks -> drv_key_ok key ->
  exists ke', emul_exist_tuple ks [key] (KvsExistList n 1 (Some [b])) Sync ke =
    Ret (KVS_SUCCESS,
         KvsExistList n 1 (Some [if bool_decide (is_Some (as_ks ks (ke_abs ke) !! key_bytes key))
                                 then Byte.x01 else Byte.x00]), ke') /\
    ke_ok ke' /\ ke_abs ke' = ke_abs ke.
Proof.
  intros (sq & cq & ns & Hat & Hready) Hks Hk.
  destruct (sync_call sq cq ns KVS_CMD_EXIST ke
    (fun id => adi_exist (ke_raw ke) (ke_sqH ke) (ke_nsH ke) ks (Some [key]) 1 (Some [b]) (driver_post_fn id))
    (fun id => new_cmd (ke_raw ke) sq (Some [key]) None (c_result_hiter (ke_raw ke)) ks
       (key_exist_info 1 (Some [b]) 1) (driver_post_fn id)) Hat)
    as (id & ke1 & Hprep & H1 & H2 & H3 & Hrun).
  { intros. apply adi_exist_submits; [|done..]. by destruct Hat as (_ & ? & _ & ? & _). }
  { done. }
  destruct (execute_exist (m_has_fixed_keylen (ke_dev ke)) (ke_raw ke) sq ks key
    (c_result_hiter (ke_raw ke)) b (driver_post_fn id) ns Hks (proj1 Hready)) as (c' & E & Hc & Hcmd).
  rewrite E in Hrun. destruct Hrun as (ke' & Hat' & Hrun).
  exists ke'. unfold emul_exist_tuple. rewrite Hprep. cbn [mbind dev_outcome_bind].
  rewrite H1, H2, H3. cbn [el_length el_result_buffer el_num_keys]. rewrite Hrun.
  cbn [mbind dev_outcome_bind option_bind].
  unfold completed_cmd. rewrite Hcmd. simpl. unfold exist_result. rewrite Hcmd, Hc.
  rewrite (ke_at_abs _ _ _ _ Hat), (ke_at_abs _ _ _ _ Hat').
  split; [reflexivity|]. split; [by exists sq, cq, ns|done].
Qed.

#[export] Instance emul_driver_laws : KvsDriverLaws (KvEmulator B) := {|
  drv_ok := ke_ok;
  drv_abs := ke_abs;
  drv_read_ok := fun _ => True;
  drv_unread := adjust_actual;
  law_drv_spaces := ke_ok_spaces;
  law_drv_read_ok := fun _ _ _ => I;
  law_store_tuple := emul_store_law;
  law_retrieve_tuple := fun ke ks key value Hok Hks Hk Hv _ _ => emul_retrieve_law ke ks key value Hok Hks Hk Hv;
  law_delete_tuple := emul_delete_law;
  law_exist_tuple := emul_exist_law
|}.

(** ** Opening the driver *)

Lemma pool_nonempty : initial_pool <> [].
Proof. unfold initial_pool. by rewrite seqZ_cons by lia. Qed.

#[local] Opaque initial_pool.

Lemma init_device_eq u file poll st (t : device_table (B := B)) :
  device_config (load_config file) poll = Some st ->
  s_global_device_list t !! s_next_devid t = None ->
  let id := s_next_devid t in
  exists next,
  kv_initialize_device u file poll (Some None) t =
    Some (KV_SUCCESS, Some (Some (KvDeviceHandle id (Some id))),
      DeviceTable (<[id := kv_device_new id (set_is_poll st) (set_fixed_keylen st) (set_iops_model st)
                     (set_capacity st) (default_namespace u st)]> (s_global_device_list t)) next).
Proof.
  intros Hst Hfree id. eexists. unfold kv_initialize_device. rewrite Hst. simpl. by rewrite Hfree.
Qed.

(** Creating a queue on a device with few of them. *)
Lemma create_queue_eq handler qid qsize cqid type dev d :
  Z.of_nat (size (m_ioque_list d)) < 65535 -> 0 <= qsize < 65536 ->
  m_ioque_list d !! qid = None -> (type = SUBMISSION_Q_TYPE -> is_Some (m_ioque_list d !! cqid)) ->
  exists pairs n,
  adi_create_queue handler (Some (KvDeviceHandle dev (Some dev))) (Some (KvQueue qid qsize cqid type)) true d =
    (KV_SUCCESS, Some (KvQueueHandle qid (Some (dev_id d)) (Some qid)),
     dev_set_queues (<[qid := emul_ioqueue_new handler (KvQueue qid qsize cqid type)
       (if type =? SUBMISSION_Q_TYPE then Some cqid else None)]> (m_ioque_list d)) pairs n d).
Proof.
  intros Hn Hs Hq Hc. unfold adi_create_queue, dev_kv_create_queue, create_queue, qid_exist.
  cbn [dh_dev negb q_queue_size q_queue_type q_queue_id q_completion_queue_id].
  rewrite (proj2 (Z.eqb_neq _ _)) by lia. rewrite (proj2 (Z.ltb_ge _ _)) by lia.
  rewrite Hq, bool_decide_eq_false_2 by (by intros []).
  destruct (Z.eqb_spec type SUBMISSION_Q_TYPE) as [->|]; cbn [andb].
  - rewrite bool_decide_eq_true_2 by (by apply Hc). do 2 eexists. reflexivity.
  - do 2 eexists. reflexivity.
Qed.

Lemma driver_create_cq handler qid depth dev d :
  m_ioque_list d = ∅ -> 1 <= depth < 65536 -> -1 <= qid < 65535 ->
  exists d' q, driver_create_queue handler qid depth COMPLETION_Q_TYPE 0 0
      (Some (KvDeviceHandle dev (Some dev))) d =
      Ret (qid + 1, Some (KvQueueHandle (qid + 1) (Some (dev_id d)) (Some (qid + 1))), true,
           negb (m_is_poll d), d') /\
    m_ioque_list d' = {[ qid + 1 := q ]} /\ queue_at (qid + 1) COMPLETION_Q_TYPE None [] d' /\
    m_ns_list d' = m_ns_list d /\ dev_id d' = dev_id d.
Proof.
  intros Hl Hd Hq. unfold driver_create_queue, u16. rewrite !Z.mod_small by lia.
  destruct (create_queue_eq handler (qid + 1) depth 0 COMPLETION_Q_TYPE dev d) as (p & n & ->);
    [rewrite Hl, map_size_empty; lia|lia|by rewrite Hl|done|].
  simpl. rewrite lookup_insert_eq. simpl. destruct (m_is_poll d); simpl;
    (do 2 eexists; split; [reflexivity|]; simpl; rewrite Hl, !insert_empty, insert_singleton_eq;
     split; [reflexivity|]; split; [|done]; eexists; simpl; rewrite lookup_insert_eq;
     split; [reflexivity|]; simpl; rewrite cb_new_list, cb_new_capacity; repeat split; lia).
Qed.

Lemma driver_create_sq handler qid depth dev d q :
  m_ioque_list d = {[ qid := q ]} -> 1 <= depth < 65536 -> 0 <= qid < 65535 ->
  queue_at qid COMPLETION_Q_TYPE None [] d ->
  exists d', driver_create_queue handler qid depth SUBMISSION_Q_TYPE qid 0
      (Some (KvDeviceHandle dev (Some dev))) d =
      Ret (qid + 1, Some (KvQueueHandle (qid + 1) (Some (dev_id d)) (Some (qid + 1))), false, false, d') /\
    queue_at (qid + 1) SUBMISSION_Q_TYPE (Some qid) [] d' /\
    queue_at qid COMPLETION_Q_TYPE None [] d' /\ m_ns_list d' = m_ns_list d.
Proof.
  intros Hl Hd Hq Hcq. unfold driver_create_queue, u16. rewrite !Z.mod_small by lia.
  destruct (create_queue_eq handler (qid + 1) depth qid SUBMISSION_Q_TYPE dev d) as (p & n & ->);
    [rewrite Hl, map_size_singleton; lia|lia|rewrite Hl; apply lookup_singleton_ne; lia
    |intros _; rewrite Hl, lookup_singleton_eq; by eexists|].
  eexists. split; [reflexivity|]. split; [|split; [|done]].
  - eexists. simpl. rewrite lookup_insert_eq. split; [reflexivity|]. simpl.
    rewrite cb_new_list, cb_new_capacity. repeat split; lia.
  - destruct Hcq as (q' & Hq' & H). exists q'. simpl. by rewrite lookup_insert_ne by lia.
Qed.

(** What opening the driver gives, whatever the mode of the device. *)
Lemma driver_init_eq u raw file st queuedepth qid (t : device_table (B := B)) :
  device_config (load_config file) false = Some st ->
  s_global_device_list t !! s_next_devid t = None ->
  1 <= queuedepth < 65536 -> -1 <= qid < 65534 ->
  exists ke t',
    emul_driver_init u raw file queuedepth 0 qid t = Some (Ret (KVS_SUCCESS, Some ke, qid + 2, t')) /\
    ke_irq ke = negb (set_is_poll st) /\ ke_int_handler ke = true /\ ke_pool ke <> [] /\
    handles (qid + 2) ke /\ ke_cqH ke ≫= qh_queue = Some (qid + 1) /\
    dev_at (qid + 2) (qid + 1) [] [] (default_namespace u st) (ke_dev ke).
Proof.
  intros Hst Hfree Hdepth Hqid.
  destruct (init_device_eq u file false st t Hst Hfree) as [next Hinit].
  unfold emul_driver_init. change (0 =? 1) with false. rewrite Hinit. cbn [mbind option_bind].
  unfold get_device_instance. cbn [s_global_device_list dh_devid]. rewrite lookup_insert_eq.
  change (is_success KV_SUCCESS) with true. cbn [negb].
  set (d0 := kv_device_new _ _ _ _ _ _).
  assert (Hns : get_namespace_default (Some (KvDeviceHandle (s_next_devid t) (Some (s_next_devid t)))) true d0 =
    (KV_SUCCESS, Some (KvNamespaceHandle KV_NAMESPACE_DEFAULT (Some (s_next_devid t)) (Some KV_NAMESPACE_DEFAULT)))).
  { reflexivity. }
  rewrite Hns. change (is_success KV_SUCCESS) with true. cbn [negb].
  destruct (driver_create_cq (u_handler u) qid queuedepth (s_next_devid t) d0)
    as (d1 & q & E1 & Hl1 & Hq1 & Hn1 & Hi1); [done..|lia|]. rewrite E1. cbn [mbind dev_outcome_bind].
  destruct (driver_create_sq (u_handler u) (qid + 1) queuedepth (s_next_devid t) d1 q)
    as (d2 & E2 & Hsq & Hcq & Hn2); [done..|lia|done|]. rewrite E2. cbn [mbind dev_outcome_bind].
  replace (qid + 1 + 1) with (qid + 2) in * by lia.
  eexists _, _. split; [reflexivity|].
  cbn [ke_sqH ke_cqH ke_nsH ke_int_handler ke_irq ke_pool ke_dev].
  split; [done|]. split; [done|]. split; [apply pool_nonempty|].
  split; [split; cbn [ke_sqH ke_nsH]; eauto 10|]. split; [done|].
  split; [lia|]. split; [done|]. split; [done|]. rewrite Hn2, Hn1. apply lookup_singleton_eq.
Qed.

(** Without an interrupt thread nobody runs the callbacks. *)
Lemma wait_sync_no_irq sq cq ns c ke ctx f :
  dev_at sq cq [c] [] ns (ke_dev ke) -> handle_queue (ke_sqH ke) = sq -> ke_irq ke = false ->
  ke_ctx ke !! c_private_data c = Some ctx -> cx_done_sync ctx = false ->
  wait_sync (S (S f)) (c_private_data c) ke = Blocked.
Proof.
  intros Hd Hsq Hirq Hctx Hdone. pose proof (worker_turn_at _ _ _ _ _ Hd) as Hw.
  destruct (execute_cmd _ c ns) as [c' ns']. destruct Hw as (d1 & Hw & Hd1).
  erewrite wait_sync_step; [|done..|unfold thread_turn; by rewrite Hirq, Hsq, Hw].
  cbn [wait_sync ke_ctx ke_set_dev]. rewrite Hctx, Hdone. unfold thread_turn.
  cbn [ke_irq ke_sqH ke_dev ke_set_dev]. rewrite Hirq, Hsq. by rewrite (worker_turn_idle sq cq [c'] ns' d1).
Qed.

(** ** Properties *)

Lemma driver_in_service u raw file st queuedepth qid (t : device_table (B := B)) :
  device_config (load_config file) false = Some st ->
  set_is_poll st = false -> 0 < set_capacity st ->
  s_global_device_list t !! s_next_devid t = None ->
  1 <= queuedepth < 65536 -> -1 <= qid < 65534 ->
  exists ke t',
    emul_driver_init u raw file queuedepth 0 qid t = Some (Ret (KVS_SUCCESS, Some ke, qid + 2, t')) /\
    drv_ok ke /\ drv_abs ke = [∅; ∅].
Proof.
  intros Hst Hpoll Hcap Hfree Hdepth Hqid.
  destruct (driver_init_eq u raw file st queuedepth qid t Hst Hfree Hdepth Hqid)
    as (ke & t' & E & Hirq & Hint & Hp & [Hsq Hnh] & Hcq & Hd).
  exists ke, t'. split; [done|]. rewrite Hpoll in Hirq. split.
  - exists (qid + 2), (qid + 1), (default_namespace u st). split.
    + split; [done|]. split; [done|]. split; [|done].
      destruct (ke_cqH ke) as [qh|]; [|done]. by exists qh.
    + split; [done|]. split; [apply emul_init_wf; by do 5 eexists|done].
  - simpl. unfold ke_abs. destruct Hd as (_ & _ & _ & ->). done.
Qed.

(** C30.  Opening the driver on a device whose configuration selects interrupt
    mode succeeds, and gives a driver in service: both key spaces are empty,
    both queues have room, and every synchronous call that follows is answered
    as the driver laws say. *)
Theorem driver_init_ready u raw file st queuedepth qid (t : device_table (B := B)) :
  device_config (load_config file) false = Some st ->
  set_is_poll st = false -> 0 < set_capacity st ->
  s_global_device_list t !! s_next_devid t = None ->
  1 <= queuedepth < 65536 -> -1 <= qid < 65534 ->
  exists ke t',
    emul_driver_init u raw file queuedepth 0 qid t = Some (Ret (KVS_SUCCESS, Some ke, qid + 2, t')) /\
    drv_ok ke /\ drv_abs ke = [∅; ∅].
Proof. apply driver_in_service. Qed.

(**  On a device whose configuration selects polling, the driver opens
    without an error, but no synchronous store through it ever returns: the
    interrupt handler it installs is refused, and nothing else completes the
    command it waits for. *)
Theorem polling_config_blocks u raw file st queuedepth qid (t : device_table (B := B)) :
  device_config (load_config file) false = Some st ->
  set_is_poll st = true ->
  s_global_device_list t !! s_next_devid t = None ->
  1 <= queuedepth < 65536 -> -1 <= qid < 65534 ->
  exists ke t',
    emul_driver_init u raw file queuedepth 0 qid t = Some (Ret (KVS_SUCCESS, Some ke, qid + 2, t')) /\
    forall ks key value st_type opt,
      ks_ok ks -> drv_key_ok key -> drv_value_ok value -> trans_store_cmd_opt st_type = Some opt ->
      store_tuple ks key value st_type Sync ke = Blocked.
Proof.
  intros Hst Hpoll Hfree Hdepth Hqid.
  destruct (driver_init_eq u raw file st queuedepth qid t Hst Hfree Hdepth Hqid)
    as (ke & t' & E & Hirq & _ & Hp & Hh & Hcq & Hd).
  exists ke, t'. split; [done|]. intros ks key value sty opt Hks Hk Hv Ho. rewrite Hpoll in Hirq.
  cbn [store_tuple emul_driver]. unfold emul_store_tuple, prep_io_context.
  destruct (ke_pool ke) as [|id pool]; [done|]. cbn [mbind dev_outcome_bind]. rewrite Ho.
  unfold run_tuple. cbn [ke_sqH ke_nsH ke_raw ke_dev ke_set_contexts].
  rewrite (adi_store_submits ke (qid + 2)) by done.
  match goal with |- context [submit_io _ ?c _] => set (cmd := c) end.
  destruct (submit_io_at _ _ _ cmd _ Hd) as (d1 & -> & Hd1 & _). cbn [mbind dev_outcome_bind].
  change (is_success KV_SUCCESS) with true. cbn [negb is_sync].
  match goal with |- context [wait_sync (turns_left ?k)] => set (ke2 := k) end.
  assert (Hq : ke_sqH ke ≫= qh_queue = Some (qid + 2)).
  { by destruct Hh as ((qh & dev & -> & _ & ?) & _). }
  pose proof (turns_left_at _ _ _ _ _ ke2 Hq Hcq Hd1 : _ = 2%nat) as Hfuel.
  rewrite Hfuel. change id with (c_private_data cmd).
  erewrite (wait_sync_no_irq _ _ _ cmd ke2); [reflexivity|done| |done|apply lookup_insert_eq|done].
  unfold handle_queue. cbn. by rewrite Hq.
Qed.
End laws.

(** A driver in service, opened with the default configuration. *)
Lemma demo_driver :
  exists ke : KvEmulator (list_buffer io_cmd), drv_ok ke /\ drv_abs ke = [∅; ∅].
Proof.
  destruct (driver_in_service (B := list_buffer io_cmd)
    (Uninit (kv_history_new (repeat 0%nat 17) (repeat 0 17)) None true) demo_store []
    (DeviceSettings (512 * GB) false true true) 64 (-1) (DeviceTable ∅ 1)) as (ke & t' & _ & H);
    [vm_compute; reflexivity|reflexivity|vm_compute; reflexivity|reflexivity|lia|lia|].
  by exists ke.
Qed.

Lemma driver_init_ready_witness :
  exists (ke : KvEmulator (list_buffer io_cmd)) t',
    emul_driver_init (Uninit (kv_history_new (repeat 0%nat 17) (repeat 0 17)) None true) demo_store []
      64 0 (-1) (DeviceTable ∅ 1) = Some (Ret (KVS_SUCCESS, Some ke, 1, t')) /\
    drv_ok ke /\ drv_abs ke = [∅; ∅].
Proof.
  apply (driver_init_ready _ demo_store [] (DeviceSettings (512 * GB) false true true) 64 (-1));
    [vm_compute; reflexivity|reflexivity|vm_compute; reflexivity|reflexivity|lia|lia].
Defined.

Lemma polling_config_blocks_witness :
  exists (ke : KvEmulator (list_buffer io_cmd)),
    store_tuple 1 (mk_key key_a) (mk_value [Byte.x05]) KVS_STORE_POST Sync ke = Blocked.
Proof.
  destruct (polling_config_blocks (B := list_buffer io_cmd)
    (Uninit (kv_history_new (repeat 0%nat 17) (repeat 0 17)) None true) demo_store
    (text_of <$> demo_polling) (DeviceSettings (512 * GB) true true true) 64 (-1)
    (DeviceTable ∅ 1)) as (ke & t' & _ & H);
    [vm_compute; reflexivity|reflexivity|reflexivity|lia|lia|].
  exists ke. eapply H; [vm_compute; split; congruence| | |reflexivity].
  - split; [eexists; split; [reflexivity|vm_compute; split; congruence]|vm_compute; split; congruence].
  - repeat split; vm_compute; congruence.
Defined.
