(* ===== verification/KeySpace.v ===== *)
(** * Key spaces

    [api/src/cfrontend.cpp]: a device has one metadata key space, in which the
    front end keeps the list of the user's key spaces and one metadata record
    for each.  This file models the records, their layout in the device, and
    the operations on them, over any driver.

    A C string is the list of its bytes before the terminating zero; a
    character buffer is the list of all its bytes.  Memory that the code
    allocates without clearing it is a parameter ([junk]). *)

From Stdlib Require Import Strings.String.
From stdpp Require Import base numbers list gmap.
From S2P Require Import Prelude.
From S2P Require Import AdiTypes.
From S2P Require Import Config.
From S2P Require Import Device.
From S2P Require Import KvsTypes.
From S2P Require Import KvsDriver.

(** ** C strings *)

Definition strlen (s : list byte) : Z := Z.of_nat (length s).

(** The string in a buffer. *)
Definition cstr (buf : list byte) : list byte := take_while (fun b => negb (bool_decide (b = Byte.x00))) buf.

(** [snprintf(buf, n, "%s", s)]: at most [n - 1] bytes and a zero. *)
Definition snprintf_s (buf : list byte) (n : Z) (s : list byte) : list byte :=
  if n <=? 0 then buf else memcpy_at 0 (take (Z.to_nat (n - 1)) s ++ [Byte.x00]) buf.

(** [!strncmp(a, b, n)] *)
Definition strncmp_eq (a b : list byte) (n : Z) : bool :=
  bool_decide (take (Z.to_nat n) a = take (Z.to_nat n) b).

Abbreviation KEY_SPACE_LIST_KEY_NAME := (lit "key_space_list") (only parsing).
Abbreviation _INVALID_USER_KEYSPACE_ID := 0%Z (only parsing).

(** ** Metadata records *)

Record ks_metadata := KsMetadata {
  md_keyspace_id : Z;              (* uint8_t *)
  md_opened : Z;                   (* uint8_t *)
  md_key_order : Z;                (* uint8_t *)
  md_capacity : Z;                 (* uint64_t *)
  md_free_size : Z;
  md_kv_count : Z;
  md_name : list byte
}.

(** The macros on a little-endian host, where the byte order of the payload is
    that of the host: the payload (or the number) and the next position. *)
Definition copy_int_to_payload (size : nat) (z : Z) (st : list byte * nat) : list byte * nat :=
  let '(payload, pos) := st in (memcpy_at pos (int_le size z) payload, (pos + size)%nat).
Definition copy_payload_to_int (size : nat) (payload : list byte) (pos : nat) : Z * nat :=
  (le_int (take size (drop pos payload)), (pos + size)%nat).

Definition _get_key_space_payload_size : Z := 1 + 1 + 1 + 8 + 8 + 8.

Definition _parse_key_space_metadata_payload (cont : ks_metadata) (payload : list byte) : ks_metadata :=
  let '(id, p) := copy_payload_to_int 1 payload 0 in
  let '(opened, p) := copy_payload_to_int 1 payload p in
  let '(order, p) := copy_payload_to_int 1 payload p in
  let '(capacity, p) := copy_payload_to_int 8 payload p in
  let '(free, p) := copy_payload_to_int 8 payload p in
  let '(count, p) := copy_payload_to_int 8 payload p in
  KsMetadata id opened order capacity free count (md_name cont).

Definition _construct_key_space_metadata_payload (cont : ks_metadata) (payload : list byte) : list byte :=
  let st := copy_int_to_payload 1 (md_keyspace_id cont) (payload, 0%nat) in
  let st := copy_int_to_payload 1 (md_opened cont) st in
  let st := copy_int_to_payload 1 (md_key_order cont) st in
  let st := copy_int_to_payload 8 (md_capacity cont) st in
  let st := copy_int_to_payload 8 (md_free_size cont) st in
  let st := copy_int_to_payload 8 (md_kv_count cont) st in
  st.1.

(** ** The list of key spaces *)

Record ks_list_entry := KsListEntry { le_names_buffer : list byte; le_keyspace_id : Z }.
Record ks_list := KsList { ks_num : Z; ks_entries : list ks_list_entry }.

(** [calloc(1, sizeof(ks_list))] *)
Definition ks_list_calloc : ks_list :=
  KsList 0 (replicate (Z.to_nat KS_MAX_CONT)
              (KsListEntry (replicate (Z.to_nat (MAX_CONT_PATH_LEN + 1)) Byte.x00) 0)).
Definition sizeof_ks_list : Z := 1 + KS_MAX_CONT * (MAX_CONT_PATH_LEN + 1 + 1).

(** The loop of [_parse_key_space_list_payload], [n] entries from [idx] on at
    [pos]; [None] when it writes past the array. *)
Fixpoint parse_entries_loop (n idx pos : nat) (payload : list byte) (entries : list ks_list_entry)
    : option (list ks_list_entry) :=
  match n with
  | O => Some entries
  | S n' =>
      e ← entries !! idx;
      let id := le_int (take 1 (drop pos payload)) in
      let name := take (Z.to_nat MAX_CONT_PATH_LEN) (drop (pos + 1) payload) in
      let e' := KsListEntry (memcpy_at 0 name (le_names_buffer e)) id in
      parse_entries_loop n' (S idx) (pos + 1 + Z.to_nat MAX_CONT_PATH_LEN) payload (<[idx := e']> entries)
  end.

Definition _parse_key_space_list_payload (payload : list byte) (data_len : Z) (kslist : ks_list)
    : option ks_list :=
  if data_len <? 1 then Some (KsList 0 (ks_entries kslist))
  else
    let num := le_int (take 1 payload) in
    entries ← parse_entries_loop (Z.to_nat num) 0 1 payload (ks_entries kslist);
    Some (KsList num entries).

(** The loop of [_construct_key_space_list_payload]; [None] when it reads past
    the array. *)
Fixpoint construct_entries_loop (n idx : nat) (entries : list ks_list_entry) (st : list byte * nat)
    : option (list byte * nat) :=
  match n with
  | O => Some st
  | S n' =>
      e ← entries !! idx;
      let '(payload, pos) := st in
      let payload := memcpy_at pos (int_le 1 (le_keyspace_id e)) payload in
      let pos := (pos + 1)%nat in
      let len := Z.to_nat (MAX_KEYSPACE_NAME_LEN + 1) in
      let payload := memcpy_at pos (take len (le_names_buffer e)) payload in
      construct_entries_loop n' (S idx) entries (payload, (pos + len)%nat)
  end.

Definition _construct_key_space_list_payload (kslist : ks_list) (payload : list byte)
    : option (list byte * Z) :=
  let st := (memcpy_at 0 (int_le 1 (ks_num kslist)) payload, 1%nat) in
  '(payload, pos) ← construct_entries_loop (Z.to_nat (ks_num kslist)) 0 (ks_entries kslist) st;
  Some (payload, u16 (Z.of_nat pos)).

Definition _search_an_avaliable_keyspace_id : Z := USER_DATA_KEYSPACE_START_ID.

(** The entries in use. *)
Definition used_entries (kslist : ks_list) : list ks_list_entry :=
  take (Z.to_nat (ks_num kslist)) (ks_entries kslist).

Definition _contain_keyspace (kslist : ks_list) (ks_id : Z) : bool :=
  existsb (fun e => ks_id =? le_keyspace_id e) (used_entries kslist).

(** The position of the first entry with the name. *)
Fixpoint find_entry (name : list byte) (l : list ks_list_entry) : option nat :=
  match l with
  | [] => None
  | e :: l' => if strncmp_eq name (cstr (le_names_buffer e)) MAX_KEYSPACE_NAME_LEN then Some 0%nat
               else S <$> find_entry name l'
  end.

(** [entries[i] = entries[i + 1]] for the used entries from [idx] on. *)
Definition shift_entries (idx num : nat) (l : list ks_list_entry) : list ks_list_entry :=
  take idx l ++ take (num - 1 - idx) (drop (S idx) l) ++ drop (num - 1) l.

Section operations.
Context {D : Type} `{!KvsDriver D}.
Implicit Types (d : D) (name : list byte).

(** [junk n] is what [malloc(n)] returns; [kvs_malloc] and [kvs_zalloc] both call it. *)
Variable junk : Z -> list byte.

(** ** Input and output on the metadata key space *)

Inductive meta_io :=
| MetaStore (value : kvs_value) (st_type : Z)
| MetaRetrieve (value : kvs_value)
| MetaDelete (delete_error : bool).

(** Emulator and kernel driver: always synchronous.  The result comes with the
    value structure of a read. *)
Definition _sync_io_to_meta_keyspace (key : kvs_key) (io : meta_io) d
    : dev_outcome (kvs_result * option kvs_value * D) :=
  match io with
  | MetaStore value st =>
      '(ret, d) ← store_tuple META_DATA_KEYSPACE_ID key value st Sync d; Ret (ret, None, d)
  | MetaRetrieve value =>
      '(ret, value, d) ← retrieve_tuple META_DATA_KEYSPACE_ID key value false Sync d;
      Ret (ret, Some value, d)
  | MetaDelete err =>
      '(ret, d) ← delete_tuple META_DATA_KEYSPACE_ID key err Sync d; Ret (ret, None, d)
  end.

(** The key of a metadata record, in a buffer of [strlen(name)] bytes. *)
Definition metadata_key (buf name : list byte) : kvs_key :=
  let klen := u16 (strlen name) in KvKey (Some (snprintf_s buf klen name)) klen.

(** The result and the byte the device wrote. *)
Definition _exist_key_space_entry name d : dev_outcome (kvs_result * Z * D) :=
  let key := metadata_key (junk (u16 (strlen name))) name in
  '(ret, el, d) ← exist_tuple META_DATA_KEYSPACE_ID [key] (KvsExistList 1 1 (Some [Byte.x00])) Sync d;
  Ret (ret, le_int (take 1 (default [] (el_result_buffer el))), d).

Definition _retrieve_key_space_metadata (cont : ks_metadata) d
    : dev_outcome (kvs_result * ks_metadata * D) :=
  let vlen := ((_get_key_space_payload_size - 1) / DMA_ALIGN + 1) * DMA_ALIGN in
  let key := metadata_key (junk (u16 (strlen (md_name cont)))) (md_name cont) in
  '(ret, value, d) ← _sync_io_to_meta_keyspace key (MetaRetrieve (KvValue (Some (junk vlen)) vlen 0 0)) d;
  if negb (kvs_is_success ret) then Ret (ret, cont, d)
  else Ret (ret, _parse_key_space_metadata_payload cont (default [] (value ≫= v_value)), d).

(** The name is at most [MAX_CONT_PATH_LEN] bytes of the string. *)
Definition _store_key_space_metadata (cont : ks_metadata) (st_type : Z) d
    : dev_outcome (kvs_result * D) :=
  let payload_size := _get_key_space_payload_size in
  let klen := u16 (Z.min (strlen (md_name cont)) MAX_CONT_PATH_LEN) in
  let key := KvKey (Some (snprintf_s (junk klen) klen (md_name cont))) klen in
  let payload := _construct_key_space_metadata_payload cont (junk payload_size) in
  '(ret, _, d) ← _sync_io_to_meta_keyspace key
                   (MetaStore (KvValue (Some payload) payload_size 0 0) st_type) d;
  Ret (ret, d).

(** The key of the list, with its terminating zero. *)
Definition list_key (buf : list byte) : kvs_key :=
  let klen := strlen KEY_SPACE_LIST_KEY_NAME + 1 in
  KvKey (Some (snprintf_s buf klen KEY_SPACE_LIST_KEY_NAME)) klen.

Definition _retreive_key_space_list (kslist : ks_list) d : dev_outcome (kvs_result * ks_list * D) :=
  let vlen := (sizeof_ks_list + 3) / 4 * 4 in
  let key := list_key (junk (strlen KEY_SPACE_LIST_KEY_NAME + 1)) in
  '(ret, value, d) ← _sync_io_to_meta_keyspace key (MetaRetrieve (KvValue (Some (junk vlen)) vlen 0 0)) d;
  if negb (kvs_is_success ret)
  then Ret (if bool_decide (ret = KVS_ERR_KEY_NOT_EXIST) then KVS_SUCCESS else ret,
            KsList 0 (ks_entries kslist), d)
  else
    match value with
    | None => Undef
    | Some v =>
        match _parse_key_space_list_payload (default [] (v_value v)) (v_length v) kslist with
        | None => Undef
        | Some kslist => Ret (ret, kslist, d)
        end
    end.

Definition _store_key_space_list (kslist : ks_list) d : dev_outcome (kvs_result * D) :=
  let key := list_key (junk (strlen KEY_SPACE_LIST_KEY_NAME + 1)) in
  match _construct_key_space_list_payload kslist (junk sizeof_ks_list) with
  | None => Undef
  | Some (payload, vlen) =>
      '(ret, _, d) ← _sync_io_to_meta_keyspace key
                       (MetaStore (KvValue (Some payload) vlen 0 0) KVS_STORE_POST) d;
      Ret (ret, d)
  end.

(** The result and [*keyspace_id]. *)
Definition _add_to_key_space_list name (keyspace_id : Z) d : dev_outcome (kvs_result * Z * D) :=
  '(ret, kslist, d) ← _retreive_key_space_list ks_list_calloc d;
  if negb (kvs_is_success ret) then Ret (ret, keyspace_id, d)
  else if KS_MAX_CONT <=? ks_num kslist then Ret (KVS_ERR_SYS_IO, keyspace_id, d)
  else if bool_decide (is_Some (find_entry name (used_entries kslist)))
  then Ret (KVS_ERR_KS_EXIST, keyspace_id, d)
  else if negb (keyspace_id =? _INVALID_USER_KEYSPACE_ID) && _contain_keyspace kslist keyspace_id
  then Ret (KVS_ERR_SYS_IO, keyspace_id, d)
  else
    let ks_id := if keyspace_id =? _INVALID_USER_KEYSPACE_ID
                 then _search_an_avaliable_keyspace_id else keyspace_id in
    let num := Z.to_nat (ks_num kslist) in
    let entries := alter (fun e => KsListEntry
                     (snprintf_s (le_names_buffer e) (MAX_KEYSPACE_NAME_LEN + 1) name) ks_id)
                     num (ks_entries kslist) in
    '(ret, d) ← _store_key_space_list (KsList (u8 (ks_num kslist + 1)) entries) d;
    Ret (ret, if kvs_is_success ret then ks_id else keyspace_id, d).

Definition _remove_from_key_space_list name (keyspace_id : Z) d : dev_outcome (kvs_result * Z * D) :=
  '(ret, kslist, d) ← _retreive_key_space_list ks_list_calloc d;
  if negb (kvs_is_success ret) then Ret (ret, keyspace_id, d)
  else
    match find_entry name (used_entries kslist) with
    | None => Ret (KVS_ERR_KS_NOT_EXIST, keyspace_id, d)
    | Some idx =>
        let id := default 0 (le_keyspace_id <$> ks_entries kslist !! idx) in
        let num := Z.to_nat (ks_num kslist) in
        let kslist := KsList (u8 (ks_num kslist - 1)) (shift_entries idx num (ks_entries kslist)) in
        '(ret, d) ← _store_key_space_list kslist d;
        Ret (ret, if kvs_is_success ret then id else _INVALID_USER_KEYSPACE_ID, d)
    end.

(** The key space id found in the record of [name]. *)
Definition _open_key_space name (keyspace_id : Z) d : dev_outcome (kvs_result * Z * D) :=
  '(ret, cont, d) ← _retrieve_key_space_metadata (KsMetadata 0 0 0 0 0 0 name) d;
  if negb (kvs_is_success ret) then Ret (ret, keyspace_id, d)
  else
    let cont := KsMetadata (md_keyspace_id cont) 1 (md_key_order cont) (md_capacity cont)
                  (md_free_size cont) (md_kv_count cont) (md_name cont) in
    '(ret, d) ← _store_key_space_metadata cont KVS_STORE_POST d;
    Ret (ret, md_keyspace_id cont, d).

Definition _close_key_space name d : dev_outcome (kvs_result * D) :=
  '(ret, cont, d) ← _retrieve_key_space_metadata (KsMetadata 0 0 0 0 0 0 name) d;
  if negb (kvs_is_success ret) then Ret (ret, d)
  else _store_key_space_metadata
         (KsMetadata (md_keyspace_id cont) 0 (md_key_order cont) (md_capacity cont)
            (md_free_size cont) (md_kv_count cont) (md_name cont)) KVS_STORE_POST d.

Definition _create_key_space_entry name (keyspace_id cap_size ordering : Z) d
    : dev_outcome (kvs_result * D) :=
  _store_key_space_metadata (KsMetadata keyspace_id 0 (u8 ordering) cap_size 0 0 name)
    KVS_STORE_NOOVERWRITE d.

Definition _delete_key_space_entry name d : dev_outcome (kvs_result * D) :=
  let key := metadata_key (junk (u16 (strlen name))) name in
  '(ret, _, d) ← _sync_io_to_meta_keyspace key (MetaDelete true) d; Ret (ret, d).

(** ** The work of the public calls, after their checks *)

Definition create_key_space name (size ordering : Z) d : dev_outcome (kvs_result * D) :=
  '(ret, id, d) ← _add_to_key_space_list name _INVALID_USER_KEYSPACE_ID d;
  if negb (kvs_is_success ret) then Ret (ret, d)
  else
    '(ret, d) ← _create_key_space_entry name id size ordering d;
    if negb (kvs_is_success ret)
    then '(_, _, d) ← _remove_from_key_space_list name id d; Ret (ret, d)
    else Ret (ret, d).

Definition delete_key_space name d : dev_outcome (kvs_result * D) :=
  '(ret, id, d) ← _remove_from_key_space_list name _INVALID_USER_KEYSPACE_ID d;
  if negb (kvs_is_success ret) then Ret (ret, d)
  else
    '(ret, d) ← _delete_key_space_entry name d;
    if negb (kvs_is_success ret)
    then '(_, _, d) ← _add_to_key_space_list name id d; Ret (ret, d)
    else Ret (KVS_SUCCESS, d).
End operations.
