(* ===== verification/KeySpaceSpec.v ===== *)
(** * What the key space operations do to the metadata key space

    Proved from the driver laws: the layout of the records, and the effect of
    creating, opening, closing and deleting a key space on the metadata map. *)

From Stdlib Require Import Strings.String.
From stdpp Require Import base numbers list gmap.
From S2P Require Import Prelude.
From S2P Require Import AdiTypes.
From S2P Require Import EmulInv.
From S2P Require Import EmulSpec.
From S2P Require Import Device.
From S2P Require Import KvsTypes.
From S2P Require Import KvsDriver.
From S2P Require Import KeySpace.

(** ** Layout of the records *)

(** The bytes of a metadata record. *)
Definition metadata_bytes (m : ks_metadata) : list byte :=
  int_le 1 (md_keyspace_id m) ++ int_le 1 (md_opened m) ++ int_le 1 (md_key_order m) ++
  int_le 8 (md_capacity m) ++ int_le 8 (md_free_size m) ++ int_le 8 (md_kv_count m).

Definition metadata_ok (m : ks_metadata) : Prop :=
  0 <= md_keyspace_id m < 2 ^ 8 /\ 0 <= md_opened m < 2 ^ 8 /\ 0 <= md_key_order m < 2 ^ 8 /\
  0 <= md_capacity m < 2 ^ 64 /\ 0 <= md_free_size m < 2 ^ 64 /\ 0 <= md_kv_count m < 2 ^ 64.

(** Filling a cleared buffer from the left. *)
Lemma memcpy_next a s k pos n :
  pos = length a -> n = (length s + k)%nat ->
  memcpy_at pos s (a ++ replicate n Byte.x00) = (a ++ s) ++ replicate k Byte.x00.
Proof.
  intros -> ->. unfold memcpy_at. rewrite take_app_length, drop_app, drop_ge by lia.
  replace (length a + length s - length a)%nat with (length s) by lia.
  rewrite replicate_add, drop_app_ge by (rewrite length_replicate; lia).
  rewrite length_replicate, Nat.sub_diag, drop_0. by rewrite <- app_assoc.
Qed.

(** Filling any buffer from the left. *)
Lemma memcpy_append a s b pos : pos = length a -> memcpy_at pos s (a ++ b) = (a ++ s) ++ drop (length s) b.
Proof.
  intros ->. unfold memcpy_at. rewrite take_app_length, drop_app, drop_ge by lia.
  replace (length a + length s - length a)%nat with (length s) by lia. by rewrite <- app_assoc.
Qed.

Lemma copy_int_next n z a b pos :
  pos = length a -> copy_int_to_payload n z (a ++ b, pos) = ((a ++ int_le n z) ++ drop n b, (pos + n)%nat).
Proof. intros Hp. unfold copy_int_to_payload. by rewrite memcpy_append, length_int_le. Qed.

Lemma construct_metadata m buf :
  length buf = Z.to_nat _get_key_space_payload_size -> _construct_key_space_metadata_payload m buf = metadata_bytes m.
Proof.
  intros Hb. unfold _construct_key_space_metadata_payload. rewrite <- (app_nil_l buf).
  rewrite !copy_int_next by (rewrite ?length_app, ?length_int_le; reflexivity).
  cbn [fst]. rewrite !drop_drop, (drop_ge buf) by (rewrite Hb; done).
  unfold metadata_bytes. by rewrite app_nil_r, <- !app_assoc.
Qed.

Lemma copy_payload_next n z a b :
  0 <= z < 256 ^ Z.of_nat n ->
  copy_payload_to_int n (a ++ int_le n z ++ b) (length a) = (z, (length a + n)%nat).
Proof.
  intros Hz. unfold copy_payload_to_int. rewrite drop_app_length.
  rewrite <- (length_int_le n z) at 1. by rewrite take_app_length, le_int_int_le.
Qed.

(** Reading the number [z] of [n] bytes that follows [pre]. *)
Ltac next_int E pre n z :=
  erewrite (E pre n z);
  [|rewrite <- ?app_assoc; reflexivity|done|rewrite ?length_app, ?length_int_le; reflexivity].

Lemma parse_metadata cont m rest :
  metadata_ok m ->
  _parse_key_space_metadata_payload cont (metadata_bytes m ++ rest) =
  KsMetadata (md_keyspace_id m) (md_opened m) (md_key_order m) (md_capacity m) (md_free_size m)
    (md_kv_count m) (md_name cont).
Proof.
  intros (H1 & H2 & H3 & H4 & H5 & H6). unfold _parse_key_space_metadata_payload, metadata_bytes.
  destruct m as [a b c e f g nm]. cbn [md_keyspace_id md_opened md_key_order md_capacity md_free_size md_kv_count] in *.
  rewrite <- !app_assoc. set (p := (int_le 1 a ++ _)).
  assert (E : forall pre n z post, p = pre ++ int_le n z ++ post -> 0 <= z < 256 ^ Z.of_nat n ->
    forall pos, pos = length pre -> copy_payload_to_int n p pos = (z, (pos + n)%nat)).
  { intros pre n z post Hp Hz pos ->. rewrite Hp. by apply copy_payload_next. }
  next_int E (@nil byte) 1%nat a. next_int E (int_le 1 a) 1%nat b. next_int E (int_le 1 a ++ int_le 1 b) 1%nat c.
  next_int E (int_le 1 a ++ int_le 1 b ++ int_le 1 c) 8%nat e.
  next_int E (int_le 1 a ++ int_le 1 b ++ int_le 1 c ++ int_le 8 e) 8%nat f.
  next_int E (int_le 1 a ++ int_le 1 b ++ int_le 1 c ++ int_le 8 e ++ int_le 8 f) 8%nat g.
  done.
Qed.

(** ** Keys *)

(** A name the code can handle as the key of a record: 4 to 255 bytes, none of
    them zero. *)
Definition name_ok (name : list byte) : Prop :=
  4 <= strlen name <= 255 /\ (Byte.x00 ∉ name).

(** The key of the record: the last byte of the name is lost. *)
Definition meta_bytes (name : list byte) : list byte := take (length name - 1) name ++ [Byte.x00].
Definition list_bytes : list byte := KEY_SPACE_LIST_KEY_NAME ++ [Byte.x00].

Lemma snprintf_fill buf s :
  length buf = length s -> (1 <= length s)%nat -> snprintf_s buf (strlen s) s = meta_bytes s.
Proof.
  intros Hb Hs. unfold snprintf_s, strlen, meta_bytes.
  rewrite (proj2 (Z.leb_gt _ _)) by lia. unfold memcpy_at. cbn [take app].
  replace (Z.to_nat (Z.of_nat (length s) - 1)) with (length s - 1)%nat by lia.
  rewrite drop_ge by (rewrite length_app, length_take; simpl; lia). by rewrite app_nil_r.
Qed.

Lemma length_meta_bytes name : (1 <= length name)%nat -> length (meta_bytes name) = length name.
Proof. intros. unfold meta_bytes. rewrite length_app, length_take. simpl. lia. Qed.

Lemma metadata_key_spec buf name :
  name_ok name -> length buf = length name ->
  metadata_key buf name = mk_key (meta_bytes name) /\ drv_key_ok (metadata_key buf name).
Proof.
  intros [Hl _] Hb. unfold strlen in Hl.
  assert (E : metadata_key buf name = mk_key (meta_bytes name)).
  { unfold metadata_key, mk_key. rewrite length_meta_bytes by lia.
    unfold u16, strlen. rewrite Z.mod_small by lia. fold (strlen name). by rewrite snprintf_fill by lia. }
  split; [done|]. rewrite E. unfold drv_key_ok, key_ok, mk_key. simpl. rewrite length_meta_bytes by lia.
  split; [|lia]. eexists. split; [done|].
  rewrite length_meta_bytes by lia. lia.
Qed.

Lemma key_bytes_mk_key l : key_bytes (mk_key l) = l.
Proof. unfold key_bytes, mk_key. simpl. by rewrite Nat2Z.id, take_ge. Qed.

Lemma list_key_spec buf :
  length buf = 15%nat -> list_key buf = mk_key list_bytes /\ drv_key_ok (list_key buf).
Proof.
  intros Hb. assert (E : list_key buf = mk_key list_bytes).
  { unfold list_key, mk_key, snprintf_s, memcpy_at. simpl. rewrite drop_ge by (simpl; lia).
    by rewrite app_nil_r || done. }
  split; [done|]. rewrite E. split; [eexists; split; [done|simpl; lia]|].
  simpl. lia.
Qed.

Lemma cstr_padded name k : (Byte.x00 ∉ name) -> cstr (name ++ replicate k Byte.x00) = name.
Proof.
  intros Hn. unfold cstr. induction name as [|b name IH]; simpl.
  - destruct k; [done|]. done.
  - rewrite bool_decide_eq_false_2 by (intros ->; apply Hn; by left). simpl.
    rewrite IH; [done|]. intros H. apply Hn. by right.
Qed.

(** ** The list of key spaces *)

(** What the list says: no key space, or one with its name and id. *)
Abbreviation registry := (option (list byte * Z)).

Definition padded (name : list byte) : list byte :=
  name ++ replicate (256 - length name) Byte.x00.

Definition ks_list_of (r : registry) : ks_list :=
  match r with
  | None => ks_list_calloc
  | Some (name, id) => KsList 1 [KsListEntry (padded name) id]
  end.

Definition list_payload (r : registry) : list byte :=
  match r with
  | None => [Byte.x00]
  | Some (name, id) => Byte.x01 :: int_le 1 id ++ padded name
  end.

Definition registry_ok (r : registry) : Prop :=
  match r with
  | None => True
  | Some (name, id) => strlen name <= 255 /\ (Byte.x00 ∉ name) /\ 0 <= id < 256
  end.

Lemma length_padded name : strlen name <= 255 -> length (padded name) = 256%nat.
Proof. unfold padded, strlen. intros. rewrite length_app, length_replicate. lia. Qed.

Lemma padded_255 name : strlen name <= 255 -> take 255 (padded name) ++ [Byte.x00] = padded name.
Proof.
  unfold strlen, padded. intros H.
  replace (256 - length name)%nat with (255 - length name + 1)%nat by lia.
  rewrite replicate_add, app_assoc. rewrite take_app_le by (rewrite length_app, length_replicate; lia).
  by rewrite take_ge by (rewrite length_app, length_replicate; lia).
Qed.

Lemma snprintf_padded name :
  strlen name <= 255 -> snprintf_s (replicate 256 Byte.x00) (MAX_KEYSPACE_NAME_LEN + 1) name = padded name.
Proof.
  unfold strlen, snprintf_s, padded. intros H. change (MAX_KEYSPACE_NAME_LEN + 1) with 256.
  change (256 <=? 0) with false. cbv iota. change (Z.to_nat (256 - 1)) with 255%nat.
  rewrite take_ge by lia. rewrite <- (app_nil_l (replicate 256 _)).
  rewrite (memcpy_next [] _ (255 - length name)) by (rewrite ?length_app; simpl; lia).
  replace (256 - length name)%nat with (S (255 - length name)) by lia.
  rewrite app_nil_l, <- app_assoc. reflexivity.
Qed.

Lemma construct_list_some name id buf :
  strlen name <= 255 -> length buf = Z.to_nat sizeof_ks_list ->
  _construct_key_space_list_payload (KsList 1 [KsListEntry (padded name) id]) buf =
    Some (list_payload (Some (name, id)), 258).
Proof.
  intros Hn Hb. unfold _construct_key_space_list_payload. rewrite <- (app_nil_l buf).
  cbn [ks_num ks_entries]. rewrite (memcpy_append [] (int_le 1 1)) by done.
  change (Z.to_nat 1) with 1%nat. cbn [construct_entries_loop].
  change ([KsListEntry (padded name) id] !! 0%nat) with (Some (KsListEntry (padded name) id)).
  cbn [mbind option_bind le_keyspace_id le_names_buffer].
  rewrite (memcpy_append _ (int_le 1 id)) by (rewrite ?length_int_le; done).
  change (Z.to_nat (MAX_KEYSPACE_NAME_LEN + 1)) with 256%nat.
  rewrite take_ge by (rewrite length_padded; lia).
  rewrite (memcpy_append _ (padded name)) by (rewrite ?length_app, ?length_int_le; done).
  rewrite !drop_drop, (drop_ge buf) by (rewrite Hb, !length_int_le, length_padded by lia; done).
  cbn [mbind option_bind]. rewrite app_nil_r. f_equal.
Qed.

Lemma construct_list_none entries buf :
  _construct_key_space_list_payload (KsList 0 entries) buf = Some (Byte.x00 :: drop 1 buf, 1).
Proof.
  unfold _construct_key_space_list_payload. rewrite <- (app_nil_l buf).
  cbn [ks_num ks_entries]. by rewrite (memcpy_append [] (int_le 1 0)) by done.
Qed.

Lemma parse_list r buf :
  registry_ok r -> length buf = 260%nat ->
  _parse_key_space_list_payload (memcpy_at 0 (list_payload r) buf) (lenZ (list_payload r)) ks_list_calloc
    = Some (ks_list_of r).
Proof.
  intros Hr Hb. unfold _parse_key_space_list_payload.
  assert (E : exists tail, memcpy_at 0 (list_payload r) buf = list_payload r ++ tail).
  { eexists. unfold memcpy_at. by rewrite take_0. }
  destruct E as [tail ->].
  destruct r as [[name id]|]; cbn [list_payload]; [|done].
  destruct Hr as (Hn & _ & Hid). unfold lenZ. rewrite length_cons, length_app, length_int_le, length_padded by done.
  change (Z.of_nat (S (1 + 256)) <? 1) with false. cbv iota.
  rewrite <- app_comm_cons. change (take 1 (Byte.x01 :: _)) with [Byte.x01].
  change (Z.to_nat (le_int [Byte.x01])) with 1%nat. cbn [parse_entries_loop].
  set (e := KsListEntry (replicate 256 Byte.x00) 0).
  change (ks_entries ks_list_calloc) with [e]. change ([e] !! 0%nat) with (Some e).
  cbn [mbind option_bind le_names_buffer e]. unfold ks_list_of.
  assert (Hid' : le_int (take 1 (drop 1 (Byte.x01 :: (int_le 1 id ++ padded name) ++ tail))) = id).
  { change (take 1 _) with (int_le 1 id). by apply le_int_int_le. }
  assert (Hnm : memcpy_at 0 (take (Z.to_nat MAX_CONT_PATH_LEN)
      (drop (1 + 1) (Byte.x01 :: (int_le 1 id ++ padded name) ++ tail))) (replicate 256 Byte.x00) = padded name).
  { change (Z.to_nat MAX_CONT_PATH_LEN) with 255%nat.
    change (drop (1 + 1) _) with (drop 0 (padded name ++ tail)).
    rewrite drop_0, take_app_le by (rewrite length_padded; lia). unfold memcpy_at. cbn [take app].
    rewrite length_take, length_padded by lia. change (drop (0 + 255 `min` 256) _) with [Byte.x00].
    by apply padded_255. }
  rewrite Hid', Hnm. done.
Qed.

(** ** The operations over a driver *)

Section over_driver.
Context {D : Type} `{!KvsDriver D} `{!KvsDriverLaws D}.
Variable junk : Z -> list byte.
Hypothesis junk_length : forall n, 0 <= n -> length (junk n) = Z.to_nat n.
Implicit Types (d : D) (name : list byte).

(** The contents of the metadata key space. *)
Definition meta d : bytes_map := as_ks META_DATA_KEYSPACE_ID (drv_abs d).

(** The call returned with the driver in service and [f] done to the metadata. *)
Definition meta_step (f : bytes_map -> bytes_map) d d' : Prop :=
  drv_ok d' /\ drv_abs d' = as_update META_DATA_KEYSPACE_ID f (drv_abs d).

Lemma meta_ks_ok : ks_ok META_DATA_KEYSPACE_ID.
Proof. unfold ks_ok. lia. Qed.

Lemma meta_after f d d' : drv_ok d -> meta_step f d d' -> meta d' = f (meta d).
Proof.
  intros Hd [_ E]. unfold meta. rewrite E. apply as_ks_update; [apply meta_ks_ok|].
  by apply law_drv_spaces.
Qed.

Lemma meta_step_trans f g d1 d2 d3 :
  drv_ok d1 -> meta_step f d1 d2 -> meta_step g d2 d3 -> meta_step (fun m => g (f m)) d1 d3.
Proof.
  intros H1 [H2 E2] [H3 E3]. split; [done|]. rewrite E3, E2.
  apply as_update_compose; [apply meta_ks_ok|by apply law_drv_spaces].
Qed.

(** A call that reads leaves everything as it is. *)
Definition meta_same d d' : Prop := drv_ok d' /\ drv_abs d' = drv_abs d.

Lemma meta_same_step f d1 d2 d3 : meta_same d1 d2 -> meta_step f d2 d3 -> meta_step f d1 d3.
Proof. intros [_ E2] [H3 E3]. split; [done|]. by rewrite E3, E2. Qed.

Lemma meta_same_meta d d' : meta_same d d' -> meta d' = meta d.
Proof. intros [_ E]. unfold meta. by rewrite E. Qed.

(** The contents of the user's key space; calls on the metadata keep them. *)
Definition user d : bytes_map := as_ks USER_DATA_KEYSPACE_START_ID (drv_abs d).
Definition served d d' : Prop := drv_ok d' /\ user d' = user d.

Lemma served_step f d d' : meta_step f d d' -> served d d'.
Proof.
  intros [H E]. split; [done|]. unfold user, as_ks. rewrite E. unfold as_update.
  by rewrite list_lookup_insert_ne.
Qed.

Lemma served_same d d' : meta_same d d' -> served d d'.
Proof. intros [H E]. split; [done|]. unfold user. by rewrite E. Qed.

Lemma served_trans d1 d2 d3 : served d1 d2 -> served d2 d3 -> served d1 d3.
Proof. intros [_ E] [H E']. split; [done|]. by rewrite E'. Qed.

Lemma drv_value_ok_buf buf n :
  0 <= n <= Z.of_nat (length buf) -> n <= 1024 -> drv_value_ok (KvValue (Some buf) n 0 0).
Proof.
  intros. unfold drv_value_ok, value_ok. simpl. repeat split; done || lia.
Qed.

Lemma meta_retrieve_some key k buf n data d :
  drv_ok d -> drv_key_ok key -> key_bytes key = k -> meta d !! k = Some data ->
  lenZ data <= n <= 1024 -> n mod DMA_ALIGN = 0 -> length buf = Z.to_nat n ->
  exists d' a, _sync_io_to_meta_keyspace key (MetaRetrieve (KvValue (Some buf) n 0 0)) d =
      Ret (KVS_SUCCESS, Some (KvValue (Some (memcpy_at 0 data buf)) (lenZ data) a 0), d') /\
    meta_same d d'.
Proof.
  intros Hd Hk <- Hm Hn Hal Hb. assert (0 <= lenZ data) by (unfold lenZ; lia).
  pose proof (law_retrieve_tuple d META_DATA_KEYSPACE_ID key (KvValue (Some buf) n 0 0) Hd meta_ks_ok Hk) as H'.
  unfold map_retrieve in H'. fold (meta d) in H'. rewrite Hm in H'. cbn [v_offset v_length v_value] in H'.
  rewrite bool_decide_eq_false_2, bool_decide_eq_false_2 in H' by lia.
  replace (slice 0 n data) with data in H' by (unfold slice, lenZ in *; rewrite drop_0, take_ge by lia; done).
  destruct H' as (d' & E & Hok & Habs).
  { apply drv_value_ok_buf; lia. }
  { apply law_drv_read_ok. lia. }
  { exact Hal. }
  exists d'. eexists. unfold _sync_io_to_meta_keyspace. rewrite E. simpl. done.
Qed.

Lemma meta_retrieve_none key k buf n d :
  drv_ok d -> drv_key_ok key -> key_bytes key = k -> meta d !! k = None ->
  0 <= n <= 1024 -> n mod DMA_ALIGN = 0 -> length buf = Z.to_nat n ->
  exists d' v, _sync_io_to_meta_keyspace key (MetaRetrieve (KvValue (Some buf) n 0 0)) d =
      Ret (KVS_ERR_KEY_NOT_EXIST, v, d') /\ meta_same d d'.
Proof.
  intros Hd Hk <- Hm Hn Hal Hb.
  pose proof (law_retrieve_tuple d META_DATA_KEYSPACE_ID key (KvValue (Some buf) n 0 0) Hd meta_ks_ok Hk) as H'.
  unfold map_retrieve in H'. fold (meta d) in H'. rewrite Hm in H'.
  destruct H' as (d' & E & Hok & Habs).
  { apply drv_value_ok_buf; lia. }
  { apply law_drv_read_ok. lia. }
  { exact Hal. }
  exists d'. eexists. unfold _sync_io_to_meta_keyspace. rewrite E. simpl. done.
Qed.

Lemma meta_store_spec key k payload n st d :
  drv_ok d -> drv_key_ok key -> key_bytes key = k -> 0 <= n <= lenZ payload -> n <= 1024 ->
  st = KVS_STORE_POST \/ st = KVS_STORE_NOOVERWRITE /\ meta d !! k = None ->
  exists d', _sync_io_to_meta_keyspace key (MetaStore (KvValue (Some payload) n 0 0) st) d =
      Ret (KVS_SUCCESS, None, d') /\ meta_step <[k := take (Z.to_nat n) payload]> d d'.
Proof.
  intros Hd Hk <- Hn Hmax Hst. unfold lenZ in Hn.
  pose proof (law_store_tuple d META_DATA_KEYSPACE_ID key (KvValue (Some payload) n 0 0) st Hd meta_ks_ok Hk) as H'.
  unfold map_store in H'. fold (meta d) in H'.
  assert (Hm : (match meta d !! key_bytes key with
    | Some _ => if st =? KVS_STORE_NOOVERWRITE then (KVS_ERR_VALUE_UPDATE_NOT_ALLOWED, meta d)
                else (KVS_SUCCESS, <[key_bytes key := value_bytes (KvValue (Some payload) n 0 0)]> (meta d))
    | None => (KVS_SUCCESS, <[key_bytes key := value_bytes (KvValue (Some payload) n 0 0)]> (meta d))
    end) = (KVS_SUCCESS, <[key_bytes key := take (Z.to_nat n) payload]> (meta d))).
  { destruct Hst as [->|[-> ->]]; [|done]. by destruct (meta d !! key_bytes key). }
  rewrite Hm in H'. destruct H' as (d' & E & Hok & Habs).
  { apply drv_value_ok_buf; lia. }
  { destruct Hst as [?|[? _]]; [by left|by right]. }
  exists d'. unfold _sync_io_to_meta_keyspace. rewrite E. simpl. done.
Qed.

(** *** The list *)

(** The metadata key space holds the list [r]; a list that was never stored is
    empty. *)
Definition list_repr (m : bytes_map) (r : registry) : Prop :=
  registry_ok r /\ (m !! list_bytes = Some (list_payload r) \/ r = None /\ m !! list_bytes = None).

Lemma retrieve_list r d :
  drv_ok d -> list_repr (meta d) r ->
  exists d', _retreive_key_space_list junk ks_list_calloc d = Ret (KVS_SUCCESS, ks_list_of r, d') /\
    meta_same d d'.
Proof.
  intros Hd [Hr Hm]. unfold _retreive_key_space_list.
  destruct (list_key_spec (junk (strlen KEY_SPACE_LIST_KEY_NAME + 1))) as [Hkey Hk]; [by rewrite junk_length|].
  assert (Hkb : key_bytes (list_key (junk (strlen KEY_SPACE_LIST_KEY_NAME + 1))) = list_bytes)
    by (by rewrite Hkey, key_bytes_mk_key).
  change ((sizeof_ks_list + 3) / 4 * 4) with 260.
  destruct Hm as [Hm|[-> Hm]].
  - destruct (meta_retrieve_some _ _ (junk 260) 260 _ d Hd Hk Hkb Hm) as (d' & a & E & Hs).
    { unfold lenZ. destruct r as [[name id]|]; cbn [list_payload registry_ok] in *; [|simpl; lia].
      rewrite length_cons, length_app, length_int_le, length_padded by tauto. lia. }
    { done. }
    { by apply junk_length. }
    exists d'. rewrite E. cbn. rewrite parse_list; [done..|by apply junk_length].
  - destruct (meta_retrieve_none _ _ (junk 260) 260 d Hd Hk Hkb Hm) as (d' & v & E & Hs);
      [lia|done|by apply junk_length|].
    exists d'. rewrite E. cbn. done.
Qed.

(** [kslist] is how the code holds [r]. *)
Definition holds (kslist : ks_list) (r : registry) : Prop :=
  match r with
  | None => ks_num kslist = 0
  | Some (name, id) => kslist = KsList 1 [KsListEntry (padded name) id]
  end.

Lemma store_list kslist r d :
  drv_ok d -> registry_ok r -> holds kslist r ->
  exists d', _store_key_space_list junk kslist d = Ret (KVS_SUCCESS, d') /\
    meta_step <[list_bytes := list_payload r]> d d'.
Proof.
  intros Hd Hr Hh. unfold _store_key_space_list.
  destruct (list_key_spec (junk (strlen KEY_SPACE_LIST_KEY_NAME + 1))) as [Hkey Hk]; [by rewrite junk_length|].
  assert (Hkb : key_bytes (list_key (junk (strlen KEY_SPACE_LIST_KEY_NAME + 1))) = list_bytes)
    by (by rewrite Hkey, key_bytes_mk_key).
  destruct r as [[name id]|]; cbn [holds registry_ok] in *.
  - destruct Hr as (Hn & _ & _). subst kslist. rewrite construct_list_some by (done || by apply junk_length).
    assert (Hl : length (list_payload (Some (name, id))) = 258%nat).
    { cbn [list_payload]. by rewrite length_cons, length_app, length_int_le, length_padded. }
    destruct (meta_store_spec _ _ (list_payload (Some (name, id))) 258 KVS_STORE_POST d Hd Hk Hkb)
      as (d' & E & Hs); [unfold lenZ; rewrite Hl; lia|lia|by left|].
    exists d'. rewrite E. cbn [mbind dev_outcome_bind]. split; [done|].
    by rewrite take_ge in Hs by (rewrite Hl; lia).
  - destruct kslist as [num entries]. cbn [ks_num] in Hh. subst num. rewrite construct_list_none.
    destruct (meta_store_spec _ _ (Byte.x00 :: drop 1 (junk sizeof_ks_list)) 1 KVS_STORE_POST d Hd Hk Hkb)
      as (d' & E & Hs); [unfold lenZ; rewrite length_cons; lia|lia|by left|].
    exists d'. rewrite E. done.
Qed.

Lemma find_entry_padded name name' id :
  name_ok name -> strlen name' <= 255 -> (Byte.x00 ∉ name') ->
  find_entry name [KsListEntry (padded name') id] = if decide (name = name') then Some 0%nat else None.
Proof.
  intros [Hn _] Hn' Hz. unfold find_entry, strncmp_eq. cbn [le_names_buffer].
  unfold padded. rewrite cstr_padded by done. change (Z.to_nat MAX_KEYSPACE_NAME_LEN) with 255%nat.
  unfold strlen in *. rewrite !take_ge by lia. case_bool_decide; by destruct (decide _).
Qed.

(** Adding the first key space; the id is chosen when none is given. *)
Lemma add_to_list name id0 d :
  drv_ok d -> list_repr (meta d) None -> name_ok name -> 0 <= id0 < 256 ->
  let id := if id0 =? _INVALID_USER_KEYSPACE_ID then USER_DATA_KEYSPACE_START_ID else id0 in
  exists d', _add_to_key_space_list junk name id0 d = Ret (KVS_SUCCESS, id, d') /\
    meta_step <[list_bytes := list_payload (Some (name, id))]> d d'.
Proof.
  intros Hd Hr [Hn Hz] Hid id. unfold _add_to_key_space_list.
  destruct (retrieve_list None d Hd Hr) as (d1 & E1 & Hs1). rewrite E1.
  cbn [mbind dev_outcome_bind ks_list_of]. change (kvs_is_success KVS_SUCCESS) with true. cbn [negb].
  change (KS_MAX_CONT <=? ks_num ks_list_calloc) with false.
  change (used_entries ks_list_calloc) with (@nil ks_list_entry).
  rewrite bool_decide_eq_false_2 by (by intros []).
  change (_contain_keyspace ks_list_calloc id0) with false. rewrite andb_false_r.
  change _search_an_avaliable_keyspace_id with USER_DATA_KEYSPACE_START_ID. fold id. cbv iota zeta.
  assert (Hh : holds (KsList (u8 (ks_num ks_list_calloc + 1))
    (alter (fun e => KsListEntry (snprintf_s (le_names_buffer e) (MAX_KEYSPACE_NAME_LEN + 1) name) id)
       (Z.to_nat (ks_num ks_list_calloc)) (ks_entries ks_list_calloc))) (Some (name, id))).
  { unfold holds, ks_list_calloc. cbn [ks_entries ks_num].
    change (Z.to_nat (MAX_CONT_PATH_LEN + 1)) with 256%nat. rewrite <- snprintf_padded by lia. done. }
  destruct (fun H => store_list _ (Some (name, id)) d1 (proj1 Hs1) H Hh) as (d2 & E2 & Hs2).
  { cbn [registry_ok]. unfold id.
    destruct (id0 =? _INVALID_USER_KEYSPACE_ID); split; try lia; split; done || lia. }
  exists d2. rewrite E2. cbn. split; [done|]. by eapply meta_same_step.
Qed.

(** The list is full: nothing changes. *)
Lemma add_to_list_full name id0 name' id' d :
  drv_ok d -> list_repr (meta d) (Some (name', id')) ->
  exists d', _add_to_key_space_list junk name id0 d = Ret (KVS_ERR_SYS_IO, id0, d') /\ meta_same d d'.
Proof.
  intros Hd Hr. unfold _add_to_key_space_list.
  destruct (retrieve_list _ d Hd Hr) as (d1 & E1 & Hs1). rewrite E1. exists d1. done.
Qed.

Lemma remove_from_list name id id0 d :
  drv_ok d -> list_repr (meta d) (Some (name, id)) -> name_ok name ->
  exists d', _remove_from_key_space_list junk name id0 d = Ret (KVS_SUCCESS, id, d') /\
    meta_step <[list_bytes := list_payload None]> d d'.
Proof.
  intros Hd Hr Hn. unfold _remove_from_key_space_list.
  destruct (retrieve_list _ d Hd Hr) as (d1 & E1 & Hs1). rewrite E1.
  destruct Hr as [(Hl & Hz & Hid) _].
  cbn [mbind dev_outcome_bind ks_list_of]. change (kvs_is_success KVS_SUCCESS) with true. cbn [negb].
  change (used_entries _) with [KsListEntry (padded name) id].
  rewrite find_entry_padded, decide_True by done. cbv iota zeta.
  destruct (store_list (KsList (u8 (1 - 1)) (shift_entries 0 (Z.to_nat 1) [KsListEntry (padded name) id]))
    None d1 (proj1 Hs1)) as (d2 & E2 & Hs2); [done..|].
  exists d2. cbn [ks_num ks_entries]. rewrite E2. cbn. split; [done|]. by eapply meta_same_step.
Qed.

Lemma remove_from_list_absent name id0 r d :
  drv_ok d -> list_repr (meta d) r -> name_ok name -> (forall id, r <> Some (name, id)) ->
  exists d', _remove_from_key_space_list junk name id0 d = Ret (KVS_ERR_KS_NOT_EXIST, id0, d') /\
    meta_same d d'.
Proof.
  intros Hd Hr Hn Hne. unfold _remove_from_key_space_list.
  destruct (retrieve_list _ d Hd Hr) as (d1 & E1 & Hs1). rewrite E1. exists d1.
  cbn [mbind dev_outcome_bind]. change (kvs_is_success KVS_SUCCESS) with true. cbn [negb].
  destruct r as [[name' id']|]; [|done]. destruct Hr as [(Hl & Hz & Hid) _].
  change (used_entries _) with [KsListEntry (padded name') id'].
  rewrite find_entry_padded by done. destruct (decide (name = name')) as [->|]; [|done].
  by destruct (Hne id').
Qed.

(** *** Metadata records *)

Lemma length_metadata_bytes m : length (metadata_bytes m) = 27%nat.
Proof. unfold metadata_bytes. by rewrite !length_app, !length_int_le. Qed.

Lemma exist_entry name d :
  drv_ok d -> name_ok name ->
  exists d', _exist_key_space_entry junk name d =
      Ret (KVS_SUCCESS, if bool_decide (is_Some (meta d !! meta_bytes name)) then 1 else 0, d') /\
    meta_same d d'.
Proof.
  intros Hd Hn. unfold _exist_key_space_entry.
  destruct (metadata_key_spec (junk (u16 (strlen name))) name Hn) as [Hkey Hk].
  { destruct Hn as [Hn _]. unfold u16. rewrite Z.mod_small by (unfold strlen in *; lia).
    rewrite junk_length by (unfold strlen in *; lia). unfold strlen. lia. }
  destruct (law_exist_tuple d META_DATA_KEYSPACE_ID _ 1 Byte.x00 Hd meta_ks_ok Hk) as (d' & E & Hok & Habs).
  rewrite E. exists d'. cbn [mbind dev_outcome_bind el_result_buffer].
  rewrite Hkey, key_bytes_mk_key. fold (meta d). split; [|done].
  by destruct (bool_decide (is_Some (meta d !! meta_bytes name))).
Qed.

(** The record of [name] as the code reads it. *)
Definition renamed (m : ks_metadata) name : ks_metadata :=
  KsMetadata (md_keyspace_id m) (md_opened m) (md_key_order m) (md_capacity m) (md_free_size m)
    (md_kv_count m) name.

Lemma name_key name buf :
  name_ok name -> length buf = Z.to_nat (u16 (strlen name)) ->
  drv_key_ok (metadata_key buf name) /\ key_bytes (metadata_key buf name) = meta_bytes name.
Proof.
  intros Hn Hb. destruct (metadata_key_spec buf name Hn) as [Hkey Hk].
  { rewrite Hb. destruct Hn as [Hn _]. unfold u16, strlen in *. rewrite Z.mod_small; lia. }
  split; [done|]. by rewrite Hkey, key_bytes_mk_key.
Qed.

Lemma retrieve_metadata cont m d :
  drv_ok d -> name_ok (md_name cont) -> metadata_ok m ->
  meta d !! meta_bytes (md_name cont) = Some (metadata_bytes m) ->
  exists d', _retrieve_key_space_metadata junk cont d =
      Ret (KVS_SUCCESS, renamed m (md_name cont), d') /\ meta_same d d'.
Proof.
  intros Hd Hn Hm Hl. unfold _retrieve_key_space_metadata.
  change (((_get_key_space_payload_size - 1) / DMA_ALIGN + 1) * DMA_ALIGN) with 28.
  destruct (name_key (md_name cont) (junk (u16 (strlen (md_name cont)))) Hn) as [Hk Hkb].
  { apply junk_length. unfold u16. apply Z.mod_pos_bound. lia. }
  destruct (meta_retrieve_some _ _ (junk 28) 28 _ d Hd Hk Hkb Hl) as (d' & a & E & Hs).
  { unfold lenZ. rewrite length_metadata_bytes. lia. }
  { done. }
  { by apply junk_length. }
  exists d'. rewrite E. cbn [mbind dev_outcome_bind]. change (kvs_is_success KVS_SUCCESS) with true.
  cbn [negb]. split; [|done].
  change (default [] _) with (take 0 (junk 28) ++ metadata_bytes m ++
    drop (0 + length (metadata_bytes m)) (junk 28)).
  rewrite take_0. cbn [app]. by rewrite parse_metadata.
Qed.

Lemma store_metadata cont st d :
  drv_ok d -> name_ok (md_name cont) ->
  st = KVS_STORE_POST \/ st = KVS_STORE_NOOVERWRITE /\ meta d !! meta_bytes (md_name cont) = None ->
  exists d', _store_key_space_metadata junk cont st d = Ret (KVS_SUCCESS, d') /\
    meta_step <[meta_bytes (md_name cont) := metadata_bytes cont]> d d'.
Proof.
  intros Hd Hn Hst. unfold _store_key_space_metadata. rewrite construct_metadata by (by apply junk_length).
  assert (Hlen : Z.min (strlen (md_name cont)) MAX_CONT_PATH_LEN = strlen (md_name cont)).
  { destruct Hn as [Hn _]. lia. }
  rewrite Hlen. fold (metadata_key (junk (u16 (strlen (md_name cont)))) (md_name cont)).
  destruct (name_key (md_name cont) (junk (u16 (strlen (md_name cont)))) Hn) as [Hk Hkb].
  { apply junk_length. unfold u16. apply Z.mod_pos_bound. lia. }
  destruct (meta_store_spec _ _ (metadata_bytes cont) _get_key_space_payload_size st d Hd Hk Hkb)
    as (d' & E & Hs); [unfold lenZ; rewrite length_metadata_bytes; done|done|done|].
  exists d'. rewrite E. cbn [mbind dev_outcome_bind]. split; [done|].
  by rewrite take_ge in Hs by (rewrite length_metadata_bytes; done).
Qed.

(** *** Creating, opening, closing and deleting *)

Definition new_metadata name (size : Z) : ks_metadata := KsMetadata 1 0 0 size 0 0 name.
Definition set_opened (o : Z) (m : ks_metadata) : ks_metadata :=
  KsMetadata (md_keyspace_id m) o (md_key_order m) (md_capacity m) (md_free_size m) (md_kv_count m)
    (md_name m).

(** The metadata key space records the key space [name] with the record [md],
    and no other. *)
Definition recorded name (md : ks_metadata) (m : bytes_map) : Prop :=
  list_repr m (Some (name, md_keyspace_id md)) /\ name_ok name /\ metadata_ok md /\
  meta_bytes name <> list_bytes /\ m !! meta_bytes name = Some (metadata_bytes md).

Lemma create_new name size d :
  drv_ok d -> list_repr (meta d) None -> name_ok name -> 0 <= size < 2 ^ 64 ->
  meta_bytes name <> list_bytes -> meta d !! meta_bytes name = None ->
  exists d', create_key_space junk name size KVS_KEY_ORDER_NONE d = Ret (KVS_SUCCESS, d') /\
    served d d' /\ recorded name (new_metadata name size) (meta d').
Proof.
  intros Hd Hr Hn Hsz Hne Hf. unfold create_key_space, _create_key_space_entry.
  destruct (add_to_list name 0 d Hd Hr Hn) as (d1 & E1 & Hs1); [lia|].
  change (if 0 =? _INVALID_USER_KEYSPACE_ID then USER_DATA_KEYSPACE_START_ID else 0) with 1 in *.
  pose proof (meta_after _ _ _ Hd Hs1) as Hm1.
  destruct (store_metadata (new_metadata name size) KVS_STORE_NOOVERWRITE d1 (proj1 Hs1)) as (d2 & E2 & Hs2).
  { done. }
  { right. split; [done|]. simpl. by rewrite Hm1, lookup_insert_ne. }
  pose proof (meta_after _ _ _ (proj1 Hs1) Hs2) as Hm2. simpl in Hm2.
  exists d2. change _INVALID_USER_KEYSPACE_ID with 0. rewrite E1. cbn [mbind dev_outcome_bind].
  change (kvs_is_success KVS_SUCCESS) with true. cbn [negb]. unfold new_metadata in E2. change (u8 KVS_KEY_ORDER_NONE) with 0. rewrite E2. cbn. split; [done|].
  split; [by eapply served_trans; [apply (served_step _ _ _ Hs1)|apply (served_step _ _ _ Hs2)]|]. rewrite Hm2, Hm1. unfold recorded. rewrite lookup_insert_eq. split.
  - destruct Hn as [Hn Hz]. split; [simpl; by split; [lia|]|]. left.
    rewrite lookup_insert_ne by done. by rewrite lookup_insert_eq.
  - split; [done|]. split; [|done]. unfold metadata_ok. simpl. lia.
Qed.

Lemma create_full name size ordering name' id d :
  drv_ok d -> list_repr (meta d) (Some (name', id)) ->
  exists d', create_key_space junk name size ordering d = Ret (KVS_ERR_SYS_IO, d') /\ meta_same d d'.
Proof.
  intros Hd Hr. unfold create_key_space.
  destruct (add_to_list_full name _INVALID_USER_KEYSPACE_ID name' id d Hd Hr) as (d1 & E & Hs).
  exists d1. by rewrite E.
Qed.

(** Reading the record, and writing it back with another [opened] mark. *)
Lemma update_opened o name name' md d :
  drv_ok d -> recorded name md (meta d) -> name_ok name' -> meta_bytes name' = meta_bytes name ->
  0 <= o < 2 ^ 8 ->
  exists d1 d', _retrieve_key_space_metadata junk (KsMetadata 0 0 0 0 0 0 name') d =
      Ret (KVS_SUCCESS, renamed md name', d1) /\
    _store_key_space_metadata junk (set_opened o (renamed md name')) KVS_STORE_POST d1 = Ret (KVS_SUCCESS, d') /\
    served d d' /\ recorded name (set_opened o md) (meta d').
Proof.
  intros Hd ([Hr Hl] & Hn & Hmd & Hne & Hm) Hn' Heq Ho.
  destruct (retrieve_metadata (KsMetadata 0 0 0 0 0 0 name') md d Hd Hn' Hmd) as (d1 & E1 & Hs1).
  { simpl. by rewrite Heq. }
  destruct (store_metadata (set_opened o (renamed md name')) KVS_STORE_POST d1 (proj1 Hs1) Hn' ltac:(by left))
    as (d2 & E2 & Hs2).
  exists d1, d2. split; [done|]. split; [done|].
  split; [by eapply served_trans; [apply (served_same _ _ Hs1)|apply (served_step _ _ _ Hs2)]|].
  rewrite (meta_after _ _ _ (proj1 Hs1) Hs2), (meta_same_meta _ _ Hs1). simpl. rewrite Heq.
  unfold recorded, list_repr. rewrite lookup_insert_eq, lookup_insert_ne by done.
  split; [split; [done|destruct Hl as [?|[? _]]; [by left|done]]|]. split; [done|].
  split; [|done]. destruct Hmd as (? & _ & ?). done.
Qed.

Lemma open_recorded name name' md id0 d :
  drv_ok d -> recorded name md (meta d) -> name_ok name' -> meta_bytes name' = meta_bytes name ->
  exists d', _open_key_space junk name' id0 d = Ret (KVS_SUCCESS, md_keyspace_id md, d') /\
    served d d' /\ recorded name (set_opened 1 md) (meta d').
Proof.
  intros Hd Hrec Hn' Heq. unfold _open_key_space.
  destruct (update_opened 1 name name' md d Hd Hrec Hn' Heq) as (d1 & d2 & E1 & E2 & H); [lia|].
  exists d2. rewrite E1. cbn [mbind dev_outcome_bind].
  change (kvs_is_success KVS_SUCCESS) with true. cbn [negb]. unfold set_opened in E2. by rewrite E2.
Qed.

Lemma close_recorded name name' md d :
  drv_ok d -> recorded name md (meta d) -> name_ok name' -> meta_bytes name' = meta_bytes name ->
  exists d', _close_key_space junk name' d = Ret (KVS_SUCCESS, d') /\
    served d d' /\ recorded name (set_opened 0 md) (meta d').
Proof.
  intros Hd Hrec Hn' Heq. unfold _close_key_space.
  destruct (update_opened 0 name name' md d Hd Hrec Hn' Heq) as (d1 & d2 & E1 & E2 & H); [lia|].
  exists d2. by rewrite E1.
Qed.

Lemma delete_recorded name md d :
  drv_ok d -> recorded name md (meta d) ->
  exists d', delete_key_space junk name d = Ret (KVS_SUCCESS, d') /\ served d d' /\
    list_repr (meta d') None /\ meta d' !! meta_bytes name = None.
Proof.
  intros Hd (Hr & Hn & Hmd & Hne & Hm). unfold delete_key_space.
  destruct (remove_from_list name (md_keyspace_id md) _INVALID_USER_KEYSPACE_ID d Hd Hr Hn) as (d1 & E1 & Hs1).
  pose proof (meta_after _ _ _ Hd Hs1) as Hm1.
  rewrite E1. cbn [mbind dev_outcome_bind]. change (kvs_is_success KVS_SUCCESS) with true. cbn [negb].
  unfold _delete_key_space_entry.
  destruct (name_key name (junk (u16 (strlen name))) Hn) as [Hk Hkb];
    [apply junk_length; unfold u16; apply Z.mod_pos_bound; lia|].
  pose proof (law_delete_tuple d1 META_DATA_KEYSPACE_ID _ true (proj1 Hs1) meta_ks_ok Hk) as Hlaw.
  rewrite Hkb in Hlaw. fold (meta d1) in Hlaw. unfold map_delete in Hlaw.
  rewrite Hm1, lookup_insert_ne, Hm in Hlaw by done. destruct Hlaw as (d2 & E2 & Hok & Habs).
  exists d2. unfold _sync_io_to_meta_keyspace. rewrite E2. cbn. split; [done|].
  assert (Hs2 : meta_step (fun _ => delete (meta_bytes name) (meta d1)) d1 d2) by (split; [done|by rewrite Habs, <- Hm1]).
  split; [by eapply served_trans; [apply (served_step _ _ _ Hs1)|apply (served_step _ _ _ Hs2)]|].
  rewrite (meta_after _ _ _ (proj1 Hs1) Hs2), Hm1. rewrite lookup_delete_eq. split; [|done].
  split; [done|]. left. rewrite lookup_delete_ne by done. by rewrite lookup_insert_eq.
Qed.
End over_driver.
