(* ===== verification/Frontend.v ===== *)
(** * The public API

    [api/src/cfrontend.cpp]: opening and closing devices and key spaces, and
    the calls on an open key space.  The global environment [g_env] and the
    handles the code allocates are one explicit state; a handle is an address,
    [None] is the null pointer, and following an address that holds no handle is
    undefined.  What [new] and [malloc] return for a handle is an argument of the
    call.  The driver is any instance of [KvsDriver]. *)

From stdpp Require Import base numbers list gmap.
From S2P Require Import Prelude.
From S2P Require Import AdiTypes.
From S2P Require Import Device.
From S2P Require Import KvsTypes.
From S2P Require Import KvsDriver.
From S2P Require Import KeySpace.

Abbreviation MAX_DEV_PATH_LEN := 256%Z (only parsing).

(** ** Handles and the environment *)

(** [meta_ks_hd] always names the key space [META_DATA_KEYSPACE_ID]. *)
Record _kvs_device_handle (D : Type) := KvsDeviceHandle {
  kd_driver : D;
  kd_dev_path : list byte;
  kd_open_ks_hds : list Z
}.

Arguments KvsDeviceHandle {D}.
Arguments kd_driver {D}.
Arguments kd_dev_path {D}.
Arguments kd_open_ks_hds {D}.

Record _kvs_key_space_handle := KvsKeySpaceHandle {
  kh_keyspace_id : Z;
  kh_dev : Z;
  kh_name : list byte
}.

(** [g_env] with the handles in memory. *)
Record env (D : Type) := Env {
  g_initialized : bool;
  g_opened_device_num : Z;
  g_open_devices : list Z;
  g_list_open_ks : list Z;
  g_devs : gmap Z (_kvs_device_handle D);
  g_kss : gmap Z _kvs_key_space_handle
}.

Arguments Env {D}.
Arguments g_initialized {D}.
Arguments g_opened_device_num {D}.
Arguments g_open_devices {D}.
Arguments g_list_open_ks {D}.
Arguments g_devs {D}.
Arguments g_kss {D}.

Definition g_env_init {D} : env D := Env false 0 [] [] ∅ ∅.

(** [erase] of the first occurrence. *)
Fixpoint erase_first (x : Z) (l : list Z) : list Z :=
  match l with
  | [] => []
  | y :: l' => if y =? x then l' else y :: erase_first x l'
  end.

(** [std::list::remove] *)
Definition list_remove (x : Z) (l : list Z) : list Z := filter (fun y => y <> x) l.

(** A name with its length, as callers pass it and as they get it back. *)
Record kvs_key_space_name := KvsKeySpaceName {
  kn_name_len : Z;                 (* uint32_t *)
  kn_name : option (list byte)     (* char *name *)
}.

Record kvs_device := KvsDevice {
  di_capacity : option Z;          (* [None]: left as it was *)
  di_unalloc_capacity : Z;
  di_max_value_len : Z;
  di_max_key_len : Z;
  di_optimal_value_len : Z
}.

Record kvs_key_space := KvsKeySpace {
  ki_opened : bool;
  ki_capacity : Z;
  ki_free_size : Z;
  ki_count : Z;
  ki_name_len : Z;
  ki_name : list byte
}.

Record kvs_kvp_info := KvsKvpInfo {
  pi_key_len : Z;
  pi_key : list byte;
  pi_value_len : Z
}.

Definition sizeof_kvs_key_space_name : Z := 16.

Section frontend.
Context {D : Type} `{!KvsDriver D}.
Implicit Types (g : env D) (name : list byte).

(** What [malloc] returns memory with, and the driver's destructor. *)
Variable junk : Z -> list byte.
Variable destroy : D -> dev_outcome unit.

(** The driver object after a call. *)
Definition set_driver (dev : Z) (d : D) g : env D :=
  Env (g_initialized g) (g_opened_device_num g) (g_open_devices g) (g_list_open_ks g)
    (alter (fun h => KvsDeviceHandle d (kd_dev_path h) (kd_open_ks_hds h)) dev (g_devs g))
    (g_kss g).

(** [dev_hd->driver->f(...)] *)
Definition on_driver {A} (dev : Z) (f : D -> dev_outcome (A * D)) g : dev_outcome (A * env D) :=
  match g_devs g !! dev with
  | None => Undef
  | Some h => '(a, d) ← f (kd_driver h); Ret (a, set_driver dev d g)
  end.

Definition _device_opened (dev_hd : Z) g : bool := bool_decide (dev_hd ∈ g_open_devices g).

(** The overload on a path: the open device with it is looked for. *)
Fixpoint device_path_in (dev_path : list byte) (l : list Z) g : dev_outcome bool :=
  match l with
  | [] => Ret false
  | t :: l' =>
      match g_devs g !! t with
      | None => Undef
      | Some h => if bool_decide (kd_dev_path h = dev_path) then Ret true
                  else device_path_in dev_path l' g
      end
  end.
Definition _device_path_opened (dev_path : list byte) g : dev_outcome bool :=
  device_path_in dev_path (g_open_devices g) g.

(** ** Devices *)

(** [init] is what initialising the environment returns, [dev_hd] says that the
    out pointer is set, [driver] is the outcome of the driver's [init], and
    [addr] the new handle. *)
Definition kvs_open_device (init : kvs_result) (URI : option (list byte)) (dev_hd : bool)
    (driver : dev_outcome (kvs_result * D)) (addr : Z) g
    : dev_outcome (kvs_result * option Z * env D) :=
  let ret := if g_initialized g then KVS_SUCCESS else init in
  if negb (kvs_is_success ret) then Ret (ret, None, g)
  else
    let g := Env true (g_opened_device_num g) (g_open_devices g) (g_list_open_ks g) (g_devs g)
               (g_kss g) in
    match URI with
    | None => Ret (KVS_ERR_PARAM_INVALID, None, g)
    | Some uri =>
        let dev_len := Z.min (strlen uri) MAX_DEV_PATH_LEN in
        if negb dev_hd then Ret (KVS_ERR_PARAM_INVALID, None, g)
        else if (dev_len =? 0) || (MAX_DEV_PATH_LEN - 1 <? dev_len)
        then Ret (KVS_ERR_PARAM_INVALID, None, g)
        else
          opened ← _device_path_opened uri g;
          if (opened : bool) then Ret (KVS_ERR_SYS_IO, None, g)
          else
            '(ret, d) ← driver;
            if negb (kvs_is_success ret) then Ret (ret, None, g)
            else
              Ret (ret, Some addr,
                   Env true (g_opened_device_num g + 1) (g_open_devices g ++ [addr])
                     (g_list_open_ks g) (<[addr := KvsDeviceHandle d uri []]> (g_devs g)) (g_kss g))
    end.

(** Leaving the environment with devices still open closes them under the lock
    the caller holds: the call does not return. *)
Definition _kvs_exit_env g : dev_outcome (env D) :=
  match g_open_devices g with
  | [] => Ret (Env false (g_opened_device_num g) [] (g_list_open_ks g) (g_devs g) (g_kss g))
  | _ :: _ => Blocked
  end.

(** The key spaces still open on the device are forgotten and freed. *)
Definition kvs_close_device (dev_hd : option Z) g : dev_outcome (kvs_result * env D) :=
  match dev_hd with
  | None => Ret (KVS_ERR_PARAM_INVALID, g)
  | Some dev =>
      if negb (_device_opened dev g) then Ret (KVS_ERR_DEV_NOT_OPENED, g)
      else
        match g_devs g !! dev with
        | None => Undef
        | Some h =>
            let open_ks := foldl (fun l t => erase_first t l) (g_list_open_ks g) (kd_open_ks_hds h) in
            let kss := foldl (fun m t => delete t m) (g_kss g) (kd_open_ks_hds h) in
            _ ← destroy (kd_driver h);
            let num := g_opened_device_num g - 1 in
            let g := Env (g_initialized g) num (list_remove dev (g_open_devices g)) open_ks
                       (delete dev (g_devs g)) kss in
            if num =? 0 then g ← _kvs_exit_env g; Ret (KVS_SUCCESS, g) else Ret (KVS_SUCCESS, g)
        end
  end.

(** The calls that report on a device: the guards, then [f]. *)
Definition device_call {A} (dev_hd : option Z) (out : bool)
    (f : Z -> env D -> dev_outcome (kvs_result * option A * env D)) g
    : dev_outcome (kvs_result * option A * env D) :=
  match dev_hd with
  | None => Ret (KVS_ERR_PARAM_INVALID, None, g)
  | Some dev =>
      if negb out then Ret (KVS_ERR_PARAM_INVALID, None, g)
      else if negb (_device_opened dev g) then Ret (KVS_ERR_DEV_NOT_OPENED, None, g)
      else f dev g
  end.

Definition kvs_get_device_info (dev_hd : option Z) (dev_info : bool) g :=
  device_call dev_hd dev_info (fun dev g =>
    '((r, n), g) ← on_driver dev get_total_size g;
    Ret (r, Some (KvsDevice n 0 KVS_MAX_VALUE_LENGTH KVS_MAX_KEY_LENGTH KVS_OPTIMAL_VALUE_LENGTH), g)) g.
Definition kvs_get_device_capacity (dev_hd : option Z) (dev_capa : bool) g :=
  device_call dev_hd dev_capa (fun dev g =>
    '((r, n), g) ← on_driver dev get_total_size g; Ret (r, n, g)) g.
Definition kvs_get_device_utilization (dev_hd : option Z) (dev_utilization : bool) g :=
  device_call dev_hd dev_utilization (fun dev g =>
    '((r, n), g) ← on_driver dev get_used_size g; Ret (r, n, g)) g.
Definition kvs_get_min_key_length (dev_hd : option Z) (min_key_length : bool) g :=
  device_call dev_hd min_key_length (fun _ g => Ret (KVS_SUCCESS, Some KVS_MIN_KEY_LENGTH, g)) g.
Definition kvs_get_max_key_length (dev_hd : option Z) (max_key_length : bool) g :=
  device_call dev_hd max_key_length (fun _ g => Ret (KVS_SUCCESS, Some KVS_MAX_KEY_LENGTH, g)) g.
Definition kvs_get_min_value_length (dev_hd : option Z) (min_value_length : bool) g :=
  device_call dev_hd min_value_length (fun _ g => Ret (KVS_SUCCESS, Some KVS_MIN_VALUE_LENGTH, g)) g.
Definition kvs_get_max_value_length (dev_hd : option Z) (max_value_length : bool) g :=
  device_call dev_hd max_value_length (fun _ g => Ret (KVS_SUCCESS, Some KVS_MAX_VALUE_LENGTH, g)) g.
Definition kvs_get_optimal_value_length (dev_hd : option Z) (opt_value_length : bool) g :=
  device_call dev_hd opt_value_length (fun _ g => Ret (KVS_SUCCESS, Some KVS_OPTIMAL_VALUE_LENGTH, g)) g.

(** ** Key spaces *)

(** [strcmp] of the names of the handles in the list with [name]. *)
Fixpoint key_space_name_in (name : list byte) (l : list Z) g : dev_outcome bool :=
  match l with
  | [] => Ret false
  | t :: l' =>
      match g_kss g !! t with
      | None => Undef
      | Some h => if bool_decide (kh_name h = name) then Ret true else key_space_name_in name l' g
      end
  end.
Definition _key_space_name_opened (dev_hd : Z) name g : dev_outcome bool :=
  match g_devs g !! dev_hd with
  | None => Undef
  | Some h => key_space_name_in name (kd_open_ks_hds h) g
  end.

Definition _key_space_opened (ks_hd : Z) g : bool := bool_decide (ks_hd ∈ g_list_open_ks g).

Definition _check_key_space_handle (ks_hd : option Z) g : dev_outcome kvs_result :=
  match ks_hd with
  | None => Ret KVS_ERR_PARAM_INVALID
  | Some ks =>
      if negb (_key_space_opened ks g) then Ret KVS_ERR_KS_NOT_OPEN
      else
        match g_kss g !! ks with
        | None => Undef
        | Some h =>
            match g_devs g !! kh_dev h with
            | None => Undef
            | Some _ => if negb (_device_opened (kh_dev h) g) then Ret KVS_ERR_DEV_NOT_OPENED
                        else Ret KVS_SUCCESS
            end
        end
  end.

Definition kvs_create_key_space (dev_hd : option Z) (key_space_name : option kvs_key_space_name)
    (size ordering : Z) g : dev_outcome (kvs_result * env D) :=
  match key_space_name, dev_hd with
  | Some (KvsKeySpaceName len (Some name)), Some dev =>
      let name_len := u32 (strlen name) in
      if negb (name_len =? len) || (name_len =? 0) || (MAX_KEYSPACE_NAME_LEN <? name_len)
      then Ret (KVS_ERR_KS_NAME, g)
      else if negb (_device_opened dev g) then Ret (KVS_ERR_DEV_NOT_EXIST, g)
      else if negb (ordering =? KVS_KEY_ORDER_NONE) then Ret (KVS_ERR_OPTION_INVALID, g)
      else on_driver dev (create_key_space junk name size ordering) g
  | _, _ => Ret (KVS_ERR_PARAM_INVALID, g)
  end.

Definition kvs_delete_key_space (dev_hd : option Z) (key_space_name : option kvs_key_space_name) g
    : dev_outcome (kvs_result * env D) :=
  match dev_hd, key_space_name with
  | Some dev, Some (KvsKeySpaceName _ (Some name)) =>
      if negb (_device_opened dev g) then Ret (KVS_ERR_DEV_NOT_EXIST, g)
      else
        opened ← _key_space_name_opened dev name g;
        if (opened : bool) then Ret (KVS_ERR_SYS_IO, g)
        else on_driver dev (delete_key_space junk name) g
  | _, _ => Ret (KVS_ERR_PARAM_INVALID, g)
  end.

(** The loop over the entries from [idx] on, with [n] left: the result, the
    array and the count. *)
Fixpoint list_names_loop (n idx : nat) (items_buff_cnt : Z) (entries : list ks_list_entry)
    (names : list kvs_key_space_name) (ks_cnt : Z)
    : dev_outcome (kvs_result * list kvs_key_space_name * Z) :=
  match n with
  | O => Ret (KVS_SUCCESS, names, ks_cnt)
  | S n' =>
      if items_buff_cnt <=? ks_cnt
      then Ret (if items_buff_cnt =? 0 then KVS_ERR_SYS_IO else KVS_SUCCESS, names, ks_cnt)
      else
        match entries !! idx, names !! idx with
        | Some e, Some (KvsKeySpaceName name_len name) =>
            let s := cstr (le_names_buffer e) in
            let len := strlen s in
            if name_len <? len then Ret (KVS_ERR_SYS_IO, names, ks_cnt)
            else
              match name with
              | None => Undef
              | Some buf =>
                  if Z.of_nat (length buf) <? len + 1 then Undef
                  else
                    let name' := KvsKeySpaceName len (Some (snprintf_s buf (name_len + 1) s)) in
                    list_names_loop n' (S idx) items_buff_cnt entries (<[idx := name']> names) (ks_cnt + 1)
              end
        | _, _ => Undef
        end
  end.

Definition kvs_list_key_spaces (dev_hd : option Z) (index buffer_size : Z)
    (names : option (list kvs_key_space_name)) (ks_cnt : option Z) g
    : dev_outcome (kvs_result * option (list kvs_key_space_name) * option Z * env D) :=
  match dev_hd, names, ks_cnt with
  | Some dev, Some nm, Some _ =>
      if (index <? 1) || (KS_MAX_CONT <? index) then Ret (KVS_ERR_KS_INDEX, names, ks_cnt, g)
      else if negb (_device_opened dev g) then Ret (KVS_ERR_DEV_NOT_EXIST, names, ks_cnt, g)
      else
        '((ret, kslist), g) ← on_driver dev (_retreive_key_space_list junk ks_list_calloc) g;
        if negb (kvs_is_success ret) then Ret (ret, names, Some 0, g)
        else if (ks_num kslist <? index) && negb (ks_num kslist =? 0)
        then Ret (KVS_ERR_KS_INDEX, names, Some 0, g)
        else
          '(ret, nm, cnt) ← list_names_loop (Z.to_nat (ks_num kslist - (index - 1)))
              (Z.to_nat (index - 1)) (buffer_size / sizeof_kvs_key_space_name) (ks_entries kslist) nm 0;
          Ret (ret, Some nm, Some cnt, g)
  | _, _, _ => Ret (KVS_ERR_PARAM_INVALID, names, ks_cnt, g)
  end.

(** [addr] is the handle [malloc] returns; the id in it is not yet set. *)
Definition kvs_open_key_space (dev_hd : option Z) (name : option (list byte)) (ks_hd : bool)
    (addr : Z) g : dev_outcome (kvs_result * option Z * env D) :=
  match dev_hd, name with
  | Some dev, Some name =>
      let ks_name_len := u16 (strlen name) in
      if negb ks_hd then Ret (KVS_ERR_PARAM_INVALID, None, g)
      else if bool_decide (name = []) then Ret (KVS_ERR_KS_NAME, None, g)
      else if (ks_name_len <? KVS_MIN_KEY_LENGTH) || (KVS_MAX_KEY_LENGTH <? ks_name_len)
      then Ret (KVS_ERR_KS_NAME, None, g)
      else if negb (_device_opened dev g) then Ret (KVS_ERR_DEV_NOT_EXIST, None, g)
      else
        opened ← _key_space_name_opened dev name g;
        if (opened : bool) then Ret (KVS_ERR_KS_OPEN, None, g)
        else
          '((ret, existed), g) ← on_driver dev (_exist_key_space_entry junk name) g;
          if negb (kvs_is_success ret) then Ret (ret, None, g)
          else if existed =? 0 then Ret (KVS_ERR_KS_NOT_EXIST, None, g)
          else
            let hname := take (Z.to_nat MAX_CONT_PATH_LEN) name in
            '((ret, id), g) ← on_driver dev (_open_key_space junk hname (le_int (junk 1))) g;
            if negb (kvs_is_success ret) then Ret (ret, None, g)
            else
              Ret (KVS_SUCCESS, Some addr,
                   Env (g_initialized g) (g_opened_device_num g) (g_open_devices g)
                     (g_list_open_ks g ++ [addr])
                     (alter (fun h => KvsDeviceHandle (kd_driver h) (kd_dev_path h)
                                        (kd_open_ks_hds h ++ [addr])) dev (g_devs g))
                     (<[addr := KvsKeySpaceHandle id dev hname]> (g_kss g)))
  | _, _ => Ret (KVS_ERR_PARAM_INVALID, None, g)
  end.

(** The handle a call was given, after its check. *)
Definition with_key_space {A} (ks_hd : option Z) (f : _kvs_key_space_handle -> dev_outcome A)
    g : dev_outcome A :=
  match ks_hd ≫= fun ks => g_kss g !! ks with
  | None => Undef
  | Some h => f h
  end.

Definition kvs_close_key_space (ks_hd : option Z) g : dev_outcome (kvs_result * env D) :=
  ret ← _check_key_space_handle ks_hd g;
  if negb (kvs_is_success ret) then Ret (ret, g)
  else with_key_space ks_hd (fun h =>
    '(ret, g) ← on_driver (kh_dev h) (_close_key_space junk (kh_name h)) g;
    if negb (kvs_is_success ret) then Ret (ret, g)
    else
      let ks := default 0 ks_hd in
      Ret (ret, Env (g_initialized g) (g_opened_device_num g) (g_open_devices g)
                  (list_remove ks (g_list_open_ks g))
                  (alter (fun h => KvsDeviceHandle (kd_driver h) (kd_dev_path h)
                                     (list_remove ks (kd_open_ks_hds h))) (kh_dev h) (g_devs g))
                  (delete ks (g_kss g)))) g.

(** [ks] says that the structure to fill is given. *)
Definition kvs_get_key_space_info (ks_hd : option Z) (ks : bool) g
    : dev_outcome (kvs_result * option kvs_key_space * env D) :=
  if negb ks then Ret (KVS_ERR_PARAM_INVALID, None, g)
  else
    ret ← _check_key_space_handle ks_hd g;
    if negb (kvs_is_success ret) then Ret (ret, None, g)
    else with_key_space ks_hd (fun h =>
      '((ret, m), g) ← on_driver (kh_dev h)
          (_retrieve_key_space_metadata junk (KsMetadata 0 0 0 0 0 0 (kh_name h))) g;
      if negb (kvs_is_success ret) then Ret (ret, None, g)
      else Ret (ret, Some (KvsKeySpace (negb (md_opened m =? 0)) (md_capacity m) (md_free_size m)
                             (md_kv_count m) (strlen (kh_name h)) (kh_name h)), g)) g.

(** ** Key value pairs

    Null arguments are [None]; [opt] is what the call reads of the option
    structure.  An asynchronous call refuses a null callback. *)

Definition mode_ok (m : io_mode) : bool :=
  match m with Sync => true | Async _ _ post_fn => bool_decide (is_Some post_fn) end.

(** [kvs_store_kvp] and [kvs_store_kvp_async] *)
Definition kvs_store (m : io_mode) (ks_hd : option Z) (key : option kvs_key)
    (value : option kvs_value) (opt : option Z) g : dev_outcome (kvs_result * env D) :=
  ret ← _check_key_space_handle ks_hd g;
  if negb (kvs_is_success ret) then Ret (ret, g)
  else
    match key, value, opt with
    | Some k, Some v, Some st_type =>
        if negb (mode_ok m) then Ret (KVS_ERR_PARAM_INVALID, g)
        else
          let ret := validate_request key value in
          if negb (kvs_is_success ret) then Ret (ret, g)
          else with_key_space ks_hd (fun h =>
            on_driver (kh_dev h) (store_tuple (kh_keyspace_id h) k v st_type m) g) g
    | _, _, _ => Ret (KVS_ERR_PARAM_INVALID, g)
    end.

(** [kvs_retrieve_kvp] and [kvs_retrieve_kvp_async] *)
Definition kvs_retrieve (m : io_mode) (ks_hd : option Z) (key : option kvs_key)
    (opt : option bool) (value : option kvs_value) g
    : dev_outcome (kvs_result * option kvs_value * env D) :=
  ret ← _check_key_space_handle ks_hd g;
  if negb (kvs_is_success ret) then Ret (ret, value, g)
  else
    match key, value, opt with
    | Some k, Some v, Some retrieve_delete =>
        if negb (mode_ok m) then Ret (KVS_ERR_PARAM_INVALID, value, g)
        else
          let ret := validate_request key value in
          if negb (kvs_is_success ret) then Ret (ret, value, g)
          else if negb (Z.land (v_length v) (KVS_VALUE_LENGTH_ALIGNMENT_UNIT - 1) =? 0)
          then Ret (KVS_ERR_PARAM_INVALID, value, g)
          else with_key_space ks_hd (fun h =>
            '((ret, v), g) ← on_driver (kh_dev h)
                (retrieve_tuple (kh_keyspace_id h) k v retrieve_delete m) g;
            Ret (ret, Some v, g)) g
    | _, _, _ => Ret (KVS_ERR_PARAM_INVALID, value, g)
    end.

(** [kvs_delete_kvp] and [kvs_delete_kvp_async] *)
Definition kvs_delete (m : io_mode) (ks_hd : option Z) (key : option kvs_key) (opt : option bool) g
    : dev_outcome (kvs_result * env D) :=
  ret ← _check_key_space_handle ks_hd g;
  if negb (kvs_is_success ret) then Ret (ret, g)
  else
    match key, opt with
    | Some k, Some delete_error =>
        if negb (mode_ok m) then Ret (KVS_ERR_PARAM_INVALID, g)
        else
          let ret := validate_request key None in
          if negb (kvs_is_success ret) then Ret (ret, g)
          else with_key_space ks_hd (fun h =>
            on_driver (kh_dev h) (delete_tuple (kh_keyspace_id h) k delete_error m) g) g
    | _, _ => Ret (KVS_ERR_PARAM_INVALID, g)
    end.

(** The first error of the keys. *)
Fixpoint validate_exist_keys (keys : list kvs_key) : kvs_result :=
  match keys with
  | [] => KVS_SUCCESS
  | k :: keys' =>
      let ret := validate_kv_pair_ (Some k) None 0 in
      if negb (kvs_is_success ret) then ret else validate_exist_keys keys'
  end.

(** [kvs_exist_kv_pairs] and [kvs_exist_kv_pairs_async]; the array has
    [key_cnt] keys. *)
Definition kvs_exist (m : io_mode) (ks_hd : option Z) (keys : option (list kvs_key))
    (el : option kvs_exist_list) g : dev_outcome (kvs_result * option kvs_exist_list * env D) :=
  match keys, el with
  | Some keys, Some (KvsExistList _ len (Some buf)) =>
      let key_cnt := Z.of_nat (length keys) in
      if negb (mode_ok m) || (key_cnt =? 0) then Ret (KVS_ERR_PARAM_INVALID, el, g)
      else
        let ret := validate_exist_keys keys in
        if negb (kvs_is_success ret) then Ret (ret, el, g)
        else
          let l := KvsExistList key_cnt len (Some buf) in
          ret ← _check_key_space_handle ks_hd g;
          if negb (kvs_is_success ret) then Ret (ret, Some l, g)
          else if len <=? 0 then Ret (KVS_ERR_BUFFER_SMALL, Some l, g)
          else with_key_space ks_hd (fun h =>
            '((ret, l), g) ← on_driver (kh_dev h) (exist_tuple (kh_keyspace_id h) keys l m) g;
            Ret (ret, Some l, g)) g
  | _, _ => Ret (KVS_ERR_PARAM_INVALID, el, g)
  end.

(** [info] says that the structure to fill is given. *)
Definition kvs_get_kvp_info (ks_hd : option Z) (key : option kvs_key) (info : bool) g
    : dev_outcome (kvs_result * option kvs_kvp_info * env D) :=
  ret ← _check_key_space_handle ks_hd g;
  if negb (kvs_is_success ret) then Ret (ret, None, g)
  else
    match key with
    | None => Ret (KVS_ERR_PARAM_INVALID, None, g)
    | Some k =>
        if negb info then Ret (KVS_ERR_PARAM_INVALID, None, g)
        else
          let vlen := KVS_MAX_VALUE_LENGTH in
          '(ret, value, g) ← kvs_retrieve Sync ks_hd key (Some false)
              (Some (KvValue (Some (junk vlen)) vlen 0 0)) g;
          if negb (kvs_is_success ret) then Ret (ret, None, g)
          else Ret (ret, Some (KvsKvpInfo (k_length k) (key_bytes k)
                                 (default 0 (v_actual_value_size <$> value))), g)
    end.

(** ** Key groups and iterators *)

Definition kvs_delete_key_group (ks_hd : option Z) (grp_fltr : option kvs_key_group_filter)
    : kvs_result := KVS_ERR_SYS_IO.

(** The result and the iterator handle, which stays as it was on an error of the
    front end. *)
Definition kvs_create_iterator (ks_hd : option Z) (iter_op : option Z)
    (iter_fltr : option kvs_key_group_filter) (iter_hd : option Z) g
    : dev_outcome (kvs_result * option Z * env D) :=
  ret ← _check_key_space_handle ks_hd g;
  if negb (kvs_is_success ret) then Ret (ret, iter_hd, g)
  else
    match iter_op, iter_fltr, iter_hd with
    | Some iter_type, Some fltr, Some hd =>
        let '(bitmask, bit_pattern) := filter2context fltr in
        if negb (_is_valid_bitmask bitmask) then Ret (KVS_ERR_ITERATOR_FILTER_INVALID, iter_hd, g)
        else with_key_space ks_hd (fun h =>
          '((ret, hd), g) ← on_driver (kh_dev h)
              (create_iterator (kh_keyspace_id h) iter_type bitmask bit_pattern hd) g;
          Ret (ret, Some hd, g)) g
    | _, _, _ => Ret (KVS_ERR_PARAM_INVALID, iter_hd, g)
    end.

Definition kvs_delete_iterator (ks_hd : option Z) (iter_hd : Z) g : dev_outcome (kvs_result * env D) :=
  ret ← _check_key_space_handle ks_hd g;
  if negb (kvs_is_success ret) then Ret (ret, g)
  else with_key_space ks_hd (fun h => on_driver (kh_dev h) (delete_iterator iter_hd) g) g.

(** [kvs_iterate_next] and [kvs_iterate_next_async]; a list without its buffer is
    [None] too. *)
Definition kvs_iterate (m : io_mode) (ks_hd : option Z) (iter_hd : Z)
    (iter_list : option kvs_iterator_list) g
    : dev_outcome (kvs_result * option kvs_iterator_list * env D) :=
  match iter_list with
  | None => Ret (KVS_ERR_PARAM_INVALID, iter_list, g)
  | Some il =>
      if negb (mode_ok m) then Ret (KVS_ERR_PARAM_INVALID, iter_list, g)
      else
        ret ← _check_key_space_handle ks_hd g;
        if negb (kvs_is_success ret) then Ret (ret, iter_list, g)
        else if negb (il_size il =? KVS_ITERATOR_BUFFER_SIZE) then Ret (KVS_ERR_SYS_IO, iter_list, g)
        else with_key_space ks_hd (fun h =>
          '((ret, il), g) ← on_driver (kh_dev h) (iterator_next iter_hd il m) g;
          Ret (ret, Some il, g)) g
  end.

(** ** The entry points *)

Definition kvs_store_kvp (ks_hd : option Z) (key : option kvs_key) (value : option kvs_value)
    (opt : option Z) := kvs_store Sync ks_hd key value opt.
Definition kvs_store_kvp_async (ks_hd : option Z) (key : option kvs_key) (value : option kvs_value)
    (opt : option Z) (private1 private2 : Z) (post_fn : option Z) :=
  kvs_store (Async private1 private2 post_fn) ks_hd key value opt.
Definition kvs_retrieve_kvp (ks_hd : option Z) (key : option kvs_key) (opt : option bool)
    (value : option kvs_value) := kvs_retrieve Sync ks_hd key opt value.
Definition kvs_retrieve_kvp_async (ks_hd : option Z) (key : option kvs_key) (opt : option bool)
    (private1 private2 : Z) (value : option kvs_value) (post_fn : option Z) :=
  kvs_retrieve (Async private1 private2 post_fn) ks_hd key opt value.
Definition kvs_delete_kvp (ks_hd : option Z) (key : option kvs_key) (opt : option bool) :=
  kvs_delete Sync ks_hd key opt.
Definition kvs_delete_kvp_async (ks_hd : option Z) (key : option kvs_key) (opt : option bool)
    (private1 private2 : Z) (post_fn : option Z) :=
  kvs_delete (Async private1 private2 post_fn) ks_hd key opt.
Definition kvs_exist_kv_pairs (ks_hd : option Z) (keys : option (list kvs_key))
    (el : option kvs_exist_list) := kvs_exist Sync ks_hd keys el.
Definition kvs_exist_kv_pairs_async (ks_hd : option Z) (keys : option (list kvs_key))
    (el : option kvs_exist_list) (private1 private2 : Z) (post_fn : option Z) :=
  kvs_exist (Async private1 private2 post_fn) ks_hd keys el.
Definition kvs_iterate_next (ks_hd : option Z) (iter_hd : Z) (iter_list : option kvs_iterator_list) :=
  kvs_iterate Sync ks_hd iter_hd iter_list.
Definition kvs_iterate_next_async (ks_hd : option Z) (iter_hd : Z) (iter_list : option kvs_iterator_list)
    (private1 private2 : Z) (post_fn : option Z) :=
  kvs_iterate (Async private1 private2 post_fn) ks_hd iter_hd iter_list.
End frontend.
