(* ===== verification/FrontendInv.v ===== *)
(** * Handles of the API

    The state machine of the public calls over [g_env] ([cfrontend.cpp]) and its
    invariant: the lists of open handles and the handles in memory agree, so a
    call that passes its guards never follows a freed handle. *)

From Stdlib Require Import Strings.String.
From stdpp Require Import base numbers list gmap.
From S2P Require Import Prelude.
From S2P Require Import AdiTypes.
From S2P Require Import Config.
From S2P Require Import IoCmd.
From S2P Require Import Queue.
From S2P Require Import Device.
From S2P Require Import KvsTypes.
From S2P Require Import KvsDriver.
From S2P Require Import EmulDriver.
From S2P Require Import EmulDriverLaws.
From S2P Require Import KeySpace.
From S2P Require Import Frontend.

(** ** The calls as steps *)

Inductive api_call (D : Type) :=
| CallOpenDevice (init : kvs_result) (URI : option (list byte)) (dev_hd : bool)
    (driver : dev_outcome (kvs_result * D)) (addr : Z)
| CallCloseDevice (dev_hd : option Z)
| CallDeviceCapacity (dev_hd : option Z) (out : bool)
| CallDeviceUtilization (dev_hd : option Z) (out : bool)
| CallDeviceInfo (dev_hd : option Z) (out : bool)
| CallCreateKeySpace (dev_hd : option Z) (name : option kvs_key_space_name) (size ordering : Z)
| CallDeleteKeySpace (dev_hd : option Z) (name : option kvs_key_space_name)
| CallListKeySpaces (dev_hd : option Z) (index buffer_size : Z)
    (names : option (list kvs_key_space_name)) (ks_cnt : option Z)
| CallOpenKeySpace (dev_hd : option Z) (name : option (list byte)) (ks_hd : bool) (addr : Z)
| CallCloseKeySpace (ks_hd : option Z)
| CallKeySpaceInfo (ks_hd : option Z) (out : bool)
| CallStore (m : io_mode) (ks_hd : option Z) (key : option kvs_key) (value : option kvs_value)
    (opt : option Z)
| CallRetrieve (m : io_mode) (ks_hd : option Z) (key : option kvs_key) (opt : option bool)
    (value : option kvs_value)
| CallDelete (m : io_mode) (ks_hd : option Z) (key : option kvs_key) (opt : option bool)
| CallExist (m : io_mode) (ks_hd : option Z) (keys : option (list kvs_key)) (el : option kvs_exist_list)
| CallKvpInfo (ks_hd : option Z) (key : option kvs_key) (out : bool)
| CallCreateIterator (ks_hd : option Z) (iter_op : option Z) (fltr : option kvs_key_group_filter)
    (iter_hd : option Z)
| CallDeleteIterator (ks_hd : option Z) (iter_hd : Z)
| CallIterate (m : io_mode) (ks_hd : option Z) (iter_hd : Z) (il : option kvs_iterator_list).

Arguments CallOpenDevice {D}.
Arguments CallCloseDevice {D}.
Arguments CallDeviceCapacity {D}.
Arguments CallDeviceUtilization {D}.
Arguments CallDeviceInfo {D}.
Arguments CallCreateKeySpace {D}.
Arguments CallDeleteKeySpace {D}.
Arguments CallListKeySpaces {D}.
Arguments CallOpenKeySpace {D}.
Arguments CallCloseKeySpace {D}.
Arguments CallKeySpaceInfo {D}.
Arguments CallStore {D}.
Arguments CallRetrieve {D}.
Arguments CallDelete {D}.
Arguments CallExist {D}.
Arguments CallKvpInfo {D}.
Arguments CallCreateIterator {D}.
Arguments CallDeleteIterator {D}.
Arguments CallIterate {D}.

Section calls.
Context {D : Type} `{!KvsDriver D}.
Implicit Types (g : env D).
Variable junk : Z -> list byte.
Variable destroy : D -> dev_outcome unit.

(** The environment a call leaves. *)
Definition env_after {A} (r : dev_outcome (A * env D)) : dev_outcome (env D) := '(_, g) ← r; Ret g.

Definition api_step (c : api_call D) g : dev_outcome (env D) :=
  match c with
  | CallOpenDevice init URI dev_hd driver addr => env_after (kvs_open_device init URI dev_hd driver addr g)
  | CallCloseDevice dev_hd => env_after (kvs_close_device destroy dev_hd g)
  | CallDeviceCapacity dev_hd out => env_after (kvs_get_device_capacity dev_hd out g)
  | CallDeviceUtilization dev_hd out => env_after (kvs_get_device_utilization dev_hd out g)
  | CallDeviceInfo dev_hd out => env_after (kvs_get_device_info dev_hd out g)
  | CallCreateKeySpace dev_hd name size ordering =>
      env_after (kvs_create_key_space junk dev_hd name size ordering g)
  | CallDeleteKeySpace dev_hd name => env_after (kvs_delete_key_space junk dev_hd name g)
  | CallListKeySpaces dev_hd index size names cnt =>
      env_after (kvs_list_key_spaces junk dev_hd index size names cnt g)
  | CallOpenKeySpace dev_hd name ks_hd addr => env_after (kvs_open_key_space junk dev_hd name ks_hd addr g)
  | CallCloseKeySpace ks_hd => env_after (kvs_close_key_space junk ks_hd g)
  | CallKeySpaceInfo ks_hd out => env_after (kvs_get_key_space_info junk ks_hd out g)
  | CallStore m ks_hd key value opt => env_after (kvs_store m ks_hd key value opt g)
  | CallRetrieve m ks_hd key opt value => env_after (kvs_retrieve m ks_hd key opt value g)
  | CallDelete m ks_hd key opt => env_after (kvs_delete m ks_hd key opt g)
  | CallExist m ks_hd keys el => env_after (kvs_exist m ks_hd keys el g)
  | CallKvpInfo ks_hd key out => env_after (kvs_get_kvp_info junk ks_hd key out g)
  | CallCreateIterator ks_hd op fltr hd => env_after (kvs_create_iterator ks_hd op fltr hd g)
  | CallDeleteIterator ks_hd hd => env_after (kvs_delete_iterator ks_hd hd g)
  | CallIterate m ks_hd hd il => env_after (kvs_iterate m ks_hd hd il g)
  end.

(** A new handle is not the address of a live one. *)
Definition call_addr (c : api_call D) : option Z :=
  match c with
  | CallOpenDevice _ _ _ _ addr | CallOpenKeySpace _ _ _ addr => Some addr
  | _ => None
  end.
Definition addr_fresh (c : api_call D) g : Prop :=
  forall a, call_addr c = Some a -> g_devs g !! a = None /\ g_kss g !! a = None.

(** The environments a process reaches. *)
Inductive reachable : env D -> Prop :=
| reach_init : reachable g_env_init
| reach_step c g g' : reachable g -> addr_fresh c g -> api_step c g = Ret g' -> reachable g'.
End calls.

(** ** The invariant *)

Section invariant.
Context {D : Type} `{!KvsDriver D}.
Implicit Types (g : env D).

Record env_ok g : Prop := {
  ok_num : g_opened_device_num g = Z.of_nat (length (g_open_devices g));
  ok_devices : NoDup (g_open_devices g);
  ok_mem_devices dev : dev ∈ g_open_devices g <-> is_Some (g_devs g !! dev);
  ok_open_ks : NoDup (g_list_open_ks g);
  ok_mem_ks ks : ks ∈ g_list_open_ks g <-> is_Some (g_kss g !! ks);
  ok_owner ks h : g_kss g !! ks = Some h ->
    exists dh, g_devs g !! kh_dev h = Some dh /\ ks ∈ kd_open_ks_hds dh;
  ok_owned dev dh ks : g_devs g !! dev = Some dh -> ks ∈ kd_open_ks_hds dh ->
    exists h, g_kss g !! ks = Some h /\ kh_dev h = dev
}.

Lemma env_ok_init : env_ok g_env_init.
Proof.
  split; cbn; try done; try (constructor; fail); intros.
  - rewrite elem_of_nil, lookup_empty. split; [done|by intros []].
  - rewrite elem_of_nil, lookup_empty. split; [done|by intros []].
Qed.

(** ** Calls that leave the handles alone *)

(** The environments differ in the driver objects only. *)
Definition same_handles g g' : Prop :=
  g_opened_device_num g = g_opened_device_num g' /\ g_open_devices g = g_open_devices g' /\
  g_list_open_ks g = g_list_open_ks g' /\ g_kss g = g_kss g' /\
  forall dev, (kd_open_ks_hds <$> g_devs g !! dev) = (kd_open_ks_hds <$> g_devs g' !! dev).

#[local] Instance same_handles_equiv : Equivalence same_handles.
Proof.
  split.
  - done.
  - intros g g' (? & ? & ? & ? & H). repeat split; done.
  - intros g g' g'' (? & ? & ? & ? & H) (? & ? & ? & ? & H').
    repeat split; congruence.
Qed.

Lemma same_handles_ok g g' : same_handles g g' -> env_ok g -> env_ok g'.
Proof.
  intros (E1 & E2 & E3 & E4 & Hd) [N1 N2 N3 N4 N5 N6 N7].
  split; rewrite <-?E1, <-?E2, <-?E3; try done.
  - intros dev. rewrite N3, <-!(fmap_is_Some kd_open_ks_hds). by rewrite Hd.
  - intros ks. by rewrite <-E4.
  - intros ks h Hk. rewrite <-E4 in Hk. destruct (N6 ks h Hk) as (dh & Hdh & Hin).
    pose proof (Hd (kh_dev h)) as Hd'. rewrite Hdh in Hd'. symmetry in Hd'.
    apply fmap_Some in Hd' as (dh' & ? & E). exists dh'. by rewrite <-E.
  - intros dev dh ks Hdh Hin. rewrite <-E4. pose proof (Hd dev) as Hd'. rewrite Hdh in Hd'.
    apply fmap_Some in Hd' as (dh' & Hdh' & E). rewrite E in Hin. by apply (N7 dev dh').
Qed.

#[local] Instance env_ok_proper : Proper (same_handles ==> iff) env_ok.
Proof. intros g g' H. split; apply same_handles_ok; by rewrite H. Qed.

Lemma set_driver_same dev d g : same_handles g (set_driver dev d g).
Proof.
  repeat split. intros dev'. cbn. destruct (decide (dev = dev')) as [<-|].
  - rewrite lookup_alter_eq. by destruct (g_devs g !! dev).
  - by rewrite lookup_alter_ne.
Qed.

(** If the call returns, what it returns satisfies [P]. *)
Definition post {A} (P : A -> Prop) (m : dev_outcome A) : Prop :=
  match m with Ret a => P a | _ => True end.

Lemma post_bind {A B} (P : A -> Prop) (Q : B -> Prop) m (f : A -> dev_outcome B) :
  post P m -> (forall a, P a -> post Q (f a)) -> post Q (m ≫= f).
Proof. destruct m; cbn; auto. Qed.

Definition stable {A} g (m : dev_outcome (A * env D)) : Prop := post (fun x => same_handles g x.2) m.

Lemma stable_on_driver {A} dev (f : D -> dev_outcome (A * D)) g : stable g (on_driver dev f g).
Proof.
  unfold on_driver. destruct (g_devs g !! dev); [|done]. apply (post_bind (fun _ => True)).
  - by destruct (f _).
  - intros [a d] _. apply set_driver_same.
Qed.

Lemma stable_bind {A B} g (m : dev_outcome (A * env D)) (f : A * env D -> dev_outcome (B * env D)) :
  stable g m -> (forall a g', same_handles g g' -> stable g (f (a, g'))) -> stable g (m ≫= f).
Proof. intros Hm Hf. apply (post_bind _ _ _ _ Hm). intros [a g'] H. by apply Hf. Qed.

Lemma stable_guard {A B} g (m : dev_outcome A) (f : A -> dev_outcome (B * env D)) :
  (forall a, stable g (f a)) -> stable g (m ≫= f).
Proof. intros Hf. destruct m as [a| |]; [apply Hf|done|done]. Qed.

(** ** Calls that make and free handles *)

Lemma elem_list_remove x y l : y ∈ list_remove x l <-> y ∈ l /\ y <> x.
Proof. unfold list_remove. rewrite list_elem_of_filter. tauto. Qed.

Lemma open_device_ok b dev d uri g :
  env_ok g -> g_devs g !! dev = None -> g_kss g !! dev = None ->
  env_ok (Env b (g_opened_device_num g + 1) (g_open_devices g ++ [dev]) (g_list_open_ks g)
            (<[dev := KvsDeviceHandle d uri []]> (g_devs g)) (g_kss g)).
Proof.
  intros [N1 N2 N3 N4 N5 N6 N7] Hd Hk. split; cbn; try done.
  - rewrite N1, length_app. cbn. lia.
  - apply NoDup_app. repeat split; [done| |apply NoDup_singleton].
    intros x Hx. rewrite list_elem_of_singleton. intros ->. apply N3 in Hx. rewrite Hd in Hx. by destruct Hx.
  - intros x. rewrite elem_of_app, list_elem_of_singleton, N3, lookup_insert_is_Some.
    destruct (decide (dev = x)); intuition congruence.
  - intros ks h Hh. destruct (N6 ks h Hh) as (dh & Hdh & Hin). exists dh.
    rewrite lookup_insert_ne; [done|]. intros ->. congruence.
  - intros x dh ks. rewrite lookup_insert_Some. intros [[<- <-]|[Hne Hx]]; [by rewrite elem_of_nil|].
    by apply N7.
Qed.

(** A device handle with its list of key spaces changed by [f]. *)
Definition alter_hds (f : list Z -> list Z) (h : _kvs_device_handle D) : _kvs_device_handle D :=
  KvsDeviceHandle (kd_driver h) (kd_dev_path h) (f (kd_open_ks_hds h)).

Lemma open_ks_ok ks id dev name g :
  env_ok g -> is_Some (g_devs g !! dev) -> g_kss g !! ks = None ->
  env_ok (Env (g_initialized g) (g_opened_device_num g) (g_open_devices g) (g_list_open_ks g ++ [ks])
            (alter (alter_hds (fun l => l ++ [ks])) dev (g_devs g))
            (<[ks := KvsKeySpaceHandle id dev name]> (g_kss g))).
Proof.
  intros [N1 N2 N3 N4 N5 N6 N7] [dh0 Hd0] Hk. split; cbn; try done.
  - intros x. rewrite N3, lookup_alter_is_Some. done.
  - apply NoDup_app. repeat split; [done| |apply NoDup_singleton].
    intros x Hx. rewrite list_elem_of_singleton. intros ->. apply N5 in Hx. rewrite Hk in Hx. by destruct Hx.
  - intros x. rewrite elem_of_app, list_elem_of_singleton, N5, lookup_insert_is_Some.
    destruct (decide (ks = x)); intuition congruence.
  - intros x h. rewrite lookup_insert_Some. intros [[<- <-]|[Hne Hx]]; cbn.
    + rewrite lookup_alter_eq, Hd0. eexists. split; [done|]. cbn. apply elem_of_app. right. by apply list_elem_of_singleton.
    + destruct (N6 x h Hx) as (dh & Hdh & Hin). destruct (decide (kh_dev h = dev)) as [<-|].
      * rewrite lookup_alter_eq, Hdh. eexists. split; [done|]. cbn. apply elem_of_app. by left.
      * rewrite lookup_alter_ne by done. by exists dh.
  - intros x dh y. rewrite lookup_alter_Some. intros [(<- & dh' & Hdh' & ->)|[Hne Hx]] Hin; cbn in *.
    + apply elem_of_app in Hin as [Hin|Hin].
      * destruct (N7 _ _ _ Hdh' Hin) as (h & Hh & <-). exists h. rewrite lookup_insert_ne; [done|congruence].
      * apply list_elem_of_singleton in Hin as ->. rewrite lookup_insert_eq. by eexists.
    + destruct (N7 _ _ _ Hx Hin) as (h & Hh & <-). exists h. rewrite lookup_insert_ne; [done|congruence].
Qed.

Lemma close_ks_ok ks h g :
  env_ok g -> g_kss g !! ks = Some h ->
  env_ok (Env (g_initialized g) (g_opened_device_num g) (g_open_devices g)
            (list_remove ks (g_list_open_ks g))
            (alter (alter_hds (list_remove ks)) (kh_dev h) (g_devs g)) (delete ks (g_kss g))).
Proof.
  intros [N1 N2 N3 N4 N5 N6 N7] Hk. split; cbn; try done.
  - intros x. rewrite N3, lookup_alter_is_Some. done.
  - by apply NoDup_filter.
  - intros x. rewrite elem_list_remove, N5, lookup_delete_is_Some. intuition congruence.
  - intros x hx. rewrite lookup_delete_Some. intros [Hne Hx].
    destruct (N6 x hx Hx) as (dh & Hdh & Hin). destruct (decide (kh_dev hx = kh_dev h)) as [E|].
    + rewrite E in *. rewrite lookup_alter_eq, Hdh. eexists. split; [done|]. cbn. by apply elem_list_remove.
    + rewrite lookup_alter_ne by done. by exists dh.
  - intros x dh y. rewrite lookup_alter_Some. intros [(<- & dh' & Hdh' & ->)|[Hne Hx]] Hin; cbn in *.
    + apply elem_list_remove in Hin as [Hin Hy].
      destruct (N7 _ _ _ Hdh' Hin) as (hy & Hhy & E). exists hy. by rewrite lookup_delete_ne.
    + destruct (N7 _ _ _ Hx Hin) as (hy & Hhy & E). exists hy. rewrite lookup_delete_ne; [done|]. congruence.
Qed.

Lemma erase_first_notin x l : x ∉ l -> erase_first x l = l.
Proof.
  induction l as [|y l IH]; cbn; [done|]. rewrite not_elem_of_cons. intros [Hne Hl].
  destruct (y =? x) eqn:E; [lia|]. by rewrite IH.
Qed.

Lemma erase_first_NoDup x l : NoDup l -> erase_first x l = list_remove x l.
Proof.
  unfold list_remove. induction 1 as [|y l Hy _ IH]; [done|]. cbn [erase_first].
  destruct (y =? x) eqn:E.
  - apply Z.eqb_eq in E as ->. rewrite filter_cons_False by naive_solver.
    by rewrite <-IH, erase_first_notin.
  - rewrite filter_cons_True by lia. by rewrite IH.
Qed.

(** Forgetting the handles of a list. *)
Lemma erase_all_spec ts l :
  NoDup l ->
  NoDup (foldl (fun l t => erase_first t l) l ts) /\
  forall x, x ∈ foldl (fun l t => erase_first t l) l ts <-> x ∈ l /\ x ∉ ts.
Proof.
  revert l. induction ts as [|t ts IH]; intros l Hl; cbn.
  - split; [done|]. intros x. rewrite elem_of_nil. tauto.
  - rewrite erase_first_NoDup by done. destruct (IH (list_remove t l)) as [H1 H2]; [by apply NoDup_filter|].
    split; [done|]. intros x. rewrite H2, elem_list_remove, elem_of_cons. tauto.
Qed.

Lemma delete_all_spec {A} ts (m : gmap Z A) x :
  foldl (fun m t => delete t m) m ts !! x = if decide (x ∈ ts) then None else m !! x.
Proof.
  revert m. induction ts as [|t ts IH]; intros m; cbn.
  - destruct (decide (x ∈ [])) as [H|]; [|done]. by apply elem_of_nil in H.
  - rewrite IH. destruct (decide (x ∈ ts)), (decide (x ∈ t :: ts)) as [H|H]; rewrite elem_of_cons in H.
    + done.
    + tauto.
    + destruct H as [->|]; [by rewrite lookup_delete_eq|done].
    + rewrite lookup_delete_ne; [done|]. intros ->. tauto.
Qed.

Lemma close_device_ok b dev h g :
  env_ok g -> g_devs g !! dev = Some h ->
  env_ok (Env b (g_opened_device_num g - 1) (list_remove dev (g_open_devices g))
            (foldl (fun l t => erase_first t l) (g_list_open_ks g) (kd_open_ks_hds h))
            (delete dev (g_devs g)) (foldl (fun m t => delete t m) (g_kss g) (kd_open_ks_hds h))).
Proof.
  intros [N1 N2 N3 N4 N5 N6 N7] Hd. destruct (erase_all_spec (kd_open_ks_hds h) _ N4) as [M1 M2].
  split; cbn; try done.
  - assert (Hin : dev ∈ g_open_devices g) by (apply N3; by eexists).
    rewrite <-erase_first_NoDup by done. rewrite N1. clear -Hin.
    induction (g_open_devices g) as [|y l IH]; cbn; [by apply elem_of_nil in Hin|].
    destruct (y =? dev) eqn:E; cbn; [lia|]. apply elem_of_cons in Hin as [->|Hin]; [lia|].
    specialize (IH Hin). destruct l; [by apply elem_of_nil in Hin|]. cbn [length] in *. lia.
  - by apply NoDup_filter.
  - intros x. rewrite elem_list_remove, N3, lookup_delete_is_Some. intuition congruence.
  - intros x. rewrite M2, N5, delete_all_spec. destruct (decide _); split; try tauto. by intros [].
  - intros ks hk. rewrite delete_all_spec. destruct (decide _) as [|Hn]; [done|]. intros Hk.
    destruct (N6 ks hk Hk) as (dh & Hdh & Hin). exists dh. rewrite lookup_delete_ne; [done|].
    intros ->. rewrite Hd in Hdh. by injection Hdh as ->.
  - intros x dh ks. rewrite lookup_delete_Some. intros [Hne Hx] Hin.
    destruct (N7 x dh ks Hx Hin) as (hk & Hk & E). exists hk. rewrite delete_all_spec.
    destruct (decide _) as [Hin'|]; [|done]. destruct (N7 dev h ks Hd Hin') as (hk' & Hk' & E').
    congruence.
Qed.
End invariant.

#[export] Existing Instance same_handles_equiv.
#[export] Existing Instance env_ok_proper.

(** Follow a call to its returns: the guards do not touch the environment, the
    driver calls change the driver object only. *)
Ltac stable_step :=
  lazymatch goal with
  | |- stable _ (Ret _) => cbn; first [assumption | reflexivity]
  | |- stable _ Undef => exact I
  | |- stable _ (on_driver _ _ _) => apply stable_on_driver
  | |- stable _ (_check_key_space_handle _ _ ≫= _) => apply stable_guard; intros
  | |- stable _ (_key_space_name_opened _ _ _ ≫= _) => apply stable_guard; intros
  | |- stable _ (list_names_loop _ _ _ _ _ _ ≫= _) => apply stable_guard; intros [[??]?]
  | |- stable _ (with_key_space _ _ _) => unfold with_key_space
  | |- stable _ (_ ≫= _) => apply stable_bind; [|intros [??] ? ?]
  | |- stable _ (match ?x with _ => _ end) => destruct x
  end.
Ltac stable_call := repeat stable_step.

Section steps.
Context {D : Type} `{!KvsDriver D}.
Implicit Types (g : env D).
Variable junk : Z -> list byte.
Variable destroy : D -> dev_outcome unit.

Lemma stable_device_call {A} dev out (f : Z -> env D -> dev_outcome (kvs_result * option A * env D)) g :
  (forall dev', stable g (f dev' g)) -> stable g (device_call dev out f g).
Proof. intros. unfold device_call. stable_call. auto. Qed.

Lemma stable_capacity dev out g : stable g (kvs_get_device_capacity dev out g).
Proof. apply stable_device_call. intros. stable_call. Qed.
Lemma stable_utilization dev out g : stable g (kvs_get_device_utilization dev out g).
Proof. apply stable_device_call. intros. stable_call. Qed.
Lemma stable_info dev out g : stable g (kvs_get_device_info dev out g).
Proof. apply stable_device_call. intros. stable_call. Qed.
Lemma stable_create dev name size ordering g :
  stable g (kvs_create_key_space junk dev name size ordering g).
Proof. unfold kvs_create_key_space. stable_call. Qed.
Lemma stable_delete_ks dev name g : stable g (kvs_delete_key_space junk dev name g).
Proof. unfold kvs_delete_key_space. stable_call. Qed.
Lemma stable_list dev i n names cnt g : stable g (kvs_list_key_spaces junk dev i n names cnt g).
Proof. unfold kvs_list_key_spaces. stable_call. Qed.
Lemma stable_ks_info ks out g : stable g (kvs_get_key_space_info junk ks out g).
Proof. unfold kvs_get_key_space_info. stable_call. Qed.
Lemma stable_store m ks key value opt g : stable g (kvs_store m ks key value opt g).
Proof. unfold kvs_store. stable_call. Qed.
Lemma stable_retrieve m ks key opt value g : stable g (kvs_retrieve m ks key opt value g).
Proof. unfold kvs_retrieve. stable_call. Qed.
Lemma stable_delete m ks key opt g : stable g (kvs_delete m ks key opt g).
Proof. unfold kvs_delete. stable_call. Qed.
Lemma stable_exist m ks keys el g : stable g (kvs_exist m ks keys el g).
Proof. unfold kvs_exist. stable_call. Qed.
Lemma stable_kvp_info ks key out g : stable g (kvs_get_kvp_info junk ks key out g).
Proof.
  unfold kvs_get_kvp_info. do 3 stable_step; try stable_call. apply stable_retrieve.
Qed.
Lemma stable_create_iterator ks op fltr hd g : stable g (kvs_create_iterator ks op fltr hd g).
Proof. unfold kvs_create_iterator. stable_call. Qed.
Lemma stable_delete_iterator ks hd g : stable g (kvs_delete_iterator ks hd g).
Proof. unfold kvs_delete_iterator. stable_call. Qed.
Lemma stable_iterate m ks hd il g : stable g (kvs_iterate m ks hd il g).
Proof. unfold kvs_iterate. stable_call. Qed.

(** ** Every call preserves the invariant *)

Definition keeps_ok {A} (m : dev_outcome (A * env D)) : Prop := post (fun x => env_ok x.2) m.

Lemma stable_ok {A} g (m : dev_outcome (A * env D)) : env_ok g -> stable g m -> keeps_ok m.
Proof. intros Hg. unfold stable, keeps_ok. destruct m; cbn; try done. by intros <-. Qed.

Lemma reset_ok b g :
  env_ok g -> env_ok (Env b (g_opened_device_num g) (g_open_devices g) (g_list_open_ks g) (g_devs g) (g_kss g)).
Proof. by intros []. Qed.

Lemma kvs_open_device_ok init URI out driver addr g :
  env_ok g -> g_devs g !! addr = None -> g_kss g !! addr = None ->
  keeps_ok (kvs_open_device init URI out driver addr g).
Proof.
  intros Hg Hd Hk. pose proof (reset_ok true g Hg) as Hg'. unfold kvs_open_device, keeps_ok.
  destruct (negb _); [done|]. destruct URI as [uri|]; [|done]. destruct (negb out); [done|].
  destruct (_ || _); [done|]. destruct (_device_path_opened _ _) as [[]| |]; cbn; try done.
  destruct driver as [[r d]| |]; cbn; try done. destruct (negb _); [done|]. cbn.
  by apply open_device_ok.
Qed.

Lemma exit_env_spec g :
  env_ok g -> g_opened_device_num g = 0 ->
  _kvs_exit_env g = Ret (Env false 0 (g_open_devices g) (g_list_open_ks g) (g_devs g) (g_kss g)).
Proof.
  intros Hg H0. pose proof (ok_num g Hg) as Hn. unfold _kvs_exit_env. rewrite H0 in *.
  by destruct (g_open_devices g).
Qed.

(** What closing a device comes to. *)
Lemma kvs_close_device_eq dev h g :
  env_ok g -> g_devs g !! dev = Some h -> destroy (kd_driver h) = Ret tt ->
  exists b, kvs_close_device destroy (Some dev) g = Ret (KVS_SUCCESS,
    Env b (g_opened_device_num g - 1) (list_remove dev (g_open_devices g))
      (foldl (fun l t => erase_first t l) (g_list_open_ks g) (kd_open_ks_hds h))
      (delete dev (g_devs g)) (foldl (fun m t => delete t m) (g_kss g) (kd_open_ks_hds h))) /\
    b = if g_opened_device_num g =? 1 then false else g_initialized g.
Proof.
  intros Hg Hd Hdes. eexists. split; [|done]. unfold kvs_close_device, _device_opened.
  rewrite bool_decide_true by (apply ok_mem_devices; [done|by eexists]). cbn [negb].
  rewrite Hd, Hdes. cbn [mbind dev_outcome_bind].
  pose proof (close_device_ok (g_initialized g) dev h g Hg Hd) as Hok.
  destruct (g_opened_device_num g - 1 =? 0) eqn:E.
  - apply Z.eqb_eq in E. rewrite (exit_env_spec _ Hok E). cbn.
    replace (g_opened_device_num g =? 1) with true by lia. by rewrite E.
  - by replace (g_opened_device_num g =? 1) with false by lia.
Qed.

Lemma kvs_close_device_ok dev g : env_ok g -> keeps_ok (kvs_close_device destroy dev g).
Proof.
  intros Hg. destruct dev as [dev|]; [|done].
  destruct (g_devs g !! dev) as [h|] eqn:Hd.
  - destruct (destroy (kd_driver h)) as [[]| |] eqn:Hdes.
    + destruct (kvs_close_device_eq dev h g Hg Hd Hdes) as (b & -> & _). cbn. by apply close_device_ok.
    + unfold kvs_close_device. destruct (negb _); [done|]. by rewrite Hd, Hdes.
    + unfold kvs_close_device. destruct (negb _); [done|]. by rewrite Hd, Hdes.
  - unfold kvs_close_device. destruct (negb _); [done|]. by rewrite Hd.
Qed.

(** The step of a proof that follows a driver call. *)
Lemma keeps_bind {A B} g dev (f : D -> dev_outcome (A * D)) (k : A * env D -> dev_outcome (B * env D)) :
  (forall a g', same_handles g g' -> keeps_ok (k (a, g'))) -> keeps_ok (on_driver dev f g ≫= k).
Proof.
  intros Hk. apply (post_bind _ _ _ _ (stable_on_driver dev f g)). intros [a g'] H. by apply Hk.
Qed.

Lemma kvs_open_key_space_ok dev name out addr g :
  env_ok g -> g_kss g !! addr = None -> keeps_ok (kvs_open_key_space junk dev name out addr g).
Proof.
  intros Hg Hk. unfold kvs_open_key_space. destruct dev as [dev|]; [|done]. destruct name as [name|]; [|done].
  destruct (negb out); [done|]. destruct (bool_decide _); [done|]. destruct (_ || _); [done|].
  destruct (negb (_device_opened dev g)) eqn:Hdev; [done|].
  destruct (_key_space_name_opened dev name g) as [[]| |]; cbn; try done.
  apply keeps_bind. intros [r e] g1 H1. destruct (negb (kvs_is_success _)); [by apply (same_handles_ok g)|].
  destruct (e =? 0); [by apply (same_handles_ok g)|].
  apply keeps_bind. intros [r' id] g2 H2. rewrite H2 in H1.
  destruct (negb (kvs_is_success _)); [by apply (same_handles_ok g)|].
  apply negb_false_iff, bool_decide_eq_true in Hdev.
  apply open_ks_ok; [by rewrite <-H1| |by destruct H1 as (_ & _ & _ & <- & _)].
  apply ok_mem_devices; [by rewrite <-H1|]. by destruct H1 as (_ & <- & _).
Qed.

Lemma kvs_close_key_space_ok ks g : env_ok g -> keeps_ok (kvs_close_key_space junk ks g).
Proof.
  intros Hg. unfold kvs_close_key_space. destruct (_check_key_space_handle ks g); cbn; try done.
  destruct (negb (kvs_is_success _)); [done|]. unfold with_key_space. destruct ks as [ks|]; cbn; [|done].
  destruct (g_kss g !! ks) as [h|] eqn:Hk; [|done]. cbn.
  apply keeps_bind. intros r g1 H1. destruct (negb (kvs_is_success _)); [by apply (same_handles_ok g)|].
  apply close_ks_ok; [by rewrite <-H1|]. by destruct H1 as (_ & _ & _ & <- & _).
Qed.

Lemma post_after {A} (m : dev_outcome (A * env D)) g' : keeps_ok m -> env_after m = Ret g' -> env_ok g'.
Proof. destruct m as [[a g]| |]; cbn; [|done|done]. by intros ? [= <-]. Qed.

#[local] Hint Resolve stable_capacity stable_utilization stable_info stable_create stable_delete_ks
  stable_list stable_ks_info stable_store stable_retrieve stable_delete stable_exist stable_kvp_info
  stable_create_iterator stable_delete_iterator stable_iterate : kv.

Lemma api_step_ok c g g' : env_ok g -> addr_fresh c g -> api_step junk destroy c g = Ret g' -> env_ok g'.
Proof.
  intros Hg Ha. destruct c; cbn [api_step]; apply post_after;
    try (apply (stable_ok g); auto with kv; fail).
  - destruct (Ha addr eq_refl). by apply kvs_open_device_ok.
  - by apply kvs_close_device_ok.
  - destruct (Ha addr eq_refl). by apply kvs_open_key_space_ok.
  - by apply kvs_close_key_space_ok.
Qed.

Lemma reachable_ok g : reachable junk destroy g -> env_ok g.
Proof. induction 1; [apply env_ok_init|eauto using api_step_ok]. Qed.

(** ** What the invariant gives *)

Lemma check_spec ks_hd g :
  env_ok g ->
  _check_key_space_handle ks_hd g = Ret
    match ks_hd with
    | None => KVS_ERR_PARAM_INVALID
    | Some ks => if bool_decide (is_Some (g_kss g !! ks)) then KVS_SUCCESS else KVS_ERR_KS_NOT_OPEN
    end.
Proof.
  intros Hg. destruct ks_hd as [ks|]; [|done]. unfold _check_key_space_handle, _key_space_opened.
  rewrite (bool_decide_ext _ _ (ok_mem_ks g Hg ks)). case_bool_decide as Hk; [|done]. cbn [negb].
  destruct Hk as [h Hk]. rewrite Hk. destruct (ok_owner g Hg ks h Hk) as (dh & Hdh & _). rewrite Hdh.
  unfold _device_opened. rewrite bool_decide_true; [done|]. apply (ok_mem_devices g Hg). by eexists.
Qed.

Lemma key_space_name_in_defined name l g :
  (forall ks, ks ∈ l -> is_Some (g_kss g !! ks)) -> exists b, key_space_name_in name l g = Ret b.
Proof.
  induction l as [|t l IH]; cbn; intros H; [by eexists|].
  destruct (H t) as [h ->]; [by left|]. case_bool_decide; [by eexists|].
  apply IH. intros ks Hks. apply H. by right.
Qed.

Lemma device_path_in_defined path l g :
  (forall dev, dev ∈ l -> is_Some (g_devs g !! dev)) -> exists b, device_path_in path l g = Ret b.
Proof.
  induction l as [|t l IH]; cbn; intros H; [by eexists|].
  destruct (H t) as [h ->]; [by left|]. case_bool_decide; [by eexists|].
  apply IH. intros dev Hdev. apply H. by right.
Qed.

(** C13.  In every state a process can reach through the API, the guards of the
    calls are exact: a key space handle passes the check if and only if it is
    a live handle, and the guards never follow a freed pointer.  Closing a
    device whose driver can be closed always returns, in particular when it is
    the last one, and every key space handle of that device is refused
    afterwards. *)
Theorem api_handles g :
  reachable junk destroy g ->
  (forall ks_hd, _check_key_space_handle ks_hd g = Ret
     match ks_hd with
     | None => KVS_ERR_PARAM_INVALID
     | Some ks => if bool_decide (is_Some (g_kss g !! ks)) then KVS_SUCCESS else KVS_ERR_KS_NOT_OPEN
     end) /\
  (forall dev name, _device_opened dev g = true -> exists b, _key_space_name_opened dev name g = Ret b) /\
  (forall path, exists b, _device_path_opened path g = Ret b) /\
  (forall dev h, g_devs g !! dev = Some h -> destroy (kd_driver h) = Ret tt ->
     exists g', kvs_close_device destroy (Some dev) g = Ret (KVS_SUCCESS, g') /\
       _device_opened dev g' = false /\
       forall ks hk, g_kss g !! ks = Some hk -> kh_dev hk = dev ->
         _check_key_space_handle (Some ks) g' = Ret KVS_ERR_KS_NOT_OPEN).
Proof.
  intros Hr. apply reachable_ok in Hr as Hg. split; [intros; by apply check_spec|]. split; [|split].
  - unfold _device_opened, _key_space_name_opened. intros dev name Hd.
    apply bool_decide_eq_true, (ok_mem_devices g Hg) in Hd as [h Hd]. rewrite Hd.
    apply key_space_name_in_defined. intros ks Hks.
    destruct (ok_owned g Hg dev h ks Hd Hks) as (hk & ? & _). by exists hk.
  - intros path. apply device_path_in_defined. intros dev. apply (ok_mem_devices g Hg).
  - intros dev h Hd Hdes. destruct (kvs_close_device_eq dev h g Hg Hd Hdes) as (b & E & _).
    eexists. split; [exact E|]. split.
    + apply bool_decide_eq_false. cbn. rewrite elem_list_remove. tauto.
    + intros ks hk Hk <-. rewrite check_spec by (by apply close_device_ok). cbn [g_kss].
      rewrite delete_all_spec. destruct (ok_owner g Hg ks hk Hk) as (dh & Hdh & Hin).
      assert (dh = h) as -> by congruence. by rewrite decide_True.
Qed.
End steps.

(** The destructor of the emulator's driver. *)
Definition emul_destroy (ke : KvEmulator (list_buffer io_cmd)) : dev_outcome unit :=
  _ ← emul_driver_close ke; Ret tt.

Lemma api_handles_witness :
  exists g : env (KvEmulator (list_buffer io_cmd)),
    g_open_devices g = [100] /\ _check_key_space_handle (Some 104) g = Ret KVS_ERR_KS_NOT_OPEN.
Proof.
  destruct demo_driver as [ke _].
  set (open := CallOpenDevice KVS_SUCCESS (Some (lit "/dev/kvemul"%string)) true (Ret (KVS_SUCCESS, ke)) 100).
  set (h := KvsDeviceHandle ke (lit "/dev/kvemul"%string) []).
  set (g := Env true 1 [100] [] {[100 := h]} ∅).
  exists g. split; [reflexivity|].
  destruct (api_handles (fun n => replicate (Z.to_nat n) Byte.x00) emul_destroy g) as [H _].
  - apply (reach_step _ _ open g_env_init g); [apply reach_init| |reflexivity].
    intros a [= <-]. split; reflexivity.
  - apply H.
Defined.
