(* ===== verification/FrontendSpec.v ===== *)
(** * What the API promises

    The calls on an open key space against a specification with one finite map,
    and the life of a key space from its creation to its deletion.  Everything
    is proved from the laws of the driver interface, so it holds for every
    driver that satisfies them; the emulator's driver is one. *)

From Stdlib Require Import Strings.String.
From stdpp Require Import base numbers list gmap.
From S2P Require Import Prelude.
From S2P Require Import AdiTypes.
From S2P Require Import EmulInv.
From S2P Require Import EmulSpec.
From S2P Require Import IoCmd.
From S2P Require Import Queue.
From S2P Require Import Config.
From S2P Require Import Device.
From S2P Require Import KvsTypes.
From S2P Require Import KvsDriver.
From S2P Require Import EmulDriver.
From S2P Require Import EmulDriverLaws.
From S2P Require Import KeySpace.
From S2P Require Import KeySpaceSpec.
From S2P Require Import Frontend.
From S2P Require Import FrontendInv.

(** ** Operations on an open key space *)

Inductive kv_op :=
| KStore (key : option kvs_key) (value : option kvs_value) (st_type : option Z)
| KRetrieve (key : option kvs_key) (value : option kvs_value)
| KDelete (key : option kvs_key) (delete_error : option bool)
| KExist (key : kvs_key) (b : byte).

Inductive kv_answer :=
| AResult (r : kvs_result)
| AValue (r : kvs_result) (value : option kvs_value)
| AExist (r : kvs_result) (b : byte).

(** What the callers must provide: buffers with the bytes they announce, fields
    in their width, one of the store types every driver has, and for a read a
    structure that the driver takes. *)
Definition buffers_ok (key : option kvs_key) (value : option kvs_value) : Prop :=
  match key with
  | Some k => forall l, k_key k = Some l -> k_length k <= Z.of_nat (length l)
  | None => True
  end /\
  match value with
  | Some v => (forall l, v_value v = Some l -> v_length v <= Z.of_nat (length l)) /\
              0 <= v_offset v < 2 ^ 32
  | None => True
  end.
Definition kv_op_ok (read_ok : kvs_value -> Prop) (o : kv_op) : Prop :=
  match o with
  | KStore key value st =>
      buffers_ok key value /\ (st = None \/ st = Some KVS_STORE_POST \/ st = Some KVS_STORE_NOOVERWRITE)
  | KRetrieve key value => buffers_ok key value /\ forall v, value = Some v -> read_ok v
  | KDelete key _ => buffers_ok key None
  | KExist key _ => buffers_ok (Some key) None
  end.

(** ** The specification *)

(** The requests that are refused, and with which code: keys have 4 to 255 bytes and
    values at most two megabytes, at offsets that are multiples of 512, and
    there is memory behind what has a length. *)
Definition refusal (k : kvs_key) (value : option kvs_value) : option kvs_result :=
  if bool_decide (~ (4 <= k_length k <= 255)) then Some KVS_ERR_KEY_LENGTH_INVALID
  else if bool_decide (k_key k = None) then Some KVS_ERR_PARAM_INVALID
  else
    v ← value;
    if bool_decide (~ (0 <= v_length v <= 2097152)) then Some KVS_ERR_VALUE_LENGTH_INVALID
    else if bool_decide (v_offset v mod 512 <> 0) then Some KVS_ERR_VALUE_OFFSET_MISALIGNED
    else if bool_decide (v_value v = None /\ v_length v <> 0) then Some KVS_ERR_PARAM_INVALID
    else None.

(** [f] is what a request does that is not refused. *)
Definition checked {A} (fail : kvs_result -> A) (key : option kvs_key) (value : option kvs_value)
    (f : kvs_key -> A) : A :=
  match key with
  | None => fail KVS_ERR_PARAM_INVALID
  | Some k => match refusal k value with Some r => fail r | None => f k end
  end.

Definition map_op (unread : kvs_value -> kvs_value) (o : kv_op) (m : bytes_map) : kv_answer * bytes_map :=
  match o with
  | KStore key value st =>
      let fail r := (AResult r, m) in
      match value, st with
      | Some v, Some st =>
          checked fail key value (fun k =>
            let '(r, m') := map_store st (key_bytes k) (value_bytes v) m in (AResult r, m'))
      | _, _ => fail KVS_ERR_PARAM_INVALID
      end
  | KRetrieve key value =>
      let fail r := (AValue r value, m) in
      match value with
      | Some v =>
          checked fail key value (fun k =>
            if v_length v mod KVS_VALUE_LENGTH_ALIGNMENT_UNIT =? 0
            then let '(r, v') := map_retrieve unread (key_bytes k) v m in (AValue r (Some v'), m)
            else fail KVS_ERR_PARAM_INVALID)
      | None => fail KVS_ERR_PARAM_INVALID
      end
  | KDelete key err =>
      let fail r := (AResult r, m) in
      match err with
      | Some err =>
          checked fail key None (fun k =>
            let '(r, m') := map_delete err (key_bytes k) m in (AResult r, m'))
      | None => fail KVS_ERR_PARAM_INVALID
      end
  | KExist key b =>
      checked (fun r => (AExist r b, m)) (Some key) None (fun k =>
        (AExist KVS_SUCCESS (if bool_decide (is_Some (m !! key_bytes k)) then Byte.x01 else Byte.x00), m))
  end.

Fixpoint map_run (unread : kvs_value -> kvs_value) (os : list kv_op) (m : bytes_map)
    : list kv_answer * bytes_map :=
  match os with
  | [] => ([], m)
  | o :: os' => let '(a, m) := map_op unread o m in let '(l, m) := map_run unread os' m in (a :: l, m)
  end.

(** ** The calls *)

(** The byte of the result buffer. *)
Definition exist_byte (b : byte) (el : option kvs_exist_list) : byte :=
  match el with Some (KvsExistList _ _ (Some (b' :: _))) => b' | _ => b end.

Section session.
Context {D : Type} `{!KvsDriver D}.
Implicit Types (g : env D) (d : D).

Definition api_op (ks : Z) (o : kv_op) g : dev_outcome (kv_answer * env D) :=
  match o with
  | KStore key value st => '(r, g) ← kvs_store Sync (Some ks) key value st g; Ret (AResult r, g)
  | KRetrieve key value =>
      '(r, v, g) ← kvs_retrieve Sync (Some ks) key (Some false) value g; Ret (AValue r v, g)
  | KDelete key err => '(r, g) ← kvs_delete Sync (Some ks) key err g; Ret (AResult r, g)
  | KExist key b =>
      '(r, el, g) ← kvs_exist Sync (Some ks) (Some [key]) (Some (KvsExistList 0 1 (Some [b]))) g;
      Ret (AExist r (exist_byte b el), g)
  end.

Fixpoint api_run (ks : Z) (os : list kv_op) g : dev_outcome (list kv_answer * env D) :=
  match os with
  | [] => Ret ([], g)
  | o :: os' => '(a, g) ← api_op ks o g; '(l, g) ← api_run ks os' g; Ret (a :: l, g)
  end.

(** ** Valid requests *)

Lemma kvs_is_success_true r : kvs_is_success r = true <-> r = KVS_SUCCESS.
Proof. by destruct r. Qed.

Lemma land_unit x n : 0 <= n -> Z.land x (2 ^ n - 1) = x mod 2 ^ n.
Proof. intros. rewrite <-Z.land_ones by done. by rewrite Z.ones_equiv, Z.sub_1_r. Qed.

(** The checks of the code refuse exactly these requests, with these codes. *)
Lemma validate_refusal k value : validate_request (Some k) value = default KVS_SUCCESS (refusal k value).
Proof.
  unfold validate_request, validate_kv_pair_, refusal.
  assert (Hr : forall x a b, (x <? a) || (b <? x) = bool_decide (~ (a <= x <= b))).
  { intros x a b. destruct (Z.ltb_spec x a), (Z.ltb_spec b x); cbn; symmetry;
      [apply bool_decide_eq_true_2; lia..|apply bool_decide_eq_false_2; lia]. }
  change KVS_MAX_VALUE_LENGTH with 2097152. rewrite Hr. destruct (bool_decide (~ (4 <= k_length k <= 255))); [done|].
  destruct (k_key k) as [kb|]; [|done]. rewrite (bool_decide_eq_false_2 (Some kb = None)) by done.
  destruct value as [v|]; [|done]. cbn [mbind option_bind]. rewrite Hr.
  change (kvs_is_success KVS_SUCCESS) with true. cbn [negb].
  destruct (bool_decide (~ (0 <= v_length v <= 2097152))) eqn:El; [done|]. apply bool_decide_eq_false in El.
  change (KVS_ALIGNMENT_UNIT - 1) with (2 ^ 9 - 1). rewrite land_unit by lia. change (2 ^ 9) with 512.
  destruct (Z.eqb_spec (v_offset v mod 512) 0) as [E|E]; [rewrite bool_decide_eq_false_2 by lia|by rewrite bool_decide_eq_true_2 by done].
  destruct (v_value v) as [vb|]; [by rewrite bool_decide_eq_false_2 by (by intros [? _])|].
  destruct (Z.ltb_spec 0 (v_length v)).
  - by rewrite bool_decide_eq_true_2 by (split; [done|lia]).
  - rewrite bool_decide_eq_false_2 by (intros [_ ?]; lia). done.
Qed.

Lemma refusal_fails k value r : refusal k value = Some r -> r <> KVS_SUCCESS.
Proof.
  unfold refusal. intros E. destruct value as [v|]; cbn in E; repeat case_match; by simplify_eq.
Qed.

Lemma checked_valid {A} (fail : kvs_result -> A) k value f :
  checked fail (Some k) value f =
  if kvs_is_success (validate_request (Some k) value) then f k else fail (validate_request (Some k) value).
Proof.
  unfold checked. rewrite validate_refusal. destruct (refusal k value) as [r|] eqn:E; [|done]. cbn.
  destruct (kvs_is_success r) eqn:Er; [|done]. apply kvs_is_success_true in Er. by destruct (refusal_fails _ _ _ E).
Qed.

Lemma validated_key k value :
  validate_request (Some k) value = KVS_SUCCESS -> buffers_ok (Some k) None -> drv_key_ok k.
Proof.
  unfold validate_request, validate_kv_pair_, drv_key_ok, key_ok.
  intros Hv [Hb _]. destruct (_ || _) eqn:E; [done|]. destruct (k_key k) as [l|]; [|done].
  specialize (Hb l eq_refl). split; [exists l; split; [done|lia]|lia].
Qed.

Lemma validated_value k v :
  validate_request (Some k) (Some v) = KVS_SUCCESS -> buffers_ok None (Some v) -> drv_value_ok v.
Proof.
  unfold validate_request, validate_kv_pair_, drv_value_ok, value_ok.
  intros Hv (_ & Hb & Ho).
  match type of Hv with (if negb (kvs_is_success ?r) then _ else _) = _ => destruct r; try discriminate Hv end.
  change (kvs_is_success KVS_SUCCESS) with true in Hv. cbn [negb] in Hv.
  destruct (_ || _) eqn:E; [done|].
  change (KVS_ALIGNMENT_UNIT - 1) with (2 ^ 9 - 1) in Hv. rewrite land_unit in Hv by lia.
  change (2 ^ 9) with KVS_ALIGNMENT_UNIT in Hv.
  destruct (v_offset v mod KVS_ALIGNMENT_UNIT =? 0) eqn:Em; [|done]. cbn [negb] in Hv.
  destruct (v_value v) as [l|]; cbn [default length].
  - specialize (Hb l eq_refl). cbn. lia.
  - destruct (0 <? v_length v) eqn:Ez; [done|]. cbn. lia.
Qed.
End session.

(** ** Refinement *)

Section refinement.
Context {D : Type} `{!KvsDriver D} `{!KvsDriverLaws D}.
Implicit Types (g : env D) (d : D).

(** The handle [ks], opened as [name], stands for the key space [id] of the
    device [dev]; the driver [d] of the device has no call outstanding, and [hds]
    are the handles open on it. *)
Definition in_service (ks id dev : Z) (name : list byte) (hds : list Z) g d : Prop :=
  env_ok g /\ drv_ok d /\ g_kss g !! ks = Some (KvsKeySpaceHandle id dev name) /\
  exists path, g_devs g !! dev = Some (KvsDeviceHandle d path hds).

Lemma on_driver_eq {A} dev dh f (a : A) d' g :
  g_devs g !! dev = Some dh -> f (kd_driver dh) = Ret (a, d') ->
  on_driver dev f g = Ret (a, set_driver dev d' g).
Proof. intros Hd Hf. unfold on_driver. by rewrite Hd, Hf. Qed.

Lemma set_driver_dev dev dh d' g :
  g_devs g !! dev = Some dh ->
  g_devs (set_driver dev d' g) !! dev = Some (KvsDeviceHandle d' (kd_dev_path dh) (kd_open_ks_hds dh)).
Proof. intros Hd. cbn. by rewrite lookup_alter_eq, Hd. Qed.

Lemma set_driver_ok dev d' g : env_ok g -> env_ok (set_driver dev d' g).
Proof. apply same_handles_ok, set_driver_same. Qed.

Lemma in_service_set ks id dev name hds g d d' :
  in_service ks id dev name hds g d -> drv_ok d' -> in_service ks id dev name hds (set_driver dev d' g) d'.
Proof.
  intros (Hg & Hd & Hk & path & Hdev) Hd'. split; [by apply set_driver_ok|].
  split; [done|]. split; [done|]. exists path. by rewrite (set_driver_dev _ _ _ _ Hdev).
Qed.

Lemma in_service_check ks id dev name hds g d :
  in_service ks id dev name hds g d -> _check_key_space_handle (Some ks) g = Ret KVS_SUCCESS.
Proof.
  intros (Hg & _ & Hk & _). rewrite check_spec by done.
  by rewrite bool_decide_true by (rewrite Hk; by eexists).
Qed.

(** A driver call on the key space of a handle. *)
Lemma in_service_call {A B} ks id dev name hds g d d' (f : Z -> D -> dev_outcome (A * D)) a
    (k : A * env D -> dev_outcome B) :
  in_service ks id dev name hds g d -> f id d = Ret (a, d') ->
  with_key_space (Some ks) (fun h => on_driver (kh_dev h) (f (kh_keyspace_id h)) g ≫= k) g =
  k (a, set_driver dev d' g).
Proof.
  intros (_ & _ & Hk & path & Hdev) Hf. unfold with_key_space. cbn. rewrite Hk. cbn.
  by rewrite (on_driver_eq _ _ _ _ _ _ Hdev Hf).
Qed.

Lemma in_service_tail {A} ks id dev name hds g d d' (f : Z -> D -> dev_outcome (A * D)) a :
  in_service ks id dev name hds g d -> f id d = Ret (a, d') ->
  with_key_space (Some ks) (fun h => on_driver (kh_dev h) (f (kh_keyspace_id h)) g) g =
  Ret (a, set_driver dev d' g).
Proof.
  intros (_ & _ & Hk & path & Hdev) Hf. unfold with_key_space. cbn. rewrite Hk. cbn.
  by rewrite (on_driver_eq _ _ _ _ _ _ Hdev Hf).
Qed.

(** The call answers [a], and the key space now holds [m]. *)
Definition answers_with (ks id dev : Z) (name : list byte) (hds : list Z) (call : env D -> dev_outcome (kv_answer * env D))
    (am : kv_answer * bytes_map) g d : Prop :=
  exists g' d', call g = Ret (am.1, g') /\ in_service ks id dev name hds g' d' /\
    drv_abs d' = as_update id (fun _ => am.2) (drv_abs d).

Lemma answers_refused ks id dev name hds call a g d :
  in_service ks id dev name hds g d -> ks_ok id -> call g = Ret (a, g) ->
  answers_with ks id dev name hds call (a, as_ks id (drv_abs d)) g d.
Proof.
  intros Hs Hk Hc. exists g, d. split; [done|]. split; [done|].
  cbn [fst snd]. rewrite as_update_id; [done|done|]. apply law_drv_spaces. by destruct Hs as (_ & ? & _).
Qed.

Lemma answers_store ks id dev name hds key value st g d :
  in_service ks id dev name hds g d -> ks_ok id -> kv_op_ok drv_read_ok (KStore key value st) ->
  answers_with ks id dev name hds (api_op ks (KStore key value st))
    (map_op drv_unread (KStore key value st) (as_ks id (drv_abs d))) g d.
Proof.
  intros Hs Hk [[Hbk Hbv] Hst]. pose proof (in_service_check _ _ _ _ _ _ _ Hs) as Hc. cbn [map_op].
  destruct key as [k|], value as [v|], st as [st|]; rewrite ?checked_valid; cbn [checked];
    try (by apply answers_refused; [..|unfold api_op, kvs_store; rewrite Hc]).
  destruct (kvs_is_success _) eqn:Hr.
  2: { apply answers_refused; [done|done|]. unfold api_op, kvs_store. rewrite Hc. cbn. by rewrite Hr. }
  pose proof (proj1 (kvs_is_success_true _) Hr) as Hv.
  pose proof (law_store_tuple d id k v st (proj1 (proj2 Hs)) Hk (validated_key _ _ Hv (conj Hbk I))
    (validated_value _ _ Hv (conj I Hbv))) as Hlaw.
  destruct (map_store _ _ _ _) as [r m]. destruct Hlaw as (d' & E & Hok & Habs).
  { destruct Hst as [?|[[= ->]|[= ->]]]; [done|by left|by right]. }
  exists (set_driver dev d' g), d'. split; [|split; [by eapply in_service_set|done]].
  unfold api_op, kvs_store. rewrite Hc. cbn [mbind dev_outcome_bind mode_ok negb]. rewrite Hr. cbn [negb].
  change (kvs_is_success KVS_SUCCESS) with true. cbn [negb].
  by rewrite (in_service_tail ks id dev name hds g d d' (fun id => store_tuple id k v st Sync) r Hs E).
Qed.

Lemma answers_retrieve ks id dev name hds key value g d :
  in_service ks id dev name hds g d -> ks_ok id -> kv_op_ok drv_read_ok (KRetrieve key value) ->
  answers_with ks id dev name hds (api_op ks (KRetrieve key value))
    (map_op drv_unread (KRetrieve key value) (as_ks id (drv_abs d))) g d.
Proof.
  intros Hs Hk [[Hbk Hbv] Hread]. pose proof (in_service_check _ _ _ _ _ _ _ Hs) as Hc. cbn [map_op].
  assert (Halign : forall v, Z.land (v_length v) (KVS_VALUE_LENGTH_ALIGNMENT_UNIT - 1) =
    v_length v mod KVS_VALUE_LENGTH_ALIGNMENT_UNIT).
  { intros v. change (KVS_VALUE_LENGTH_ALIGNMENT_UNIT - 1) with (2 ^ 2 - 1). by rewrite land_unit. }
  destruct key as [k|], value as [v|]; rewrite ?checked_valid; cbn [checked];
    try (by apply answers_refused; [..|unfold api_op, kvs_retrieve; rewrite Hc]).
  destruct (kvs_is_success _) eqn:Hr.
  2: { apply answers_refused; [done|done|]. unfold api_op, kvs_retrieve. rewrite Hc. cbn. by rewrite Hr. }
  destruct (_ =? 0) eqn:Hal.
  2: { apply answers_refused; [done|done|]. unfold api_op, kvs_retrieve. rewrite Hc, Halign, Hal. cbn. by rewrite Hr. }
  pose proof (proj1 (kvs_is_success_true _) Hr) as Hv.
  pose proof (law_retrieve_tuple d id k v (proj1 (proj2 Hs)) Hk (validated_key _ _ Hv (conj Hbk I))
    (validated_value _ _ Hv (conj I Hbv)) (Hread v eq_refl) (proj1 (Z.eqb_eq _ _) Hal)) as Hlaw.
  destruct (map_retrieve _ _ _ _) as [r v']. destruct Hlaw as (d' & E & Hok & Habs).
  exists (set_driver dev d' g), d'. split; [|split; [by eapply in_service_set|]].
  - unfold api_op, kvs_retrieve. rewrite Hc, Halign, Hal. cbn [mbind dev_outcome_bind mode_ok negb].
    rewrite Hr. cbn [negb]. change (kvs_is_success KVS_SUCCESS) with true. cbn [negb].
    by rewrite (in_service_call ks id dev name hds g d d' (fun id => retrieve_tuple id k v false Sync) (r, v') _ Hs E).
  - cbn [snd]. rewrite as_update_id; [done|done|]. apply law_drv_spaces. apply Hs.
Qed.

Lemma answers_delete ks id dev name hds key err g d :
  in_service ks id dev name hds g d -> ks_ok id -> kv_op_ok drv_read_ok (KDelete key err) ->
  answers_with ks id dev name hds (api_op ks (KDelete key err))
    (map_op drv_unread (KDelete key err) (as_ks id (drv_abs d))) g d.
Proof.
  intros Hs Hk Hb. pose proof (in_service_check _ _ _ _ _ _ _ Hs) as Hc. cbn [map_op].
  destruct key as [k|], err as [err|]; rewrite ?checked_valid; cbn [checked];
    try (by apply answers_refused; [..|unfold api_op, kvs_delete; rewrite Hc]).
  destruct (kvs_is_success _) eqn:Hr.
  2: { apply answers_refused; [done|done|]. unfold api_op, kvs_delete. rewrite Hc. cbn. by rewrite Hr. }
  pose proof (proj1 (kvs_is_success_true _) Hr) as Hv.
  pose proof (law_delete_tuple d id k err (proj1 (proj2 Hs)) Hk (validated_key _ _ Hv Hb)) as Hlaw.
  destruct (map_delete _ _ _) as [r m]. destruct Hlaw as (d' & E & Hok & Habs).
  exists (set_driver dev d' g), d'. split; [|split; [by eapply in_service_set|done]].
  unfold api_op, kvs_delete. rewrite Hc. cbn [mbind dev_outcome_bind mode_ok negb]. rewrite Hr. cbn [negb].
  change (kvs_is_success KVS_SUCCESS) with true. cbn [negb].
  by rewrite (in_service_tail ks id dev name hds g d d' (fun id => delete_tuple id k err Sync) r Hs E).
Qed.

Lemma answers_exist ks id dev name hds key b g d :
  in_service ks id dev name hds g d -> ks_ok id -> kv_op_ok drv_read_ok (KExist key b) ->
  answers_with ks id dev name hds (api_op ks (KExist key b)) (map_op drv_unread (KExist key b) (as_ks id (drv_abs d))) g d.
Proof.
  intros Hs Hk Hb. pose proof (in_service_check _ _ _ _ _ _ _ Hs) as Hc. cbn [map_op]. rewrite checked_valid.
  assert (Hval : validate_exist_keys [key] = validate_request (Some key) None).
  { cbn [validate_exist_keys]. change (validate_kv_pair_ (Some key) None 0) with (validate_request (Some key) None).
    by destruct (validate_request _ _). }
  destruct (kvs_is_success _) eqn:Hr.
  2: { apply answers_refused; [done|done|]. unfold api_op, kvs_exist. rewrite Hval.
       cbn [mode_ok negb orb length]. change (Z.of_nat 1 =? 0) with false. cbn [negb]. by rewrite Hr. }
  pose proof (proj1 (kvs_is_success_true _) Hr) as Hv.
  destruct (law_exist_tuple d id key 1 b (proj1 (proj2 Hs)) Hk (validated_key _ _ Hv Hb))
    as (d' & E & Hok & Habs).
  exists (set_driver dev d' g), d'. split; [|split; [by eapply in_service_set|]].
  - unfold api_op, kvs_exist. rewrite Hval, Hc. cbn [mode_ok negb orb length].
    change (Z.of_nat 1) with 1. change (1 =? 0) with false. rewrite Hr. cbn [negb mbind dev_outcome_bind].
    change (kvs_is_success KVS_SUCCESS) with true. change (1 <=? 0) with false. cbn [negb].
    by rewrite (in_service_call ks id dev name hds g d d' (fun id => exist_tuple id [key] _ Sync) _ _ Hs E).
  - cbn [snd]. rewrite as_update_id; [done|done|]. apply law_drv_spaces. apply Hs.
Qed.

Lemma answers_op ks id dev name hds o g d :
  in_service ks id dev name hds g d -> ks_ok id -> kv_op_ok drv_read_ok o ->
  answers_with ks id dev name hds (api_op ks o) (map_op drv_unread o (as_ks id (drv_abs d))) g d.
Proof.
  destruct o; eauto using answers_store, answers_retrieve, answers_delete, answers_exist.
Qed.

Lemma run_refines ks id dev name hds os g d :
  in_service ks id dev name hds g d -> ks_ok id -> Forall (kv_op_ok drv_read_ok) os ->
  let '(l, m) := map_run drv_unread os (as_ks id (drv_abs d)) in
  exists g' d', api_run ks os g = Ret (l, g') /\ in_service ks id dev name hds g' d' /\
    drv_abs d' = as_update id (fun _ => m) (drv_abs d).
Proof.
  intros Hs Hk Hos. revert g d Hs. induction Hos as [|o os Ho _ IH]; intros g d Hs; cbn [map_run api_run].
  - exists g, d. split; [done|]. split; [done|]. symmetry. apply as_update_id; [done|].
    apply law_drv_spaces, Hs.
  - destruct (answers_op _ _ _ _ _ o g d Hs Hk Ho) as (g1 & d1 & E1 & Hs1 & A1).
    destruct (map_op _ o _) as [a m1]. cbn [fst snd] in *.
    assert (Hlen : length (drv_abs d) = 2%nat) by apply law_drv_spaces, Hs.
    specialize (IH g1 d1 Hs1). rewrite A1 in IH. rewrite as_ks_update in IH by done.
    destruct (map_run _ os m1) as [l m2]. destruct IH as (g2 & d2 & E2 & Hs2 & A2).
    exists g2, d2. rewrite E1. cbn. rewrite E2. split; [done|]. split; [done|].
    rewrite A2. by rewrite as_update_compose.
Qed.

End refinement.

(** ** The life of a key space *)

Section life.
Context {D : Type} `{!KvsDriver D} `{!KvsDriverLaws D}.
Variable junk : Z -> list byte.
Hypothesis junk_length : forall n, 0 <= n -> length (junk n) = Z.to_nat n.
Implicit Types (g : env D) (d : D) (name : list byte).

(** The device [dev] is open, none of its key spaces is, and its driver [d] has no
    call outstanding. *)
Definition device_ready (dev : Z) g d : Prop :=
  env_ok g /\ drv_ok d /\ exists path, g_devs g !! dev = Some (KvsDeviceHandle d path []).

Lemma ready_opened dev g d : device_ready dev g d -> _device_opened dev g = true.
Proof.
  intros (Hg & _ & path & Hd). apply bool_decide_eq_true, (ok_mem_devices g Hg). by eexists.
Qed.

Lemma ready_name dev name g d : device_ready dev g d -> _key_space_name_opened dev name g = Ret false.
Proof. intros (_ & _ & path & Hd). unfold _key_space_name_opened. by rewrite Hd. Qed.

Lemma ready_call {A} dev (f : D -> dev_outcome (A * D)) a d' g d :
  device_ready dev g d -> f d = Ret (a, d') -> drv_ok d' ->
  on_driver dev f g = Ret (a, set_driver dev d' g) /\ device_ready dev (set_driver dev d' g) d'.
Proof.
  intros (Hg & _ & path & Hd) Hf Hok. split; [by apply (on_driver_eq _ _ _ _ _ _ Hd)|].
  split; [by apply set_driver_ok|]. split; [done|]. exists path. by rewrite (set_driver_dev _ _ _ _ Hd).
Qed.

(** Nothing of the key space [name] is on the device, and no other key space. *)
Definition unused name d : Prop :=
  list_repr (meta d) None /\ meta d !! meta_bytes name = None.

Definition api_name name : option kvs_key_space_name := Some (KvsKeySpaceName (strlen name) (Some name)).

Lemma create_ready dev name size g d :
  device_ready dev g d -> unused name d -> name_ok name -> meta_bytes name <> list_bytes ->
  0 <= size < 2 ^ 64 ->
  exists d', kvs_create_key_space junk (Some dev) (api_name name) size KVS_KEY_ORDER_NONE g =
      Ret (KVS_SUCCESS, set_driver dev d' g) /\
    device_ready dev (set_driver dev d' g) d' /\ recorded name (new_metadata name size) (meta d') /\
    user d' = user d.
Proof.
  intros Hr [Hl Hm] Hn Hne Hsz.
  destruct (create_new junk junk_length name size d (proj1 (proj2 Hr)) Hl Hn Hsz Hne Hm)
    as (d' & E & [Hok Hu] & Hrec).
  destruct (ready_call dev _ _ d' g d Hr E Hok) as [E' Hr'].
  exists d'. split; [|done]. unfold kvs_create_key_space, api_name. rewrite (ready_opened _ _ _ Hr).
  destruct Hn as [Hlen _]. unfold u32. rewrite Z.mod_small by lia. rewrite Z.eqb_refl.
  replace (strlen name =? 0) with false by lia.
  replace (MAX_KEYSPACE_NAME_LEN <? strlen name) with false by lia.
  done.
Qed.

(** Opening, under any name with the same metadata key. *)
Lemma open_ready dev name name' md ks g d :
  device_ready dev g d -> recorded name md (meta d) -> name_ok name' ->
  meta_bytes name' = meta_bytes name -> g_kss g !! ks = None ->
  exists g' d', kvs_open_key_space junk (Some dev) (Some name') true ks g = Ret (KVS_SUCCESS, Some ks, g') /\
    in_service ks (md_keyspace_id md) dev name' [ks] g' d' /\
    recorded name (set_opened 1 md) (meta d') /\ user d' = user d.
Proof.
  intros Hr Hrec Hn' Heq Hks. assert (Hd : drv_ok d) by apply Hr.
  destruct (exist_entry junk junk_length name' d Hd Hn') as (d1 & E1 & Hs1).
  rewrite bool_decide_true in E1 by (rewrite Heq; destruct Hrec as (_ & _ & _ & _ & ->); by eexists).
  destruct (ready_call dev _ _ d1 g d Hr E1 (proj1 Hs1)) as [E1' Hr1].
  rewrite <-(meta_same_meta _ _ Hs1) in Hrec.
  destruct (open_recorded junk junk_length name name' md (le_int (junk 1)) d1 (proj1 Hs1) Hrec Hn' Heq)
    as (d2 & E2 & [Hok2 Hu2] & Hrec2).
  destruct (ready_call dev _ _ d2 _ d1 Hr1 E2 Hok2) as [E2' Hr2].
  pose proof (ready_opened _ _ _ Hr) as Hop.
  assert (Htake : take (Z.to_nat MAX_CONT_PATH_LEN) name' = name').
  { apply take_ge. destruct Hn' as [? _]. unfold strlen in *. lia. }
  eexists _, d2. split; [|split; [|split; [done|by rewrite Hu2; apply served_same]]].
  - unfold kvs_open_key_space. rewrite Hop, (ready_name _ name' _ _ Hr), Htake.
    destruct Hn' as [Hlen _]. unfold u16. rewrite Z.mod_small by lia.
    rewrite bool_decide_false by (intros E0; rewrite E0 in Hlen; change (strlen []) with 0 in Hlen; lia).
    replace (strlen name' <? KVS_MIN_KEY_LENGTH) with false by lia.
    replace (KVS_MAX_KEY_LENGTH <? strlen name') with false by lia.
    cbn [negb orb mbind dev_outcome_bind]. rewrite E1'. cbn [mbind dev_outcome_bind].
    change (kvs_is_success KVS_SUCCESS) with true. change (1 =? 0) with false. cbn [negb].
    rewrite E2'. cbn [mbind dev_outcome_bind]. reflexivity.
  - destruct Hr2 as (Hg2 & _ & path & Hdev2). split; [|split; [done|split]].
    + apply (open_ks_ok ks _ dev name'); [done|by eexists|done].
    + cbn. by rewrite lookup_insert_eq.
    + exists path. cbn [g_devs]. by rewrite lookup_alter_eq, Hdev2.
Qed.

Lemma list_remove_single ks : list_remove ks [ks] = [].
Proof. unfold list_remove. rewrite filter_cons_False; [done|tauto]. Qed.

Lemma close_ready dev name name' md ks g d :
  in_service ks (md_keyspace_id md) dev name' [ks] g d -> recorded name md (meta d) ->
  name_ok name' -> meta_bytes name' = meta_bytes name ->
  exists g' d', kvs_close_key_space junk (Some ks) g = Ret (KVS_SUCCESS, g') /\
    device_ready dev g' d' /\ recorded name (set_opened 0 md) (meta d') /\ user d' = user d /\
    g_kss g' !! ks = None.
Proof.
  intros Hs Hrec Hn' Heq. pose proof (in_service_check _ _ _ _ _ _ _ Hs) as Hc.
  pose proof Hs as (Hg & Hd & Hks & path & Hdev).
  destruct (close_recorded junk junk_length name name' md d Hd Hrec Hn' Heq) as (d' & E & [Hok Hu] & Hrec').
  eexists _, d'. split; [|split; [|split; [done|split; [done|]]]].
  - unfold kvs_close_key_space. rewrite Hc. cbn [mbind dev_outcome_bind].
    change (kvs_is_success KVS_SUCCESS) with true. cbn [negb].
    unfold with_key_space. cbn [mbind option_bind]. rewrite Hks. cbn [kh_dev kh_name].
    rewrite (on_driver_eq _ _ _ _ _ _ Hdev E). cbn [mbind dev_outcome_bind].
    change (kvs_is_success KVS_SUCCESS) with true. cbn [negb]. reflexivity.
  - split; [|split; [done|]].
    + apply (close_ks_ok ks (KvsKeySpaceHandle (md_keyspace_id md) dev name')); [by apply set_driver_ok|done].
    + exists path. cbn [g_devs default]. rewrite lookup_alter_eq, (set_driver_dev _ _ _ _ Hdev).
      change (Some (KvsDeviceHandle d' path (list_remove ks [ks])) = Some (KvsDeviceHandle d' path [])).
      by rewrite list_remove_single.
  - cbn [g_kss default]. apply lookup_delete_eq.
Qed.

Lemma delete_ready dev name md g d :
  device_ready dev g d -> recorded name md (meta d) ->
  exists d', kvs_delete_key_space junk (Some dev) (api_name name) g = Ret (KVS_SUCCESS, set_driver dev d' g) /\
    device_ready dev (set_driver dev d' g) d' /\ unused name d' /\ user d' = user d.
Proof.
  intros Hr Hrec.
  destruct (delete_recorded junk junk_length name md d (proj1 (proj2 Hr)) Hrec) as (d' & E & [Hok Hu] & Hun).
  destruct (ready_call dev _ _ d' g d Hr E Hok) as [E' Hr'].
  exists d'. split; [|done]. unfold kvs_delete_key_space, api_name.
  by rewrite (ready_opened _ _ _ Hr), (ready_name _ name _ _ Hr).
Qed.

(** Calls on the user's key space leave the records alone. *)
Lemma user_update_meta m d d' :
  drv_ok d -> drv_abs d' = as_update USER_DATA_KEYSPACE_START_ID (fun _ => m) (drv_abs d) ->
  meta d' = meta d /\ user d' = m.
Proof.
  intros Hd A. unfold meta, user. rewrite A. split.
  - unfold as_update, as_ks at 1. by rewrite list_lookup_insert_ne.
  - apply as_ks_update; [|by apply law_drv_spaces].
    unfold ks_ok. lia.
Qed.


(**  The name of a key space is not compared in full: when [base] followed by
    one character is recorded, opening [base] followed by any other character
    succeeds too, and the handle stands for the recorded key space. *)
Theorem open_other_last_character dev base c c' md ks g d :
  device_ready dev g d -> recorded (base ++ [c]) md (meta d) ->
  c' <> Byte.x00 -> g_kss g !! ks = None ->
  exists g' d', kvs_open_key_space junk (Some dev) (Some (base ++ [c'])) true ks g =
      Ret (KVS_SUCCESS, Some ks, g') /\
    in_service ks (md_keyspace_id md) dev (base ++ [c']) [ks] g' d'.
Proof.
  intros Hr Hrec Hc Hks. assert (Hn : name_ok (base ++ [c])) by apply Hrec.
  assert (Hn' : name_ok (base ++ [c'])).
  { destruct Hn as [Hlen Hz]. unfold name_ok, strlen in *. rewrite length_app in *. split; [done|].
    rewrite elem_of_app, list_elem_of_singleton in *. intros [?|?]; [tauto|congruence]. }
  assert (Heq : meta_bytes (base ++ [c']) = meta_bytes (base ++ [c])).
  { unfold meta_bytes. rewrite !length_app. cbn [length]. by rewrite !take_app_le by lia. }
  destruct (open_ready dev _ _ md ks g d Hr Hrec Hn' Heq Hks) as (g' & d' & E & Hs & _).
  by exists g', d'.
Qed.
End life.

(** ** A session

    The device is opened by a fresh process; its driver holds two empty maps. *)

Definition clear_memory (n : Z) : list byte := replicate (Z.to_nat n) Byte.x00.

Lemma clear_memory_length n : 0 <= n -> length (clear_memory n) = Z.to_nat n.
Proof. intros _. apply length_replicate. Qed.

Definition demo_name : list byte := lit "songs"%string.
Definition demo_ops : list kv_op :=
  [KStore (Some (mk_key (lit "title"%string))) (Some (mk_value (lit "blue"%string))) (Some KVS_STORE_POST);
   KStore (Some (mk_key (lit "key"%string))) (Some (mk_value [])) (Some KVS_STORE_POST);
   KExist (mk_key (lit "title"%string)) Byte.x00;
   KRetrieve (Some (mk_key (lit "title"%string))) (Some (KvValue (Some (clear_memory 8)) 8 0 0))].
Definition demo_answers : list kv_answer :=
  [AResult KVS_SUCCESS; AResult KVS_ERR_KEY_LENGTH_INVALID; AExist KVS_SUCCESS Byte.x01;
   AValue KVS_SUCCESS (Some (KvValue (Some (lit "blue"%string ++ clear_memory 4)) 4 4 0))].

Lemma demo_name_ok : name_ok demo_name.
Proof. split; [vm_compute; split; congruence|]. refine (bool_decide_unpack _ _). reflexivity. Qed.

Lemma demo_ops_ok (read_ok : kvs_value -> Prop) :
  read_ok (KvValue (Some (clear_memory 8)) 8 0 0) -> Forall (kv_op_ok read_ok) demo_ops.
Proof.
  intros H. unfold demo_ops.
  repeat (apply Forall_cons; split); [..|apply Forall_nil_2]; cbn [kv_op_ok]; unfold buffers_ok; repeat split;
    try (by right; left); try (intros l [= <-]); try done; vm_compute; congruence.
Qed.

Section demo.
Context {D : Type} `{!KvsDriver D} `{!KvsDriverLaws D}.
Implicit Types (g : env D) (d : D).

Definition demo_env d : env D :=
  Env true 1 [100] [] {[100 := KvsDeviceHandle d (lit "/dev/nvme0n1"%string) []]} ∅.

Lemma demo_ready d : drv_ok d -> device_ready 100 (demo_env d) d.
Proof.
  intros Hd. split; [|split; [done|]].
  - set (open := CallOpenDevice KVS_SUCCESS (Some (lit "/dev/nvme0n1"%string)) true (Ret (KVS_SUCCESS, d)) 100).
    apply (api_step_ok clear_memory (fun _ => Ret tt) open g_env_init); [apply env_ok_init| |reflexivity].
    intros a [= <-]. split; reflexivity.
  - exists (lit "/dev/nvme0n1"%string). apply lookup_insert_eq.
Qed.

Lemma demo_unused d : drv_abs d = [∅; ∅] -> unused demo_name d.
Proof.
  intros Habs. unfold unused, meta. rewrite Habs. split; [|reflexivity]. split; [done|]. by right.
Qed.

Lemma demo_recorded d :
  drv_ok d -> drv_abs d = [∅; ∅] ->
  exists g d', device_ready 100 g d' /\ recorded demo_name (new_metadata demo_name 4096) (meta d') /\
    user d' = ∅ /\ g_kss g = ∅.
Proof.
  intros Hd Habs. pose proof (demo_ready d Hd) as Hr.
  destruct (create_ready clear_memory clear_memory_length 100 demo_name 4096 _ d Hr (demo_unused d Habs)
    demo_name_ok) as (d' & _ & Hr' & Hrec & Hu); [vm_compute; congruence|lia|].
  eexists _, d'. split; [exact Hr'|]. split; [done|]. split; [|done]. rewrite Hu. unfold user. by rewrite Habs.
Qed.

Lemma demo_in_service d :
  drv_ok d -> drv_abs d = [∅; ∅] ->
  exists g d', in_service 104 1 100 demo_name [104] g d' /\ user d' = ∅.
Proof.
  intros Hd Habs. destruct (demo_recorded d Hd Habs) as (g & d' & Hr & Hrec & Hu & Hk).
  destruct (open_ready clear_memory clear_memory_length 100 demo_name demo_name _ 104 g d' Hr Hrec
    demo_name_ok eq_refl) as (g' & d2 & _ & Hs & _ & Hu'); [by rewrite Hk|].
  exists g', d2. split; [done|]. by rewrite Hu'.
Qed.
End demo.



Lemma open_other_last_character_witness :
  exists g g' : env (KvEmulator (list_buffer io_cmd)),
    kvs_open_key_space clear_memory (Some 100) (Some (lit "songz"%string)) true 104 g =
      Ret (KVS_SUCCESS, Some 104, g').
Proof.
  destruct demo_driver as (ke0 & Hok0 & Habs0).
  destruct (demo_recorded ke0 Hok0 Habs0) as (g & ke & Hr & Hrec & _ & Hk).
  destruct (open_other_last_character clear_memory clear_memory_length 100 (lit "song"%string) Byte.x73
    Byte.x7a _ 104 g ke Hr Hrec) as (g' & ke' & E & _); [congruence|by rewrite Hk|].
  by exists g, g'.
Defined.
