(* ===== verification/FrontendIter.v ===== *)
(** * Iterating over a key space through the API

    An iterator from its creation to its deletion, on a device behind the
    emulator driver: the calls of the front end ([Frontend]) reach the emulator
    through the driver, the queues and the namespace ([EmulDriverLaws]), and a
    client that asks for buffers until the end is set gets every key of the group
    once ([EmulIter]). *)

From Stdlib Require Import Strings.String.
From stdpp Require Import base numbers list gmap.
From S2P Require Import Prelude.
From S2P Require Import AdiTypes.
From S2P Require Import History.
From S2P Require Import OrdMap.
From S2P Require Import DeviceApi.
From S2P Require Import Emulator.
From S2P Require Import EmulInv.
From S2P Require Import EmulSpec.
From S2P Require Import EmulIter.
From S2P Require Import Namespace.
From S2P Require Import IoCmd.
From S2P Require Import Queue.
From S2P Require Import Config.
From S2P Require Import Device.
From S2P Require Import Adi.
From S2P Require Import KvsTypes.
From S2P Require Import KvsDriver.
From S2P Require Import EmulDriver.
From S2P Require Import EmulDriverLaws.
From S2P Require Import Frontend.
From S2P Require Import FrontendInv.
From S2P Require Import FrontendSpec.

(** The loop of [perform_iterator] of the sample code: it asks for buffers of
    [iter_buff] bytes until the end is set, or a call fails.  The two fields the
    call fills in are given as 0; the result has, per call, the entry count and the
    bytes of the buffer. *)
Fixpoint api_iterate {D : Type} `{!KvsDriver D} (fuel : nat) (ks hd : Z) (buf : list byte) (g : env D)
    : dev_outcome (kvs_result * list (Z * list byte) * env D) :=
  match fuel with
  | O => Blocked
  | S f =>
      '(r, il, g) ← kvs_iterate_next (Some ks) hd (Some (KvIteratorList 0 false KVS_ITERATOR_BUFFER_SIZE buf)) g;
      match il with
      | Some il =>
          if negb (kvs_is_success r) then Ret (r, [], g)
          else
            let piece := (il_num_entries il, take (Z.to_nat (il_size il)) (il_it_list il)) in
            if il_end il then Ret (r, [piece], g)
            else '(r, ps, g) ← api_iterate f ks hd buf g; Ret (r, piece :: ps, g)
      | None => Ret (r, [], g)
      end
  end.

Section iteration.
Context {B : Type} `{!CircularBuffer B io_cmd} `{!CircularBufferLaws B io_cmd}.
Implicit Types (ke : KvEmulator B) (ns : kv_namespace_internal kvstore) (g : env (KvEmulator B)).

(** ** The commands of the iterator calls *)

#[local] Arguments kv_open_iterator : simpl never.
#[local] Arguments kv_iterator_next_set : simpl never.
#[local] Arguments kv_close_iterator : simpl never.

(** The namespace that holds the emulator [e]. *)
Definition ns_holds (e : kv_emulator) ns : Prop := use_dummy (m_kvstore ns) = false /\ ns_emul ns = e.

Lemma execute_open fixed raw sq h ks op c post ns :
  ks_ok ks -> use_dummy (m_kvstore ns) = false ->
  let cmd := new_cmd raw sq None None h ks (iterator_open_info op c) post in
  let '(r, ih, e') := kv_open_iterator ks op (Some c) fixed (Some h) (ns_emul ns) in
  exists ns', execute_cmd fixed cmd ns = (set_retcode r (set_hiter (default 0 ih) cmd), ns') /\ ns_holds e' ns'.
Proof.
  intros [Hu Hi]%u8_ks Hd. unfold execute_cmd, cmd_ks_id, ns_kv_open_iterator, ns_emul. simpl. rewrite Hu, Hi.
  unfold on_kvstore. rewrite Hd. simpl. destruct (kv_open_iterator _ _ _ _ _ _) as [[r ih] e'].
  eexists. split; [reflexivity|]. by split.
Qed.

Lemma execute_next fixed raw sq h ks hd il post ns :
  hd <> 0 -> use_dummy (m_kvstore ns) = false ->
  let cmd := new_cmd raw sq None None h ks (iterator_next_info hd (Some il)) post in
  let '(r, il', e') := kv_iterator_next_set hd (Some il) (ns_emul ns) in
  exists ns', execute_cmd fixed cmd ns =
      (set_retcode r (set_command (iterator_next_info hd il') cmd), ns') /\ ns_holds e' ns'.
Proof.
  intros Hh Hd. unfold execute_cmd, ns_kv_iterator_next_set, ns_emul. simpl.
  rewrite (proj2 (Z.eqb_neq hd 0) Hh). unfold on_kvstore. rewrite Hd. simpl.
  destruct (kv_iterator_next_set _ _ _) as [[r il'] e']. eexists. split; [reflexivity|]. by split.
Qed.

Lemma execute_close fixed raw sq h ks hd post ns :
  use_dummy (m_kvstore ns) = false ->
  let cmd := new_cmd raw sq None None h ks (iterator_close_info hd) post in
  let '(r, e') := kv_close_iterator hd (ns_emul ns) in
  exists ns', execute_cmd fixed cmd ns = (set_hiter 0 (set_retcode r cmd), ns') /\ ns_holds e' ns'.
Proof.
  intros Hd. unfold execute_cmd, ns_kv_close_iterator, ns_emul. simpl. unfold on_kvstore. rewrite Hd. simpl.
  destruct (kv_close_iterator _ _) as [r e']. eexists. split; [reflexivity|]. by split.
Qed.

(** ** The calls of the driver *)

(** A driver in service over the emulator [e]. *)
Definition ke_holds (e : kv_emulator) ke : Prop :=
  exists sq cq ns, ke_at sq cq ns ke /\ ns_ready ns /\ ns_emul ns = e.

Lemma ke_holds_ok e ke : ke_holds e ke -> ke_ok ke /\ ke_abs ke = abs e /\ emul_wf e.
Proof.
  intros (sq & cq & ns & Hat & Hr & <-). split; [by exists sq, cq, ns|]. split; [by eapply ke_at_abs|apply Hr].
Qed.

Lemma ke_ok_holds ke : ke_ok ke -> exists e, ke_holds e ke.
Proof. intros (sq & cq & ns & Hat & Hr). by exists (ns_emul ns), sq, cq, ns. Qed.

Lemma ke_at_handles sq cq ns ke : ke_at sq cq ns ke -> handles sq ke.
Proof. by intros (_ & ? & _ & ? & _). Qed.

(** With an interrupt handler the iterator calls wait like the others. *)
Lemma create_as_tuple ks t m p hd ke :
  ke_int_handler ke = true ->
  emul_create_iterator ks t m p hd ke =
    ('(id, ke1) ← prep_io_context KVS_CMD_ITER_CREATE Sync ke;
     '(r, c, ke') ← run_tuple id Sync (adi_open_iterator (ke_raw ke1) (ke_sqH ke1) (ke_nsH ke1) ks
         (if t =? KVS_ITERATOR_KEY then KV_ITERATOR_OPT_KEY else KV_ITERATOR_OPT_KV)
         (Some (KvGroupCondition m p)) (driver_post_fn id)) ke1;
     Ret (r, match c with Some c => u8 (c_result_hiter c) | None => hd end, ke')).
Proof.
  intros Hint. unfold emul_create_iterator, prep_io_context. destruct (ke_pool ke) as [|id pool]; [done|].
  cbn [mbind dev_outcome_bind]. unfold run_tuple, wait_iterator. cbn [ke_dev ke_set_contexts].
  destruct (adi_open_iterator _ _ _ _ _ _ _ _) as [[r d']| |]; [|done..]. cbn [mbind dev_outcome_bind].
  destruct (is_success r); [|done]. cbn [negb is_sync ke_int_handler ke_set_dev ke_set_contexts].
  rewrite Hint. cbn [negb]. destruct (wait_sync _ _ _) as [ke2| |]; [|done..]. cbn [mbind dev_outcome_bind].
  by destruct (ke_ctx ke2 !! id).
Qed.

Lemma delete_as_tuple hd ke id ke1 c r ke' :
  ke_int_handler ke = true -> prep_io_context KVS_CMD_ITER_DELETE Sync ke = Ret (id, ke1) ->
  run_tuple id Sync (adi_close_iterator (ke_raw ke1) (ke_sqH ke1) (ke_nsH ke1) hd (driver_post_fn id)) ke1 =
    Ret (r, Some c, ke') ->
  emul_delete_iterator hd ke = Ret (KVS_SUCCESS, ke').
Proof.
  intros Hint Hprep Hrun. unfold emul_delete_iterator. rewrite Hprep. cbn [mbind dev_outcome_bind].
  assert (Hint1 : ke_int_handler ke1 = true).
  { unfold prep_io_context in Hprep. destruct (ke_pool ke); [done|]. by injection Hprep as <- <-. }
  unfold run_tuple in Hrun. destruct (adi_close_iterator _ _ _ _ _ _) as [[r0 d']| |]; [|done..].
  cbn [mbind dev_outcome_bind] in *. destruct (is_success r0); [|done].
  cbn [negb is_sync] in *. unfold wait_iterator. cbn [ke_int_handler ke_set_dev]. rewrite Hint1. cbn [negb].
  destruct (wait_sync _ _ _) as [ke2| |]; [|done..]. cbn [mbind dev_outcome_bind] in *.
  destruct (ke_ctx ke2 !! id); [|done]. by injection Hrun as _ _ <-.
Qed.

(** A synchronous call that submits one command. *)
Lemma holds_call e op submit mkc ke :
  ke_holds e ke ->
  (forall sq id d, handles sq ke -> submit id d = submit_io sq (mkc sq id) d) ->
  (forall sq id, c_private_data (mkc sq id) = id) ->
  exists sq id ke1 ns, prep_io_context op Sync ke = Ret (id, ke1) /\ use_dummy (m_kvstore ns) = false /\ ns_emul ns = e /\
    ke_sqH ke1 = ke_sqH ke /\ ke_nsH ke1 = ke_nsH ke /\ ke_raw ke1 = ke_raw ke /\
    forall c' ns' e', execute_cmd (m_has_fixed_keylen (ke_dev ke)) (mkc sq id) ns = (c', ns') ->
      ns_holds e' ns' -> emul_wf e' -> m_capacity e' = m_capacity e ->
      exists ke', ke_holds e' ke' /\
        run_tuple id Sync (submit id) ke1 = Ret (code_map (c_retcode c'), Some (completed_cmd c'), ke').
Proof.
  intros (sq & cq & ns & Hat & (Hd & Hwf & Hcap) & <-) Hsub Hpd.
  destruct (sync_call sq cq ns op ke submit (mkc sq) Hat) as (id & ke1 & Hprep & H1 & H2 & H3 & Hrun).
  { intros. by apply Hsub, (ke_at_handles _ cq ns). }
  { intros. apply Hpd. }
  exists sq, id, ke1, ns. do 6 (split; [done|]). intros c' ns' e' E (Hd' & He') Hwf' Hcap'. rewrite E in Hrun.
  destruct Hrun as (ke' & Hat' & Hrun). exists ke'. split; [|exact Hrun].
  exists sq, cq, ns'. split; [done|]. split; [|done]. split; [done|]. rewrite He', Hcap'. done.
Qed.

Lemma open_submits ke sq raw ks op c post d :
  handles sq ke -> ks_ok ks -> op = KV_ITERATOR_OPT_KEY \/ op = KV_ITERATOR_OPT_KV ->
  adi_open_iterator raw (ke_sqH ke) (ke_nsH ke) ks op (Some c) post d =
  submit_io sq (new_cmd raw sq None None 0 ks (iterator_open_info op (cond_htobe c)) post) d.
Proof.
  intros ((qh & dev & -> & Hqd & Hqq) & (nh & nsid & -> & Hnn)) [_ Hks]%u8_ks Hop.
  unfold adi_open_iterator, dev_kv_open_iterator. rewrite Hks, Hqd, Hqq, Hnn. by destruct Hop as [-> | ->].
Qed.

Lemma next_submits ke sq raw hd il post d :
  handles sq ke -> hd <> 0 ->
  adi_iterator_next raw (ke_sqH ke) (ke_nsH ke) hd (Some il) post d =
  submit_io sq (new_cmd raw sq None None hd (c_ks_id raw) (iterator_next_info hd (Some il)) post) d.
Proof.
  intros ((qh & dev & -> & Hqd & Hqq) & (nh & nsid & -> & Hnn)) Hh%Z.eqb_neq.
  unfold adi_iterator_next, dev_kv_iterator_next_set, dev_iterate. by rewrite Hh, Hqd, Hqq, Hnn.
Qed.

Lemma close_submits ke sq raw hd post d :
  handles sq ke -> hd <> 0 ->
  adi_close_iterator raw (ke_sqH ke) (ke_nsH ke) hd post d =
  submit_io sq (new_cmd raw sq None None hd (c_ks_id raw) (iterator_close_info hd) post) d.
Proof.
  intros ((qh & dev & -> & Hqd & Hqq) & (nh & nsid & -> & Hnn)) Hh%Z.eqb_neq.
  unfold adi_close_iterator, dev_kv_close_iterator. by rewrite Hh, Hqd, Hqq, Hnn.
Qed.

Lemma next_set_loop_keeps h bs it out cnt m :
  delete_value h = false -> (next_set_loop h bs it out cnt m).2 = m.
Proof.
  intros Hd. revert out cnt. induction it as [|p it IH]; intros out cnt; simpl; [done|].
  destruct (_ && _); [done|]. destruct (_ <? _); [done|]. rewrite Hd. apply IH.
Qed.

(** What the calls leave alone. *)
Lemma open_keeps ks op c fixed ih e :
  let e' := (kv_open_iterator ks op c fixed ih e).2 in m_capacity e' = m_capacity e /\ m_map e' = m_map e.
Proof.
  unfold kv_open_iterator. destruct c, ih; try done. destruct (_ <=? _); [done|]. by destruct (find_open _ _).
Qed.

Lemma close_keeps hd e :
  let e' := (kv_close_iterator hd e).2 in m_capacity e' = m_capacity e /\ m_map e' = m_map e.
Proof. unfold kv_close_iterator. by destruct (_ <=? _). Qed.

Lemma next_set_capacity hd il e : m_capacity (kv_iterator_next_set hd il e).2 = m_capacity e.
Proof.
  unfold kv_iterator_next_set. destruct il as [il|]; [|done]. destruct (hd =? 0); [done|].
  destruct (m_it_map e !! hd) as [h|]; [|done]. destruct (next_set_loop _ _ _ _ _ _) as [[[out cnt] full] m'].
  by destruct full.
Qed.

(** A key iterator deletes nothing, and stays one. *)
Lemma next_set_keeps hd il e h :
  m_it_map e !! hd = Some h -> delete_value h = false ->
  let e' := (kv_iterator_next_set hd il e).2 in
  m_map e' = m_map e /\ exists h', m_it_map e' !! hd = Some h' /\ delete_value h' = false.
Proof.
  intros Hh Hd. unfold kv_iterator_next_set. destruct il as [il|]; [|eauto]. destruct (hd =? 0); [eauto|].
  rewrite Hh. set (m := ks_map _ e). pose proof (next_set_loop_keeps h (il_size il)
    (om_lower_bound CmpEmulPrefix (start_key h) m) [] 0 m Hd) as E.
  destruct (next_set_loop _ _ _ _ _ _) as [[[out cnt] full] m']. simpl in E. subst m'.
  assert (Hm : <[Z.to_nat (ih_ksid h) := m]> (m_map e) = m_map e).
  { unfold m, ks_map. destruct (m_map e !! Z.to_nat (ih_ksid h)) eqn:E; [by apply list_insert_id|].
    apply list_insert_ge, lookup_ge_None_1, E. }
  destruct full; simpl; (split; [exact Hm|]); [rewrite lookup_insert_eq|]; eauto.
Qed.

Lemma cond_htobe_ok c : cond_ok (cond_htobe c).
Proof. split; apply htobe32_range. Qed.

(** The iterator calls of the driver are those of the emulator. *)
Lemma emul_create_iterator_call e ks m p hd ke :
  ke_holds e ke -> ks_ok ks ->
  let '(r, ih, e') := kv_open_iterator ks KV_ITERATOR_OPT_KEY (Some (cond_htobe (KvGroupCondition m p)))
                        (m_has_fixed_keylen (ke_dev ke)) (Some 0) e in
  exists ke', emul_create_iterator ks KVS_ITERATOR_KEY m p hd ke = Ret (code_map r, u8 (default 0 ih), ke') /\
    ke_holds e' ke'.
Proof.
  intros Hk Hks. set (c := cond_htobe _).
  assert (Hint : ke_int_handler ke = true) by (destruct Hk as (? & ? & ? & (_ & _ & _ & _ & ? & _) & _); done).
  destruct (ke_holds_ok e ke Hk) as (_ & _ & Hwf).
  destruct (holds_call e KVS_CMD_ITER_CREATE
    (fun id => adi_open_iterator (ke_raw ke) (ke_sqH ke) (ke_nsH ke) ks KV_ITERATOR_OPT_KEY
                 (Some (KvGroupCondition m p)) (driver_post_fn id))
    (fun sq id => new_cmd (ke_raw ke) sq None None 0 ks (iterator_open_info KV_ITERATOR_OPT_KEY c) (driver_post_fn id)) ke Hk)
    as (sq & id & ke1 & ns & Hprep & Hd & He & H1 & H2 & H3 & Hrun).
  { intros. by apply open_submits; [..|left]. }
  { done. }
  pose proof (execute_open (m_has_fixed_keylen (ke_dev ke)) (ke_raw ke) sq 0 ks KV_ITERATOR_OPT_KEY c
    (driver_post_fn id) ns Hks Hd) as Hex. cbv zeta in Hex. rewrite He in Hex.
  pose proof (open_keeps ks KV_ITERATOR_OPT_KEY (Some c) (m_has_fixed_keylen (ke_dev ke)) (Some 0) e) as [Hcap _].
  pose proof (kv_open_iterator_wf ks KV_ITERATOR_OPT_KEY (Some c) (m_has_fixed_keylen (ke_dev ke)) (Some 0) e Hks
    ltac:(intros ? [= <-]; apply cond_htobe_ok) Hwf) as Hwf'.
  destruct (kv_open_iterator _ _ _ _ _ _) as [[r ih] e']. destruct Hex as (ns' & Hex & Hns').
  destruct (Hrun _ _ e' Hex Hns' Hwf' Hcap) as (ke' & Hk' & Hrt). exists ke'. split; [|done].
  rewrite create_as_tuple, Hprep by done. cbn [mbind dev_outcome_bind]. rewrite H1, H2, H3.
  change (KVS_ITERATOR_KEY =? KVS_ITERATOR_KEY) with true. cbv iota. rewrite Hrt. reflexivity.
Qed.

Lemma emul_iterator_next_call e hd il ke :
  ke_holds e ke -> hd <> 0 ->
  let '(r, il', e') := kv_iterator_next_set hd (Some il) e in
  exists ke', emul_iterator_next hd il Sync ke = Ret (code_map r, default il il', ke') /\ ke_holds e' ke'.
Proof.
  intros Hk Hhd. destruct (ke_holds_ok e ke Hk) as (_ & _ & Hwf).
  destruct (holds_call e KVS_CMD_ITER_NEXT
    (fun id => adi_iterator_next (ke_raw ke) (ke_sqH ke) (ke_nsH ke) hd (Some il) (driver_post_fn id))
    (fun sq id => new_cmd (ke_raw ke) sq None None hd (c_ks_id (ke_raw ke)) (iterator_next_info hd (Some il))
       (driver_post_fn id)) ke Hk)
    as (sq & id & ke1 & ns & Hprep & Hd & He & H1 & H2 & H3 & Hrun).
  { intros. by apply next_submits. }
  { done. }
  pose proof (execute_next (m_has_fixed_keylen (ke_dev ke)) (ke_raw ke) sq hd (c_ks_id (ke_raw ke)) hd il
    (driver_post_fn id) ns Hhd Hd) as Hex. cbv zeta in Hex. rewrite He in Hex.
  pose proof (next_set_capacity hd (Some il) e) as Hcap.
  pose proof (kv_iterator_next_set_wf hd (Some il) e Hwf) as Hwf'.
  destruct (kv_iterator_next_set _ _ _) as [[r il'] e']. destruct Hex as (ns' & Hex & Hns').
  destruct (Hrun _ _ e' Hex Hns' Hwf' Hcap) as (ke' & Hk' & Hrt). exists ke'. split; [|done].
  unfold emul_iterator_next. rewrite Hprep. cbn [mbind dev_outcome_bind]. rewrite H1, H2, H3, Hrt. reflexivity.
Qed.

Lemma emul_delete_iterator_call e hd ke :
  ke_holds e ke -> hd <> 0 ->
  exists ke', emul_delete_iterator hd ke = Ret (KVS_SUCCESS, ke') /\ ke_holds (kv_close_iterator hd e).2 ke'.
Proof.
  intros Hk Hhd. destruct (ke_holds_ok e ke Hk) as (_ & _ & Hwf).
  assert (Hint : ke_int_handler ke = true) by (destruct Hk as (? & ? & ? & (_ & _ & _ & _ & ? & _) & _); done).
  destruct (holds_call e KVS_CMD_ITER_DELETE
    (fun id => adi_close_iterator (ke_raw ke) (ke_sqH ke) (ke_nsH ke) hd (driver_post_fn id))
    (fun sq id => new_cmd (ke_raw ke) sq None None hd (c_ks_id (ke_raw ke)) (iterator_close_info hd)
       (driver_post_fn id)) ke Hk)
    as (sq & id & ke1 & ns & Hprep & Hd & He & H1 & H2 & H3 & Hrun).
  { intros. by apply close_submits. }
  { done. }
  pose proof (execute_close (m_has_fixed_keylen (ke_dev ke)) (ke_raw ke) sq hd (c_ks_id (ke_raw ke)) hd
    (driver_post_fn id) ns Hd) as Hex. cbv zeta in Hex. rewrite He in Hex.
  pose proof (close_keeps hd e) as [Hcap _]. pose proof (kv_close_iterator_wf hd e Hwf) as Hwf'.
  destruct (kv_close_iterator _ _) as [r e']. destruct Hex as (ns' & Hex & Hns').
  destruct (Hrun _ _ e' Hex Hns' Hwf' Hcap) as (ke' & Hk' & Hrt). exists ke'. split; [|done].
  eapply delete_as_tuple; [done..|]. rewrite H1, H2, H3. exact Hrt.
Qed.

(** ** The calls of the API *)

(** The key space is in service, over the emulator [e]. *)
Definition api_holds ks id dev name hds (e : kv_emulator) g ke : Prop :=
  in_service ks id dev name hds g ke /\ ke_holds e ke.

Lemma api_holds_set ks id dev name hds e e' g ke ke' :
  api_holds ks id dev name hds e g ke -> ke_holds e' ke' ->
  api_holds ks id dev name hds e' (set_driver dev ke' g) ke'.
Proof. intros [Hs _] Hk. split; [|done]. eapply in_service_set; [done|]. apply (ke_holds_ok e' ke' Hk). Qed.

Lemma kvs_create_iterator_call ks id dev name hds e f hd g ke :
  api_holds ks id dev name hds e g ke -> ks_ok id ->
  let '(m, p) := filter2context f in
  _is_valid_bitmask m = true ->
  let '(r, ih, e') := kv_open_iterator id KV_ITERATOR_OPT_KEY (Some (cond_htobe (KvGroupCondition m p)))
                        (m_has_fixed_keylen (ke_dev ke)) (Some 0) e in
  exists g' ke', kvs_create_iterator (Some ks) (Some KVS_ITERATOR_KEY) (Some f) (Some hd) g =
      Ret (code_map r, Some (u8 (default 0 ih)), g') /\ api_holds ks id dev name hds e' g' ke'.
Proof.
  intros Ha Hks. destruct (filter2context f) as [m p] eqn:Ef. intros Hv.
  pose proof (emul_create_iterator_call e id m p hd ke (proj2 Ha) Hks) as Hc.
  destruct (kv_open_iterator _ _ _ _ _ _) as [[r ih] e']. destruct Hc as (ke' & Hc & Hk').
  exists (set_driver dev ke' g), ke'. split; [|by eapply api_holds_set].
  unfold kvs_create_iterator. rewrite (in_service_check _ _ _ _ _ _ _ (proj1 Ha)). cbn [mbind dev_outcome_bind].
  change (negb (kvs_is_success KVS_SUCCESS)) with false. rewrite Ef, Hv. cbn [negb].
  change (@emul_create_iterator B _) with (create_iterator (D := KvEmulator B)) in Hc.
  by rewrite (in_service_call ks id dev name hds g ke ke'
    (fun id => create_iterator id KVS_ITERATOR_KEY m p hd) (_, _) _ (proj1 Ha) Hc).
Qed.

Lemma kvs_iterate_next_call ks id dev name hds e hd il g ke :
  api_holds ks id dev name hds e g ke -> hd <> 0 -> il_size il = KVS_ITERATOR_BUFFER_SIZE ->
  let '(r, il', e') := kv_iterator_next_set hd (Some il) e in
  exists g' ke', kvs_iterate_next (Some ks) hd (Some il) g = Ret (code_map r, Some (default il il'), g') /\
    api_holds ks id dev name hds e' g' ke'.
Proof.
  intros Ha Hhd Hsz. pose proof (emul_iterator_next_call e hd il ke (proj2 Ha) Hhd) as Hc.
  destruct (kv_iterator_next_set _ _ _) as [[r il'] e']. destruct Hc as (ke' & Hc & Hk').
  exists (set_driver dev ke' g), ke'. split; [|by eapply api_holds_set].
  unfold kvs_iterate_next, kvs_iterate. rewrite (in_service_check _ _ _ _ _ _ _ (proj1 Ha)).
  cbn [mode_ok negb mbind dev_outcome_bind]. change (negb (kvs_is_success KVS_SUCCESS)) with false.
  rewrite Hsz. change (negb (KVS_ITERATOR_BUFFER_SIZE =? KVS_ITERATOR_BUFFER_SIZE)) with false. cbv iota.
  change (@emul_iterator_next B _) with (iterator_next (D := KvEmulator B)) in Hc.
  by rewrite (in_service_call ks id dev name hds g ke ke' (fun _ => iterator_next hd il Sync) (_, _) _ (proj1 Ha) Hc).
Qed.

Lemma kvs_delete_iterator_call ks id dev name hds e hd g ke :
  api_holds ks id dev name hds e g ke -> hd <> 0 ->
  exists g' ke', kvs_delete_iterator (Some ks) hd g = Ret (KVS_SUCCESS, g') /\
    api_holds ks id dev name hds (kv_close_iterator hd e).2 g' ke'.
Proof.
  intros Ha Hhd. destruct (emul_delete_iterator_call e hd ke (proj2 Ha) Hhd) as (ke' & Hc & Hk').
  exists (set_driver dev ke' g), ke'. split; [|by eapply api_holds_set].
  unfold kvs_delete_iterator. rewrite (in_service_check _ _ _ _ _ _ _ (proj1 Ha)). cbn [mbind dev_outcome_bind].
  change (negb (kvs_is_success KVS_SUCCESS)) with false. cbv iota.
  change (@emul_delete_iterator B _) with (delete_iterator (D := KvEmulator B)) in Hc.
  by rewrite (in_service_tail ks id dev name hds g ke ke' (fun _ => delete_iterator hd) _ (proj1 Ha) Hc).
Qed.

(** The loop over the API is the loop over the emulator. *)
Lemma api_iterate_refines fuel ks id dev name hds hd h buf :
  hd <> 0 -> lenZ buf = KVS_ITERATOR_BUFFER_SIZE ->
  forall e g ke ps e',
  api_holds ks id dev name hds e g ke -> m_it_map e !! hd = Some h -> delete_value h = false ->
  iterate fuel hd buf e = (ps, true, e') ->
  exists g' ke', api_iterate fuel ks hd buf g = Ret (KVS_SUCCESS, ps, g') /\
    api_holds ks id dev name hds e' g' ke' /\ m_map e' = m_map e.
Proof.
  intros Hhd Hbuf. revert h. induction fuel as [|fuel IH]; intros h e g ke ps e' Ha Hh Hdel; [done|].
  cbn [iterate api_iterate]. rewrite Hbuf. set (il := KvIteratorList 0 false KVS_ITERATOR_BUFFER_SIZE buf).
  pose proof (kvs_iterate_next_call ks id dev name hds e hd il g ke Ha Hhd eq_refl) as Hc.
  destruct (next_set_keeps hd (Some il) e h Hh Hdel) as (Hm & h1 & Hh1 & Hdel1).
  destruct (kv_iterator_next_set _ _ _) as [[r il'] e1]. destruct Hc as (g1 & ke1 & Hc & Ha1).
  destruct r; try discriminate. destruct il' as [il'|]; [|discriminate]. cbn [snd] in *. rewrite Hc. cbn [mbind dev_outcome_bind from_option Datatypes.id].
  change (negb (kvs_is_success (code_map KV_SUCCESS))) with false. cbv iota.
  destruct (il_end il').
  - intros [= <- <-]. exists g1, ke1. split; [reflexivity|]. by split.
  - destruct (iterate fuel hd buf e1) as [[ps1 fin] e2] eqn:E. intros [= <- -> <-].
    destruct (IH h1 e1 g1 ke1 ps1 e2 Ha1 Hh1 Hdel1 E) as (g' & ke' & Hi & Ha' & Hm').
    exists g', ke'. rewrite Hi. split; [reflexivity|]. split; [done|congruence].
Qed.

(** ** The keys of a group *)

(** The first four bytes of the key agree with the filter on its mask. *)
Definition filter_selects (f : kvs_key_group_filter) (k : list byte) : Prop :=
  zip_with band (take 4 k) (kf_bitmask f) = zip_with band (kf_bit_pattern f) (kf_bitmask f).

(** An entry of an iteration over keys. *)
Definition key_entry (fixed : bool) (k : list byte) : list byte :=
  (if fixed then [] else int_le 4 (Z.of_nat (length k))) ++ k.

(** The condition the emulator gets for a filter. *)
Definition filter_cond (f : kvs_key_group_filter) : kv_group_condition :=
  let '(m, p) := filter2context f in cond_htobe (KvGroupCondition m p).

(** The masks whose groups are intervals of the order of the keys on both sides
    of the byte swap: none of the four bytes, or all of them. *)
Definition whole_mask (f : kvs_key_group_filter) : Prop :=
  kf_bitmask f = replicate 4 Byte.x00 \/ kf_bitmask f = replicate 4 Byte.xff.

Lemma open_succeeds ks op c fixed e :
  emul_wf e -> Z.of_nat (size (m_it_map e)) < SAMSUNG_MAX_ITERATORS ->
  (forall i h, m_it_map e !! i = Some h -> ih_it_cond h <> c) ->
  exists hd e', kv_open_iterator ks op (Some c) fixed (Some 0) e = (KV_SUCCESS, Some hd, e') /\ 1 <= hd <= 16.
Proof.
  intros Hwf Hsz Hne. unfold kv_open_iterator. rewrite (proj2 (Z.leb_gt _ _) Hsz).
  assert (find_open c (m_iterator_list e) = None) as ->.
  { unfold find_open. rewrite fmap_None. apply list_find_None, Forall_forall. intros it [i Hi]%list_elem_of_lookup.
    pose proof (wf_table e Hwf i it Hi) as He. unfold entry_ok in He.
    destruct (m_it_map e !! _) as [h|] eqn:Hh; [|rewrite He; by rewrite andb_false_r].
    destruct He as (_ & _ & _ & _ & E1 & E2). intros [[H1%Z.eqb_eq H2%Z.eqb_eq]%andb_true_iff _]%andb_true_iff.
    apply (Hne _ h Hh). destruct (ih_it_cond h), c. simpl in *. congruence. }
  eexists _, _. split; [reflexivity|]. apply next_itid_free, Hsz.
Qed.

Lemma whole_mask_top f :
  whole_mask f -> length (kf_bit_pattern f) = 4%nat ->
  _is_valid_bitmask (filter2context f).1 = true /\
  exists j pat, (j = 32 \/ j = 0) /\ 0 <= pat < 2 ^ 32 /\ filter_cond f = KvGroupCondition (top_mask j) pat.
Proof.
  intros Hm Hp. unfold filter_cond, filter2context. cbn [fst].
  split; [by destruct Hm as [-> | ->]|]. eexists (if decide (kf_bitmask f = replicate 4 Byte.x00) then 32 else 0), _.
  split; [case_decide; auto|]. split; [apply htobe32_range|]. unfold cond_htobe. cbn [gc_bitmask gc_bit_pattern].
  f_equal. by destruct Hm as [-> | ->].
Qed.

Lemma in_group_filter f p :
  whole_mask f -> length (kf_bit_pattern f) = 4%nat -> (4 <= length p.1)%nat ->
  in_group (filter_cond f) p = true <-> filter_selects f p.1.
Proof.
  intros Hm Hp Hk. assert (Hl : length (kf_bitmask f) = 4%nat) by (by destruct Hm as [-> | ->]).
  pose proof (filter_group_eq f p.1 Hl Hp Hk) as E. unfold filter_cond, in_group, filter_selects.
  destruct (filter2context f) as [m pat]. rewrite E, orb_true_iff, bool_decide_eq_true, Z.eqb_eq.
  split; [intros [H0|]; [|done]|auto]. apply (proj1 (bool_decide_eq_true _)). rewrite <- E. unfold cond_match.
  rewrite H0, !Z.land_0_r. reflexivity.
Qed.

(** The keys of the group, in the order of the store. *)
Definition group_keys (f : kvs_key_group_filter) (m : emulator_map_t) : list (list byte) :=
  (filter (fun p => in_group (filter_cond f) p = true) m).*1.

Lemma group_keys_spec f m :
  map_wf m -> whole_mask f -> length (kf_bit_pattern f) = 4%nat ->
  NoDup (group_keys f m) /\
  (forall k, k ∈ group_keys f m <-> is_Some (map_of m !! k) /\ filter_selects f k) /\
  (length (group_keys f m) <= size (map_of m))%nat.
Proof.
  intros [Hs Hk] Hm Hp. pose proof (om_sorted_NoDup _ Hs) as Hnd. unfold group_keys. split; [|split].
  - eapply sublist_NoDup; [exact Hnd|apply fmap_sublist, sublist_filter].
  - intros k. rewrite list_elem_of_fmap. setoid_rewrite list_elem_of_filter. rewrite Forall_forall in Hk. split.
    + intros (p & -> & Hg & Hin). destruct (Hk p Hin) as [[Hl _] _].
      split; [|by apply in_group_filter in Hg]. exists p.2. apply elem_of_list_to_map; [done|]. by destruct p.
    + intros [[v Hv%elem_of_list_to_map] Hf]; [|done]. exists (k, v). split; [done|].
      destruct (Hk _ Hv) as [[Hl _] _]. split; [by apply in_group_filter|done].
  - rewrite length_fmap. unfold map_of. rewrite map_size_list_to_map by done. apply length_filter.
Qed.

Lemma group_bytes_keys h ps :
  include_value h = false -> group_bytes h ps = concat (key_entry (ih_has_fixed_keylen h) <$> ps.*1).
Proof.
  intros Hv. unfold group_bytes. rewrite <- list_fmap_compose. f_equal. apply list_fmap_ext. intros _ p _.
  unfold entry_bytes, key_entry. simpl. by rewrite Hv, app_nil_r.
Qed.

(** The iteration the emulator runs for an iterator it opened. *)
Lemma emul_iteration ks f fixed buf fuel e hd e1 :
  emul_wf e -> ks_ok ks -> whole_mask f -> length (kf_bit_pattern f) = 4%nat ->
  kv_open_iterator ks KV_ITERATOR_OPT_KEY (Some (filter_cond f)) fixed (Some 0) e = (KV_SUCCESS, Some hd, e1) ->
  lenZ buf = KVS_ITERATOR_BUFFER_SIZE -> (size (as_ks ks (abs e)) < fuel)%nat ->
  exists h ps e2, m_it_map e1 !! hd = Some h /\ delete_value h = false /\ iterate fuel hd buf e1 = (ps, true, e2) /\
    concat (ps.*2) = concat (key_entry fixed <$> group_keys f (ks_map ks e)) /\
    sumZ (ps.*1) = Z.of_nat (length (group_keys f (ks_map ks e))).
Proof.
  intros Hwf Hks Hm Hp Hopen Hbuf Hfuel. rewrite as_ks_abs in Hfuel.
  destruct (whole_mask_top f Hm Hp) as (_ & j & pat & Hj & Hpat & Hc).
  destruct (group_keys_spec f _ (ks_map_wf ks e Hwf) Hm Hp) as (_ & _ & Hlen).
  pose proof (kv_open_iterator_wf ks KV_ITERATOR_OPT_KEY (Some (filter_cond f)) fixed (Some 0) e Hks) as Hwf1.
  rewrite Hopen in Hwf1. simpl in Hwf1.
  assert (He1 : emul_wf e1).
  { apply Hwf1; [|done]. intros ? [= <-]. unfold filter_cond. destruct (filter2context f). apply cond_htobe_ok. }
  destruct (open_iterator_effect _ _ _ _ _ _ _ _ Hopen) as (h & Him & Hmap & Hst & Hk & Hop & Hhc & Hfx).
  assert (Hh : m_it_map e1 !! hd = Some h) by (by rewrite Him, lookup_insert_eq).
  destruct (wf_handles e1 He1 hd h Hh) as [[Hhd _] _].
  assert (Hkm : ks_map (ih_ksid h) e1 = ks_map ks e) by (unfold ks_map; by rewrite Hmap, Hk).
  assert (Hrem : remaining h (ks_map ks e) = filter (fun p => in_group (filter_cond f) p = true) (ks_map ks e)).
  { rewrite <- Hhc. apply (remaining_fresh h _ j pat); [auto with kv|lia|done|congruence|].
    by rewrite Hst, Hc. }
  assert (Hinc : include_value h = false) by (unfold include_value; by rewrite Hop).
  assert (Hdel : delete_value h = false) by (unfold delete_value; by rewrite Hop).
  pose proof (iterate_spec fuel hd h buf e1 He1 ltac:(lia) Hh) as HI. rewrite Hkm, Hrem in HI.
  unfold group_keys in *. rewrite length_fmap in *. destruct (iterate fuel hd buf e1) as [[ps fin] e2].
  destruct HI as (-> & I2 & I3 & _); [|lia|].
  - intros p [_ Hin]%list_elem_of_filter. destruct (ks_map_wf ks e Hwf) as [_ Hf]. rewrite Forall_forall in Hf.
    destruct (Hf p Hin) as [[_ Hl] _]. unfold entry_size. rewrite Hinc, Hbuf.
    destruct (ih_has_fixed_keylen h); lia.
  - exists h, ps, e2. split; [done|]. split; [done|]. split; [done|]. split; [|done].
    by rewrite I2, group_bytes_keys, Hfx.
Qed.

(** C7.  An iteration through the API visits its group completely.  In a key
    space in service, with an iterator to spare and none open for the same
    condition, a filter that fixes none or all of the four prefix bytes gives
    an iterator; asking for 32 KiB buffers until the end is set takes no more
    calls than there are keys (and one); every call succeeds, and the buffers are
    together the entries of exactly the stored keys the filter selects, each
    once.  The iterator is then deleted, and the key spaces are as before. *)
Theorem api_iteration_complete ks id dev name hds e f hd0 buf fuel g ke :
  api_holds ks id dev name hds e g ke -> ks_ok id ->
  Z.of_nat (size (m_it_map e)) < SAMSUNG_MAX_ITERATORS ->
  (forall i h, m_it_map e !! i = Some h -> ih_it_cond h <> filter_cond f) ->
  whole_mask f -> length (kf_bit_pattern f) = 4%nat ->
  lenZ buf = KVS_ITERATOR_BUFFER_SIZE -> (size (as_ks id (ke_abs ke)) < fuel)%nat ->
  exists hd ps keys g1 g2 g3 ke3,
    kvs_create_iterator (Some ks) (Some KVS_ITERATOR_KEY) (Some f) (Some hd0) g = Ret (KVS_SUCCESS, Some hd, g1) /\
    api_iterate fuel ks hd buf g1 = Ret (KVS_SUCCESS, ps, g2) /\
    kvs_delete_iterator (Some ks) hd g2 = Ret (KVS_SUCCESS, g3) /\
    in_service ks id dev name hds g3 ke3 /\ ke_abs ke3 = ke_abs ke /\
    NoDup keys /\ (forall k, k ∈ keys <-> is_Some (as_ks id (ke_abs ke) !! k) /\ filter_selects f k) /\
    concat (ps.*2) = concat (key_entry (m_has_fixed_keylen (ke_dev ke)) <$> keys) /\
    sumZ (ps.*1) = Z.of_nat (length keys).
Proof.
  intros Ha Hks Hsz Hne Hm Hp Hbuf Hfuel. destruct (ke_holds_ok e ke (proj2 Ha)) as (_ & Habs & Hwf).
  rewrite Habs in *. destruct (whole_mask_top f Hm Hp) as (Hv & _).
  destruct (open_succeeds id KV_ITERATOR_OPT_KEY (filter_cond f) (m_has_fixed_keylen (ke_dev ke)) e Hwf Hsz Hne)
    as (hd & e1 & Hopen & Hhd).
  destruct (emul_iteration id f _ buf fuel e hd e1 Hwf Hks Hm Hp Hopen Hbuf Hfuel)
    as (h & ps & e2 & Hh & Hdel & Hit & Hbytes & Hcnt).
  pose proof (open_keeps id KV_ITERATOR_OPT_KEY (Some (filter_cond f)) (m_has_fixed_keylen (ke_dev ke)) (Some 0) e) as [_ Hm1].
  pose proof (kvs_create_iterator_call ks id dev name hds e f hd0 g ke Ha Hks) as Hc.
  unfold filter_cond in Hopen, Hm1. destruct (filter2context f) as [m p]. specialize (Hc Hv).
  rewrite Hopen in Hc, Hm1. destruct Hc as (g1 & ke1 & Hc & Ha1).
  destruct (api_iterate_refines fuel ks id dev name hds hd h buf ltac:(lia) Hbuf e1 g1 ke1 ps e2 Ha1 Hh Hdel Hit)
    as (g2 & ke2 & Hi & Ha2 & Hm2).
  destruct (kvs_delete_iterator_call ks id dev name hds e2 hd g2 ke2 Ha2 ltac:(lia)) as (g3 & ke3 & Hd & Ha3).
  destruct (group_keys_spec f _ (ks_map_wf id e Hwf) Hm Hp) as (Hnd & Hel & _). rewrite <- as_ks_abs in Hel.
  exists hd, ps, (group_keys f (ks_map id e)), g1, g2, g3, ke3.
  assert (Hu : u8 (default 0 (Some hd)) = hd) by (apply Z.mod_small; simpl; lia). rewrite Hu in Hc.
  split; [done|]. split; [done|]. split; [done|]. split; [apply Ha3|]. split; [|done].
  destruct (ke_holds_ok _ ke3 (proj2 Ha3)) as (_ & -> & _). unfold abs.
  rewrite (proj2 (close_keeps hd e2)), Hm2. f_equal. exact Hm1.
Qed.

(** A driver in service over a given emulator, for the examples. *)
Lemma ke_holds_with ke e :
  ke_ok ke -> emul_wf e -> 0 < m_capacity e -> exists ke', ke_holds e ke'.
Proof.
  intros (sq & cq & ns & ((Hne & H1 & H2 & Hns) & Hrest) & (Hd & _)) Hwf Hcap.
  set (ns' := ns_set_store (KvStore e (m_dummy (m_kvstore ns)) false) ns).
  exists (ke_set_dev (dev_set_ns (<[KV_NAMESPACE_DEFAULT := ns']> (m_ns_list (ke_dev ke))) (ke_dev ke)) ke).
  exists sq, cq, ns'. split; [|by split]. split; [|done].
  split; [done|]. split; [done|]. split; [done|]. apply lookup_insert_eq.
Qed.
End iteration.

Definition demo_filter : kvs_key_group_filter := KvsKeyGroupFilter (replicate 4 Byte.x00) (replicate 4 Byte.x00).

Lemma api_iteration_complete_witness :
  exists (g g1 g2 g3 : env (KvEmulator (list_buffer io_cmd))) hd ps keys fixed,
    kvs_create_iterator (Some 104) (Some KVS_ITERATOR_KEY) (Some demo_filter) (Some 0) g =
      Ret (KVS_SUCCESS, Some hd, g1) /\
    api_iterate 3 104 hd (clear_memory KVS_ITERATOR_BUFFER_SIZE) g1 = Ret (KVS_SUCCESS, ps, g2) /\
    kvs_delete_iterator (Some 104) hd g2 = Ret (KVS_SUCCESS, g3) /\
    key_a ∈ keys /\ key_b ∈ keys /\ concat (ps.*2) = concat (key_entry fixed <$> keys).
Proof.
  destruct demo_driver as (ke0 & Hok0 & Habs0). destruct (demo_in_service ke0 Hok0 Habs0) as (g & ke & Hs & _).
  destruct (ke_holds_with ke0 e_two Hok0 e_two_wf) as (ke1 & Hk1); [by vm_compute|].
  destruct (ke_holds_ok _ _ Hk1) as (Hok1 & Habs1 & _).
  destruct (api_iteration_complete 104 1 100 demo_name [104] e_two demo_filter 0
    (clear_memory KVS_ITERATOR_BUFFER_SIZE) 3 (set_driver 100 ke1 g) ke1)
    as (hd & ps & keys & g1 & g2 & g3 & ke3 & E1 & E2 & E3 & _ & _ & _ & Hel & Hb & _).
  - split; [|done]. by eapply in_service_set.
  - vm_compute; split; congruence.
  - by vm_compute.
  - intros i h. change (m_it_map e_two) with (∅ : gmap Z _kv_iterator_handle). by rewrite lookup_empty.
  - by left.
  - done.
  - unfold lenZ. by rewrite clear_memory_length, Z2Nat.id by lia.
  - rewrite Habs1. vm_compute. lia.
  - exists (set_driver 100 ke1 g), g1, g2, g3, hd, ps, keys, (m_has_fixed_keylen (ke_dev ke1)).
    split; [exact E1|]. split; [exact E2|]. split; [exact E3|]. rewrite !Hel, Habs1.
    split; [split; [by eexists|done]|]. split; [split; [by eexists|done]|done].
Defined.
