(* ===== verification/NvmeCmd.v ===== *)
(** * Key-value commands of the NVMe kernel driver

    The structures a user process passes to the driver ([linux_nvme_ioctl.h]),
    the commands the driver sends to the device ([linux_nvme.h]) and the
    translation of the one into the other, the first half of
    [nvme_user_kv_cmd] in [core.c] of the driver for kernel 4.15.18.

    A pointer to the memory of the user is an [option]: [None] is [NULL] and
    [Some l] points to the bytes [l].  What a device does with a command is the
    class at the end of the file; the firmware is not part of the repository. *)

From stdpp Require Import base numbers list gmap.
From S2P Require Import Prelude.
From S2P Require Import AdiTypes.
From S2P Require Import EmulInv.
From S2P Require Import EmulSpec.

(** ** Constants *)

Abbreviation nvme_cmd_kv_store := 0x81%Z (only parsing).
Abbreviation nvme_cmd_kv_append := 0x83%Z (only parsing).
Abbreviation nvme_cmd_kv_retrieve := 0x90%Z (only parsing).
Abbreviation nvme_cmd_kv_delete := 0xA1%Z (only parsing).
Abbreviation nvme_cmd_kv_iter_req := 0xB1%Z (only parsing).
Abbreviation nvme_cmd_kv_iter_read := 0xB2%Z (only parsing).
Abbreviation nvme_cmd_kv_exist := 0xB3%Z (only parsing).

Abbreviation KVCMD_INLINE_KEY_MAX := 16%Z (only parsing).
Abbreviation KVCMD_MAX_KEY_SIZE := 255%Z (only parsing).
Abbreviation KVCMD_MIN_KEY_SIZE := 4%Z (only parsing).

Abbreviation KVS_ERR_IO := (-10)%Z (only parsing).
Abbreviation KVS_ERR_VALUE := (-23)%Z (only parsing).

Definition EBADF : Z := 9.
Definition ENOMEM : Z := 12.
Definition EACCES : Z := 13.
Definition EFAULT : Z := 14.
Definition EINVAL : Z := 22.
Definition EMFILE : Z := 24.

Definition is_kv_store_cmd (op : Z) : bool := op =? nvme_cmd_kv_store.
Definition is_kv_append_cmd (op : Z) : bool := op =? nvme_cmd_kv_append.
Definition is_kv_retrieve_cmd (op : Z) : bool := op =? nvme_cmd_kv_retrieve.
Definition is_kv_delete_cmd (op : Z) : bool := op =? nvme_cmd_kv_delete.
Definition is_kv_iter_req_cmd (op : Z) : bool := op =? nvme_cmd_kv_iter_req.
Definition is_kv_iter_read_cmd (op : Z) : bool := op =? nvme_cmd_kv_iter_read.
Definition is_kv_exist_cmd (op : Z) : bool := op =? nvme_cmd_kv_exist.
Definition is_kv_cmd (op : Z) : bool :=
  is_kv_store_cmd op || is_kv_append_cmd op || is_kv_retrieve_cmd op || is_kv_delete_cmd op ||
  is_kv_iter_req_cmd op || is_kv_iter_read_cmd op || is_kv_exist_cmd op.

(** ** What the user passes *)

(** The union of [nvme_passthru_kv_cmd]: the key itself, a pointer to it, or two
    words.  Reading another member than the one written is not modelled. *)
Inductive kv_cmd_arg :=
| arg_key (key : list byte)                      (* __u8 key[16] *)
| arg_key_addr (key_addr : option (list byte))   (* __u64 key_addr *)
| arg_cdw (cdw12 cdw13 : Z).

Record nvme_passthru_kv_cmd := PassthruKv {
  kc_opcode : Z;                     (* __u8 *)
  kc_flags : Z;                      (* __u8 *)
  kc_nsid : Z;                       (* __u32 *)
  kc_cdw3 : Z;                       (* __u32 *)
  kc_cdw4 : Z;                       (* __u32 *)
  kc_cdw5 : Z;                       (* __u32 *)
  kc_data_addr : option (list byte);
  kc_data_length : Z;                (* __u32 *)
  kc_key_length : Z;                 (* __u32 *)
  kc_cdw10 : Z;                      (* __u32 *)
  kc_cdw11 : Z;                      (* __u32 *)
  kc_arg : kv_cmd_arg;
  kc_ctxid : Z;                      (* __u32 *)
  kc_reqid : Z                       (* __u64 *)
}.

(** The 16 bytes of a key field set to zero. *)
Definition zero_key : list byte := replicate 16 Byte.x00.

Record nvme_aioctx := NvmeAioctx { ax_ctxid : Z; ax_eventfd : Z }.

(** A completed request.  [ev_data] is not part of the structure: it is the
    memory the request's [data_addr] points to, as the request left it. *)
Record nvme_aioevent := NvmeAioevent {
  ev_reqid : Z;                      (* __u64 *)
  ev_ctxid : Z;                      (* __u32 *)
  ev_result : Z;                     (* __u32 *)
  ev_status : Z;                     (* __u16 *)
  ev_data : option (list byte)
}.

Abbreviation MAX_AIO_EVENTS := 128%Z (only parsing).

(** ** What the device gets *)

Inductive nvme_command :=
| kv_store (opcode nsid offset value_len key_len option invalid_byte : Z) (key : list byte)
| kv_retrieve (nsid offset value_len key_len option : Z) (key : list byte)
| kv_delete (nsid key_len option : Z) (key : list byte)
| kv_exist (nsid key_len option : Z) (key : list byte)
| kv_iter_req (nsid iter_handle option iter_val iter_bitmask : Z)
| kv_iter_read (nsid value_len iter_handle option : Z).

(** ** The translation *)

Definition key_length_invalid (cmd : nvme_passthru_kv_cmd) : bool :=
  (KVCMD_MAX_KEY_SIZE <? kc_key_length cmd) || (kc_key_length cmd <? KVCMD_MIN_KEY_SIZE).

(** The key field of the command, and the key as a separate buffer with its
    length ([metadata], [meta_len]) when it does not fit into the field. *)
Definition kv_key_arg (cmd : nvme_passthru_kv_cmd)
    : dev_outcome (list byte * option (list byte) * Z) :=
  if KVCMD_INLINE_KEY_MAX <? kc_key_length cmd
  then match kc_arg cmd with
       | arg_key_addr p => Ret (zero_key, p, kc_key_length cmd)
       | _ => Undef
       end
  else match kc_arg cmd with
       | arg_key k => Ret (memcpy_at 0 (take (Z.to_nat (kc_key_length cmd)) k) zero_key, None, 0)
       | _ => Undef
       end.

(** The value's length in words and the bytes of the last word that do not
    count. *)
Definition store_value_len (data_length : Z) : Z * Z :=
  if negb (data_length mod 4 =? 0)
  then (u32 (Z.shiftr data_length 2 + 1), 4 - data_length mod 4)
  else (Z.shiftr data_length 2, 0).

(** The [switch] of [nvme_user_kv_cmd]: [inl r] where it jumps to [exit] with
    the result field [r] and status [-EINVAL]. *)
Definition kv_build_command (cmd : nvme_passthru_kv_cmd)
    : dev_outcome (Z + nvme_command * option (list byte) * Z) :=
  let op := kc_opcode cmd in
  let nsid := kc_cdw3 cmd in
  let option := Z.land (kc_cdw4 cmd) 0xff in
  let key_len := u8 (kc_key_length cmd - 1) in
  let with_key (f : list byte -> nvme_command) :=
    if key_length_invalid cmd then Ret (inl KVS_ERR_VALUE)
    else '(key, metadata, meta_len) ← kv_key_arg cmd; Ret (inr (f key, metadata, meta_len)) in
  if is_kv_store_cmd op || is_kv_append_cmd op
  then let '(value_len, invalid_byte) := store_value_len (kc_data_length cmd) in
       with_key (kv_store op nsid (kc_cdw5 cmd) value_len key_len option invalid_byte)
  else if is_kv_retrieve_cmd op
  then with_key (kv_retrieve nsid (kc_cdw5 cmd) (Z.shiftr (kc_data_length cmd) 2) key_len option)
  else if is_kv_delete_cmd op then with_key (kv_delete nsid key_len option)
  else if is_kv_exist_cmd op then with_key (kv_exist nsid key_len option)
  else if is_kv_iter_req_cmd op
  then match kc_arg cmd with
       | arg_cdw cdw12 cdw13 =>
           Ret (inr (kv_iter_req nsid (Z.land (kc_cdw5 cmd) 0xff) option cdw12 cdw13, None, 0))
       | arg_key k =>    (* the union as [memset] leaves it *)
           if decide (k = zero_key)
           then Ret (inr (kv_iter_req nsid (Z.land (kc_cdw5 cmd) 0xff) option 0 0, None, 0))
           else Undef
       | arg_key_addr _ => Undef
       end
  else if is_kv_iter_read_cmd op
  then Ret (inr (kv_iter_read nsid (Z.shiftr (kc_data_length cmd) 2)
                   (Z.land (kc_cdw5 cmd) 0xff) option, None, 0))
  else Ret (inl KVS_ERR_IO).

(** ** The device *)

(** The admin commands that report on a device. *)
Definition nvme_cmd_admin_get_log_page : Z := 0x02.
Definition nvme_cmd_admin_identify : Z := 0x06.

(** Running a command with its key buffer and its data buffer: the status, the
    result word and the data buffer after it.  An admin command has no key. *)
Class NvmeKvDevice (D : Type) := {
  dev_exec : nvme_command -> option (list byte) -> option (list byte) -> D ->
    Z * Z * option (list byte) * D;
  dev_admin : Z -> Z -> Z -> list byte -> D -> Z * Z * list byte * D
}.

(** Status codes of the device that [kvkdd.cpp] names. *)
Definition KV_STATUS_INVALID_OFFSET : Z := 0x302.
Definition KV_STATUS_KEY_NOT_EXIST : Z := 0x310.
Definition KV_STATUS_KEY_EXIST : Z := 0x380.
Definition KV_STATUS_SCAN_FINISHED : Z := 0x393.

(** Options of the device ([kadi.h]). *)
Definition STORE_OPTION_NOTHING : Z := 0.
Definition STORE_OPTION_COMP : Z := 1.
Definition STORE_OPTION_IDEMPOTENT : Z := 2.
Definition STORE_OPTION_UPDATE_ONLY : Z := 8.
Definition DELETE_OPTION_CHECK_KEY_EXIST : Z := 1.

(** The key a command designates. *)
Definition cmd_key (key_len : Z) (key : list byte) (metadata : option (list byte)) : list byte :=
  take (Z.to_nat (key_len + 1))
    (if KVCMD_INLINE_KEY_MAX <? key_len + 1 then default [] metadata else key).

(** The bytes a store command designates in its data buffer. *)
Definition cmd_value (value_len invalid_byte : Z) (data : option (list byte)) : list byte :=
  take (Z.to_nat (4 * value_len - invalid_byte)) (default [] data).

(** What each command does to the pairs of a key space. *)
Definition device_store (option : Z) (k v : list byte) (m : bytes_map) : Z * bytes_map :=
  match m !! k with
  | Some _ => if option =? STORE_OPTION_IDEMPOTENT then (KV_STATUS_KEY_EXIST, m)
              else (0, <[k := v]> m)
  | None => if option =? STORE_OPTION_UPDATE_ONLY then (KV_STATUS_KEY_NOT_EXIST, m)
            else (0, <[k := v]> m)
  end.

Definition device_retrieve (k : list byte) (offset size : Z) (m : bytes_map)
    : Z * Z * option (list byte) :=
  match m !! k with
  | None => (KV_STATUS_KEY_NOT_EXIST, 0, None)
  | Some d => if bool_decide (offset <> 0 /\ lenZ d <= offset)
              then (KV_STATUS_INVALID_OFFSET, 0, None)
              else (0, lenZ d, Some (slice offset size d))
  end.

Definition device_delete (option : Z) (k : list byte) (m : bytes_map) : Z * bytes_map :=
  match m !! k with
  | Some _ => (0, delete k m)
  | None => (if option =? DELETE_OPTION_CHECK_KEY_EXIST then KV_STATUS_KEY_NOT_EXIST else 0, m)
  end.

Definition device_exist (k : list byte) (m : bytes_map) : Z :=
  if bool_decide (is_Some (m !! k)) then 0 else KV_STATUS_KEY_NOT_EXIST.

(** The laws of a device in order: it keeps one finite map per key space and
    answers with the status codes above; a read returns the length of the whole
    value and fills at most the words the command asks for.  The admin commands
    that report on it change nothing. *)
Class NvmeKvDeviceLaws (D : Type) `{!NvmeKvDevice D} := {
  dev_ready : D -> Prop;
  dev_contents : D -> astore;
  law_dev_spaces d : dev_ready d -> length (dev_contents d) = 2%nat;
  law_dev_value_len d ks k v : dev_ready d ->
    as_ks ks (dev_contents d) !! k = Some v -> lenZ v < 2 ^ 32;
  law_dev_store d ks offset vl kl opt inv key meta data :
    dev_ready d -> ks_ok ks -> lenZ (cmd_value vl inv data) <= SAMSUNG_KV_MAX_VALUE_LEN ->
    opt = STORE_OPTION_NOTHING \/ opt = STORE_OPTION_IDEMPOTENT \/ opt = STORE_OPTION_UPDATE_ONLY ->
    let '(st, m) := device_store opt (cmd_key kl key meta) (cmd_value vl inv data)
                      (as_ks ks (dev_contents d)) in
    exists res d', dev_exec (kv_store nvme_cmd_kv_store ks offset vl kl opt inv key) meta data d =
        (st, res, data, d') /\
      dev_ready d' /\ dev_contents d' = as_update ks (fun _ => m) (dev_contents d);
  law_dev_retrieve d ks offset vl kl key meta data :
    dev_ready d -> ks_ok ks -> 4 * vl <= lenZ (default [] data) ->
    let '(st, total, out) := device_retrieve (cmd_key kl key meta) offset (4 * vl)
                               (as_ks ks (dev_contents d)) in
    exists res d', dev_exec (kv_retrieve ks offset vl kl 0 key) meta data d =
        (st, res, match out with Some o => memcpy_at 0 o <$> data | None => data end, d') /\
      (st = 0 -> res = total) /\ dev_ready d' /\ dev_contents d' = dev_contents d;
  law_dev_delete d ks kl opt key meta :
    dev_ready d -> ks_ok ks -> opt = 0 \/ opt = DELETE_OPTION_CHECK_KEY_EXIST ->
    let '(st, m) := device_delete opt (cmd_key kl key meta) (as_ks ks (dev_contents d)) in
    exists res d', dev_exec (kv_delete ks kl opt key) meta None d = (st, res, None, d') /\
      dev_ready d' /\ dev_contents d' = as_update ks (fun _ => m) (dev_contents d);
  law_dev_exist d ks kl opt key meta :
    dev_ready d -> ks_ok ks ->
    exists res d', dev_exec (kv_exist ks kl opt key) meta None d =
        (device_exist (cmd_key kl key meta) (as_ks ks (dev_contents d)), res, None, d') /\
      dev_ready d' /\ dev_contents d' = dev_contents d;
  law_dev_admin d op nsid cdw10 data :
    dev_ready d -> op = nvme_cmd_admin_get_log_page \/ op = nvme_cmd_admin_identify ->
    exists st res data' d', dev_admin op nsid cdw10 data d = (st, res, data', d') /\
      dev_ready d' /\ dev_contents d' = dev_contents d
}.
