(* ===== verification/SimDevice.v ===== *)
(** * A simulated key-value device

    A device that keeps one map per key space in memory: an instance of
    [NvmeKvDevice] on which the theorems about the kernel driver and the layers
    above it can be run. *)

From stdpp Require Import base numbers list gmap.
From S2P Require Import Prelude.
From S2P Require Import AdiTypes.
From S2P Require Import EmulInv.
From S2P Require Import EmulSpec.
From S2P Require Import NvmeCmd.

(** The maps and what the device answers to [Identify]. *)
Record sim_device := SimDevice { sd_store : astore; sd_identify : list byte }.

Definition sim_put (ks : Z) (m : bytes_map) (d : sim_device) : sim_device :=
  SimDevice (as_update ks (fun _ => m) (sd_store d)) (sd_identify d).

Definition sim_exec (c : nvme_command) (meta data : option (list byte)) (d : sim_device)
    : Z * Z * option (list byte) * sim_device :=
  match c with
  | kv_store _ ks _ vl kl opt inv key =>
      let '(st, m) := device_store opt (cmd_key kl key meta) (cmd_value vl inv data)
                        (as_ks ks (sd_store d)) in
      (st, 0, data, sim_put ks m d)
  | kv_retrieve ks offset vl kl _ key =>
      let '(st, total, out) := device_retrieve (cmd_key kl key meta) offset (4 * vl)
                                 (as_ks ks (sd_store d)) in
      (st, total, match out with Some o => memcpy_at 0 o <$> data | None => data end, d)
  | kv_delete ks kl opt key =>
      let '(st, m) := device_delete opt (cmd_key kl key meta) (as_ks ks (sd_store d)) in
      (st, 0, data, sim_put ks m d)
  | kv_exist ks kl _ key =>
      (device_exist (cmd_key kl key meta) (as_ks ks (sd_store d)), 0, data, d)
  | kv_iter_req _ _ _ _ _ | kv_iter_read _ _ _ _ => (KV_STATUS_SCAN_FINISHED, 0, data, d)
  end.

#[export] Instance sim_nvme_device : NvmeKvDevice sim_device := {|
  dev_exec := sim_exec;
  dev_admin := fun op _ _ data d =>
    (0, 0, if op =? 0x06 then memcpy_at 0 (sd_identify d) data else data, d)
|}.

(** Two key spaces, with values a 32-bit length can describe. *)
Definition sim_ready (d : sim_device) : Prop :=
  length (sd_store d) = 2%nat /\
  forall ks k v, as_ks ks (sd_store d) !! k = Some v -> lenZ v < 2 ^ 32.

Definition sim_empty : sim_device := SimDevice [∅; ∅] [].

Lemma sim_empty_ready : sim_ready sim_empty.
Proof.
  split; [done|]. intros ks k v. unfold as_ks. simpl.
  destruct (Z.to_nat ks) as [|[|n]]; simpl; by rewrite ?lookup_empty.
Qed.

Lemma as_ks_other ks ks' f s :
  0 <= ks -> 0 <= ks' -> ks <> ks' -> as_ks ks' (as_update ks f s) = as_ks ks' s.
Proof. intros. unfold as_update, as_ks. by rewrite list_lookup_insert_ne by lia. Qed.

Lemma sim_put_ready ks m d :
  ks_ok ks -> sim_ready d -> (forall k v, m !! k = Some v -> lenZ v < 2 ^ 32) -> sim_ready (sim_put ks m d).
Proof.
  intros Hks [Hl Hv] Hm. split; [simpl; unfold as_update; by rewrite length_insert|].
  intros ks' k v. simpl. unfold as_ks, as_update.
  destruct (decide (Z.to_nat ks = Z.to_nat ks')) as [E|E].
  - rewrite E, list_lookup_insert_eq.
    + apply Hm.
    + unfold ks_ok in Hks. lia.
  - rewrite list_lookup_insert_ne by done. apply Hv.
Qed.

#[export, refine] Instance sim_nvme_device_laws : NvmeKvDeviceLaws sim_device := {|
  dev_ready := sim_ready;
  dev_contents := sd_store;
  law_dev_spaces := _; law_dev_value_len := _; law_dev_store := _; law_dev_retrieve := _;
  law_dev_delete := _; law_dev_exist := _; law_dev_admin := _
|}.
Proof.
  - by intros d [? _].
  - intros d ks k v [_ H]. apply H.
  - intros d ks offset vl kl opt inv key meta data Hd Hks Hv _. simpl.
    assert (Hold := proj2 Hd ks). unfold device_store.
    set (k := cmd_key _ _ _) in *. set (v := cmd_value _ _ _) in *.
    assert (Hnew : forall k' v', <[k := v]> (as_ks ks (sd_store d)) !! k' = Some v' -> lenZ v' < 2 ^ 32).
    { intros k' v'. rewrite lookup_insert_Some. intros [[_ <-]|[_ ?]]; [|by eapply Hold].
      lia. }
    destruct (as_ks ks (sd_store d) !! k); destruct (opt =? _); eexists 0, _;
      (split; [done|]); (split; [|done]); apply sim_put_ready; auto.
  - intros d ks offset vl kl key meta data Hd Hks _. simpl.
    destruct (device_retrieve _ _ _ _) as [[st total] out]. by exists total, d.
  - intros d ks kl opt key meta Hd Hks _. simpl. assert (Hold := proj2 Hd ks). unfold device_delete.
    destruct (_ !! _); eexists 0, _; (split; [done|]); (split; [|done]); apply sim_put_ready; auto.
    intros k v. rewrite lookup_delete_Some. intros [_ ?]. by eapply Hold.
  - intros d ks kl opt key meta Hd Hks. simpl. by exists 0, d.
  - intros d op nsid cdw10 data Hd _. simpl. by eexists 0, 0, _, d.
Defined.
