(* ===== verification/NvmePrp.v ===== *)
(** * How a user's buffer is described to the device

    The page lists of the NVMe driver for kernel 4.15.18: the scatter list of a
    user's buffer ([get_aio_user_ctx] in [core.c]), the physical region pages
    (PRP) built from it ([nvme_pci_setup_prps] in [pci.c]) with the pages that
    hold the list, their release ([nvme_free_iod]), and the mapping and unmapping
    of a key-value command ([nvme_kv_map_data], [nvme_kv_unmap_data]).

    Addresses are numbers; a page's bus address is its address.  The pools are
    lists of the free list pages.  [prp_segments] is what a device does with the
    two PRP fields of a command, from the NVMe specification. *)

From stdpp Require Import base numbers list gmap.
From S2P Require Import Prelude.

Definition PAGE_SIZE : Z := 4096.
Definition DIV_ROUND_UP (n d : Z) : Z := (n + d - 1) / d.

(** ** The scatter list of a buffer *)

Record scatterlist := SG { sg_dma_address : Z; sg_dma_len : Z }.

Definition user_addr_npages (offset size : Z) : Z := DIV_ROUND_UP (offset + size) PAGE_SIZE.

(** One entry per page; only the first starts inside its page. *)
Fixpoint sg_fill (pages : list Z) (datalen offset : Z) : list scatterlist :=
  match pages with
  | [] => []
  | p :: pages' => SG (p + offset) (Z.min (u32 datalen) (PAGE_SIZE - offset)) ::
                   sg_fill pages' (datalen - (PAGE_SIZE - offset)) 0
  end.

(** [get_aio_user_ctx]; [pages] are the pages that [get_user_pages_fast] or
    [virt_to_page] give for the buffer. *)
Definition get_aio_user_ctx (addr len : Z) (pages : list Z) : option (list scatterlist) :=
  let offset := addr mod PAGE_SIZE in
  if Z.of_nat (length pages) =? user_addr_npages offset len
  then Some (sg_fill pages len offset) else None.

Definition KV_QUEUE_DAM_ALIGNMENT : Z := 0x03.

(** Whether a key buffer is one piece of memory the device can address. *)
Definition check_add_for_single_cont_phyaddress (address length : Z) : bool :=
  let count := DIV_ROUND_UP (address mod PAGE_SIZE + length) PAGE_SIZE in
  negb ((1 <? count) || negb (Z.land address KV_QUEUE_DAM_ALIGNMENT =? 0)).

(** ** Building the PRP list *)

Inductive blk_status := BLK_STS_OK | BLK_STS_RESOURCE | BLK_STS_IOERR.

(** The words of the list pages (by page and index), the free list pages, and
    the pages of this request ([nvme_pci_iod_list]). *)
Record prp_state := PrpState {
  ps_mem : gmap (Z * Z) Z;
  ps_pool : list Z;
  ps_list : list Z
}.

Definition PRPS_PER_PAGE : Z := Z.shiftr PAGE_SIZE 3.

(** At the end of a list page: a new one is linked, and takes over the last
    entry.  [None] when the pool is empty. *)
Definition prp_room (i prp_list npages : Z) (st : prp_state) : option (Z * Z * Z * prp_state) :=
  if i =? PRPS_PER_PAGE
  then match ps_pool st with
       | [] => None
       | p :: pool =>
           let old := ps_mem st !! (prp_list, i - 1) in
           let mem := match old with Some e => <[(p, 0) := e]> (ps_mem st) | None => ps_mem st end in
           Some (1, p, npages + 1,
                 PrpState (<[(prp_list, i - 1) := p]> mem) pool (ps_list st ++ [p]))
       end
  else Some (i, prp_list, npages, st).

(** The loop of [nvme_pci_setup_prps]; [sg] are the entries after the current
    one.  Every round takes a page off [length]. *)
Fixpoint prp_loop (fuel : nat) (i prp_list dma_addr dma_len length : Z) (sg : list scatterlist)
    (npages : Z) (st : prp_state) : dev_outcome (blk_status * Z * prp_state) :=
  match fuel with
  | O => Blocked
  | S f =>
      match prp_room i prp_list npages st with
      | None => Ret (BLK_STS_RESOURCE, npages, st)
      | Some (i, prp_list, npages, st) =>
          let st := PrpState (<[(prp_list, i) := dma_addr]> (ps_mem st)) (ps_pool st) (ps_list st) in
          let dma_len := dma_len - PAGE_SIZE in
          let dma_addr := dma_addr + PAGE_SIZE in
          let length := length - PAGE_SIZE in
          if length <=? 0 then Ret (BLK_STS_OK, npages, st)
          else if 0 <? dma_len then prp_loop f (i + 1) prp_list dma_addr dma_len length sg npages st
          else if dma_len <? 0 then Ret (BLK_STS_IOERR, npages, st)
          else match sg with
               | [] => Undef
               | s :: sg' =>
                   prp_loop f (i + 1) prp_list (sg_dma_address s) (sg_dma_len s) length sg' npages st
               end
      end
  end.

(** What is known of a request after the mapping. *)
Record nvme_iod := NvmeIod {
  iod_first_dma : Z;
  iod_npages : Z;
  iod_small : bool;           (* list page from [prp_small_pool] *)
  iod_prp : prp_state
}.

(** The end of [nvme_pci_setup_prps], for more than two pages: a list is needed,
    whose first page comes from the pool [small] or [page].  The loop runs once
    per entry. *)
Definition setup_prp_list (prp1 dma_addr dma_len length : Z) (sg : list scatterlist)
    (small page : list Z) : dev_outcome (blk_status * Z * Z * nvme_iod) :=
  let nprps := DIV_ROUND_UP length PAGE_SIZE in
  let is_small := nprps <=? 256 / 8 in
  match (if is_small then small else page) with
  | [] => Ret (BLK_STS_RESOURCE, prp1, dma_addr,
               NvmeIod dma_addr (-1) is_small (PrpState ∅ [] []))
  | p :: pool =>
      '(r, npages, st) ← prp_loop (Z.to_nat nprps) 0 p dma_addr dma_len length sg
                           (if is_small then 0 else 1) (PrpState ∅ pool [p]);
      Ret (r, prp1, p, NvmeIod p npages is_small st)
  end.

(** [nvme_pci_setup_prps]: the status, the two PRP fields and the request. *)
Definition nvme_pci_setup_prps (sgl : list scatterlist) (length : Z) (small page : list Z)
    : dev_outcome (blk_status * Z * Z * nvme_iod) :=
  match sgl with
  | [] => Undef
  | s :: sg =>
      let prp1 := sg_dma_address s in
      let offset := prp1 mod PAGE_SIZE in
      let length := length - (PAGE_SIZE - offset) in
      let none := PrpState ∅ [] [] in
      if length <=? 0 then Ret (BLK_STS_OK, prp1, 0, NvmeIod 0 (-1) false none)
      else
        let dma_len := sg_dma_len s - (PAGE_SIZE - offset) in
        match (if negb (dma_len =? 0) then Some (prp1 + (PAGE_SIZE - offset), dma_len, sg)
               else match sg with
                    | [] => None
                    | s :: sg' => Some (sg_dma_address s, sg_dma_len s, sg')
                    end) with
        | None => Undef
        | Some (dma_addr, dma_len, sg) =>
            if length <=? PAGE_SIZE
            then Ret (BLK_STS_OK, prp1, dma_addr, NvmeIod dma_addr (-1) false none)
            else setup_prp_list prp1 dma_addr dma_len length sg small page
        end
  end.

(** [nvme_free_iod]: the list pages given back, each with the bus address that
    the driver passes for it. *)
Fixpoint free_chain (pages : list Z) (dma_addr : option Z) (mem : gmap (Z * Z) Z)
    : list (Z * option Z) :=
  match pages with
  | [] => []
  | a :: pages' => (a, dma_addr) :: free_chain pages' (mem !! (a, PRPS_PER_PAGE - 1)) mem
  end.

Definition nvme_free_iod (iod : nvme_iod) : list (Z * option Z) :=
  let l := ps_list (iod_prp iod) in
  if iod_npages iod =? 0 then free_chain (take 1 l) (Some (iod_first_dma iod)) (ps_mem (iod_prp iod))
  else free_chain (take (Z.to_nat (iod_npages iod)) l) (Some (iod_first_dma iod))
         (ps_mem (iod_prp iod)).

(** ** The device's side *)

(** Reading [length] bytes' worth of a PRP list from entry [i] on: the last entry
    of a page points to the next page when more than one page is left. *)
Fixpoint prp_read (fuel : nat) (mem : gmap (Z * Z) Z) (prp_list i length : Z)
    : option (list scatterlist) :=
  if length <=? 0 then Some []
  else match fuel with
       | O => None
       | S f =>
           e ← mem !! (prp_list, i);
           if (i =? PRPS_PER_PAGE - 1) && (PAGE_SIZE <? length)
           then prp_read f mem e 0 length
           else rest ← prp_read f mem prp_list (i + 1) (length - PAGE_SIZE);
                Some (SG e (Z.min length PAGE_SIZE) :: rest)
       end.

(** The pieces of memory that two PRP fields designate for a transfer. *)
Definition prp_segments (prp1 prp2 : Z) (mem : gmap (Z * Z) Z) (length : Z)
    : option (list scatterlist) :=
  let first := PAGE_SIZE - prp1 mod PAGE_SIZE in
  let rest := length - first in
  if rest <=? 0 then Some [SG prp1 length]
  else if rest <=? PAGE_SIZE then Some [SG prp1 first; SG prp2 rest]
  else l ← prp_read (Z.to_nat (2 * DIV_ROUND_UP rest PAGE_SIZE)) mem prp2 0 rest;
       Some (SG prp1 first :: l).

(** ** Mapping a key-value command *)

(** Whether SGLs are used: [sgls] and [qid] come from the controller and the
    queue. *)
Definition nvme_pci_use_sgls_for_kv (nseg kv_data_len sgls qid sgl_threshold : Z) : bool :=
  if nseg =? 0 then false
  else
    let avg_seg_size := DIV_ROUND_UP kv_data_len nseg in
    if Z.land sgls 3 =? 0 then false
    else if qid =? 0 then false
    else negb ((sgl_threshold =? 0) || (avg_seg_size <? sgl_threshold)).

(** The DMA mappings that exist: entries of data buffers and of key buffers. *)
Record dma_maps := DmaMaps { dm_data : list scatterlist; dm_meta : list scatterlist }.

(** [nvme_kv_map_data] without SGLs: the status, the data pointer, the key
    pointer, the request and the mappings.  [data] is the scatter list of the
    data with its length, [meta] that of the key; [data_maps] and [meta_maps] say
    whether the platform can map them. *)
Definition nvme_kv_map_data (data_maps meta_maps : bool) (data : option (list scatterlist * Z))
    (meta : option scatterlist) (small page : list Z) (m : dma_maps)
    : dev_outcome (blk_status * option (Z * Z) * option Z * nvme_iod * dma_maps) :=
  let fresh := NvmeIod 0 (-1) false (PrpState ∅ [] []) in
  '(r, dptr, iod, m1) ←
    match data with
    | None => Ret (BLK_STS_OK, None, fresh, m)
    | Some (sg, len) =>
        if negb data_maps then Ret (BLK_STS_RESOURCE, None, fresh, m)
        else
          '(r, prp1, prp2, iod) ← nvme_pci_setup_prps sg len small page;
          match r with
          | BLK_STS_OK => Ret (r, Some (prp1, prp2), iod, DmaMaps (sg ++ dm_data m) (dm_meta m))
          | _ => Ret (r, None, iod, m)
          end
    end;
  match r, meta with
  | BLK_STS_OK, Some k =>
      if negb meta_maps then Ret (BLK_STS_IOERR, dptr, None, iod, m)
      else Ret (r, dptr, Some (sg_dma_address k), iod, DmaMaps (dm_data m1) (k :: dm_meta m1))
  | _, _ => Ret (r, dptr, None, iod, m1)
  end.

(** [nvme_kv_unmap_data]: the data is unmapped when there is a key buffer; the
    list pages are given back. *)
Definition nvme_kv_unmap_data (data : option (list scatterlist * Z)) (meta : option scatterlist)
    (iod : nvme_iod) (m : dma_maps) : dma_maps * list (Z * option Z) :=
  (match meta with
   | Some _ => DmaMaps (drop (length (default [] (fst <$> data))) (dm_data m)) (drop 1 (dm_meta m))
   | None => m
   end, nvme_free_iod iod).

(** ** Correctness of the list *)

(** The pages of a buffer from a page boundary on. *)
Definition aligned (p : Z) : Prop := p mod PAGE_SIZE = 0.

Lemma npages_succ d : DIV_ROUND_UP d PAGE_SIZE = 1 + DIV_ROUND_UP (d - PAGE_SIZE) PAGE_SIZE.
Proof.
  unfold DIV_ROUND_UP. replace (d + PAGE_SIZE - 1) with (d - PAGE_SIZE + PAGE_SIZE - 1 + 1 * PAGE_SIZE) by lia.
  rewrite Z.div_add by (unfold PAGE_SIZE; lia). lia.
Qed.

Lemma npages_pos d : 0 < d -> 0 < DIV_ROUND_UP d PAGE_SIZE.
Proof. intros. unfold DIV_ROUND_UP. apply Z.div_str_pos. unfold PAGE_SIZE. lia. Qed.

Lemma npages_one d : 0 < d -> DIV_ROUND_UP d PAGE_SIZE = 1 -> d <= PAGE_SIZE.
Proof.
  intros Hd H. destruct (Z.le_gt_cases d PAGE_SIZE); [done|].
  rewrite npages_succ in H. pose proof (npages_pos (d - PAGE_SIZE)). lia.
Qed.

Lemma npages_more d : 0 < d -> 1 < DIV_ROUND_UP d PAGE_SIZE -> PAGE_SIZE < d.
Proof.
  intros Hd H. destruct (Z.le_gt_cases d PAGE_SIZE) as [Hle|]; [|done].
  assert (DIV_ROUND_UP d PAGE_SIZE <= 1); [|lia]. unfold DIV_ROUND_UP.
  apply Z.lt_succ_r, Z.div_lt_upper_bound; unfold PAGE_SIZE in *; lia.
Qed.

Lemma PRPS_512 : PRPS_PER_PAGE = 512.
Proof. reflexivity. Qed.

(** Each list page but the last points to its successor. *)
Fixpoint prp_chain (mem : gmap (Z * Z) Z) (l : Z) (pages : list Z) : Prop :=
  match pages with
  | [] => True
  | p :: pages' => mem !! (l, PRPS_PER_PAGE - 1) = Some p /\ prp_chain mem p pages'
  end.

(** The memory of list pages outside [l] and [pool] is left alone, and so are the
    entries of [l] before [i] except the link. *)
Definition prp_frame (l i : Z) (pool : list Z) (mem mem' : gmap (Z * Z) Z) : Prop :=
  forall q j, q ∉ pool -> (q <> l \/ (j < i /\ j <> PRPS_PER_PAGE - 1)) -> mem' !! (q, j) = mem !! (q, j).

(** What the loop leaves behind: the pages [take k] of the pool added to the
    request and chained. *)
Definition prp_done (l i npages : Z) (st st' : prp_state) (npages' : Z) : Prop :=
  exists k, ps_list st' = ps_list st ++ take k (ps_pool st) /\ npages' = npages + Z.of_nat k /\
    (k <= length (ps_pool st))%nat /\ prp_chain (ps_mem st') l (take k (ps_pool st)) /\
    prp_frame l i (ps_pool st) (ps_mem st) (ps_mem st').

Lemma prp_done_step l i npages mem pool list e st' npages' :
  0 <= i < PRPS_PER_PAGE ->
  prp_done l (i + 1) npages (PrpState (<[(l, i) := e]> mem) pool list) st' npages' ->
  prp_done l i npages (PrpState mem pool list) st' npages'.
Proof.
  intros Hi (k & Hl & Hn & Hk & Hc & Hf). exists k. split_and!; try done.
  intros q j Hq Hj. simpl in *. rewrite Hf; [|done|].
  - apply lookup_insert_ne. intros [= -> ->]. destruct Hj as [?|[? _]]; [done|lia].
  - destruct Hj as [?|[? ?]]; [by left|right; lia].
Qed.

(** The request [st] with the page [p] linked after [l], whose last entry is [e]. *)
Definition prp_linked (l p e : Z) (mem : gmap (Z * Z) Z) (pool list : list Z) : prp_state :=
  PrpState (<[(l, PRPS_PER_PAGE - 1) := p]> (<[(p, 0) := e]> mem)) pool (list ++ [p]).

Lemma prp_loop_full f l a dl len sg npages mem p pool list e :
  mem !! (l, PRPS_PER_PAGE - 1) = Some e ->
  prp_loop (S f) PRPS_PER_PAGE l a dl len sg npages (PrpState mem (p :: pool) list) =
  prp_loop (S f) 1 p a dl len sg (npages + 1) (prp_linked l p e mem pool list).
Proof.
  intros He. cbn [prp_loop]. unfold prp_room at 1. rewrite Z.eqb_refl.
  cbn [ps_pool ps_mem ps_list]. rewrite He. reflexivity.
Qed.

Lemma prp_done_full l p e npages mem pool list st' npages' :
  NoDup (l :: p :: pool) ->
  prp_done p 1 (npages + 1) (prp_linked l p e mem pool list) st' npages' ->
  prp_done l PRPS_PER_PAGE npages (PrpState mem (p :: pool) list) st' npages' /\
  ps_mem st' !! (l, PRPS_PER_PAGE - 1) = Some p /\ ps_mem st' !! (p, 0) = Some e.
Proof.
  intros Hnd (k & Hl & Hn & Hk & Hc & Hf). cbn [prp_linked ps_list ps_pool ps_mem] in *.
  apply NoDup_cons in Hnd as [Hlp Hnd]. apply NoDup_cons in Hnd as [Hp _].
  rewrite not_elem_of_cons in Hlp. destruct Hlp as [Hlp Hlpool].
  assert (Hlink : ps_mem st' !! (l, PRPS_PER_PAGE - 1) = Some p).
  { rewrite Hf by auto. apply lookup_insert_eq. }
  split; [|split; [done|]].
  - exists (S k). cbn [ps_list ps_pool take prp_chain]. split_and!; try done.
    + by rewrite Hl, <- app_assoc.
    + lia.
    + simpl. lia.
    + intros q j Hq Hj. cbn [ps_mem ps_pool] in *. rewrite not_elem_of_cons in Hq. destruct Hq as [Hqp Hq].
      rewrite Hf by auto. rewrite !lookup_insert_ne; [done| |].
      * congruence.
      * intros [= <- <-]. destruct Hj as [?|[_ ?]]; done.
  - rewrite Hf; [|done|right; rewrite PRPS_512; lia].
    rewrite lookup_insert_ne by (intros [= ? ?]; done). apply lookup_insert_eq.
Qed.

Lemma sg_fill_cons p pages d :
  0 < d < 2 ^ 32 ->
  sg_fill (p :: pages) d 0 = SG p (Z.min d PAGE_SIZE) :: sg_fill pages (d - PAGE_SIZE) 0.
Proof.
  intros Hd. cbn [sg_fill]. rewrite u32_small by lia. rewrite Z.add_0_r, Z.sub_0_r. done.
Qed.

(** Reading the list from an entry of a page that holds it. *)
Lemma prp_read_entry F mem l i e d rest :
  0 < d -> mem !! (l, i) = Some e -> i <> PRPS_PER_PAGE - 1 \/ d <= PAGE_SIZE ->
  prp_read F mem l (i + 1) (d - PAGE_SIZE) = Some rest ->
  prp_read (S F) mem l i d = Some (SG e (Z.min d PAGE_SIZE) :: rest).
Proof.
  intros Hd He Hi Hr. cbn [prp_read]. destruct (Z.leb_spec d 0); [lia|]. rewrite He. cbn [mbind option_bind].
  assert (Hb : (i =? PRPS_PER_PAGE - 1) && (PAGE_SIZE <? d) = false).
  { destruct (Z.eqb_spec i (PRPS_PER_PAGE - 1)), (Z.ltb_spec PAGE_SIZE d); simpl; try done; lia. }
  by rewrite Hb, Hr.
Qed.

Lemma prp_read_link F mem l p d :
  PAGE_SIZE < d -> mem !! (l, PRPS_PER_PAGE - 1) = Some p ->
  prp_read (S F) mem l (PRPS_PER_PAGE - 1) d = prp_read F mem p 0 d.
Proof.
  intros Hd He. cbn [prp_read]. destruct (Z.leb_spec d 0); [unfold PAGE_SIZE in Hd; lia|]. rewrite He.
  cbn [mbind option_bind]. rewrite Z.eqb_refl. by destruct (Z.ltb_spec PAGE_SIZE d); [|lia].
Qed.

Lemma prp_read_nil F mem l i d : d <= 0 -> prp_read F mem l i d = Some [].
Proof. intros. destruct F; simpl; destruct (Z.leb_spec d 0); try done; lia. Qed.

Lemma prp_done_full_entry l p e npages mem pool list st' npages' :
  prp_done l PRPS_PER_PAGE npages (PrpState (<[(l, PRPS_PER_PAGE - 1) := e]> mem) (p :: pool) list) st' npages' ->
  prp_done l (PRPS_PER_PAGE - 1) npages (PrpState mem (p :: pool) list) st' npages'.
Proof. intros H. apply (prp_done_step _ _ _ _ _ _ e); [rewrite PRPS_512; lia|]. by rewrite Z.sub_add. Qed.

(** The loop on the pages [pages], which hold [d] more bytes, from entry [i] of
    the list page [l] on: it ends, with pages chained as they should be, and a
    device that reads on from that entry finds the pages. *)
Lemma prp_loop_ok pages : forall d fuel i l npages st s sg,
  Z.of_nat (length pages) = DIV_ROUND_UP d PAGE_SIZE -> 0 < d < 2 ^ 32 -> 0 <= i < PRPS_PER_PAGE ->
  NoDup (l :: ps_pool st) ->
  i + Z.of_nat (length pages) <= PRPS_PER_PAGE + (PRPS_PER_PAGE - 1) * Z.of_nat (length (ps_pool st)) ->
  (length pages <= fuel)%nat -> sg_fill pages d 0 = s :: sg ->
  exists st' np', prp_loop fuel i l (sg_dma_address s) (sg_dma_len s) d sg npages st =
      Ret (BLK_STS_OK, np', st') /\
    prp_done l i npages st st' np' /\
    (i + Z.of_nat (length pages) <= PRPS_PER_PAGE -> np' = npages) /\
    forall F, (2 * length pages <= F)%nat -> prp_read F (ps_mem st') l i d = Some (s :: sg).
Proof.
  induction pages as [|p pages IH]; intros d fuel i l npages [mem pool list] s sg Hlen Hd Hi Hnd Hpool Hfuel Hs.
  { done. }
  rewrite sg_fill_cons in Hs by done. injection Hs as <- <-. cbn [sg_dma_address sg_dma_len ps_pool ps_mem ps_list] in *.
  destruct fuel as [|fuel]; [simpl in Hfuel; lia|]. simpl length in Hlen, Hfuel, Hpool.
  cbn [prp_loop]. unfold prp_room. destruct (Z.eqb_spec i PRPS_PER_PAGE); [lia|]. cbn [ps_mem ps_pool ps_list].
  rewrite npages_succ in Hlen. destruct pages as [|p2 pages].
  - assert (Hle : d <= PAGE_SIZE).
    { apply npages_one; [lia|]. rewrite npages_succ. simpl in Hlen. lia. }
    destruct (Z.leb_spec (d - PAGE_SIZE) 0); [|lia]. eexists _, _. split; [reflexivity|]. split.
    + exists 0%nat. rewrite take_0, app_nil_r. split_and!; try done; [lia|lia|].
      intros q j Hq Hj. apply lookup_insert_ne. intros [= <- <-]. destruct Hj as [?|[? _]]; [done|lia].
    + split; [done|]. intros F HF. destruct F as [|F]; [simpl in HF; lia|].
      apply prp_read_entry; [lia|apply lookup_insert_eq|by right|]. apply prp_read_nil. lia.
  - assert (Hgt : PAGE_SIZE < d).
    { apply npages_more; [lia|]. rewrite npages_succ. simpl in Hlen. lia. }
    destruct (Z.leb_spec (d - PAGE_SIZE) 0); [lia|].
    rewrite Z.min_r by lia. rewrite Z.sub_diag. cbn [Z.ltb Z.compare].
    destruct (sg_fill (p2 :: pages) (d - PAGE_SIZE) 0) as [|s2 sg2] eqn:Hs2; [done|].
    assert (Hd2 : 0 < d - PAGE_SIZE < 2 ^ 32) by (unfold PAGE_SIZE in *; lia).
    destruct (decide (i + 1 = PRPS_PER_PAGE)) as [Hlast|Hlast].
    + assert (i = PRPS_PER_PAGE - 1) as -> by lia. rewrite Hlast. destruct pool as [|q pool].
      { simpl in Hpool. lia. }
      destruct fuel as [|fuel]; [simpl in Hfuel; lia|].
      rewrite (prp_loop_full _ _ _ _ _ _ _ _ _ _ _ p) by apply lookup_insert_eq.
      destruct (IH (d - PAGE_SIZE) (S fuel) 1 q (npages + 1)
        (prp_linked l q p (<[(l, PRPS_PER_PAGE - 1) := p]> mem) pool list) s2 sg2)
        as (st' & np' & -> & Hdone & Hk & Hread); try done.
      { lia. }
      { by apply NoDup_cons in Hnd as [_ ?]. }
      { simpl in *. lia. }
      { simpl in *. lia. }
      destruct (prp_done_full _ _ _ _ _ _ _ _ _ Hnd Hdone) as (Hdone' & Hlink & Hfirst).
      exists st', np'. split; [done|]. split; [by eapply prp_done_full_entry|].
      split; [simpl; lia|]. intros F HF. destruct F as [|[|F]]; [simpl in HF; lia|simpl in HF; lia|].
      rewrite (prp_read_link _ _ _ q) by done. rewrite <- (Z.min_r d PAGE_SIZE) by lia.
      apply prp_read_entry; [lia|done|left; rewrite PRPS_512; lia|]. apply Hread. simpl in *. lia.
    + destruct (IH (d - PAGE_SIZE) fuel (i + 1) l npages (PrpState (<[(l, i) := p]> mem) pool list) s2 sg2)
        as (st' & np' & -> & Hdone & Hk & Hread); try done; [lia|lia|simpl in *; lia|simpl in *; lia|].
      exists st', np'. split; [done|]. split; [by eapply prp_done_step|].
      split; [intros; apply Hk; simpl in *; lia|]. intros F HF. destruct F as [|F]; [simpl in HF; lia|].
      rewrite <- (Z.min_r d PAGE_SIZE) by lia.
      apply prp_read_entry; [lia| |left; lia|apply Hread; simpl in *; lia].
      destruct Hdone as (k & _ & _ & _ & _ & Hf). rewrite Hf; simpl.
      * apply lookup_insert_eq.
      * by apply NoDup_cons in Hnd as [? _].
      * right. lia.
Qed.

Lemma free_chain_ok mem pages : forall l,
  prp_chain mem l pages ->
  free_chain (l :: pages) (Some l) mem = (fun p => (p, Some p)) <$> (l :: pages).
Proof.
  induction pages as [|p pages IH]; intros l Hc; [done|]. destruct Hc as [Hl Hc].
  cbn [free_chain]. rewrite Hl. specialize (IH p Hc). cbn [free_chain] in IH.
  rewrite fmap_cons. f_equal. exact IH.
Qed.

Lemma offset_range a : 0 <= a mod PAGE_SIZE < PAGE_SIZE.
Proof. apply Z.mod_pos_bound. unfold PAGE_SIZE. lia. Qed.

Lemma npages_rest off len (rest : list Z) :
  Z.of_nat (S (length rest)) = user_addr_npages off len ->
  Z.of_nat (length rest) = DIV_ROUND_UP (len - (PAGE_SIZE - off)) PAGE_SIZE.
Proof.
  unfold user_addr_npages. rewrite npages_succ. intros H.
  replace (len - (PAGE_SIZE - off)) with (off + len - PAGE_SIZE) by lia. lia.
Qed.

Lemma npages_nonpos d : - PAGE_SIZE < d <= 0 -> DIV_ROUND_UP d PAGE_SIZE = 0.
Proof. intros. unfold DIV_ROUND_UP. apply Z.div_small. lia. Qed.

(** The free list pages a transfer needs. *)
Definition pools_suffice (len : Z) (small page : list Z) : Prop :=
  NoDup small /\ NoDup page /\ small <> [] /\ page <> [] /\
  DIV_ROUND_UP len PAGE_SIZE <= 511 * Z.of_nat (length page) + 1.

(** The part of a buffer after its first page, from a list page on. *)
Lemma prp_list_ok rest d s sg p pool npages :
  Z.of_nat (length rest) = DIV_ROUND_UP d PAGE_SIZE -> 0 < d < 2 ^ 32 -> NoDup (p :: pool) ->
  Z.of_nat (length rest) <= PRPS_PER_PAGE + (PRPS_PER_PAGE - 1) * Z.of_nat (length pool) ->
  sg_fill rest d 0 = s :: sg ->
  exists st np, prp_loop (Z.to_nat (DIV_ROUND_UP d PAGE_SIZE)) 0 p (sg_dma_address s) (sg_dma_len s) d sg
      npages (PrpState ∅ pool [p]) = Ret (BLK_STS_OK, np, st) /\
    prp_read (Z.to_nat (2 * DIV_ROUND_UP d PAGE_SIZE)) (ps_mem st) p 0 d = Some (s :: sg) /\
    (Z.of_nat (length rest) <= PRPS_PER_PAGE -> np = npages) /\
    exists k, np = npages + Z.of_nat k /\ ps_list st = p :: take k pool /\ (k <= length pool)%nat /\
      prp_chain (ps_mem st) p (take k pool).
Proof.
  intros Hlen Hd Hnd Hpool Hs. rewrite <- Hlen, Nat2Z.id.
  destruct (prp_loop_ok rest d (length rest) 0 p npages (PrpState ∅ pool [p]) s sg)
    as (st & np & -> & (k & Hl & Hn & Hk & Hc & _) & Hsmall & Hread); try done.
  exists st, np. split; [done|]. split; [apply Hread; lia|]. split; [intros; apply Hsmall; lia|].
  exists k. done.
Qed.

Lemma free_iod_ok p k pool np b st :
  ps_list st = p :: take k pool -> (k <= length pool)%nat -> prp_chain (ps_mem st) p (take k pool) ->
  np = 1 + Z.of_nat k \/ (np = 0 /\ k = 0%nat) ->
  nvme_free_iod (NvmeIod p np b st) = (fun p => (p, Some p)) <$> ps_list st.
Proof.
  intros Hl Hk Hc Hn. unfold nvme_free_iod. cbn [iod_npages iod_prp iod_first_dma]. rewrite Hl.
  destruct Hn as [->|[-> ->]]; [|reflexivity].
  destruct (Z.eqb_spec (1 + Z.of_nat k) 0); [lia|].
  replace (Z.to_nat (1 + Z.of_nat k)) with (S k) by lia. cbn [take].
  rewrite take_idemp. by apply free_chain_ok.
Qed.

Lemma npages_mono a b : a <= b -> DIV_ROUND_UP a PAGE_SIZE <= DIV_ROUND_UP b PAGE_SIZE.
Proof. intros. unfold DIV_ROUND_UP. apply Z.div_le_mono; unfold PAGE_SIZE in *; lia. Qed.

(** A buffer with more than two pages: the list page comes from the small pool
    or from the other one. *)
Lemma prp_long rest d s sg prp1 small page :
  let n := DIV_ROUND_UP d PAGE_SIZE in
  Z.of_nat (length rest) = n -> 0 < d < 2 ^ 32 -> sg_fill rest d 0 = s :: sg ->
  NoDup small -> NoDup page -> small <> [] -> page <> [] -> n <= 511 * Z.of_nat (length page) + 1 ->
  exists q iod,
    setup_prp_list prp1 (sg_dma_address s) (sg_dma_len s) d sg small page = Ret (BLK_STS_OK, prp1, q, iod) /\
    prp_read (Z.to_nat (2 * n)) (ps_mem (iod_prp iod)) q 0 d = Some (s :: sg) /\
    nvme_free_iod iod = (fun p => (p, Some p)) <$> ps_list (iod_prp iod).
Proof.
  intros n Hn Hd Hs Hns Hnp Hsmall Hpage Hneed. unfold setup_prp_list. fold n.
  assert (Hpool : exists q l, (if n <=? 256 / 8 then small else page) = q :: l /\ NoDup (q :: l) /\
    n <= PRPS_PER_PAGE + (PRPS_PER_PAGE - 1) * Z.of_nat (length l)).
  { rewrite PRPS_512. destruct (Z.leb_spec n (256 / 8)) as [H32|_].
    - destruct small as [|q l]; [done|]. exists q, l. change (256 / 8) with 32 in H32. split_and!; [done..|lia].
    - destruct page as [|q l]; [done|]. exists q, l. simpl in Hneed. split_and!; [done..|lia]. }
  destruct Hpool as (q & l & -> & Hnd & Hroom).
  destruct (prp_list_ok rest d s sg q l (if n <=? 256 / 8 then 0 else 1))
    as (st & np & E & Hread & Hfew & k & Hk & Hl & Hkl & Hc); try done; [by rewrite Hn|].
  fold n in E, Hread. rewrite E. exists q, (NvmeIod q np (n <=? 256 / 8) st).
  split; [done|]. split; [done|]. apply (free_iod_ok _ k l); try done.
  destruct (Z.leb_spec n (256 / 8)) as [H32|_]; [right|by left].
  change (256 / 8) with 32 in H32. assert (np = 0) by (apply Hfew; rewrite Hn, PRPS_512; lia). lia.
Qed.

(** C10. The device transfers exactly the user's buffer: for any buffer, the PRP
    fields and list pages that the driver builds from its scatter list designate
    the same pieces of memory in the same order; and when the request is done the
    driver gives back the list pages it took, each with its own bus address. *)
Theorem prp_transfer_exact addr len pages sg small page :
  0 < len < 2 ^ 31 -> Forall aligned pages -> get_aio_user_ctx addr len pages = Some sg ->
  pools_suffice len small page ->
  exists prp1 prp2 iod, nvme_pci_setup_prps sg len small page = Ret (BLK_STS_OK, prp1, prp2, iod) /\
    prp_segments prp1 prp2 (ps_mem (iod_prp iod)) len = Some sg /\
    nvme_free_iod iod = (fun p => (p, Some p)) <$> ps_list (iod_prp iod).
Proof.
  intros Hlen Hal Hsg (Hns & Hnp & Hs & Hp & Hneed). unfold get_aio_user_ctx in Hsg.
  pose proof (offset_range addr) as Hoff. set (off := addr mod PAGE_SIZE) in *.
  destruct (Z.eqb_spec (Z.of_nat (length pages)) (user_addr_npages off len)) as [Hn|]; [|done].
  injection Hsg as <-. destruct pages as [|p rest].
  { unfold user_addr_npages in Hn. pose proof (npages_pos (off + len)). simpl in Hn. lia. }
  apply Forall_cons in Hal as [Hp0 _]. unfold aligned in Hp0.
  apply npages_rest in Hn. cbn [sg_fill]. unfold nvme_pci_setup_prps, prp_segments.
  cbn [sg_dma_address sg_dma_len]. rewrite u32_small by lia.
  assert (Hmod : (p + off) mod PAGE_SIZE = off).
  { rewrite <- Zplus_mod_idemp_l, Hp0. by apply Z.mod_small. }
  rewrite Hmod. set (d := len - (PAGE_SIZE - off)) in *.
  destruct (Z.leb_spec d 0) as [Hd|Hd].
  - rewrite npages_nonpos in Hn by lia. destruct rest; [|simpl in Hn; lia]. cbn [sg_fill].
    eexists _, _, _. split; [reflexivity|]. rewrite Hmod. fold d. destruct (Z.leb_spec d 0); [|lia].
    split; [|done]. by rewrite Z.min_l by lia.
  - rewrite Z.min_r by lia. rewrite Z.sub_diag. cbn [negb Z.eqb].
    assert (Hd32 : 0 < d < 2 ^ 32) by lia.
    destruct (sg_fill rest d 0) as [|s2 sg2] eqn:Hs2.
    { destruct rest; [|done]. pose proof (npages_pos d Hd). simpl in Hn. lia. }
    destruct (Z.leb_spec d PAGE_SIZE) as [Hd2|Hd2].
    + eexists _, _, _. split; [reflexivity|]. rewrite Hmod. fold d.
      destruct (Z.leb_spec d 0); [lia|]. destruct (Z.leb_spec d PAGE_SIZE); [|lia]. split; [|done].
      destruct rest as [|p2 rest]; [done|]. rewrite sg_fill_cons in Hs2 by done. injection Hs2 as <- <-.
      rewrite npages_succ, npages_nonpos in Hn by lia. destruct rest; [|simpl in Hn; lia].
      cbn [sg_fill sg_dma_address]. by rewrite Z.min_l by lia.
    + destruct (prp_long rest d s2 sg2 (p + off) small page) as (q & iod & -> & Hread & Hfree); try done.
      { pose proof (npages_mono d len). lia. }
      eexists _, _, _. split; [reflexivity|]. rewrite Hmod. fold d.
      destruct (Z.leb_spec d 0); [lia|]. destruct (Z.leb_spec d PAGE_SIZE); [lia|]. by rewrite Hread.
Qed.

(** A buffer of five pages that starts inside its first page. *)
Definition example_pages : list Z := [0x10000; 0x53000; 0x22000; 0x91000; 0x34000].

Lemma prp_transfer_exact_witness : exists sg prp1 prp2 iod,
  get_aio_user_ctx 0x7f0c10 16500 example_pages = Some sg /\
  nvme_pci_setup_prps sg 16500 [0x2100] [0x800000; 0x801000] = Ret (BLK_STS_OK, prp1, prp2, iod) /\
  prp_segments prp1 prp2 (ps_mem (iod_prp iod)) 16500 = Some sg.
Proof.
  eexists. destruct (prp_transfer_exact 0x7f0c10 16500 example_pages
    (sg_fill example_pages 16500 0xc10) [0x2100] [0x800000; 0x801000]) as (prp1 & prp2 & iod & H1 & H2 & _).
  - lia.
  - repeat constructor.
  - reflexivity.
  - split; [apply NoDup_singleton|]. split; [|split; [done|]; split; [done|]; vm_compute; congruence].
    apply NoDup_cons. split; [rewrite list_elem_of_singleton; lia|apply NoDup_singleton].
  - exists prp1, prp2, iod. split; [reflexivity|]. split; [exact H1|exact H2].
Defined.

(** The average entry of a buffer's scatter list is at most a page. *)
Lemma sg_fill_total (pages : list Z) d off :
  0 <= off < PAGE_SIZE -> off + d <= Z.of_nat (length pages) * PAGE_SIZE ->
  DIV_ROUND_UP d (Z.of_nat (length pages)) <= PAGE_SIZE \/ pages = [].
Proof.
  intros Hoff Hd. destruct pages as [|p pages]; [by right|left]. set (n := Z.of_nat (length (p :: pages))) in *.
  assert (0 < n) by (unfold n; simpl; lia).
  unfold DIV_ROUND_UP. apply Z.lt_succ_r, Z.div_lt_upper_bound; [lia|]. nia.
Qed.

(** With the default threshold, or any above a page, key-value data never goes by
    SGL: the entries of a user's buffer are at most a page each. *)
Lemma kv_data_by_prp addr len pages sg sgls qid threshold :
  0 < len -> get_aio_user_ctx addr len pages = Some sg -> PAGE_SIZE < threshold ->
  nvme_pci_use_sgls_for_kv (Z.of_nat (length sg)) len sgls qid threshold = false.
Proof.
  unfold get_aio_user_ctx. pose proof (offset_range addr) as Hoff. intros Hlen Hsg Ht.
  destruct (Z.eqb_spec (Z.of_nat (length pages)) (user_addr_npages (addr mod PAGE_SIZE) len)) as [Hn|]; [|done].
  injection Hsg as <-.
  assert (Hl : forall ps d o, length (sg_fill ps d o) = length ps).
  { induction ps as [|p ps IH]; intros; simpl; [done|by rewrite IH]. }
  rewrite Hl. unfold nvme_pci_use_sgls_for_kv.
  assert (Hcap : addr mod PAGE_SIZE + len <= Z.of_nat (length pages) * PAGE_SIZE).
  { rewrite Hn. unfold user_addr_npages, DIV_ROUND_UP.
    pose proof (Z.div_mod (addr mod PAGE_SIZE + len + PAGE_SIZE - 1) PAGE_SIZE) as E.
    pose proof (offset_range (addr mod PAGE_SIZE + len + PAGE_SIZE - 1)). unfold PAGE_SIZE in *. lia. }
  destruct (Z.eqb_spec (Z.of_nat (length pages)) 0); [done|]. destruct (Z.land sgls 3 =? 0); [done|].
  destruct (qid =? 0); [done|]. destruct (sg_fill_total pages len _ Hoff Hcap) as [Hle|Hnil]; [|by subst].
  destruct (Z.eqb_spec threshold 0); [done|].
  destruct (Z.ltb_spec (DIV_ROUND_UP len (Z.of_nat (length pages))) threshold); [done|lia].
Qed.

(** The mappings of a key-value command: when the mapping fails, none is left;
    when it succeeds and the command is done, those of a command with a key buffer
    are all undone, but a command whose key fits into the command leaves the
    mapping of its data behind, because unmapping tests for the wrong list. *)
Theorem inline_key_leaks_mapping dmaps mmaps data meta small page m r dptr kptr iod m' :
  nvme_kv_map_data dmaps mmaps data meta small page m = Ret (r, dptr, kptr, iod, m') ->
  match r with
  | BLK_STS_OK => (nvme_kv_unmap_data data meta iod m').1 =
      match data, meta with
      | Some (sg, _), None => DmaMaps (sg ++ dm_data m) (dm_meta m)
      | _, _ => m
      end
  | _ => m' = m
  end.
Proof.
  unfold nvme_kv_map_data, nvme_kv_unmap_data. destruct data as [[sg len]|].
  - destruct dmaps; [|by destruct meta; cbn; intros [= <- _ _ _ <-]].
    destruct (nvme_pci_setup_prps sg len small page) as [[[[r0 p1] p2] i0]| |]; [|done..].
    destruct r0, meta as [k|], mmaps; cbn; intros [= <- _ _ _ <-]; try done.
    cbn. rewrite drop_app_length, drop_0. by destruct m.
  - destruct meta, mmaps; cbn; intros [= <- _ _ _ <-]; try done. cbn. by destruct m.
Qed.

Lemma inline_key_leaks_mapping_witness : exists iod m',
  nvme_kv_map_data true true (Some ([SG 0x10000 64], 64)) None [] [] (DmaMaps [] []) =
    Ret (BLK_STS_OK, Some (0x10000, 0), None, iod, m') /\
  dm_data (nvme_kv_unmap_data (Some ([SG 0x10000 64], 64)) None iod m').1 = [SG 0x10000 64].
Proof.
  eexists _, _. split; [vm_compute; reflexivity|].
  exact (f_equal dm_data (inline_key_leaks_mapping true true (Some ([SG 0x10000 64], 64)) None [] []
    (DmaMaps [] []) BLK_STS_OK (Some (0x10000, 0)) None _ _ eq_refl)).
Defined.
