(* ===== verification/NvmeAio.v ===== *)
(** * Asynchronous requests of the NVMe kernel driver

    The part of [core.c] (driver for kernel 4.15.18) that serves the ioctls of
    the key-value commands: the table of contexts, the requests on their way
    through the device, the per-CPU completion workers, the events a process
    collects, and the synchronous command.

    A request is in one of four places: submitted to the device
    ([nk_inflight]), on the list of a completion worker ([nk_workers]), on the
    list that the worker works through ([nk_rounds]), or on the list of its
    context, where it waits for [nvme_get_ioevents].  Device and workers act at
    any time, a worker in steps of its own; [kstep] of [NvmeAioSpec] has all
    interleavings.

    Allocations succeed and requests are not cancelled.  Reference counts are
    left out: each function gives back the reference it takes, and
    [find_kaioctx] reads the table and takes the reference in one step, which
    the lock in it, commented out, was there for. *)

From stdpp Require Import base numbers list gmap sorting.
From S2P Require Import Prelude.
From S2P Require Import AdiTypes.
From S2P Require Import NvmeCmd.

Abbreviation AIOCTX_MAX := 1024%Z (only parsing).

(** ** Data *)

(** [struct nvme_kaiocb]: the event it becomes, its command with the key
    buffer, the user's buffer of [cb_len] bytes and the memory the device works
    on, which is another one when [cb_need_to_copy] is set. *)
Record nvme_kaiocb := Kaiocb {
  cb_event : nvme_aioevent;
  cb_opcode : Z;
  cb_cmd : nvme_command;
  cb_meta : option (list byte);
  cb_len : Z;
  cb_kbuf : option (list byte);
  cb_need_to_copy : bool
}.

(** [struct nvme_kaioctx]; [kx_live] is false once its memory is freed. *)
Record nvme_kaioctx := Kaioctx {
  kx_eventfd : Z;
  kx_list : list nvme_kaiocb;
  kx_live : bool
}.

(** Where a completion worker is in its loop over [tmp_list]: at the next request
    of [rest], or before the signal for the request it has just put on the list of
    a context.  A worker without an entry waits for its list to fill. *)
Inductive worker_round :=
| WLoop (rest : list nvme_kaiocb)
| WSignal (eventfd : Z) (rest : list nvme_kaiocb).

(** The driver with the descriptors of the process and the device.  [nk_tb_lock]
    says whether [g_kaioctx_tb_spinlock] is held between two calls, [nk_capable]
    whether the process is an administrator, [nk_files] are descriptors of other
    files than eventfds, and [nk_bounce] says for a command whether its buffer is
    unaligned: then it is what the new buffer of the kernel for it holds. *)
Record nvme_kernel (D : Type) := NvmeKernel {
  nk_tb : gmap Z nvme_kaioctx;            (* g_kaioctx_tb *)
  nk_tb_lock : bool;
  nk_aio_context_id : Z;
  nk_efds : gmap Z Z;                     (* eventfds and their counters *)
  nk_inflight : list nvme_kaiocb;
  nk_workers : gmap Z (list nvme_kaiocb); (* aio_w_ctx, by CPU *)
  nk_rounds : gmap Z worker_round;        (* the workers at work *)
  nk_capable : bool;
  nk_ns_id : Z;
  nk_files : gset Z;
  nk_bounce : nvme_passthru_kv_cmd -> option (list byte);
  nk_dev : D
}.

Arguments NvmeKernel {D}.
Arguments nk_tb {D}.
Arguments nk_tb_lock {D}.
Arguments nk_aio_context_id {D}.
Arguments nk_efds {D}.
Arguments nk_inflight {D}.
Arguments nk_workers {D}.
Arguments nk_rounds {D}.
Arguments nk_capable {D}.
Arguments nk_ns_id {D}.
Arguments nk_files {D}.
Arguments nk_bounce {D}.
Arguments nk_dev {D}.

(** The result and the status of an event, and what its buffer holds. *)
Definition ev_complete (result status : Z) (e : nvme_aioevent) : nvme_aioevent :=
  NvmeAioevent (ev_reqid e) (ev_ctxid e) result status (ev_data e).
Definition ev_set_data (data : option (list byte)) (e : nvme_aioevent) : nvme_aioevent :=
  NvmeAioevent (ev_reqid e) (ev_ctxid e) (ev_result e) (ev_status e) data.
Definition cb_set_event (e : nvme_aioevent) (cb : nvme_kaiocb) : nvme_kaiocb :=
  Kaiocb e (cb_opcode cb) (cb_cmd cb) (cb_meta cb) (cb_len cb) (cb_kbuf cb) (cb_need_to_copy cb).

Section driver.
Context {D : Type} `{!NvmeKvDevice D}.
Implicit Types (k : nvme_kernel D) (cb : nvme_kaiocb).

Definition nk_set_tb (tb : gmap Z nvme_kaioctx) k : nvme_kernel D :=
  NvmeKernel tb (nk_tb_lock k) (nk_aio_context_id k) (nk_efds k) (nk_inflight k) (nk_workers k) (nk_rounds k)
    (nk_capable k) (nk_ns_id k) (nk_files k) (nk_bounce k) (nk_dev k).
Definition nk_set_ids (lock : bool) (id : Z) k : nvme_kernel D :=
  NvmeKernel (nk_tb k) lock id (nk_efds k) (nk_inflight k) (nk_workers k) (nk_rounds k)
    (nk_capable k) (nk_ns_id k) (nk_files k) (nk_bounce k) (nk_dev k).
Definition nk_set_efds (efds : gmap Z Z) k : nvme_kernel D :=
  NvmeKernel (nk_tb k) (nk_tb_lock k) (nk_aio_context_id k) efds (nk_inflight k) (nk_workers k) (nk_rounds k)
    (nk_capable k) (nk_ns_id k) (nk_files k) (nk_bounce k) (nk_dev k).
Definition nk_set_requests (inflight : list nvme_kaiocb) (workers : gmap Z (list nvme_kaiocb)) k
    : nvme_kernel D :=
  NvmeKernel (nk_tb k) (nk_tb_lock k) (nk_aio_context_id k) (nk_efds k) inflight workers (nk_rounds k)
    (nk_capable k) (nk_ns_id k) (nk_files k) (nk_bounce k) (nk_dev k).
Definition nk_set_rounds (rounds : gmap Z worker_round) k : nvme_kernel D :=
  NvmeKernel (nk_tb k) (nk_tb_lock k) (nk_aio_context_id k) (nk_efds k) (nk_inflight k) (nk_workers k) rounds
    (nk_capable k) (nk_ns_id k) (nk_files k) (nk_bounce k) (nk_dev k).
Definition nk_set_dev (d : D) k : nvme_kernel D :=
  NvmeKernel (nk_tb k) (nk_tb_lock k) (nk_aio_context_id k) (nk_efds k) (nk_inflight k)
    (nk_workers k) (nk_rounds k) (nk_capable k) (nk_ns_id k) (nk_files k) (nk_bounce k) d.

(** ** Contexts *)

(** [find_kaioctx]: the id of the user indexes the table without a check. *)
Definition find_kaioctx (ctxid : Z) k : dev_outcome (option nvme_kaioctx) :=
  if negb ((0 <=? ctxid) && (ctxid <? AIOCTX_MAX)) then Undef
  else match nk_tb k !! ctxid with
       | Some x => if kx_live x then Ret (Some x) else Undef
       | None => Ret None
       end.

(** [nvme_del_aioctx]; the requests on the context's list are freed with it. *)
Definition nvme_del_aioctx (uctx : nvme_aioctx) k : dev_outcome (Z * nvme_kernel D) :=
  if nk_tb_lock k then Blocked
  else x ← find_kaioctx (ax_ctxid uctx) k;
       Ret (0, match x with
               | Some _ => nk_set_tb (delete (ax_ctxid uctx) (nk_tb k)) k
               | None => k
               end).

(** The first free entry of the table. *)
Definition first_free (tb : gmap Z nvme_kaioctx) : option Z :=
  find (fun i => bool_decide (tb !! i = None)) (seqZ 0 AIOCTX_MAX).

(** The context id for a new context; [None] when the table is full. *)
Definition next_context_id k : option Z :=
  match nk_tb k !! nk_aio_context_id k with
  | Some _ => first_free (nk_tb k)
  | None => Some (nk_aio_context_id k)
  end.

(** [nvme_set_aioctx]; [fault] says that writing the id back to the user fails.
    When the table is full the spin lock stays taken.  When writing back fails,
    the entry before the new one is cleared and the new context is freed but
    stays in the table. *)
Definition nvme_set_aioctx (fault : bool) (uctx : nvme_aioctx) k
    : dev_outcome (Z * nvme_aioctx * nvme_kernel D) :=
  if negb (nk_capable k) then Ret (- EACCES, uctx, k)
  else match nk_efds k !! ax_eventfd uctx with
       | None => Ret (if decide (ax_eventfd uctx ∈ nk_files k) then - EINVAL else - EBADF, uctx, k)
       | Some _ =>
           if nk_tb_lock k then Blocked
           else match next_context_id k with
                | None => Ret (- EMFILE, uctx, nk_set_ids true (nk_aio_context_id k) k)
                | Some id =>
                    let next := if id + 1 =? AIOCTX_MAX then 0 else id + 1 in
                    let tb live := <[id := Kaioctx (ax_eventfd uctx) [] live]> (nk_tb k) in
                    if negb fault
                    then Ret (0, NvmeAioctx id (ax_eventfd uctx), nk_set_tb (tb true) (nk_set_ids false next k))
                    else if id =? 0 then Undef
                    else Ret (- EINVAL, uctx,
                              nk_set_tb (delete (id - 1) (tb false)) (nk_set_ids false next k))
                end
       end.

(** ** Completion *)

(** [eventfd_signal (ctx, 1)] *)
Definition eventfd_signal (fd : Z) k : nvme_kernel D := nk_set_efds (alter (Z.add 1) fd (nk_efds k)) k.

(** [set_aioctx_event] up to the signal, which comes after the lock of the context
    is released and is a step of its own: the request becomes an event of its
    context, whose eventfd is returned; [None] if there is no such context. *)
Definition set_aioctx_event (ctxid : Z) cb k : dev_outcome (option Z * nvme_kernel D) :=
  x ← find_kaioctx ctxid k;
  match x with
  | Some x =>
      let x' := Kaioctx (kx_eventfd x) (kx_list x ++ [cb]) true in
      Ret (Some (kx_eventfd x), nk_set_tb (<[ctxid := x']> (nk_tb k)) k)
  | None => Ret (None, k)
  end.

(** Whether the data of a completed command goes back to an unaligned buffer. *)
Definition copies_back (opcode status : Z) : bool :=
  (is_kv_retrieve_cmd opcode && (status =? 0)) ||
  (is_kv_iter_read_cmd opcode && ((status =? 0) || (Z.land status 0xff =? 0x93))).

(** The user's buffer after the command; without a buffer of the kernel the
    device has written to it directly. *)
Definition user_data (need_to_copy : bool) (opcode status : Z) (kbuf udata : option (list byte))
    : option (list byte) :=
  match kbuf with
  | Some b => if negb need_to_copy || copies_back opcode status
              then memcpy_at 0 b <$> udata else udata
  | None => udata
  end.

(** [kv_complete_aio_fn] up to the signal; a request without a context is dropped. *)
Definition kv_complete_aio_fn cb k : dev_outcome (option Z * nvme_kernel D) :=
  let e := cb_event cb in
  let data := user_data (cb_need_to_copy cb) (cb_opcode cb) (ev_status e) (cb_kbuf cb) (ev_data e) in
  set_aioctx_event (ev_ctxid e) (cb_set_event (ev_set_data data e) cb) k.

(** The device completes the [i]-th request in flight: [kv_async_completion]
    sets its result and [insert_aiocb_to_worker] hands it to the worker of the
    CPU that takes the interrupt. *)
Definition kv_async_completion (i : nat) (cpu : Z) k : option (nvme_kernel D) :=
  cb ← nk_inflight k !! i;
  let '(status, result, kbuf, d) := dev_exec (cb_cmd cb) (cb_meta cb) (cb_kbuf cb) (nk_dev k) in
  let e := ev_complete (u32 result) (u16 status) (cb_event cb) in
  let cb' := Kaiocb e (cb_opcode cb) (cb_cmd cb) (cb_meta cb) (cb_len cb) kbuf (cb_need_to_copy cb) in
  let queue := default [] (nk_workers k !! cpu) in
  Some (nk_set_dev d (nk_set_requests (delete i (nk_inflight k))
                        (<[cpu := queue ++ [cb']]> (nk_workers k)) k)).

(** A step of [kvaio_percpu_worker_fn] on the CPU [cpu]: it waits for its list and takes
    it; completes the next request of what it took; signals the eventfd of its
    context; or is through and goes back to waiting. *)
Definition kvaio_percpu_worker (cpu : Z) k : dev_outcome (nvme_kernel D) :=
  let goto w k := nk_set_rounds (<[cpu := w]> (nk_rounds k)) k in
  match nk_rounds k !! cpu with
  | None =>
      match nk_workers k !! cpu with
      | Some (cb :: cbs) =>
          Ret (goto (WLoop (cb :: cbs)) (nk_set_requests (nk_inflight k) (delete cpu (nk_workers k)) k))
      | _ => Blocked
      end
  | Some (WLoop (cb :: rest)) =>
      '(fd, k) ← kv_complete_aio_fn cb k;
      Ret (goto (match fd with Some fd => WSignal fd rest | None => WLoop rest end) k)
  | Some (WLoop []) => Ret (nk_set_rounds (delete cpu (nk_rounds k)) k)
  | Some (WSignal fd rest) => Ret (goto (WLoop rest) (eventfd_signal fd k))
  end.

(** Up to [n] steps of the worker, until it waits. *)
Fixpoint worker_steps (n : nat) (cpu : Z) k : dev_outcome (nvme_kernel D) :=
  match n with
  | O => Ret k
  | S n =>
      match kvaio_percpu_worker cpu k with
      | Ret k => match nk_rounds k !! cpu with None => Ret k | Some _ => worker_steps n cpu k end
      | Blocked => Ret k
      | Undef => Undef
      end
  end.

(** [nvme_get_ioevents]: each request taken from the front of the context's list
    is put at the front of the list that goes to the user. *)
Definition nvme_get_ioevents (nr ctxid : Z) k
    : dev_outcome (Z * list nvme_aioevent * nvme_kernel D) :=
  if negb (nk_capable k) then Ret (- EACCES, [], k)
  else if (nr =? 0) || (128 <? nr) then Ret (- EINVAL, [], k)
  else
    x ← find_kaioctx ctxid k;
    match x with
    | Some x =>
        let n := Z.to_nat nr in
        Ret (0, cb_event <$> rev (take n (kx_list x)),
             nk_set_tb (<[ctxid := Kaioctx (kx_eventfd x) (drop n (kx_list x)) true]> (nk_tb k)) k)
    | None => Ret (0, [], k)
    end.

(** [read] on an eventfd: the counter, which is reset; with a counter of zero
    the caller waits. *)
Definition eventfd_read (fd : Z) k : dev_outcome (Z * nvme_kernel D) :=
  match nk_efds k !! fd with
  | Some n => if n =? 0 then Blocked else Ret (n, nk_set_efds (<[fd := 0]> (nk_efds k)) k)
  | None => Undef
  end.

(** ** Submission *)

(** The memory the device works on: the user's buffer, or for an unaligned one a
    new buffer of the kernel, with the user's data when the command writes. *)
Definition kv_dma_buffer (opcode : Z) (udata : option (list byte)) (bufflen : Z)
    (bounce : option (list byte)) : option (list byte) :=
  match udata with
  | Some u =>
      if bufflen =? 0 then None
      else let n := Z.to_nat bufflen in
           match bounce with
           | None => Some (take n u)
           | Some junk => if is_kv_store_cmd opcode || is_kv_append_cmd opcode
                          then Some (take n u) else Some (resize n Byte.x00 junk)
           end
  | None => None
  end.

(** [__nvme_submit_kv_user_cmd] for an asynchronous command. *)
Definition submit_kv_aio (c : nvme_command) (cmd : nvme_passthru_kv_cmd)
    (metadata : option (list byte)) (meta_len : Z) k : nvme_kernel D :=
  let cb := Kaiocb
    (NvmeAioevent (kc_reqid cmd) (kc_ctxid cmd) 0 0 (kc_data_addr cmd)) (kc_opcode cmd) c
    (if meta_len =? 0 then None else take (Z.to_nat meta_len) <$> metadata) (kc_data_length cmd)
    (kv_dma_buffer (kc_opcode cmd) (kc_data_addr cmd) (kc_data_length cmd) (nk_bounce k cmd))
    (bool_decide (is_Some (nk_bounce k cmd))) in
  nk_set_requests (nk_inflight k ++ [cb]) (nk_workers k) k.

(** [__nvme_submit_kv_user_cmd] for a synchronous command: the return value, the
    result, the status and the user's buffer. *)
Definition submit_kv_sync (c : nvme_command) (cmd : nvme_passthru_kv_cmd)
    (metadata : option (list byte)) (meta_len : Z) k
    : Z * Z * Z * option (list byte) * nvme_kernel D :=
  let '(status, result, kbuf, d) := dev_exec c
    (if meta_len =? 0 then None else take (Z.to_nat meta_len) <$> metadata)
    (kv_dma_buffer (kc_opcode cmd) (kc_data_addr cmd) (kc_data_length cmd) (nk_bounce k cmd)) (nk_dev k) in
  let st := u16 status in
  (st, u32 result, st,
   user_data (bool_decide (is_Some (nk_bounce k cmd))) (kc_opcode cmd) st kbuf (kc_data_addr cmd),
   nk_set_dev d k).

(** [nvme_user_kv_cmd] *)
Definition nvme_user_kv_cmd (cmd : nvme_passthru_kv_cmd) (aio : bool) k
    : dev_outcome (Z * Z * Z * option (list byte) * nvme_kernel D) :=
  let fail e := Ret (- e, 0, 0, kc_data_addr cmd, k) in
  if negb (nk_capable k) then fail EACCES
  else if negb (kc_flags cmd =? 0) then fail EINVAL
  else if negb (is_kv_cmd (kc_opcode cmd)) then fail EINVAL
  else
    r ← kv_build_command cmd;
    match r with
    | inl result => Ret (- EINVAL, if aio then 0 else u32 result, 0, kc_data_addr cmd, k)
    | inr (c, metadata, meta_len) =>
        if aio then Ret (0, 0, 0, kc_data_addr cmd, submit_kv_aio c cmd metadata meta_len k)
        else Ret (submit_kv_sync c cmd metadata meta_len k)
    end.

(** [nvme_user_cmd] for an admin command with the buffer [data]: the return
    value and the buffer. *)
Definition nvme_user_cmd (opcode nsid cdw10 : Z) (data : list byte) k : Z * list byte * nvme_kernel D :=
  if negb (nk_capable k) then (- EACCES, data, k)
  else let '(status, _, data, d) := dev_admin opcode nsid cdw10 data (nk_dev k) in
       (u16 status, data, nk_set_dev d k).
End driver.
