(* ===== verification/NvmeAioSpec.v ===== *)
(** * Theorems on the asynchronous requests of the NVMe driver

    With any interleaving of the process, the device and the steps of the
    completion workers, a request that was submitted is still in the driver, was
    delivered as an event, or is gone with its context, once; and the eventfd of a
    context counts its events.  Then the table of contexts: ids are fresh, and
    what goes wrong when the table is full or the process cannot be written to. *)

From stdpp Require Import base numbers list gmap sorting.
From S2P Require Import Prelude.
From S2P Require Import AdiTypes.
From S2P Require Import NvmeCmd.
From S2P Require Import SimDevice.
From S2P Require Import NvmeAio.

(** ** Interleavings *)

(** What is seen of a step: a request (context and request id) handed in, put on the
    list of a context with the eventfd [fd], or dropped because it has none; events
    handed out; a read of an eventfd; a context set up, or deleted with the requests
    on its list. *)
Inductive klabel :=
| LSubmit (t : Z * Z)
| LList (fd : Z) (t : Z * Z)
| LDrop (t : Z * Z)
| LDeliver (ts : list (Z * Z))
| LRead (fd n : Z)
| LSet
| LDel (c : Z) (ts : list (Z * Z))
| LTau.

Definition ev_tag (e : nvme_aioevent) : Z * Z := (ev_ctxid e, ev_reqid e).
Definition cb_tag (cb : nvme_kaiocb) : Z * Z := ev_tag (cb_event cb).

Definition submitted (ls : list klabel) : list (Z * Z) :=
  concat ((fun l => match l with LSubmit t => [t] | _ => [] end) <$> ls).
Definition delivered (ls : list klabel) : list (Z * Z) :=
  concat ((fun l => match l with LDeliver ts => ts | _ => [] end) <$> ls).
Definition listed (ls : list klabel) : list (Z * Z) :=
  concat ((fun l => match l with LList _ t => [t] | _ => [] end) <$> ls).
Definition deleted (ls : list klabel) : list (Z * Z) :=
  concat ((fun l => match l with LDel _ ts => ts | _ => [] end) <$> ls).
Definition lost (ls : list klabel) : list (Z * Z) :=
  concat ((fun l => match l with LDrop t => [t] | LDel _ ts => ts | _ => [] end) <$> ls).
Definition read_total (fd : Z) (ls : list klabel) : Z :=
  foldr Z.add 0 ((fun l => match l with LRead fd' n => if fd' =? fd then n else 0 | _ => 0 end) <$> ls).
Definition listed_at (fd : Z) (ls : list klabel) : Z :=
  foldr Z.add 0 ((fun l => match l with LList fd' _ => if fd' =? fd then 1 else 0 | _ => 0 end) <$> ls).

(** The requests of a context in a list. *)
Definition ctx_count (c : Z) (ts : list (Z * Z)) : Z := Z.of_nat (length (filter (fun t => t.1 = c) ts)).

(** How often [fd] is in a list. *)
Definition occurs (fd : Z) (l : list Z) : Z := Z.of_nat (length (filter (fun x => x = fd) l)).

Definition round_rest (w : worker_round) : list nvme_kaiocb := match w with WLoop rest | WSignal _ rest => rest end.
Definition round_signal (w : worker_round) : list Z := match w with WSignal fd _ => [fd] | WLoop _ => [] end.

(** ** The table of contexts *)

Section table_ids.
Context {D : Type} `{!NvmeKvDevice D}.
Implicit Types (k : nvme_kernel D).

Definition tb_wf k : Prop :=
  nk_tb_lock k = false /\ 0 <= nk_aio_context_id k < AIOCTX_MAX /\
  forall c, is_Some (nk_tb k !! c) -> 0 <= c < AIOCTX_MAX.

Definition tb_full k : Prop := forall c, 0 <= c < AIOCTX_MAX -> is_Some (nk_tb k !! c).

Lemma first_free_some tb i : first_free tb = Some i -> 0 <= i < AIOCTX_MAX /\ tb !! i = None.
Proof.
  unfold first_free. intros H. apply find_some in H as [Hin H]. apply bool_decide_eq_true in H.
  apply list_elem_of_In, elem_of_seqZ in Hin. split; [lia|done].
Qed.

Lemma first_free_none tb i : first_free tb = None -> 0 <= i < AIOCTX_MAX -> is_Some (tb !! i).
Proof.
  unfold first_free. intros H Hi. apply find_none with (x := i) in H.
  - apply bool_decide_eq_false in H. by apply not_eq_None_Some.
  - apply list_elem_of_In, elem_of_seqZ. lia.
Qed.

Lemma next_context_id_range k :
  0 <= nk_aio_context_id k < AIOCTX_MAX ->
  match next_context_id k with Some id => 0 <= id < AIOCTX_MAX /\ nk_tb k !! id = None | None => True end.
Proof.
  intros Hid. unfold next_context_id. destruct (nk_tb k !! nk_aio_context_id k) eqn:E; [|done].
  destruct (first_free (nk_tb k)) as [i|] eqn:F; [by apply first_free_some|done].
Qed.

Lemma next_context_id_spec k :
  tb_wf k ->
  match next_context_id k with
  | Some id => 0 <= id < AIOCTX_MAX /\ nk_tb k !! id = None
  | None => tb_full k
  end.
Proof.
  intros (_ & Hid & _). unfold next_context_id. destruct (nk_tb k !! nk_aio_context_id k) eqn:E; [|done].
  destruct (first_free (nk_tb k)) as [i|] eqn:F; [by apply first_free_some|].
  intros c Hc. by apply first_free_none.
Qed.
End table_ids.

(** ** Steps *)

Section steps.
Context {D : Type} `{!NvmeKvDevice D}.
Implicit Types (k : nvme_kernel D) (cb : nvme_kaiocb) (x : nvme_kaioctx) (w : worker_round).

(** What a worker does with the next request it has taken. *)
Definition worker_label (cpu : Z) k : klabel :=
  match nk_rounds k !! cpu with
  | Some (WLoop (cb :: _)) =>
      match nk_tb k !! ev_ctxid (cb_event cb) with
      | Some x => LList (kx_eventfd x) (cb_tag cb)
      | None => LDrop (cb_tag cb)
      end
  | _ => LTau
  end.

(** The process submits requests to entries of the table, sets up and deletes
    contexts, collects events and reads eventfds; the device completes a request; a
    completion worker makes a step.  Writing the id of a new context back to the
    process succeeds. *)
Inductive kstep k : klabel -> nvme_kernel D -> Prop :=
| KSubmit cmd res st data k' :
    0 <= kc_ctxid cmd < AIOCTX_MAX -> nvme_user_kv_cmd cmd true k = Ret (0, res, st, data, k') ->
    kstep k (LSubmit (kc_ctxid cmd, kc_reqid cmd)) k'
| KComplete i cpu k' : kv_async_completion i cpu k = Some k' -> kstep k LTau k'
| KWorker cpu k' : kvaio_percpu_worker cpu k = Ret k' -> kstep k (worker_label cpu k) k'
| KGet nr ctxid evs k' :
    nvme_get_ioevents nr ctxid k = Ret (0, evs, k') -> kstep k (LDeliver (ev_tag <$> evs)) k'
| KRead fd n k' : eventfd_read fd k = Ret (n, k') -> kstep k (LRead fd n) k'
| KSet uctx r u k' : nvme_set_aioctx false uctx k = Ret (r, u, k') -> kstep k LSet k'
| KDel uctx r k' :
    nvme_del_aioctx uctx k = Ret (r, k') ->
    kstep k (LDel (ax_ctxid uctx) (cb_tag <$> from_option kx_list [] (nk_tb k !! ax_ctxid uctx))) k'.

Inductive ktrace k : list klabel -> nvme_kernel D -> Prop :=
| kt_nil : ktrace k [] k
| kt_step ls k1 l k2 : ktrace k ls k1 -> kstep k1 l k2 -> ktrace k (ls ++ [l]) k2.

(** The requests inside the driver, and the signals that are about to be made. *)
Definition in_workers k : list (Z * Z) := gather (fmap cb_tag) (nk_workers k).
Definition in_rounds k : list (Z * Z) := gather (fun w => cb_tag <$> round_rest w) (nk_rounds k).
Definition in_contexts k : list (Z * Z) := gather (fun x => cb_tag <$> kx_list x) (nk_tb k).
Definition outstanding k : list (Z * Z) :=
  (cb_tag <$> nk_inflight k) ++ in_workers k ++ in_rounds k ++ in_contexts k.
Definition signals k : list Z := gather round_signal (nk_rounds k).
Definition pending (fd : Z) k : Z := occurs fd (signals k).

(** Contexts are live, in range, and have an open eventfd. *)
Definition tb_ok k : Prop :=
  forall c x, nk_tb k !! c = Some x -> kx_live x = true /\ 0 <= c < AIOCTX_MAX /\ is_Some (nk_efds k !! kx_eventfd x).
Definition lists_ok k : Prop :=
  forall c x, nk_tb k !! c = Some x -> Forall (fun cb => (cb_tag cb).1 = c) (kx_list x).
Definition in_table (t : Z * Z) : Prop := 0 <= t.1 < AIOCTX_MAX.
Definition kinv k : Prop :=
  tb_ok k /\ lists_ok k /\ Forall in_table (outstanding k) /\
  Forall (fun fd => is_Some (nk_efds k !! fd)) (signals k) /\ 0 <= nk_aio_context_id k < AIOCTX_MAX.

(** ** Counting *)

Lemma ctx_count_app c ts ts' : ctx_count c (ts ++ ts') = ctx_count c ts + ctx_count c ts'.
Proof. unfold ctx_count. rewrite filter_app, length_app. lia. Qed.

Lemma ctx_count_cons c t ts : ctx_count c (t :: ts) = (if decide (t.1 = c) then 1 else 0) + ctx_count c ts.
Proof. unfold ctx_count. rewrite filter_cons. destruct (decide _); simpl length; lia. Qed.

Lemma ctx_count_all c ts : Forall (fun t => t.1 = c) ts -> ctx_count c ts = Z.of_nat (length ts).
Proof. intros H. unfold ctx_count. by rewrite filter_all. Qed.

Lemma occurs_app fd l l' : occurs fd (l ++ l') = occurs fd l + occurs fd l'.
Proof. unfold occurs. rewrite filter_app, length_app. lia. Qed.

Lemma occurs_single fd fd' : occurs fd [fd'] = if fd' =? fd then 1 else 0.
Proof. unfold occurs. rewrite filter_cons. destruct (decide (fd' = fd)), (Z.eqb_spec fd' fd); done. Qed.

Lemma occurs_perm fd l l' : l ≡ₚ l' -> occurs fd l = occurs fd l'.
Proof. intros H. unfold occurs. by rewrite H. Qed.

Lemma sum_app (l l' : list Z) : foldr Z.add 0 (l ++ l') = foldr Z.add 0 l + foldr Z.add 0 l'.
Proof. induction l as [|a l IH]; simpl; lia. Qed.

Lemma read_total_app fd ls ls' : read_total fd (ls ++ ls') = read_total fd ls + read_total fd ls'.
Proof. unfold read_total. by rewrite fmap_app, sum_app. Qed.

Lemma listed_at_app fd ls ls' : listed_at fd (ls ++ ls') = listed_at fd ls + listed_at fd ls'.
Proof. unfold listed_at. by rewrite fmap_app, sum_app. Qed.

(** ** One step *)

(** The context [c] survives the step. *)
Definition keeps_ctx (c : Z) (l : klabel) : Prop := match l with LDel c' _ => c' <> c | _ => True end.

(** A step moves requests along, keeps every counter equal to the signals made and
    not read, and the lists of the contexts equal to what was listed and not taken. *)
Record step_ok k (l : klabel) k' : Prop := {
  so_inv : kinv k';
  so_out : outstanding k ++ submitted [l] ≡ₚ delivered [l] ++ lost [l] ++ outstanding k';
  so_lists : in_contexts k ++ listed [l] ≡ₚ delivered [l] ++ deleted [l] ++ in_contexts k';
  so_count : forall fd n, nk_efds k !! fd = Some n ->
    exists n', nk_efds k' !! fd = Some n' /\
      n' + read_total fd [l] + pending fd k' = n + pending fd k + listed_at fd [l];
  so_ctx : forall c x, nk_tb k !! c = Some x -> keeps_ctx c l ->
    exists x', nk_tb k' !! c = Some x' /\ kx_eventfd x' = kx_eventfd x /\
      Z.of_nat (length (kx_list x')) + ctx_count c (delivered [l]) =
      Z.of_nat (length (kx_list x)) + ctx_count c (listed [l]);
  so_label : match l with
    | LList fd t => exists x, nk_tb k !! t.1 = Some x /\ kx_eventfd x = fd
    | LDrop t => nk_tb k !! t.1 = None
    | _ => True
    end
}.

Lemma find_kaioctx_live c x k : nk_tb k !! c = Some x -> tb_ok k -> find_kaioctx c k = Ret (Some x).
Proof.
  intros Hx Hok. destruct (Hok c x Hx) as (Hl & Hr & _). unfold find_kaioctx.
  destruct (Z.leb_spec 0 c), (Z.ltb_spec c AIOCTX_MAX); simpl; try lia. by rewrite Hx, Hl.
Qed.

Lemma find_kaioctx_free c k : nk_tb k !! c = None -> 0 <= c < AIOCTX_MAX -> find_kaioctx c k = Ret None.
Proof.
  intros Hx Hr. unfold find_kaioctx. destruct (Z.leb_spec 0 c), (Z.ltb_spec c AIOCTX_MAX); simpl; try lia. by rewrite Hx.
Qed.

(** Steps that leave the contexts, the eventfds and the signals alone. *)
Lemma step_ok_same l k k' :
  kinv k -> nk_tb k' = nk_tb k -> nk_efds k' = nk_efds k -> signals k' ≡ₚ signals k ->
  nk_aio_context_id k' = nk_aio_context_id k ->
  (match l with LSubmit t => in_table t | LTau => True | _ => False end) ->
  outstanding k ++ submitted [l] ≡ₚ outstanding k' -> step_ok k l k'.
Proof.
  intros (Hok & Hl & Ho & Hs & Hid) Ht He Hsig Hi Hlab Hp.
  assert (Hnone : delivered [l] = [] /\ lost [l] = [] /\ listed [l] = [] /\ deleted [l] = [] /\
    (forall fd, read_total fd [l] = 0) /\ forall fd, listed_at fd [l] = 0) by (by destruct l).
  destruct Hnone as (E0 & E2 & E1 & E3 & Hr & Hla). split; rewrite ?E0, ?E1, ?E2, ?E3.
  - unfold kinv, tb_ok, lists_ok. rewrite Ht, He, Hi, Hsig, <- Hp. split_and!; try done; [|lia..].
    apply Forall_app. split; [done|]. destruct l; try done. by apply Forall_singleton.
  - by rewrite Hp.
  - rewrite app_nil_r. unfold in_contexts. by rewrite Ht.
  - intros fd n Hn. exists n. rewrite He, Hr, Hla. unfold pending. rewrite (occurs_perm _ _ _ Hsig). split; [done|lia].
  - intros c x Hx _. exists x. by rewrite Ht.
  - by destruct l.
Qed.

Lemma user_kv_aio_inv cmd res st data k k' :
  nvme_user_kv_cmd cmd true k = Ret (0, res, st, data, k') ->
  exists c metadata meta_len, kv_build_command cmd = Ret (inr (c, metadata, meta_len)) /\
    k' = submit_kv_aio c cmd metadata meta_len k.
Proof.
  unfold nvme_user_kv_cmd. intros H.
  destruct (negb (nk_capable k)); [done|]. destruct (negb (kc_flags cmd =? 0)); [done|].
  destruct (negb (is_kv_cmd (kc_opcode cmd))); [done|].
  destruct (kv_build_command cmd) as [[r|[[c m] n]]| |]; try done. simpl in H.
  injection H as _ _ _ <-. eauto.
Qed.

Lemma step_submit cmd res st data k k' :
  kinv k -> 0 <= kc_ctxid cmd < AIOCTX_MAX -> nvme_user_kv_cmd cmd true k = Ret (0, res, st, data, k') ->
  step_ok k (LSubmit (kc_ctxid cmd, kc_reqid cmd)) k'.
Proof.
  intros Hk Hc (c & m & n & _ & ->)%user_kv_aio_inv. apply step_ok_same; try done.
  unfold outstanding, in_workers, in_rounds, in_contexts, submit_kv_aio. simpl.
  rewrite fmap_app. simpl. solve_Permutation.
Qed.

Lemma in_workers_app k i cpu cb inflight :
  in_workers (nk_set_requests inflight (<[cpu := default [] (nk_workers k !! cpu) ++ [cb]]> (nk_workers k)) i)
    ≡ₚ in_workers k ++ [cb_tag cb].
Proof.
  unfold in_workers. simpl. rewrite gather_insert, fmap_app. simpl.
  destruct (nk_workers k !! cpu) as [q|] eqn:E; simpl.
  - rewrite (gather_lookup _ _ _ _ E). solve_Permutation.
  - rewrite gather_delete by done. solve_Permutation.
Qed.

Lemma step_complete i cpu k k' : kinv k -> kv_async_completion i cpu k = Some k' -> step_ok k LTau k'.
Proof.
  intros Hk H. unfold kv_async_completion in H. destruct (nk_inflight k !! i) as [cb|] eqn:Ei; [|done].
  simpl in H. destruct (dev_exec _ _ _ _) as [[[status result] kbuf] d]. injection H as <-.
  apply step_ok_same; try done. unfold outstanding.
  set (cb' := Kaiocb _ _ _ _ _ _ _).
  change (in_contexts (nk_set_dev _ _)) with (in_contexts k). change (in_rounds (nk_set_dev _ _)) with (in_rounds k).
  change (in_workers (nk_set_dev d ?k2)) with (in_workers k2). rewrite in_workers_app.
  simpl. change (cb_tag cb') with (cb_tag cb).
  assert (Hi : nk_inflight k ≡ₚ cb :: delete i (nk_inflight k)) by (by apply delete_Permutation).
  rewrite Hi at 1. simpl. solve_Permutation.
Qed.

(** *** The worker *)

(** A worker moves on: the requests left to it, and its signal. *)
Lemma round_moves k k' cpu w w' :
  nk_rounds k !! cpu = Some w -> nk_rounds k' = <[cpu := w']> (nk_rounds k) ->
  exists rs ss, in_rounds k ≡ₚ (cb_tag <$> round_rest w) ++ rs /\ in_rounds k' ≡ₚ (cb_tag <$> round_rest w') ++ rs /\
    signals k ≡ₚ round_signal w ++ ss /\ signals k' ≡ₚ round_signal w' ++ ss.
Proof.
  intros Hw Hr. eexists _, _. unfold in_rounds, signals. rewrite Hr.
  split; [by apply (gather_lookup (fun w => cb_tag <$> round_rest w))|].
  split; [apply (gather_insert (fun w => cb_tag <$> round_rest w))|].
  split; [by apply (gather_lookup round_signal)|apply (gather_insert round_signal)].
Qed.

Lemma step_take cpu cbs k :
  kinv k -> nk_rounds k !! cpu = None -> nk_workers k !! cpu = Some cbs ->
  step_ok k LTau (nk_set_rounds (<[cpu := WLoop cbs]> (nk_rounds k)) (nk_set_requests (nk_inflight k) (delete cpu (nk_workers k)) k)).
Proof.
  intros Hk Hr Hw. apply step_ok_same; try done.
  - unfold signals. simpl. by rewrite gather_insert, gather_delete.
  - unfold outstanding, in_workers, in_rounds, in_contexts. simpl.
    rewrite gather_insert, (gather_delete _ _ _ Hr), (gather_lookup _ _ _ _ Hw). simpl. solve_Permutation.
Qed.

Lemma step_round_ends cpu k :
  kinv k -> nk_rounds k !! cpu = Some (WLoop []) ->
  step_ok k LTau (nk_set_rounds (delete cpu (nk_rounds k)) k).
Proof.
  intros Hk Hr. apply step_ok_same; try done.
  - unfold signals. simpl. by rewrite (gather_lookup _ _ _ _ Hr).
  - unfold outstanding, in_workers, in_rounds, in_contexts. simpl.
    rewrite (gather_lookup _ _ _ _ Hr). simpl. solve_Permutation.
Qed.

Lemma step_dropped cpu cb rest k :
  kinv k -> nk_rounds k !! cpu = Some (WLoop (cb :: rest)) -> nk_tb k !! (cb_tag cb).1 = None ->
  step_ok k (LDrop (cb_tag cb)) (nk_set_rounds (<[cpu := WLoop rest]> (nk_rounds k)) k).
Proof.
  intros (Hok & Hl & Ho & Hs & Hid) Hr Hx. set (k' := nk_set_rounds _ k).
  destruct (round_moves k k' cpu _ (WLoop rest) Hr eq_refl) as (rs & ss & R1 & R2 & S1 & S2). cbn in R1, R2, S1, S2.
  assert (Hout : outstanding k ≡ₚ cb_tag cb :: outstanding k').
  { unfold outstanding. rewrite R1, R2. change (in_contexts k') with (in_contexts k). change (in_workers k') with (in_workers k).
    change (nk_inflight k') with (nk_inflight k). solve_Permutation. }
  split.
  - refine (conj Hok (conj Hl (conj _ (conj _ Hid)))); [|by rewrite S2, <- S1]. rewrite Hout in Ho. by apply Forall_cons in Ho as [_ Ho].
  - rewrite Hout, app_nil_r. done.
  - by rewrite app_nil_r.
  - intros fd n Hn. exists n. split; [done|]. unfold pending. rewrite (occurs_perm _ _ _ S1), (occurs_perm _ _ _ S2).
    unfold read_total, listed_at. simpl. lia.
  - intros c x Hc _. by exists x.
  - done.
Qed.

Lemma in_contexts_insert k c x x' :
  nk_tb k !! c = Some x ->
  exists ts, in_contexts k ≡ₚ (cb_tag <$> kx_list x) ++ ts /\
    in_contexts (nk_set_tb (<[c := x']> (nk_tb k)) k) ≡ₚ (cb_tag <$> kx_list x') ++ ts.
Proof.
  intros Hx. eexists. split; [by apply (gather_lookup (fun x => cb_tag <$> kx_list x))|].
  apply (gather_insert (fun x => cb_tag <$> kx_list x)).
Qed.

(** Replacing a context by one with the same eventfd. *)
Lemma tb_ok_insert k c x x' :
  tb_ok k -> nk_tb k !! c = Some x -> kx_eventfd x' = kx_eventfd x -> kx_live x' = true ->
  tb_ok (nk_set_tb (<[c := x']> (nk_tb k)) k).
Proof.
  intros Hok Hx He Hl c2 y. simpl. rewrite lookup_insert_Some. intros [[<- <-]|[_ Hy]]; [|by apply Hok].
  rewrite He. destruct (Hok c x Hx) as (_ & ? & ?). done.
Qed.

Lemma step_listed cpu cb cb' rest x k :
  kinv k -> nk_rounds k !! cpu = Some (WLoop (cb :: rest)) -> nk_tb k !! (cb_tag cb).1 = Some x -> cb_tag cb' = cb_tag cb ->
  step_ok k (LList (kx_eventfd x) (cb_tag cb))
    (nk_set_rounds (<[cpu := WSignal (kx_eventfd x) rest]> (nk_rounds k))
       (nk_set_tb (<[(cb_tag cb).1 := Kaioctx (kx_eventfd x) (kx_list x ++ [cb']) true]> (nk_tb k)) k)).
Proof.
  intros (Hok & Hl & Ho & Hs & Hid) Hr Hx Ecb. set (c := (cb_tag cb).1) in *. set (x' := Kaioctx _ _ true). set (k' := nk_set_rounds _ _).
  destruct (round_moves k k' cpu _ (WSignal (kx_eventfd x) rest) Hr eq_refl) as (rs & ss & R1 & R2 & S1 & S2). cbn in R1, R2, S1, S2.
  destruct (in_contexts_insert k c x x' Hx) as (ts & C1 & C2). change (in_contexts (nk_set_tb _ k)) with (in_contexts k') in C2.
  unfold x' in C2. cbn [kx_list] in C2. rewrite fmap_app in C2. cbn in C2. rewrite Ecb in C2.
  destruct (Hok c x Hx) as (_ & _ & Hefd).
  assert (Hout : outstanding k ≡ₚ outstanding k').
  { unfold outstanding. rewrite R1, R2, C1, C2. change (in_workers k') with (in_workers k).
    change (nk_inflight k') with (nk_inflight k). solve_Permutation. }
  split.
  - refine (conj _ (conj _ (conj _ (conj _ Hid)))); [by eapply (tb_ok_insert k c x)| |by rewrite <- Hout|].
    + intros c2 y. simpl. rewrite lookup_insert_Some. intros [[<- <-]|[_ Hy]]; [|by eapply Hl].
      unfold x'. cbn [kx_list]. apply Forall_app. split; [by eapply Hl|]. apply Forall_singleton. exact (f_equal fst Ecb).
    + rewrite S2. constructor; [done|]. by rewrite <- S1.
  - rewrite app_nil_r. done.
  - rewrite C1, C2. cbn. solve_Permutation.
  - intros fd n Hn. exists n. split; [done|]. unfold pending. rewrite (occurs_perm _ _ _ S1), (occurs_perm _ _ _ S2).
    rewrite (occurs_app fd [_] ss : occurs fd (_ :: ss) = _), occurs_single. unfold read_total, listed_at. simpl. lia.
  - intros c2 y Hy _. destruct (decide (c2 = c)) as [->|Hne].
    + exists x'. simpl. rewrite lookup_insert_eq. split; [done|]. assert (y = x) as -> by congruence. split; [done|].
      unfold delivered, listed. simpl. rewrite (ctx_count_all c [_]) by (by repeat constructor). rewrite length_app. simpl. unfold ctx_count. simpl. lia.
    + exists y. simpl. rewrite lookup_insert_ne by done. split; [done|]. split; [done|].
      unfold delivered, listed. simpl. rewrite ctx_count_cons, decide_False by done. done.
  - by exists x.
Qed.

Lemma step_signal cpu fd rest k :
  kinv k -> nk_rounds k !! cpu = Some (WSignal fd rest) ->
  step_ok k LTau (nk_set_rounds (<[cpu := WLoop rest]> (nk_rounds k)) (eventfd_signal fd k)).
Proof.
  intros (Hok & Hl & Ho & Hs & Hid) Hr. set (k' := nk_set_rounds _ _).
  destruct (round_moves k k' cpu _ (WLoop rest) Hr eq_refl) as (rs & ss & R1 & R2 & S1 & S2). cbn in R1, R2, S1, S2.
  assert (Hdom : forall f, is_Some (nk_efds k !! f) -> is_Some (nk_efds k' !! f)) by (intros f; by apply lookup_alter_is_Some).
  assert (Hout : outstanding k ≡ₚ outstanding k').
  { unfold outstanding. rewrite R1, R2. done. }
  split.
  - refine (conj _ (conj Hl (conj _ (conj _ Hid)))); [|by rewrite <- Hout|].
    + intros c x Hx. destruct (Hok c x Hx) as (? & ? & ?). auto.
    + rewrite S1 in Hs. apply Forall_cons in Hs as [_ Hs]. rewrite S2. eapply Forall_impl; [exact Hs|auto].
  - rewrite app_nil_r. done.
  - by rewrite app_nil_r.
  - intros f n Hn. unfold pending. rewrite (occurs_perm _ _ _ S1), (occurs_perm _ _ _ S2).
    rewrite (occurs_app f [_] ss : occurs f (_ :: ss) = _), occurs_single. unfold read_total, listed_at. simpl.
    destruct (Z.eqb_spec fd f) as [->|Hne].
    + exists (1 + n). rewrite lookup_alter_eq, Hn. split; [done|lia].
    + exists n. rewrite lookup_alter_ne by done. split; [done|lia].
  - intros c x Hx _. by exists x.
  - done.
Qed.

Lemma step_worker cpu k :
  kinv k -> match kvaio_percpu_worker cpu k with Ret k' => step_ok k (worker_label cpu k) k' | Blocked => True | Undef => False end.
Proof.
  intros Hk. unfold kvaio_percpu_worker, worker_label. destruct (nk_rounds k !! cpu) as [[[|cb rest]|fd rest]|] eqn:Hr.
  - by apply step_round_ends.
  - assert (Hin : in_table (cb_tag cb)).
    { destruct Hk as (_ & _ & Ho & _). unfold outstanding in Ho. rewrite !Forall_app in Ho. destruct Ho as (_ & _ & Ho & _).
      rewrite (gather_lookup (fun w => cb_tag <$> round_rest w) _ _ _ Hr : in_rounds k ≡ₚ _) in Ho. by inversion Ho. }
    unfold kv_complete_aio_fn, set_aioctx_event. change (ev_ctxid (cb_event cb)) with (cb_tag cb).1.
    destruct (nk_tb k !! (cb_tag cb).1) as [x|] eqn:Hx.
    + rewrite (find_kaioctx_live _ x) by (done || apply Hk). cbn [mbind dev_outcome_bind].
      set (cb' := cb_set_event _ cb). exact (step_listed cpu cb cb' rest x k Hk Hr Hx eq_refl).
    + rewrite find_kaioctx_free by done. cbn [mbind dev_outcome_bind]. by apply step_dropped.
  - exact (step_signal cpu fd rest k Hk Hr).
  - destruct (nk_workers k !! cpu) as [[|cb cbs]|] eqn:Hw; try done. exact (step_take cpu (cb :: cbs) k Hk Hr Hw).
Qed.

(** *** The process *)

Lemma ioevents_inv nr ctxid evs k k' :
  nvme_get_ioevents nr ctxid k = Ret (0, evs, k') ->
  (evs = [] /\ k' = k) \/
  exists x, nk_tb k !! ctxid = Some x /\ evs = cb_event <$> rev (take (Z.to_nat nr) (kx_list x)) /\
    k' = nk_set_tb (<[ctxid := Kaioctx (kx_eventfd x) (drop (Z.to_nat nr) (kx_list x)) true]> (nk_tb k)) k.
Proof.
  unfold nvme_get_ioevents, find_kaioctx. intros H.
  destruct (negb (nk_capable k)); [done|]. destruct ((nr =? 0) || (128 <? nr)); [done|].
  destruct (negb _) in H; [done|]. destruct (nk_tb k !! ctxid) as [x|] eqn:Hx.
  - destruct (kx_live x); [|done]. injection H as <- <-. right. exists x. done.
  - injection H as <- <-. by left.
Qed.

Lemma step_ok_idle l k : kinv k -> l = LDeliver [] \/ l = LSet \/ (exists c, l = LDel c []) -> step_ok k l k.
Proof.
  intros Hk Hl. assert (Hn : submitted [l] = [] /\ delivered [l] = [] /\ lost [l] = [] /\ listed [l] = [] /\ deleted [l] = [] /\
    (forall fd, read_total fd [l] = 0) /\ (forall fd, listed_at fd [l] = 0)) by (destruct Hl as [->|[->|[c ->]]]; done).
  destruct Hn as (E0 & E1 & E3 & E2 & E4 & Er & El). split; rewrite ?E0, ?E1, ?E2, ?E3, ?E4, ?app_nil_r; try done.
  - intros fd n Hn. exists n. rewrite Er, El. split; [done|lia].
  - intros c x Hx _. exists x. done.
  - by destruct Hl as [->|[->|[c ->]]].
Qed.

Lemma step_get nr ctxid evs k k' :
  kinv k -> nvme_get_ioevents nr ctxid k = Ret (0, evs, k') -> step_ok k (LDeliver (ev_tag <$> evs)) k'.
Proof.
  intros Hk H. destruct (ioevents_inv _ _ _ _ _ H) as [[-> ->]|(x & Hx & -> & ->)]; [apply step_ok_idle; auto|].
  destruct Hk as (Hok & Hl & Ho & Hs & Hid). clear H. set (n := Z.to_nat nr). set (x' := Kaioctx _ _ true).
  set (ts := ev_tag <$> (cb_event <$> rev (take n (kx_list x)))).
  assert (Hts : ts ≡ₚ cb_tag <$> take n (kx_list x)).
  { unfold ts. rewrite <- list_fmap_compose. by rewrite <- (Permutation_rev (take n (kx_list x))). }
  set (k' := nk_set_tb _ k). destruct (in_contexts_insert k ctxid x x' Hx) as (rs & C1 & C2). fold k' in C2.
  assert (Hctx : in_contexts k ≡ₚ ts ++ in_contexts k').
  { rewrite C1, C2, Hts. unfold x'. cbn [kx_list]. rewrite <- (take_drop n (kx_list x)) at 1. rewrite fmap_app. solve_Permutation. }
  assert (Hout : outstanding k ≡ₚ ts ++ outstanding k').
  { unfold outstanding. rewrite Hctx. change (in_rounds k') with (in_rounds k). change (in_workers k') with (in_workers k).
    change (nk_inflight k') with (nk_inflight k). solve_Permutation. }
  assert (Hdel : delivered [LDeliver ts] = ts) by (unfold delivered; simpl; apply app_nil_r).
  split; rewrite ?Hdel, ?app_nil_r; try done.
  - refine (conj _ (conj _ (conj _ (conj Hs Hid)))); [by eapply (tb_ok_insert k ctxid x)| |].
    + intros c y. unfold k'. simpl. rewrite lookup_insert_Some. intros [[<- <-]|[_ Hy]]; [|by eapply Hl].
      simpl. apply Forall_drop. by eapply Hl.
    + rewrite Hout in Ho. by apply Forall_app in Ho as [_ Ho].
  - intros fd m Hm. exists m. split; [done|]. unfold read_total, listed_at, pending. simpl. unfold signals. simpl. lia.
  - intros c y Hy _. change (listed [LDeliver ts]) with (@nil (Z * Z)). destruct (decide (c = ctxid)) as [->|Hne].
    + assert (y = x) as -> by congruence. exists x'. simpl. rewrite lookup_insert_eq. split; [done|]. split; [done|].
      rewrite ctx_count_all, Hts, length_fmap, length_take, length_drop; [unfold ctx_count; simpl; lia|].
      rewrite Hts. apply Forall_fmap, Forall_take. by eapply Hl.
    + exists y. simpl. rewrite lookup_insert_ne by done. split; [done|]. split; [done|].
      assert (Hc : ctx_count c ts = 0); [|rewrite Hc; done]. unfold ctx_count. rewrite filter_none; [done|].
      rewrite Hts. apply Forall_fmap. eapply Forall_impl; [apply Forall_take; by eapply Hl|]. simpl. congruence.
Qed.

Lemma step_read fd n k k' : kinv k -> eventfd_read fd k = Ret (n, k') -> step_ok k (LRead fd n) k'.
Proof.
  intros (Hok & Hl & Ho & Hs & Hid) H. unfold eventfd_read in H.
  destruct (nk_efds k !! fd) as [m|] eqn:E; [|done]. destruct (m =? 0); [done|]. injection H as <- <-.
  assert (Hdom : forall f, is_Some (nk_efds k !! f) -> is_Some (<[fd := 0]> (nk_efds k) !! f))
    by (intros f Hf; rewrite lookup_insert_is_Some'; by right).
  split; rewrite ?app_nil_r; try done.
  - refine (conj _ (conj Hl (conj Ho (conj _ Hid)))); [|eapply Forall_impl; [exact Hs|simpl; auto]].
    intros c x Hx. destruct (Hok c x Hx) as (? & ? & ?). simpl. auto.
  - intros f a Ha. unfold read_total, listed_at, pending, signals. simpl. destruct (Z.eqb_spec fd f) as [->|Hne].
    + exists 0. rewrite lookup_insert_eq. split; [done|]. assert (m = a) as -> by congruence. lia.
    + exists a. rewrite lookup_insert_ne by done. split; [done|lia].
  - intros c x Hx _. by exists x.
Qed.

Lemma step_set uctx r u k k' : kinv k -> nvme_set_aioctx false uctx k = Ret (r, u, k') -> step_ok k LSet k'.
Proof.
  intros Hk H. pose proof Hk as (Hok & Hl & Ho & Hs & Hid). unfold nvme_set_aioctx in H.
  destruct (negb (nk_capable k)); [injection H as _ _ <-; apply step_ok_idle; auto|].
  destruct (nk_efds k !! ax_eventfd uctx) as [n|] eqn:Hefd; [|injection H as _ _ <-; apply step_ok_idle; auto].
  destruct (nk_tb_lock k); [done|]. pose proof (next_context_id_range k Hid) as Hnext. destruct (next_context_id k) as [id|].
  2: { injection H as _ _ <-. destruct (step_ok_idle LSet k Hk (or_intror (or_introl eq_refl))). by split. }
  cbn [negb] in H. injection H as _ _ <-. destruct Hnext as [Hr Hfree].
  set (k' := nk_set_tb _ _).
  assert (Hctx : in_contexts k' ≡ₚ in_contexts k) by (unfold in_contexts; simpl; by rewrite gather_insert, gather_delete).
  assert (Hout : outstanding k' ≡ₚ outstanding k).
  { unfold outstanding. by rewrite Hctx. }
  split; rewrite ?Hout, ?Hctx, ?app_nil_r; try done.
  - refine (conj _ (conj _ (conj _ (conj Hs _)))); [| |by rewrite Hout|simpl; destruct (Z.eqb_spec (id + 1) AIOCTX_MAX); lia].
    + intros c x. simpl. rewrite lookup_insert_Some. intros [[<- <-]|[_ Hx]]; [|by apply Hok]. split; [done|]. split; [done|]. by eexists.
    + intros c x. simpl. rewrite lookup_insert_Some. intros [[<- <-]|[_ Hx]]; [constructor|by eapply Hl].
  - intros fd m Hm. exists m. split; [done|]. unfold read_total, listed_at, pending, signals. simpl. lia.
  - intros c x Hx _. exists x. simpl. rewrite lookup_insert_ne by congruence. done.
Qed.

Lemma step_del uctx r k k' :
  kinv k -> nvme_del_aioctx uctx k = Ret (r, k') ->
  step_ok k (LDel (ax_ctxid uctx) (cb_tag <$> from_option kx_list [] (nk_tb k !! ax_ctxid uctx))) k'.
Proof.
  intros Hk H. pose proof Hk as (Hok & Hl & Ho & Hs & Hid). unfold nvme_del_aioctx in H. destruct (nk_tb_lock k); [done|].
  destruct (nk_tb k !! ax_ctxid uctx) as [x|] eqn:Hx.
  2: { unfold find_kaioctx in H. rewrite Hx in H. destruct (negb _); [done|]. injection H as _ <-. apply step_ok_idle; eauto. }
  rewrite (find_kaioctx_live _ x) in H by done. injection H as _ <-. set (c := ax_ctxid uctx) in *. cbn [from_option].
  set (ts := cb_tag <$> kx_list x). set (k' := nk_set_tb _ k).
  assert (Hctx : in_contexts k ≡ₚ ts ++ in_contexts k') by (by apply (gather_lookup (fun x => cb_tag <$> kx_list x))).
  assert (Hout : outstanding k ≡ₚ ts ++ outstanding k').
  { unfold outstanding. rewrite Hctx. change (in_rounds k') with (in_rounds k). change (in_workers k') with (in_workers k).
    change (nk_inflight k') with (nk_inflight k). solve_Permutation. }
  assert (Hdel : lost [LDel c ts] = ts /\ deleted [LDel c ts] = ts) by (unfold lost, deleted; simpl; by rewrite app_nil_r).
  destruct Hdel as [E1 E2]. split; rewrite ?E1, ?E2, ?app_nil_r; try done.
  - refine (conj _ (conj _ (conj _ (conj Hs Hid)))).
    + intros c2 y. simpl. rewrite lookup_delete_Some. intros [_ Hy]. by apply Hok.
    + intros c2 y. simpl. rewrite lookup_delete_Some. intros [_ Hy]. by apply Hl.
    + rewrite Hout in Ho. by apply Forall_app in Ho as [_ Ho].
  - intros fd m Hm. exists m. split; [done|]. unfold read_total, listed_at, pending, signals. simpl. lia.
  - intros c2 y Hy Hkeep. exists y. simpl in Hkeep |- *. by rewrite lookup_delete_ne.
Qed.

Lemma kstep_ok k l k' : kinv k -> kstep k l k' -> step_ok k l k'.
Proof.
  intros Hk [cmd res st data k2 Hc H|i cpu k2 H|cpu k2 H|nr c evs k2 H|fd n k2 H|uctx r u k2 H|uctx r k2 H].
  - by eapply step_submit.
  - by eapply step_complete.
  - pose proof (step_worker cpu k Hk) as Hw. by rewrite H in Hw.
  - by eapply step_get.
  - by eapply step_read.
  - by eapply step_set.
  - by eapply step_del.
Qed.

(** ** Runs *)

Lemma labels_app ls ls' :
  submitted (ls ++ ls') = submitted ls ++ submitted ls' /\ delivered (ls ++ ls') = delivered ls ++ delivered ls' /\
  lost (ls ++ ls') = lost ls ++ lost ls' /\ listed (ls ++ ls') = listed ls ++ listed ls' /\
  deleted (ls ++ ls') = deleted ls ++ deleted ls'.
Proof. unfold submitted, delivered, lost, listed, deleted. by rewrite !fmap_app, !concat_app. Qed.

Definition run_ok k0 (ls : list klabel) k : Prop :=
  kinv k /\ outstanding k0 ++ submitted ls ≡ₚ delivered ls ++ lost ls ++ outstanding k /\
  in_contexts k0 ++ listed ls ≡ₚ delivered ls ++ deleted ls ++ in_contexts k /\
  forall fd n0, nk_efds k0 !! fd = Some n0 ->
    exists n, nk_efds k !! fd = Some n /\ n + read_total fd ls + pending fd k = n0 + pending fd k0 + listed_at fd ls.

Lemma ktrace_ok k0 ls k : kinv k0 -> ktrace k0 ls k -> run_ok k0 ls k.
Proof.
  intros Hk. induction 1 as [|ls k1 l k2 Ht IH Hs].
  - split; [done|]. rewrite !app_nil_r. split; [done|]. split; [done|]. intros fd n Hn. exists n. split; [done|].
    unfold read_total, listed_at. simpl. lia.
  - destruct IH as (Hk1 & Hp & Hq & Hc). destruct (kstep_ok _ _ _ Hk1 Hs) as [Hk2 Hp2 Hq2 Hc2 _ _].
    unfold run_ok. destruct (labels_app ls [l]) as (-> & -> & -> & -> & ->). split; [done|]. split; [|split].
    + rewrite app_assoc, Hp, <- !app_assoc. rewrite Hp2. solve_Permutation.
    + rewrite app_assoc, Hq, <- !app_assoc. rewrite Hq2. solve_Permutation.
    + intros fd n0 Hn0. destruct (Hc fd n0 Hn0) as (n1 & Hn1 & E1). destruct (Hc2 fd n1 Hn1) as (n2 & Hn2 & E2).
      exists n2. split; [done|]. rewrite read_total_app, listed_at_app. lia.
Qed.

(** As long as no context is deleted, requests to contexts are not lost. *)
Lemma nothing_lost k0 ls k :
  kinv k0 -> ktrace k0 ls k -> (forall c ts, LDel c ts ∉ ls) ->
  (forall t, t ∈ outstanding k0 ++ submitted ls -> is_Some (nk_tb k0 !! t.1)) ->
  lost ls = [] /\ forall c, is_Some (nk_tb k0 !! c) -> is_Some (nk_tb k !! c).
Proof.
  intros Hk. induction 1 as [|ls k1 l k2 Ht IH Hs]; intros Hd Hc; [done|].
  destruct (labels_app ls [l]) as (Es & _ & El & _). rewrite Es in Hc.
  destruct IH as [Hl Htb]; [intros c ts Hin; apply (Hd c ts), elem_of_app; by left| |].
  { intros t Hin. apply Hc. rewrite app_assoc. apply elem_of_app. by left. }
  destruct (ktrace_ok k0 ls k1 Hk Ht) as (Hk1 & Hp & _). rewrite Hl in Hp. cbn [app] in Hp.
  destruct (kstep_ok _ _ _ Hk1 Hs) as [_ Hp2 _ _ Hctx Hlab]. split.
  - rewrite El, Hl. destruct l as [| |t| | | |c ts|]; try done; [|by destruct (Hd c ts); apply elem_of_app; right; left].
    exfalso. assert (Hin : t ∈ outstanding k1).
    { assert (H : t ∈ outstanding k1 ++ submitted [LDrop t]) by (rewrite Hp2; left). by rewrite app_nil_r in H. }
    destruct (Htb t.1) as [x Hx]; [|congruence]. apply Hc. rewrite app_assoc. apply elem_of_app. left. rewrite Hp.
    apply elem_of_app. by right.
  - intros c Hc0. destruct (Htb c Hc0) as [x Hx]. destruct (Hctx c x Hx) as (x' & Hx' & _); [|by exists x'].
    destruct l as [| | | | | |c' ts|]; try done. by destruct (Hd c' ts); apply elem_of_app; right; left.
Qed.

(** C5. The process submits requests to any of the 1024 entries of the context table,
    sets up and deletes contexts (writing the id of a new one back to it succeeds),
    collects events and reads eventfds; the device completes requests; every completion
    worker takes its list, puts one request after the other on the list of its context
    and then signals the eventfd of that context, each as a step of its own; looking up
    a context and taking a reference to it is one step.  In any order of all these steps, from any state of the driver whose contexts and requests
    are in range: the requests submitted are, each once, delivered as events, lost, or
    still in the driver; the requests on the lists of the contexts are those put there
    and neither delivered nor deleted with their context; the numbers read from an
    eventfd, its counter and the signals still to come add up to the events listed for
    it; a worker never follows a wild pointer; and while no context is deleted, requests
    to existing contexts are not lost. *)
Theorem aio_exactly_once k0 ls k :
  kinv k0 -> ktrace k0 ls k ->
  outstanding k0 ++ submitted ls ≡ₚ delivered ls ++ lost ls ++ outstanding k /\
  in_contexts k0 ++ listed ls ≡ₚ delivered ls ++ deleted ls ++ in_contexts k /\
  (forall fd n0, nk_efds k0 !! fd = Some n0 ->
     exists n, nk_efds k !! fd = Some n /\ n + read_total fd ls + pending fd k = n0 + pending fd k0 + listed_at fd ls) /\
  (forall cpu, kvaio_percpu_worker cpu k <> Undef) /\
  ((forall c ts, LDel c ts ∉ ls) ->
   (forall t, t ∈ outstanding k0 ++ submitted ls -> is_Some (nk_tb k0 !! t.1)) -> lost ls = []).
Proof.
  intros Hk Ht. destruct (ktrace_ok k0 ls k Hk Ht) as (Hk' & Hp & Hq & Hc). split; [done|]. split; [done|]. split; [done|]. split.
  - intros cpu E. pose proof (step_worker cpu k Hk') as Hw. by rewrite E in Hw.
  - intros Hd Hctx. by apply (nothing_lost k0 ls k).
Qed.
End steps.

(** ** Setting up contexts *)

Section table.
Context {D : Type} `{!NvmeKvDevice D}.
Implicit Types (k : nvme_kernel D).

(** Setting up a context for an open eventfd succeeds while one of the 1024
    entries is free: the id is in range and belongs to no other context, and the
    other contexts keep their requests.  With all entries taken it fails with
    [EMFILE]. *)
Theorem set_aioctx_fresh k uctx :
  tb_wf k -> nk_capable k = true -> is_Some (nk_efds k !! ax_eventfd uctx) ->
  (exists id k', nvme_set_aioctx false uctx k = Ret (0, NvmeAioctx id (ax_eventfd uctx), k') /\
     0 <= id < AIOCTX_MAX /\ nk_tb k !! id = None /\ tb_wf k' /\
     nk_tb k' = <[id := Kaioctx (ax_eventfd uctx) [] true]> (nk_tb k)) \/
  (tb_full k /\ exists k', nvme_set_aioctx false uctx k = Ret (- EMFILE, uctx, k') /\ nk_tb k' = nk_tb k).
Proof.
  intros Hwf Hc [n Hn]. pose proof (next_context_id_spec k Hwf) as Hid.
  destruct Hwf as (Hlock & _ & Hr). unfold nvme_set_aioctx. rewrite Hc, Hn, Hlock. cbn [negb].
  destruct (next_context_id k) as [id|].
  - left. destruct Hid as [Hid Hfree]. exists id. eexists. split; [reflexivity|].
    split; [done|]. split; [done|]. split; [|done]. split; [done|]. split; simpl.
    + destruct (Z.eqb_spec (id + 1) AIOCTX_MAX); lia.
    + intros c. rewrite lookup_insert_is_Some'. intros [<-|?]; auto.
  - right. split; [done|]. eexists. split; [reflexivity|done].
Qed.

(** After an attempt to set up one context too many, the spin lock of the table
    is never released: closing any context, which would free an entry, and
    setting up another wait for ever. *)
Theorem full_table_deadlock k uctx r u k' :
  tb_wf k -> tb_full k -> nk_capable k = true -> is_Some (nk_efds k !! ax_eventfd uctx) ->
  nvme_set_aioctx false uctx k = Ret (r, u, k') ->
  r = - EMFILE /\ (forall u', nvme_del_aioctx u' k' = Blocked) /\
  (forall fault u', is_Some (nk_efds k' !! ax_eventfd u') -> nvme_set_aioctx fault u' k' = Blocked).
Proof.
  intros Hwf Hfull Hc [n Hn] H. pose proof (next_context_id_spec k Hwf) as Hid.
  destruct Hwf as (Hlock & _ & _). unfold nvme_set_aioctx in H. rewrite Hc, Hn, Hlock in H. cbn [negb] in H.
  destruct (next_context_id k) as [id|].
  - destruct Hid as [Hid Hfree]. destruct (Hfull id Hid) as [x Hx]. congruence.
  - injection H as <- <- <-. split; [done|]. split; [done|]. intros fault u' [m Hm].
    unfold nvme_set_aioctx. simpl in *. by rewrite Hc, Hm.
Qed.

(** C39. When the id cannot be written back to the process, the driver clears the
    entry before the new one: the context of another process disappears, and
    the new one, freed, can still be found. *)
Theorem set_aioctx_fault k uctx id x :
  tb_wf k -> nk_capable k = true -> is_Some (nk_efds k !! ax_eventfd uctx) ->
  next_context_id k = Some id -> nk_tb k !! (id - 1) = Some x ->
  exists k', nvme_set_aioctx true uctx k = Ret (- EINVAL, uctx, k') /\
    nk_tb k' !! (id - 1) = None /\ find_kaioctx id k' = Undef.
Proof.
  intros Hwf Hc [n Hn] Hid Hx. pose proof (next_context_id_spec k Hwf) as Hs. rewrite Hid in Hs.
  destruct Hs as [Hr _]. destruct Hwf as (Hlock & _ & Hrange).
  destruct (Hrange (id - 1)) as [Hpos _]; [by exists x|].
  unfold nvme_set_aioctx. rewrite Hc, Hn, Hlock, Hid. cbn [negb].
  destruct (Z.eqb_spec id 0); [lia|]. eexists. split; [reflexivity|]. simpl.
  split; [apply lookup_delete_eq|]. unfold find_kaioctx. simpl.
  destruct (Z.leb_spec 0 id), (Z.ltb_spec id AIOCTX_MAX); simpl; try lia.
  by rewrite lookup_delete_ne, lookup_insert_eq by lia.
Qed.
End table.

(** ** Examples *)

(** A driver over the simulated device, with the eventfd 5 open and no context. *)
Definition sim_kernel : nvme_kernel sim_device :=
  NvmeKernel ∅ false 1 {[5 := 0]} [] ∅ ∅ true 1 ∅ (fun _ => None) sim_empty.

(** The same with one context, and with all. *)
Definition sim_kernel1 : nvme_kernel sim_device :=
  nk_set_tb {[1 := Kaioctx 5 [] true]} (nk_set_ids false 2 sim_kernel).
Definition full_kernel : nvme_kernel sim_device :=
  nk_set_tb (gset_to_gmap (Kaioctx 5 [] true) (list_to_set (C := gset Z) (seqZ 0 AIOCTX_MAX))) sim_kernel.

Lemma kinv_sim_kernel1 : kinv sim_kernel1.
Proof.
  split_and!; try done; [|intros c x|constructor..].
  - intros c x. simpl. rewrite lookup_singleton_Some. intros [<- <-]. split; [done|]. split; [lia|]. by exists 0.
  - simpl. rewrite lookup_singleton_Some. intros [<- <-]. apply Forall_nil_2.
Qed.

(** An existence check on the key [abcd] as the process submits it. *)
Definition sim_cmd (reqid : Z) : nvme_passthru_kv_cmd :=
  PassthruKv nvme_cmd_kv_exist 0 1 0 0 0 None 0 4 0 0
    (arg_key (memcpy_at 0 [Byte.x61; Byte.x62; Byte.x63; Byte.x64] zero_key)) 1 reqid.

Definition run {A} (o : dev_outcome A) (d : A) : A := match o with Ret a => a | _ => d end.

(** Steps by name, and the labels of a run. *)
Inductive kaction :=
| DoSubmit (reqid : Z)
| DoComplete (i : nat)
| DoWorker
| DoGet (nr : Z)
| DoDel.

Definition kperform (x : kaction) (k : nvme_kernel sim_device) : option (klabel * nvme_kernel sim_device) :=
  match x with
  | DoSubmit reqid =>
      match nvme_user_kv_cmd (sim_cmd reqid) true k with Ret (0, _, _, _, k') => Some (LSubmit (1, reqid), k') | _ => None end
  | DoComplete i => pair LTau <$> kv_async_completion i 0 k
  | DoWorker => match kvaio_percpu_worker 0 k with Ret k' => Some (worker_label 0 k, k') | _ => None end
  | DoGet nr =>
      match nvme_get_ioevents nr 1 k with Ret (0, evs, k') => Some (LDeliver (ev_tag <$> evs), k') | _ => None end
  | DoDel =>
      match nvme_del_aioctx (NvmeAioctx 1 5) k with
      | Ret (_, k') => Some (LDel 1 (cb_tag <$> from_option kx_list [] (nk_tb k !! 1)), k')
      | _ => None
      end
  end.

Fixpoint kscript (xs : list kaction) (ls : list klabel) (k : nvme_kernel sim_device) : option (list klabel * nvme_kernel sim_device) :=
  match xs with
  | [] => Some (ls, k)
  | x :: xs => match kperform x k with Some (l, k) => kscript xs (ls ++ [l]) k | None => None end
  end.

Lemma kperform_step x k l k' : kperform x k = Some (l, k') -> kstep k l k'.
Proof.
  destruct x as [reqid|i| |nr|]; cbn [kperform]; intros H.
  - destruct (nvme_user_kv_cmd (sim_cmd reqid) true k) as [[[[[[| |] res] st] data] k2]| |] eqn:E; try done.
    injection H as <- <-. by apply (KSubmit _ (sim_cmd reqid) res st data).
  - destruct (kv_async_completion i 0 k) as [k2|] eqn:E; [|done]. injection H as <- <-. by eapply KComplete.
  - destruct (kvaio_percpu_worker 0 k) as [k2| |] eqn:E; try done. injection H as <- <-. by apply KWorker.
  - destruct (nvme_get_ioevents nr 1 k) as [[[[| |] evs] k2]| |] eqn:E; try done. injection H as <- <-. by eapply KGet.
  - destruct (nvme_del_aioctx (NvmeAioctx 1 5) k) as [[r k2]| |] eqn:E; try done. injection H as <- <-. by eapply (KDel _ (NvmeAioctx 1 5)).
Qed.

Lemma kscript_trace xs k0 : forall ls k ls' k',
  ktrace k0 ls k -> kscript xs ls k = Some (ls', k') -> ktrace k0 ls' k'.
Proof.
  induction xs as [|x xs IH]; intros ls k ls' k' Ht H; cbn in H; [by injection H as <- <-|].
  destruct (kperform x k) as [[l k1]|] eqn:E; [|done]. eapply IH; [|exact H]. eapply kt_step; [exact Ht|by apply (kperform_step x)].
Qed.

(** Two requests; one becomes an event, the other completes after its context was deleted. *)
Definition sim_script : list kaction :=
  [DoSubmit 7; DoSubmit 8; DoComplete 1; DoWorker; DoWorker; DoGet 2; DoWorker; DoWorker; DoDel; DoComplete 0; DoWorker; DoWorker].

Definition sim_labels : list klabel :=
  [LSubmit (1, 7); LSubmit (1, 8); LTau; LTau; LList 5 (1, 8); LDeliver [(1, 8)]; LTau; LTau; LDel 1 []; LTau; LTau; LDrop (1, 7)].

Lemma aio_exactly_once_witness : exists k,
  ktrace sim_kernel1 sim_labels k /\ nk_efds k !! 5 = Some 1 /\
  outstanding sim_kernel1 ++ submitted sim_labels ≡ₚ delivered sim_labels ++ lost sim_labels ++ outstanding k.
Proof.
  assert (H : exists k, kscript sim_script [] sim_kernel1 = Some (sim_labels, k) /\ nk_efds k !! 5 = Some 1)
    by (eexists; split; vm_compute; reflexivity).
  destruct H as (k & H & He). assert (Ht : ktrace sim_kernel1 sim_labels k) by (eapply kscript_trace; [apply kt_nil|exact H]).
  exists k. split; [exact Ht|]. split; [exact He|]. apply (aio_exactly_once sim_kernel1 sim_labels k kinv_sim_kernel1 Ht).
Defined.

Lemma sim_kernel_wf : tb_wf sim_kernel.
Proof.
  split; [done|]. split; [simpl; lia|]. intros c [x Hx]. done.
Qed.

Lemma set_aioctx_fresh_witness : exists id k', nvme_set_aioctx false (NvmeAioctx 0 5) sim_kernel =
  Ret (0, NvmeAioctx id 5, k') /\ nk_tb sim_kernel !! id = None.
Proof.
  destruct (set_aioctx_fresh sim_kernel (NvmeAioctx 0 5)) as [(id & k' & H & _ & Hn & _)|[Hf _]].
  - apply sim_kernel_wf.
  - reflexivity.
  - by exists 0.
  - exists id, k'. split; [exact H|exact Hn].
  - destruct (Hf 0) as [x Hx]; [lia|done].
Defined.

Lemma full_kernel_lookup c x :
  nk_tb full_kernel !! c = Some x <-> 0 <= c < AIOCTX_MAX /\ x = Kaioctx 5 [] true.
Proof.
  unfold full_kernel. cbn [nk_tb nk_set_tb]. rewrite lookup_gset_to_gmap_Some, elem_of_list_to_set, elem_of_seqZ.
  rewrite Z.add_0_l. intuition congruence.
Qed.

Lemma full_kernel_wf : tb_wf full_kernel.
Proof.
  split; [reflexivity|]. split; [change (0 <= 1 < 1024); lia|].
  intros c [x Hx]. apply full_kernel_lookup in Hx as [Hc _]. exact Hc.
Qed.

Lemma full_kernel_full : tb_full full_kernel.
Proof. intros c Hc. exists (Kaioctx 5 [] true). apply full_kernel_lookup. split; [exact Hc|reflexivity]. Qed.

Lemma full_kernel_set :
  nvme_set_aioctx false (NvmeAioctx 0 5) full_kernel =
  Ret (- EMFILE, NvmeAioctx 0 5, nk_set_ids true 1 full_kernel).
Proof.
  assert (E : next_context_id full_kernel = None) by (vm_compute; reflexivity).
  unfold nvme_set_aioctx. change (nk_capable full_kernel) with true.
  change (nk_efds full_kernel !! _) with (Some 0). change (nk_tb_lock full_kernel) with false.
  cbn [negb]. rewrite E. reflexivity.
Qed.

Lemma full_table_deadlock_witness : exists k',
  nvme_set_aioctx false (NvmeAioctx 0 5) full_kernel = Ret (- EMFILE, NvmeAioctx 0 5, k') /\
  nvme_del_aioctx (NvmeAioctx 3 5) k' = Blocked.
Proof.
  exists (nk_set_ids true 1 full_kernel). split; [exact full_kernel_set|].
  assert (Hefd : is_Some (nk_efds full_kernel !! 5)) by (exists 0; reflexivity).
  exact (proj1 (proj2 (full_table_deadlock full_kernel (NvmeAioctx 0 5) _ _ _
    full_kernel_wf full_kernel_full eq_refl Hefd full_kernel_set)) (NvmeAioctx 3 5)).
Defined.

Lemma set_aioctx_fault_witness : exists k',
  nvme_set_aioctx true (NvmeAioctx 0 5) sim_kernel1 = Ret (- EINVAL, NvmeAioctx 0 5, k') /\
  nk_tb sim_kernel1 !! 1 = Some (Kaioctx 5 [] true) /\ nk_tb k' !! 1 = None.
Proof.
  destruct (set_aioctx_fault sim_kernel1 (NvmeAioctx 0 5) 2 (Kaioctx 5 [] true)) as (k' & H & Hn & _).
  - split; [done|]. split; [simpl; lia|]. intros c [x Hx]. simpl in Hx.
    apply lookup_singleton_Some in Hx as [<- _]. lia.
  - reflexivity.
  - by exists 0.
  - reflexivity.
  - reflexivity.
  - exists k'. split; [exact H|]. split; [reflexivity|exact Hn].
Defined.
