(* ===== verification/Kadi.v ===== *)
(** * The adapter to the kernel driver

    [class KADI] of [device_abstract_layer/kernel_driver_adapter/kadi.cpp]: the
    user-space object that turns store, read, delete, existence and iterator
    calls into ioctls on the NVMe driver, keeps a context per request in flight,
    and collects the completions.

    The system calls are the methods of the class [KvKernel]; [KernelCalls] gives
    them from the model of the driver.  A call that waits for another thread is
    [Blocked], and using a null or freed pointer is [Undef]. *)

From stdpp Require Import base numbers list gmap.
From S2P Require Import Prelude.
From S2P Require Import AdiTypes.
From S2P Require Import NvmeCmd.

(** ** Constants *)

Definition BLOCK_SIZE : Z := 512.
Definition ITER_BUFSIZE : Z := 32768.
Definition ITER_OPTION_OPEN : Z := 0x01.
Definition ITER_OPTION_CLOSE : Z := 0x02.
Definition ITER_OPTION_KEY_ONLY : Z := 0x04.
Definition ITER_OPTION_KEY_VALUE : Z := 0x08.
Definition ITER_OPTION_DEL_KEY_VALUE : Z := 0x10.
Definition ITER_LIST_ITER_TYPE_OFFSET : Z := 1.
Definition identify_ret_data_size : Z := 4096.
Definition KADI_ERR_IO : Z := -10.
Definition KADI_ERR_NULL_INPUT : Z := -14.

(** ** System calls *)

(** [nvme_passthru_cmd] with the fields the adapter sets. *)
Record nvme_passthru_cmd := PassthruAdmin {
  pc_opcode : Z;
  pc_nsid : Z;
  pc_addr : list byte;
  pc_data_len : Z;
  pc_cdw10 : Z
}.

Class KvKernel (K : Type) := {
  sys_open : list byte -> K -> Z * K;
  sys_close : Z -> K -> K;
  sys_eventfd : K -> Z * K;
  sys_errno : K -> Z;
  ioctl_id : Z -> K -> Z * K;
  ioctl_set_aioctx : Z -> nvme_aioctx -> K -> dev_outcome (Z * nvme_aioctx * K);
  ioctl_del_aioctx : Z -> nvme_aioctx -> K -> dev_outcome (Z * K);
  ioctl_aio_cmd : Z -> nvme_passthru_kv_cmd -> K -> dev_outcome (Z * K);
  ioctl_io_kv_cmd : Z -> nvme_passthru_kv_cmd -> K ->
    dev_outcome (Z * Z * Z * option (list byte) * K);          (* value, result, status, buffer *)
  ioctl_admin_cmd : Z -> nvme_passthru_cmd -> K -> Z * list byte * K;
  ioctl_get_aioevent : Z -> Z -> Z -> K -> dev_outcome (Z * list nvme_aioevent * K);
  sys_select : Z -> K -> Z * K;
  sys_read_eventfd : Z -> K -> dev_outcome (option Z * K);     (* [None]: not eight bytes *)
  sys_turns : K -> nat        (* a bound on the polls that time out with requests in flight *)
}.

(** ** Data *)

(** A callback and its argument. *)
Record kadi_callback := KadiCallback { kcb_post_fn : option Z; kcb_private_data : Z }.

(** [KADI::aio_cmd_ctx]; its [index] is the key it is found under. *)
Record aio_cmd_ctx := AioCmdCtx {
  cc_key : option kv_key;
  cc_value : option kv_value;
  cc_buf : option (list byte);
  cc_post_fn : option Z;
  cc_post_data : Z;
  cc_cmd : nvme_passthru_kv_cmd
}.

(** The iterator part of a completion; [None] where the code leaves the field
    as the stack held it. *)
Record kadi_hiter := KadiHiter {
  hi_id : option Z;
  hi_end : option bool;
  hi_buf : option (option (list byte));
  hi_buflength : option Z
}.

(** [kv_io_context], what a callback gets. *)
Record kadi_io_context := KadiIoContext {
  ic_opcode : Z;
  ic_retcode : Z;
  ic_key : option kv_key;
  ic_value : option kv_value;
  ic_private_data : Z;
  ic_hiter : kadi_hiter
}.

Record kv_iter_context := KvIterContext {
  ki_handle : Z;                   (* unsigned char *)
  ki_prefix : Z;
  ki_bitmask : Z;
  ki_buf : option (list byte);
  ki_buflen : Z;
  ki_byteswritten : Z;
  ki_end : bool
}.

(** [class KADI]: [ka_ctx] is the memory of the contexts, [ka_free] the vector
    of the free ones and [ka_pending] the map of those in use. *)
Record KADI (K : Type) := MkKADI {
  ka_capacity : Z;
  ka_started : bool;               (* cb_thread.started *)
  ka_fd : Z;
  ka_nsid : Z;
  ka_qdepth : Z;
  ka_aioctx : nvme_aioctx;
  ka_free : list Z;
  ka_pending : gset Z;
  ka_ctx : gmap Z aio_cmd_ctx;
  ka_kernel : K
}.

Arguments MkKADI {K}.
Arguments ka_capacity {K}.
Arguments ka_started {K}.
Arguments ka_fd {K}.
Arguments ka_nsid {K}.
Arguments ka_qdepth {K}.
Arguments ka_aioctx {K}.
Arguments ka_free {K}.
Arguments ka_pending {K}.
Arguments ka_ctx {K}.
Arguments ka_kernel {K}.

(** A command set to zero. *)
Definition cmd_zero : nvme_passthru_kv_cmd :=
  PassthruKv 0 0 0 0 0 0 None 0 0 0 0 (arg_key zero_key) 0 0.

(** A context as [calloc] returns it. *)
Definition ctx_zero : aio_cmd_ctx := AioCmdCtx None None None None 0 cmd_zero.

(** The key of a command: copied when it fits, else its address. *)
Definition key_arg (key : option (list byte)) (length : Z) : kv_cmd_arg :=
  if length <=? KVCMD_INLINE_KEY_MAX
  then arg_key (memcpy_at 0 (take (Z.to_nat length) (default [] key)) zero_key)
  else arg_key_addr key.

Section kadi.
Context {K : Type} `{!KvKernel K}.
Implicit Types (a : KADI K) (cmd : nvme_passthru_kv_cmd).

Definition ka_set_kernel (k : K) a : KADI K :=
  MkKADI (ka_capacity a) (ka_started a) (ka_fd a) (ka_nsid a) (ka_qdepth a) (ka_aioctx a)
    (ka_free a) (ka_pending a) (ka_ctx a) k.
Definition ka_set_ctxs (free : list Z) (pending : gset Z) (ctx : gmap Z aio_cmd_ctx) a : KADI K :=
  MkKADI (ka_capacity a) (ka_started a) (ka_fd a) (ka_nsid a) (ka_qdepth a) (ka_aioctx a)
    free pending ctx (ka_kernel a).
Definition ka_set_open (fd nsid : Z) (aioctx : nvme_aioctx) a : KADI K :=
  MkKADI (ka_capacity a) (ka_started a) fd nsid (ka_qdepth a) aioctx
    (ka_free a) (ka_pending a) (ka_ctx a) (ka_kernel a).
Definition ka_set_capacity (capacity : Z) a : KADI K :=
  MkKADI capacity (ka_started a) (ka_fd a) (ka_nsid a) (ka_qdepth a) (ka_aioctx a)
    (ka_free a) (ka_pending a) (ka_ctx a) (ka_kernel a).
Definition ka_set_started (started : bool) a : KADI K :=
  MkKADI (ka_capacity a) started (ka_fd a) (ka_nsid a) (ka_qdepth a) (ka_aioctx a)
    (ka_free a) (ka_pending a) (ka_ctx a) (ka_kernel a).

(** The constructor; [nsid] and [aioctx] are not initialised. *)
Definition kadi_new (qdepth nsid : Z) (aioctx : nvme_aioctx) (k : K) : KADI K :=
  MkKADI 0 false (-1) nsid qdepth aioctx [] ∅ ∅ k.

(** ** Opening and closing *)

(** The contexts that [open] allocates. *)
Definition alloc_contexts a : KADI K :=
  let ids := seqZ 0 (ka_qdepth a) in
  ka_set_ctxs (ka_free a ++ ids) (ka_pending a)
    (foldr (fun i m => <[i := ctx_zero]> m) (ka_ctx a) ids) a.

Definition kadi_open (devpath : list byte) a : dev_outcome (Z * KADI K) :=
  let '(fd, k) := sys_open devpath (ka_kernel a) in
  let a := ka_set_open fd (ka_nsid a) (ka_aioctx a) (ka_set_kernel k a) in
  if fd <? 0 then Ret (fd, a)
  else
    let '(nsid, k) := ioctl_id fd (ka_kernel a) in
    let a := ka_set_open fd (u32 nsid) (ka_aioctx a) (ka_set_kernel k a) in
    if u32 nsid =? 2 ^ 32 - 1 then Ret (kv_result_code KV_ERR_SYS_IO, a)
    else
      let a := alloc_contexts a in
      let '(efd, k) := sys_eventfd (ka_kernel a) in
      let a := ka_set_kernel k a in
      if efd <? 0 then Ret (-1, a)
      else
        '(r, ax, k) ← ioctl_set_aioctx fd (NvmeAioctx 0 efd) (ka_kernel a);
        let a := ka_set_open fd (ka_nsid a) ax (ka_set_kernel k a) in
        if r <? 0 then Ret (kv_result_code KV_ERR_SYS_IO, a) else Ret (0, a).

Definition start_cbthread a : KADI K := ka_set_started true a.

(** [close]: the callback thread is stopped and the free contexts are freed;
    they stay in the vector. *)
Definition kadi_close a : dev_outcome (Z * KADI K) :=
  if negb (0 <? ka_fd a) then Ret (0, a)
  else
    let a := ka_set_started false a in
    if negb (forallb (fun i => bool_decide (is_Some (ka_ctx a !! i))) (ka_free a)) then Undef
    else
      let a := ka_set_ctxs (ka_free a) (ka_pending a) (foldr delete (ka_ctx a) (ka_free a)) a in
      '(r, k) ← ioctl_del_aioctx (ka_fd a) (ka_aioctx a) (ka_kernel a);
      let a := ka_set_kernel k a in
      if r <? 0 then Ret (KADI_ERR_IO, a)
      else
        let k := sys_close (ka_fd a) (sys_close (ax_eventfd (ka_aioctx a)) (ka_kernel a)) in
        Ret (0, ka_set_open (-1) (ka_nsid a) (ka_aioctx a) (ka_set_kernel k a)).

(** ** Contexts of requests *)

(** [get_cmd_ctx]: the last of the free contexts; with none the caller waits. *)
Definition get_cmd_ctx (cb : option kadi_callback) a : dev_outcome (Z * KADI K) :=
  match rev (ka_free a) with
  | [] => Blocked
  | i :: rest =>
      match ka_ctx a !! i with
      | None => Undef
      | Some c =>
          let '(f, d) := match cb with Some cb => (kcb_post_fn cb, kcb_private_data cb) | None => (None, 0) end in
          let c := AioCmdCtx (cc_key c) (cc_value c) (cc_buf c) f d (cc_cmd c) in
          Ret (i, ka_set_ctxs (rev rest) ({[i]} ∪ ka_pending a) (<[i := c]> (ka_ctx a)) a)
      end
  end.

Definition release_cmd_ctx (i : Z) a : KADI K :=
  ka_set_ctxs (ka_free a ++ [i]) (ka_pending a ∖ {[i]}) (ka_ctx a) a.

(** [get_cmdctx]: the context of a request that is in use. *)
Definition get_cmdctx (reqid : Z) a : option (Z * aio_cmd_ctx) :=
  let i := u32 (s32 reqid) in
  if bool_decide (i ∈ ka_pending a) then c ← ka_ctx a !! i; Some (i, c) else None.

(** What the calls set in a context before the ioctl: the command, and the
    pointers given ([None]: left as they were). *)
Definition set_ctx (i : Z) (key : option (option kv_key)) (value : option (option kv_value))
    (buf : option (option (list byte))) cmd a : KADI K :=
  ka_set_ctxs (ka_free a) (ka_pending a)
    (alter (fun c => AioCmdCtx (default (cc_key c) key) (default (cc_value c) value)
                       (default (cc_buf c) buf) (cc_post_fn c) (cc_post_data c) cmd) i (ka_ctx a)) a.

(** The ioctl of an asynchronous request; the context is released if it fails.
    [None] is a failure. *)
Definition submit_aio (i : Z) cmd a : dev_outcome (option Z * KADI K) :=
  '(r, k) ← ioctl_aio_cmd (ka_fd a) cmd (ka_kernel a);
  let a := ka_set_kernel k a in
  if r <? 0 then Ret (None, release_cmd_ctx i a) else Ret (Some r, a).

(** ** Requests *)

(** The commands that the calls build; [i] is the index of the context. *)
Definition store_cmd (ks : Z) (key : kv_key) (value : kv_value) (opt i : Z) a : nvme_passthru_kv_cmd :=
  PassthruKv nvme_cmd_kv_store 0 (ka_nsid a) ks opt (v_offset value) (v_value value) (v_length value)
    (k_length key) (Z.shiftr (v_length value) 2) (u32 (k_length key - 1))
    (key_arg (k_key key) (k_length key)) (ax_ctxid (ka_aioctx a)) i.

Definition retrieve_cmd (ks : Z) (key : kv_key) (value : kv_value) (i : Z) a : nvme_passthru_kv_cmd :=
  PassthruKv nvme_cmd_kv_retrieve 0 (ka_nsid a) ks 0 (v_offset value) (v_value value) (v_length value)
    (k_length key) 0 0 (key_arg (k_key key) (k_length key)) (ax_ctxid (ka_aioctx a)) i.

Definition delete_cmd (ks : Z) (key : kv_key) (check_exist i : Z) a : nvme_passthru_kv_cmd :=
  PassthruKv nvme_cmd_kv_delete 0 (ka_nsid a) ks check_exist 0 None 0 (k_length key) 0 0
    (key_arg (k_key key) (k_length key)) (ax_ctxid (ka_aioctx a)) i.

Definition exist_cmd (ks : Z) (key : option (list byte)) (length i : Z) a : nvme_passthru_kv_cmd :=
  PassthruKv nvme_cmd_kv_exist 0 (ka_nsid a) ks 0 0 None 0 length 0 0
    (key_arg key length) (ax_ctxid (ka_aioctx a)) i.

Definition iter_read_cmd (h : kv_iter_context) (ctxid i : Z) a : nvme_passthru_kv_cmd :=
  PassthruKv nvme_cmd_kv_iter_read 0 (ka_nsid a) 0 0 (ki_handle h) (ki_buf h) (u32 (ki_buflen h))
    0 0 0 (arg_key zero_key) ctxid i.

(** What the calls return after the ioctl. *)
Definition aio_ret (r : option Z) : Z :=
  match r with Some _ => 0 | None => kv_result_code KV_ERR_SYS_IO end.

(** [KADI::kv_store]; a null [key] or [value] is [None]. *)
Definition kadi_store (ks : Z) (key : option kv_key) (value : option kv_value) (opt : Z)
    (cb : option kadi_callback) a : dev_outcome (Z * KADI K) :=
  match key, value with
  | Some k, Some v =>
      if bool_decide (k_key k = None) then Ret (KADI_ERR_NULL_INPUT, a)
      else
        '(i, a) ← get_cmd_ctx cb a;
        let cmd := store_cmd ks k v opt i a in
        '(r, a) ← submit_aio i cmd (set_ctx i (Some (Some k)) (Some (Some v)) None cmd a);
        Ret (aio_ret r, a)
  | _, _ => Ret (KADI_ERR_NULL_INPUT, a)
  end.

Definition kadi_retrieve (ks : Z) (key : option kv_key) (value : option kv_value)
    (cb : option kadi_callback) a : dev_outcome (Z * KADI K) :=
  match key, value with
  | Some k, Some v =>
      if bool_decide (k_key k = None) then Ret (KADI_ERR_NULL_INPUT, a)
      else
        '(i, a) ← get_cmd_ctx cb a;
        let cmd := retrieve_cmd ks k v i a in
        '(r, a) ← submit_aio i cmd (set_ctx i (Some (Some k)) (Some (Some v)) None cmd a);
        Ret (aio_ret r, a)
  | _, _ => Ret (KADI_ERR_NULL_INPUT, a)
  end.

Definition kadi_delete (ks : Z) (key : option kv_key) (cb : option kadi_callback) (check_exist : Z) a
    : dev_outcome (Z * KADI K) :=
  match key with
  | Some k =>
      if bool_decide (k_key k = None) then Ret (KADI_ERR_NULL_INPUT, a)
      else
        '(i, a) ← get_cmd_ctx cb a;
        let cmd := delete_cmd ks k check_exist i a in
        '(r, a) ← submit_aio i cmd (set_ctx i (Some (Some k)) (Some None) None cmd a);
        Ret (aio_ret r, a)
  | None => Ret (KADI_ERR_NULL_INPUT, a)
  end.

Definition exist_ret (r : option Z) : bool :=
  match r with Some r => r =? 0 | None => negb (KADI_ERR_IO =? 0) end.

(** [KADI::exist]: a [bool], so that the error code of a failed submission is
    [true]. *)
Definition kadi_exist (ks : Z) (key : option (list byte)) (length : Z) (cb : option kadi_callback) a
    : dev_outcome (bool * KADI K) :=
  '(i, a) ← get_cmd_ctx cb a;
  let cmd := exist_cmd ks key length i a in
  let a := set_ctx i None None None cmd a in
  match cb with
  | None =>
      '(r, _, _, _, k) ← ioctl_io_kv_cmd (ka_fd a) cmd (ka_kernel a);
      Ret (r =? 0, release_cmd_ctx i (ka_set_kernel k a))
  | Some _ =>
      '(r, a) ← submit_aio i cmd a;
      Ret (exist_ret r, a)
  end.

(** [KADI::kv_retrieve_sync]: a short key is not copied into the command. *)
Definition kadi_retrieve_sync (ks : Z) (key : option kv_key) (value : option kv_value) a
    : dev_outcome (Z * option kv_value * KADI K) :=
  match key, value with
  | Some k, Some v =>
      if bool_decide (k_key k = None \/ v_value v = None) then Ret (KADI_ERR_NULL_INPUT, value, a)
      else
        let arg := if k_length k <=? KVCMD_INLINE_KEY_MAX then arg_key zero_key
                   else arg_key_addr (k_key k) in
        let cmd := PassthruKv nvme_cmd_kv_retrieve 0 (ka_nsid a) ks 0 (v_offset v) (v_value v)
                     (v_length v) (k_length k) 0 0 arg 0 0 in
        '(r, result, _, data, kn) ← ioctl_io_kv_cmd (ka_fd a) cmd (ka_kernel a);
        let a := ka_set_kernel kn a in
        if r =? 0
        then Ret (r, Some (KvValue data (Z.min result (v_length v)) result (v_offset v)), a)
        else Ret (kv_result_code KV_ERR_SYS_IO,
                  Some (KvValue data (v_length v) (v_actual_value_size v) (v_offset v)), a)
  | _, _ => Ret (KADI_ERR_NULL_INPUT, value, a)
  end.

(** ** Iterators *)

Definition iter_open (ks : Z) (h : kv_iter_context) (opt : Z) a
    : dev_outcome (Z * kv_iter_context * KADI K) :=
  let cmd := PassthruKv nvme_cmd_kv_iter_req 0 (ka_nsid a) ks (Z.lor ITER_OPTION_OPEN opt) 0 None 0 0 0 0
               (arg_cdw (ki_prefix h) (ki_bitmask h)) 0 0 in
  '(r, result, status, _, k) ← ioctl_io_kv_cmd (ka_fd a) cmd (ka_kernel a);
  let a := ka_set_kernel k a in
  if r <? 0 then Ret (kv_result_code KV_ERR_SYS_IO, h, a)
  else Ret (status, KvIterContext (Z.land result 0xff) (ki_prefix h) (ki_bitmask h) (ki_buf h)
                      (ki_buflen h) (ki_byteswritten h) false, a).

Definition iter_close (h : kv_iter_context) a : dev_outcome (Z * KADI K) :=
  let cmd := PassthruKv nvme_cmd_kv_iter_req 0 (ka_nsid a) 0 ITER_OPTION_CLOSE (ki_handle h) None 0 0 0 0
               (arg_key zero_key) 0 0 in
  '(r, _, status, _, k) ← ioctl_io_kv_cmd (ka_fd a) cmd (ka_kernel a);
  let a := ka_set_kernel k a in
  Ret (if r <? 0 then kv_result_code KV_ERR_SYS_IO else status, a).

Definition iter_read_async (h : kv_iter_context) (cb : option kadi_callback) a
    : dev_outcome (Z * KADI K) :=
  '(i, a) ← get_cmd_ctx cb a;
  let cmd := iter_read_cmd h (ax_ctxid (ka_aioctx a)) i a in
  '(r, a) ← submit_aio i cmd (set_ctx i None None (Some (ki_buf h)) cmd a);
  Ret (default (kv_result_code KV_ERR_SYS_IO) r, a).

Definition iter_read (h : kv_iter_context) a : dev_outcome (Z * kv_iter_context * KADI K) :=
  let cmd := iter_read_cmd h 0 0 a in
  '(r, result, status, data, k) ← ioctl_io_kv_cmd (ka_fd a) cmd (ka_kernel a);
  let a := ka_set_kernel k a in
  if r <? 0 then Ret (kv_result_code KV_ERR_SYS_IO, h, a)
  else
    let n := Z.land result 0xffff in
    let h' e := KvIterContext (ki_handle h) (ki_prefix h) (ki_bitmask h) data (ki_buflen h) n e in
    if ki_buflen h <? n then Ret (-1, h' (ki_end h), a)
    else Ret (status, h' (status =? KV_STATUS_SCAN_FINISHED), a).

(** The loop of [iter_readall]: until a read reports the end; the buffers with
    what was written to them.  [fuel] bounds the rounds. *)
Fixpoint iter_read_loop (fuel : nat) (h : kv_iter_context) (acc : list (option (list byte) * Z)) a
    : dev_outcome (kv_iter_context * list (option (list byte) * Z) * KADI K) :=
  if ki_end h then Ret (h, acc, a)
  else match fuel with
       | O => Blocked
       | S f =>
           let buf := replicate (Z.to_nat (ki_buflen h)) Byte.x00 in
           '(_, h, a) ← iter_read (KvIterContext (ki_handle h) (ki_prefix h) (ki_bitmask h) (Some buf)
                                     (ki_buflen h) 0 (ki_end h)) a;
           iter_read_loop f h (if 0 <? ki_byteswritten h then acc ++ [(ki_buf h, ki_byteswritten h)]
                               else acc) a
       end.

Definition iter_readall (fuel : nat) (ks : Z) (h : kv_iter_context) (opt : Z)
    (buflist : list (option (list byte) * Z)) a
    : dev_outcome (Z * kv_iter_context * list (option (list byte) * Z) * KADI K) :=
  '(r, h, a) ← iter_open ks h opt a;
  if negb (r =? 0) then Ret (r, h, buflist, a)
  else
    '(h, buflist, a) ← iter_read_loop fuel h buflist a;
    '(r, a) ← iter_close h a;
    Ret (r, h, buflist, a).

(** The word at [off] of a buffer. *)
Definition word_at (off n : nat) (buf : list byte) : Z := le_int (take n (drop off buf)).

(** An entry of the log page of iterators. *)
Definition log_iterator (log : list byte) (i : Z) : kv_iterator :=
  let off := Z.to_nat (i * 16) in
  let byte_at j := word_at (off + j) 1 log in
  KvIterator (byte_at 0%nat) (byte_at 1%nat)
    (u8 (byte_at 2%nat - ITER_LIST_ITER_TYPE_OFFSET + KV_ITERATOR_OPT_KEY)) (byte_at 3%nat)
    (htobe32 (word_at (off + 4) 4 log)) (htobe32 (word_at (off + 8) 4 log)) (byte_at 12%nat).

(** The 512 bytes of a log page. *)
Definition log_page_cmd (page : Z) a : nvme_passthru_cmd :=
  PassthruAdmin nvme_cmd_admin_get_log_page (ka_nsid a) (replicate 512 Byte.x00) 512
    (Z.lor (Z.shiftl (Z.shiftr 512 2 - 1) 16) (Z.land page 0xff)).

(** [KADI::iter_list]: the caller's array is filled from its start. *)
Definition iter_list (iters : list kv_iterator) (count : Z) a
    : dev_outcome (Z * list kv_iterator * Z * KADI K) :=
  if count =? 0 then Ret (kv_result_code KV_ERR_BUFFER_SMALL, iters, count, a)
  else
    let '(r, log, k) := ioctl_admin_cmd (ka_fd a) (log_page_cmd 0xd0 a) (ka_kernel a) in
    let a := ka_set_kernel k a in
    if negb (r =? 0) then Ret (kv_result_code KV_ERR_SYS_IO, iters, count, a)
    else
      let max := Z.min SAMSUNG_MAX_ITERATORS count in
      let found := log_iterator log <$> seqZ 0 max in
      if Z.of_nat (length iters) <? max then Undef
      else Ret (0, found ++ drop (length found) iters, max, a).

(** ** Device information *)

Definition get_dev_waf a : Z * KADI K :=
  let '(r, log, k) := ioctl_admin_cmd (ka_fd a) (log_page_cmd 0xCA a) (ka_kernel a) in
  (if negb (r =? 0) then kv_result_code KV_ERR_SYS_IO else word_at 256 4 log, ka_set_kernel k a).

(** [get_freespace]: the bytes used, the capacity, and the two numbers whose
    quotient is the utilization. *)
Definition get_freespace a : Z * option (Z * Z * (Z * Z)) * KADI K :=
  let cmd := PassthruAdmin nvme_cmd_admin_identify (ka_nsid a)
               (replicate (Z.to_nat identify_ret_data_size) Byte.x00) identify_ret_data_size 0 in
  let '(r, data, k) := ioctl_admin_cmd (ka_fd a) cmd (ka_kernel a) in
  let a := ka_set_kernel k a in
  if r <? 0 then (kv_result_code KV_ERR_SYS_IO, None, a)
  else
    let namespace_size := word_at 0 8 data in
    let namespace_utilization := word_at 16 8 data in
    (0, Some (u64 (namespace_utilization * BLOCK_SIZE), u64 (namespace_size * BLOCK_SIZE),
              (namespace_utilization, namespace_size)), a).

Definition update_capacity a : Z * KADI K :=
  let '(r, space, a) := get_freespace a in
  match space with
  | Some (_, capacity, _) => if negb (r =? 0) then (-1, a) else (r, ka_set_capacity capacity a)
  | None => (-1, a)
  end.

(** ** Completions *)

Definition hiter_unset : kadi_hiter := KadiHiter None None None None.

(** [fill_ioresult]: what the callback of a context gets for an event.  The
    structures of the caller carry the data that the request wrote. *)
Definition fill_ioresult (c : aio_cmd_ctx) (e : nvme_aioevent) : kadi_io_context :=
  let op := kc_opcode (cc_cmd c) in
  let buflength := Z.land (ev_result e) 0xffff in
  let value := if op =? nvme_cmd_kv_retrieve
               then (fun v => KvValue (ev_data e) (v_length v) (v_actual_value_size v) (v_offset v)) <$> cc_value c
               else cc_value c in
  let res code v h := KadiIoContext op code (cc_key c) v (cc_post_data c) h in
  if (ev_status e =? KV_STATUS_SCAN_FINISHED) && (op =? nvme_cmd_kv_iter_read)
  then res 0 value (KadiHiter None (Some true) (Some (ev_data e)) (Some buflength))
  else if negb (ev_status e =? 0) then res (ev_status e) value hiter_unset
  else if op =? nvme_cmd_kv_retrieve
  then res 0 ((fun v => let actual := ev_result e -32 v_offset v in
                 KvValue (v_value v) (Z.min actual (v_length v)) actual (v_offset v)) <$> value) hiter_unset
  else if op =? nvme_cmd_kv_iter_req
  then if negb (Z.land (kc_cdw4 (cc_cmd c)) ITER_OPTION_OPEN =? 0)
       then res 0 value (KadiHiter (Some (Z.land (ev_result e) 0xff)) (Some false) None None)
       else res 0 value hiter_unset
  else if op =? nvme_cmd_kv_iter_read
  then match cc_buf c with
       | Some _ => res 0 value (KadiHiter None (Some false) (Some (ev_data e)) (Some buflength))
       | None => res 0 value (KadiHiter None (Some false) None None)
       end
  else res 0 value hiter_unset.

(** The events of one batch: the completions (callback and argument) in order,
    each context released after its callback. *)
Fixpoint complete_events (evs : list nvme_aioevent) a
    : dev_outcome (list (option Z * kadi_io_context) * KADI K) :=
  match evs with
  | [] => Ret ([], a)
  | e :: evs' =>
      match get_cmdctx (ev_reqid e) a with
      | None => Undef
      | Some (i, c) =>
          '(done, a) ← complete_events evs' (release_cmd_ctx i a);
          Ret ((cc_post_fn c, fill_ioresult c e) :: done, a)
      end
  end.

(** The loop of [poll_completion] over the [eftd] events announced; every round
    takes at least one when the queue depth is positive. *)
Fixpoint poll_loop (fuel : nat) (eftd num_events : Z) a
    : dev_outcome (Z * Z * list (option Z * kadi_io_context) * KADI K) :=
  if eftd =? 0 then Ret (0, num_events, [], a)
  else match fuel with
       | O => Blocked
       | S f =>
           let check_nr := Z.min (Z.min (s32 eftd) MAX_AIO_EVENTS) (ka_qdepth a) in
           let num_events := u32 (num_events + check_nr) in
           '(r, evs, k) ← ioctl_get_aioevent (ka_fd a) (u16 check_nr) (ax_ctxid (ka_aioctx a)) (ka_kernel a);
           let a := ka_set_kernel k a in
           if r <? 0 then Ret (KADI_ERR_IO, num_events, [], a)
           else
             '(done, a) ← complete_events evs a;
             '(r, num_events, done', a) ← poll_loop f (u64 (eftd - check_nr)) num_events a;
             Ret (r, num_events, done ++ done', a)
       end.

(** [KADI::poll_completion]; the time-out is part of [sys_select]. *)
Definition poll_completion (num_events : Z) a
    : dev_outcome (Z * Z * list (option Z * kadi_io_context) * KADI K) :=
  let efd := ax_eventfd (ka_aioctx a) in
  let '(n, k) := sys_select efd (ka_kernel a) in
  let a := ka_set_kernel k a in
  if n <=? 0 then Ret (0, 0, [], a)
  else
    '(eftd, k) ← sys_read_eventfd efd (ka_kernel a);
    let a := ka_set_kernel k a in
    match eftd with
    | None => Ret (KADI_ERR_IO, num_events, [], a)
    | Some eftd => poll_loop (Z.to_nat eftd) eftd num_events a
    end.
End kadi.
