(* ===== verification/KernelSpec.v ===== *)
(** * What the adapter relies on

    The commands that the adapter builds, as operations on an abstract store with
    one finite map per key space, and the laws of the system calls it uses: an
    accepted command is answered by one event, after finitely many polls. *)

From stdpp Require Import base numbers list gmap.
From S2P Require Import Prelude.
From S2P Require Import AdiTypes.
From S2P Require Import EmulInv.
From S2P Require Import EmulSpec.
From S2P Require Import NvmeCmd.
From S2P Require Import Kadi.

(** The key that a command designates, and the bytes that it writes. *)
Definition pt_key (c : nvme_passthru_kv_cmd) : list byte :=
  take (Z.to_nat (kc_key_length c))
    (match kc_arg c with
     | arg_key k => k
     | arg_key_addr p => default [] p
     | arg_cdw _ _ => []
     end).

Definition pt_value (c : nvme_passthru_kv_cmd) : list byte :=
  take (Z.to_nat (kc_data_length c)) (default [] (kc_data_addr c)).

(** Commands as the adapter's callers may make them. *)
Definition pt_key_ok (c : nvme_passthru_kv_cmd) : Prop :=
  KVCMD_MIN_KEY_SIZE <= kc_key_length c <= KVCMD_MAX_KEY_SIZE /\
  match kc_arg c with
  | arg_key k => kc_key_length c <= KVCMD_INLINE_KEY_MAX /\ length k = 16%nat
  | arg_key_addr (Some l) => KVCMD_INLINE_KEY_MAX < kc_key_length c <= lenZ l
  | _ => False
  end.

Definition pt_ok (c : nvme_passthru_kv_cmd) : Prop :=
  kc_flags c = 0 /\ ks_ok (kc_cdw3 c) /\ pt_key_ok c /\
  0 <= kc_data_length c <= lenZ (default [] (kc_data_addr c)) /\
  ((kc_opcode c = nvme_cmd_kv_store /\ kc_data_length c <= SAMSUNG_KV_MAX_VALUE_LEN /\
    (kc_cdw4 c = STORE_OPTION_NOTHING \/ kc_cdw4 c = STORE_OPTION_IDEMPOTENT \/
     kc_cdw4 c = STORE_OPTION_UPDATE_ONLY)) \/
   (kc_opcode c = nvme_cmd_kv_retrieve /\ kc_cdw4 c = 0 /\ kc_data_length c mod 4 = 0 /\
    kc_data_length c < 2 ^ 32 /\ 0 <= kc_cdw5 c < 2 ^ 32) \/
   (kc_opcode c = nvme_cmd_kv_delete /\ kc_data_addr c = None /\
    (kc_cdw4 c = 0 \/ kc_cdw4 c = DELETE_OPTION_CHECK_KEY_EXIST)) \/
   (kc_opcode c = nvme_cmd_kv_exist /\ kc_data_addr c = None /\ kc_cdw4 c = 0)).

(** The event of a command and the store after it. *)
Definition pt_answer (c : nvme_passthru_kv_cmd) (s : astore) (e : nvme_aioevent) (s' : astore) : Prop :=
  let m := as_ks (kc_cdw3 c) s in
  ev_reqid e = kc_reqid c /\ ev_ctxid e = kc_ctxid c /\
  if is_kv_store_cmd (kc_opcode c)
  then let '(st, m') := device_store (kc_cdw4 c) (pt_key c) (pt_value c) m in
       ev_status e = st /\ ev_data e = kc_data_addr c /\ s' = as_update (kc_cdw3 c) (fun _ => m') s
  else if is_kv_retrieve_cmd (kc_opcode c)
  then let '(st, total, out) := device_retrieve (pt_key c) (kc_cdw5 c) (kc_data_length c) m in
       ev_status e = st /\ (st = 0 -> ev_result e = total) /\
       ev_data e = match out with
                   | Some o => memcpy_at 0 o <$> kc_data_addr c
                   | None => kc_data_addr c
                   end /\ s' = s
  else if is_kv_delete_cmd (kc_opcode c)
  then let '(st, m') := device_delete (kc_cdw4 c) (pt_key c) m in
       ev_status e = st /\ s' = as_update (kc_cdw3 c) (fun _ => m') s
  else ev_status e = device_exist (pt_key c) m /\ s' = s.

(** The laws.  [k_idle ax]: the process has the context [ax] and no request in
    flight.  [k_waiting ax n e s]: one request is in flight; after [n] polls that
    time out comes its event [e], and the store is then [s]. *)
Class KvKernelLaws (K : Type) `{!KvKernel K} := {
  k_idle : nvme_aioctx -> K -> Prop;
  k_contents : K -> astore;
  k_waiting : nvme_aioctx -> nat -> nvme_aioevent -> astore -> K -> Prop;
  law_k_spaces ax k : k_idle ax k -> length (k_contents k) = 2%nat;
  law_k_value_len ax k ks key v : k_idle ax k ->
    as_ks ks (k_contents k) !! key = Some v -> lenZ v < 2 ^ 32;
  law_k_submit ax fd c k : k_idle ax k -> kc_ctxid c = ax_ctxid ax -> pt_ok c ->
    exists k' n e s, ioctl_aio_cmd fd c k = Ret (0, k') /\ pt_answer c (k_contents k) e s /\
      k_waiting ax n e s k';
  law_k_turns ax n e s k : k_waiting ax n e s k -> (n <= sys_turns k)%nat;
  law_k_timeout ax n e s k : k_waiting ax (S n) e s k ->
    exists k', sys_select (ax_eventfd ax) k = (0, k') /\ k_waiting ax n e s k';
  law_k_ready ax e s k fd : k_waiting ax 0 e s k ->
    exists k1 k2 k3, sys_select (ax_eventfd ax) k = (1, k1) /\
      sys_read_eventfd (ax_eventfd ax) k1 = Ret (Some 1, k2) /\
      ioctl_get_aioevent fd 1 (ax_ctxid ax) k2 = Ret (0, [e], k3) /\
      k_idle ax k3 /\ k_contents k3 = s
}.
