(* ===== verification/KadiSync.v ===== *)
(** * One request through the adapter

    An adapter without requests in flight submits one, and polls until its
    callback is due: what happens to the contexts and what the callback gets,
    from the laws of the system calls ([KernelSpec]). *)

From stdpp Require Import base numbers list gmap.
From S2P Require Import Prelude.
From S2P Require Import AdiTypes.
From S2P Require Import EmulInv.
From S2P Require Import EmulSpec.
From S2P Require Import NvmeCmd.
From S2P Require Import Kadi.
From S2P Require Import KernelSpec.

(** What the callback of a context gets for an event. *)
Lemma fill_private c e : ic_private_data (fill_ioresult c e) = cc_post_data c.
Proof. unfold fill_ioresult. by repeat case_match. Qed.

Lemma fill_retcode c e :
  kc_opcode (cc_cmd c) <> nvme_cmd_kv_iter_read -> ic_retcode (fill_ioresult c e) = ev_status e.
Proof.
  intros Hop. unfold fill_ioresult. rewrite (proj2 (Z.eqb_neq _ nvme_cmd_kv_iter_read) Hop), andb_false_r.
  destruct (Z.eqb_spec (ev_status e) 0) as [E|]; cbn [negb]; [rewrite E|done]. by repeat case_match.
Qed.

Section sync.
Context {K : Type} `{!KvKernel K} `{!KvKernelLaws K}.
Implicit Types (a : KADI K) (c : aio_cmd_ctx).

(** The free contexts exist and have indices that survive the conversions. *)
Definition free_ok a : Prop :=
  1 <= ka_qdepth a /\ forall i, i ∈ ka_free a -> 0 <= i < 2 ^ 31 /\ is_Some (ka_ctx a !! i).

Definition adi_ready a : Prop :=
  free_ok a /\ ka_free a <> [] /\ ka_pending a = ∅ /\ k_idle (ka_aioctx a) (ka_kernel a).

(** The request of context [i] is in flight. *)
Definition adi_waiting (i : Z) c (n : nat) (e : nvme_aioevent) (s : astore) a : Prop :=
  free_ok a /\ 0 <= i < 2 ^ 31 /\ ka_ctx a !! i = Some c /\ ka_pending a = {[i]} /\ ev_reqid e = i /\
  k_waiting (ka_aioctx a) n e s (ka_kernel a).

(** The context [c] of a request with the command [cmd] and callback [f], [d]. *)
Definition ctx_of (cmd : nvme_passthru_kv_cmd) (f : option Z) (d : Z) (key : option (option kv_key))
    (value : option (option kv_value)) c : Prop :=
  cc_cmd c = cmd /\ cc_post_fn c = f /\ cc_post_data c = d /\
  (forall k, key = Some k -> cc_key c = k) /\ (forall v, value = Some v -> cc_value c = v).

Lemma rev_last {A} (l : list A) i r : rev l = i :: r -> l = rev r ++ [i].
Proof. intros E. rewrite <- (rev_involutive l), E. reflexivity. Qed.

(** Submitting a command: [mk] builds it from the index of its context. *)
Lemma submit_ready f pd key value buf (mk : Z -> nvme_passthru_kv_cmd) a :
  adi_ready a ->
  (forall i, 0 <= i < 2 ^ 31 -> pt_ok (mk i) /\ kc_ctxid (mk i) = ax_ctxid (ka_aioctx a) /\ kc_reqid (mk i) = i) ->
  exists i free pending ctx a2 c n e s,
    let a1 := ka_set_ctxs free pending ctx a in
    get_cmd_ctx (Some (KadiCallback f pd)) a = Ret (i, a1) /\
    submit_aio i (mk i) (set_ctx i key value buf (mk i) a1) = Ret (Some 0, a2) /\
    pt_answer (mk i) (k_contents (ka_kernel a)) e s /\ adi_waiting i c n e s a2 /\
    ctx_of (mk i) f pd key value c /\ ka_started a2 = ka_started a.
Proof.
  intros ((Hq & Hfree) & Hne & Hp & Hidle) Hmk.
  destruct (rev (ka_free a)) as [|i rest] eqn:Er.
  { destruct Hne. rewrite <- (rev_involutive (ka_free a)), Er. reflexivity. }
  apply rev_last in Er. destruct (Hfree i) as [Hi [c0 Hc0]]; [rewrite Er; apply elem_of_app; right; by apply list_elem_of_singleton|].
  destruct (Hmk i Hi) as (Hok & Hctx & Hreq).
  destruct (law_k_submit (ka_aioctx a) (ka_fd a) (mk i) (ka_kernel a) Hidle Hctx Hok) as (k' & n & e & s & E & Ha & Hw).
  set (c := AioCmdCtx (default (cc_key c0) key) (default (cc_value c0) value) (default (cc_buf c0) buf) f pd (mk i)).
  exists i, (rev rest), ({[i]} ∪ ka_pending a), (<[i := AioCmdCtx (cc_key c0) (cc_value c0) (cc_buf c0) f pd (cc_cmd c0)]> (ka_ctx a)).
  eexists _, c, n, e, s. cbv zeta. split; [|split; [|split; [done|]]].
  - unfold get_cmd_ctx. rewrite Er, rev_app_distr, rev_involutive. cbn [rev app]. by rewrite Hc0.
  - unfold submit_aio. cbn [ka_fd set_ctx ka_set_ctxs ka_kernel]. rewrite E. cbn [mbind dev_outcome_bind Z.ltb Z.compare].
    reflexivity.
  - cbn [ka_started ka_set_kernel set_ctx ka_set_ctxs]. split; [|split; [|done]].
    + split; [|split; [done|]].
      { split; [exact Hq|]. cbn [ka_free ka_ctx ka_set_kernel set_ctx ka_set_ctxs]. intros j Hj.
        destruct (Hfree j) as [Hj' Hs]; [rewrite Er; apply elem_of_app; by left|]. split; [done|].
        rewrite lookup_alter_is_Some, lookup_insert_is_Some. destruct (decide (i = j)); [by left|by right]. }
      cbn [ka_ctx ka_pending ka_aioctx ka_kernel ka_set_kernel set_ctx ka_set_ctxs].
      rewrite lookup_alter_eq, lookup_insert_eq, Hp. split; [reflexivity|]. split; [apply union_empty_r_L|].
      destruct Ha as (Hr & _). rewrite Hr, Hreq. done.
    + split; [done|]. split; [done|]. split; [done|]. split; intros ? ->; done.
Qed.

(** A poll before the request is complete. *)
Lemma poll_timeout m i c n e s a :
  adi_waiting i c (S n) e s a ->
  exists a', poll_completion m a = Ret (0, 0, [], a') /\ adi_waiting i c n e s a' /\ ka_started a' = ka_started a.
Proof.
  intros (Hf & Hi & Hc & Hp & Hr & Hw). destruct (law_k_timeout _ _ _ _ _ Hw) as (k' & E & Hw').
  eexists. unfold poll_completion. rewrite E. cbn [Z.leb Z.compare]. split; [reflexivity|].
  split; [|reflexivity]. exact (conj Hf (conj Hi (conj Hc (conj Hp (conj Hr Hw'))))).
Qed.

(** The poll that finds it. *)
Lemma poll_ready m i c e s a :
  adi_waiting i c 0 e s a ->
  exists a', poll_completion m a = Ret (0, u32 (m + 1), [(cc_post_fn c, fill_ioresult c e)], a') /\
    adi_ready a' /\ k_contents (ka_kernel a') = s /\ ka_started a' = ka_started a.
Proof.
  intros ((Hq & Hfree) & Hi & Hc & Hp & Hr & Hw).
  destruct (law_k_ready _ _ _ _ (ka_fd a) Hw) as (k1 & k2 & k3 & E1 & E2 & E3 & Hidle & Hs).
  unfold poll_completion. rewrite E1. cbn [Z.leb Z.compare]. cbn [ka_set_kernel ka_kernel]. rewrite E2.
  cbn [mbind dev_outcome_bind]. change (Z.to_nat 1) with 1%nat. cbn [poll_loop Z.eqb].
  replace (Z.min (Z.min (s32 1) MAX_AIO_EVENTS) _) with 1 by (cbn [ka_set_kernel ka_qdepth]; change (s32 1) with 1; lia).
  change (u16 1) with 1. cbn [ka_set_kernel ka_fd ka_aioctx ka_kernel]. rewrite E3.
  cbn [mbind dev_outcome_bind Z.ltb Z.compare complete_events].
  assert (Hu : u32 (s32 (ev_reqid e)) = i).
  { rewrite Hr. unfold s32. rewrite Z.mod_small by lia. unfold u32. rewrite Z.mod_small by lia. lia. }
  unfold get_cmdctx. rewrite Hu. cbn [ka_pending ka_ctx ka_set_kernel]. rewrite Hp, bool_decide_true by (by apply elem_of_singleton).
  rewrite Hc. cbn [mbind option_bind dev_outcome_bind]. change (u64 (1 - 1)) with 0. cbn [poll_loop Z.eqb].
  eexists. split; [reflexivity|]. split; [|split; [done|reflexivity]].
  split; [|split; [|split; [|done]]]; cbn [release_cmd_ctx ka_set_ctxs ka_free ka_qdepth ka_ctx ka_pending].
  - split; [done|]. intros j. cbn. rewrite elem_of_app, list_elem_of_singleton. intros [Hj|Hj]; [by apply Hfree|].
    subst j. split; [done|]. by rewrite Hc.
  - intros E. by apply app_eq_nil in E as [_ ?].
  - cbn [ka_pending ka_set_kernel]. rewrite Hp. apply difference_diag_L.
Qed.
End sync.
