(* ===== verification/KernelCalls.v ===== *)
(** * The system calls of a process

    The instance of [KvKernel] on the model of the NVMe driver, and its laws: a
    process that has set up a context and submits one command at a time finds,
    after finitely many polls, one event with the answer of an abstract
    key-value store. *)

From stdpp Require Import base numbers list gmap.
From S2P Require Import Prelude.
From S2P Require Import AdiTypes.
From S2P Require Import EmulInv.
From S2P Require Import EmulSpec.
From S2P Require Import NvmeCmd.
From S2P Require Import SimDevice.
From S2P Require Import NvmeAio.
From S2P Require Import NvmeAioSpec.
From S2P Require Import Kadi.
From S2P Require Import KernelSpec.

Definition ENOENT : Z := 2.

(** A process: the driver, the device files there are, the next file descriptor
    and [errno]. *)
Record nvme_process (D : Type) := NvmeProcess {
  pr_kernel : nvme_kernel D;
  pr_paths : list (list byte);
  pr_next_fd : Z;
  pr_errno : Z
}.

Arguments NvmeProcess {D}.
Arguments pr_kernel {D}.
Arguments pr_paths {D}.
Arguments pr_next_fd {D}.
Arguments pr_errno {D}.

Section calls.
Context {D : Type} `{!NvmeKvDevice D}.
Implicit Types (p : nvme_process D) (k : nvme_kernel D).

Definition pr_set_kernel k p : nvme_process D := NvmeProcess k (pr_paths p) (pr_next_fd p) (pr_errno p).

(** The return value of a system call: -1 with [errno] for a negative one. *)
Definition sys_return {A} (r : Z) (f : Z -> nvme_process D -> A) p : A :=
  if r <? 0 then f (-1) (NvmeProcess (pr_kernel p) (pr_paths p) (pr_next_fd p) (- r)) else f r p.

Definition new_fd p : Z * nvme_process D :=
  (pr_next_fd p, NvmeProcess (pr_kernel p) (pr_paths p) (pr_next_fd p + 1) (pr_errno p)).

Definition proc_open (path : list byte) p : Z * nvme_process D :=
  if decide (path ∈ pr_paths p) then new_fd p else sys_return (- ENOENT) pair p.

Definition proc_close (fd : Z) p : nvme_process D :=
  pr_set_kernel (nk_set_efds (delete fd (nk_efds (pr_kernel p))) (pr_kernel p)) p.

Definition proc_eventfd p : Z * nvme_process D :=
  let '(fd, p) := new_fd p in
  (fd, pr_set_kernel (nk_set_efds (<[fd := 0]> (nk_efds (pr_kernel p))) (pr_kernel p)) p).

Definition efd_count (fd : Z) k : Z := default 0 (nk_efds k !! fd).

(** The requests that the completion worker has at hand. *)
Definition at_worker k : list nvme_kaiocb :=
  match nk_rounds k !! 0 with
  | Some (WLoop rest) | Some (WSignal _ rest) => rest
  | None => default [] (nk_workers k !! 0)
  end.

(** One turn of the threads that run while a process waits: the completion
    worker, until it waits, if it has work, else the device. *)
Definition background_turn k : nvme_kernel D :=
  match nk_rounds k !! 0, nk_workers k !! 0 with
  | None, None | None, Some [] => default k (kv_async_completion 0 0 k)
  | _, _ => match worker_steps (2 * length (at_worker k) + 2) 0 k with Ret k' => k' | _ => k end
  end.

(** [select] with a time-out: the threads get a turn when nothing is ready. *)
Definition proc_select (fd : Z) p : Z * nvme_process D :=
  if 0 <? efd_count fd (pr_kernel p) then (1, p)
  else
    let k := background_turn (pr_kernel p) in
    (if 0 <? efd_count fd k then 1 else 0, pr_set_kernel k p).

#[export] Instance process_calls : KvKernel (nvme_process D) := {|
  sys_open := proc_open;
  sys_close := proc_close;
  sys_eventfd := proc_eventfd;
  sys_errno := pr_errno;
  ioctl_id := fun _ p => (nk_ns_id (pr_kernel p), p);
  ioctl_set_aioctx := fun _ u p =>
    '(r, u, k) ← nvme_set_aioctx false u (pr_kernel p);
    Ret (sys_return r (fun r p => (r, u, p)) (pr_set_kernel k p));
  ioctl_del_aioctx := fun _ u p =>
    '(r, k) ← nvme_del_aioctx u (pr_kernel p); Ret (sys_return r pair (pr_set_kernel k p));
  ioctl_aio_cmd := fun _ cmd p =>
    '(r, _, _, _, k) ← nvme_user_kv_cmd cmd true (pr_kernel p);
    Ret (sys_return r pair (pr_set_kernel k p));
  ioctl_io_kv_cmd := fun _ cmd p =>
    '(r, result, status, data, k) ← nvme_user_kv_cmd cmd false (pr_kernel p);
    Ret (sys_return r (fun r p => (r, result, status, data, p)) (pr_set_kernel k p));
  ioctl_admin_cmd := fun _ c p =>
    let '(r, data, k) := nvme_user_cmd (pc_opcode c) (pc_nsid c) (pc_cdw10 c) (pc_addr c) (pr_kernel p) in
    sys_return r (fun r p => (r, data, p)) (pr_set_kernel k p);
  ioctl_get_aioevent := fun _ nr ctxid p =>
    '(r, evs, k) ← nvme_get_ioevents nr ctxid (pr_kernel p);
    Ret (sys_return r (fun r p => (r, evs, p)) (pr_set_kernel k p));
  sys_select := proc_select;
  sys_read_eventfd := fun fd p =>
    '(n, k) ← eventfd_read fd (pr_kernel p); Ret (Some n, pr_set_kernel k p);
  sys_turns := fun p => S (2 * length (nk_inflight (pr_kernel p)))
|}.
End calls.

(** ** Opening the adapter *)

Section opening.
Context {D : Type} `{!NvmeKvDevice D}.

(** A new context of the driver, with its eventfd. *)
Definition with_context (id efd next : Z) (k : nvme_kernel D) : nvme_kernel D :=
  nk_set_tb (<[id := Kaioctx efd [] true]> (nk_tb k)) (nk_set_ids false next (nk_set_efds (<[efd := 0]> (nk_efds k)) k)).

(** The adapter that [open] leaves: all contexts are free. *)
Definition opened (qd id next : Z) (p : nvme_process D) : KADI (nvme_process D) :=
  let fd := pr_next_fd p in
  MkKADI 0 false fd (nk_ns_id (pr_kernel p)) qd (NvmeAioctx id (fd + 1)) (seqZ 0 qd) ∅
    (foldr (fun i m => <[i := ctx_zero]> m) ∅ (seqZ 0 qd))
    (NvmeProcess (with_context id (fd + 1) next (pr_kernel p)) (pr_paths p) (fd + 1 + 1) (pr_errno p)).

(** A process that may open the device [path]: the driver has a free context. *)
Definition may_open (path : list byte) (p : nvme_process D) : Prop :=
  let k := pr_kernel p in
  path ∈ pr_paths p /\ tb_wf k /\ ~ tb_full k /\ nk_capable k = true /\ 0 <= nk_ns_id k < 2 ^ 32 - 1 /\ 0 <= pr_next_fd p.

Lemma kadi_open_eq path nsid ax qd p :
  may_open path p ->
  exists id next, kadi_open path (kadi_new qd nsid ax p) = Ret (0, opened qd id next p) /\
    0 <= id < AIOCTX_MAX /\ 0 <= next < AIOCTX_MAX /\ nk_tb (pr_kernel p) !! id = None.
Proof.
  intros (Hpath & Hwf & Hnf & Hcap & Hns & Hfd).
  unfold kadi_open. cbn [sys_open process_calls]. unfold proc_open. cbn [ka_kernel kadi_new].
  rewrite decide_True by done. cbn [new_fd]. rewrite (proj2 (Z.ltb_ge _ _)) by lia.
  cbn [ioctl_id process_calls ka_kernel ka_set_kernel ka_set_open pr_kernel].
  rewrite u32_small by lia. destruct (Z.eqb_spec (nk_ns_id (pr_kernel p)) (2 ^ 32 - 1)); [lia|].
  cbn [sys_eventfd process_calls ka_kernel alloc_contexts ka_set_ctxs ka_set_open ka_set_kernel].
  unfold proc_eventfd. cbn [new_fd pr_next_fd pr_kernel]. rewrite (proj2 (Z.ltb_ge _ _)) by lia.
  cbn [ioctl_set_aioctx process_calls ka_kernel ka_set_kernel ka_set_open alloc_contexts ka_set_ctxs pr_kernel pr_set_kernel].
  unfold nvme_set_aioctx. cbn [nk_capable nk_efds nk_set_efds ax_eventfd nk_tb_lock].
  pose proof (next_context_id_spec _ Hwf) as Hid. destruct Hwf as (Hlock & _ & _).
  rewrite Hcap, lookup_insert_eq, Hlock. cbn [negb].
  change (next_context_id (nk_set_efds _ _)) with (next_context_id (pr_kernel p)).
  destruct (next_context_id (pr_kernel p)) as [id|]; [|done].
  exists id, (if id + 1 =? AIOCTX_MAX then 0 else id + 1). split; [reflexivity|].
  destruct Hid as [Hr Hn]. split; [done|]. split; [|done]. destruct (Z.eqb_spec (id + 1) AIOCTX_MAX); lia.
Qed.

Lemma lookup_alloc (ids : list Z) (m : gmap Z aio_cmd_ctx) i :
  i ∈ ids -> is_Some (foldr (fun i m => <[i := ctx_zero]> m) m ids !! i).
Proof.
  induction ids as [|j ids IH]; intros Hi; [by apply not_elem_of_nil in Hi|]. simpl.
  apply lookup_insert_is_Some'. apply elem_of_cons in Hi as [Hi|Hi]; [subst|]; auto.
Qed.
End opening.

(** ** From the command of the process to the command of the device *)

Lemma u8_key_len n : KVCMD_MIN_KEY_SIZE <= n <= KVCMD_MAX_KEY_SIZE -> u8 (n - 1) + 1 = n.
Proof. unfold u8. intros. rewrite Z.mod_small by lia. lia. Qed.

(** The key buffer that goes to the device. *)
Definition meta_buffer (metadata : option (list byte)) (meta_len : Z) : option (list byte) :=
  if meta_len =? 0 then None else take (Z.to_nat meta_len) <$> metadata.

Lemma kv_key_arg_ok c :
  pt_key_ok c ->
  exists key metadata meta_len, kv_key_arg c = Ret (key, metadata, meta_len) /\
    cmd_key (u8 (kc_key_length c - 1)) key (meta_buffer metadata meta_len) = pt_key c.
Proof.
  intros [Hlen Harg]. unfold kv_key_arg, pt_key, cmd_key. rewrite u8_key_len by done.
  destruct (kc_arg c) as [k|[l|]|]; [| |done|done].
  - destruct Harg as [Hi Hk].
    destruct (Z.ltb_spec 16 (kc_key_length c)); [lia|]. eexists _, _, _. split; [reflexivity|].
    set (n := Z.to_nat (kc_key_length c)).
    assert (Hn : length (take n k) = n) by (rewrite length_take; lia).
    rewrite <- Hn at 1. apply take_memcpy_at.
  - destruct (Z.ltb_spec 16 (kc_key_length c)); [|lia].
    eexists _, _, _. split; [reflexivity|]. unfold meta_buffer.
    destruct (Z.eqb_spec (kc_key_length c) 0); [lia|]. simpl. by rewrite take_take, Nat.min_id.
Qed.

Lemma key_length_valid c : pt_key_ok c -> key_length_invalid c = false.
Proof.
  intros [Hlen _]. unfold key_length_invalid.
  destruct (Z.ltb_spec KVCMD_MAX_KEY_SIZE (kc_key_length c)), (Z.ltb_spec (kc_key_length c) KVCMD_MIN_KEY_SIZE);
    simpl; try done; lia.
Qed.

(** The value's length in words and superfluous bytes is its length in bytes. *)
Lemma store_value_len_ok n vl inv :
  0 <= n < 2 ^ 32 -> store_value_len n = (vl, inv) -> 4 * vl - inv = n.
Proof.
  intros Hn. unfold store_value_len. rewrite Z.shiftr_div_pow2 by lia. change (2 ^ 2) with 4.
  pose proof (Z.div_mod n 4). pose proof (Z.mod_pos_bound n 4).
  destruct (Z.eqb_spec (n mod 4) 0); simpl; intros [= <- <-]; [lia|].
  rewrite u32_small by lia. lia.
Qed.

Lemma shiftr_words n : 0 <= n -> n mod 4 = 0 -> 4 * Z.shiftr n 2 = n.
Proof.
  intros Hn Hm. rewrite Z.shiftr_div_pow2 by lia. change (2 ^ 2) with 4. pose proof (Z.div_mod n 4). lia.
Qed.

(** Copies of a buffer onto itself. *)
Lemma memcpy_at_take n (u : list byte) : memcpy_at 0 (take n u) u = u.
Proof.
  unfold memcpy_at. rewrite take_0. simpl. rewrite length_take.
  destruct (Nat.min_spec n (length u)) as [[? ->]|[? ->]]; [apply take_drop|].
  rewrite drop_all, app_nil_r. by apply take_ge.
Qed.

Lemma memcpy_at_part o n (u : list byte) :
  (length o <= n <= length u)%nat -> memcpy_at 0 (memcpy_at 0 o (take n u)) u = memcpy_at 0 o u.
Proof.
  intros Hn. unfold memcpy_at. rewrite !take_0. simpl.
  rewrite <- app_assoc. f_equal. rewrite length_app, length_drop, length_take, skipn_firstn_comm.
  replace (length o + (n `min` length u - length o))%nat with n by lia.
  rewrite <- (take_drop (n - length o) (drop (length o) u)) at 2. f_equal.
  rewrite drop_drop. f_equal. lia.
Qed.

Lemma memcpy_at_nil (u : list byte) : memcpy_at 0 [] u = u.
Proof. unfold memcpy_at. by rewrite take_0, drop_0. Qed.

Section exec.
Context {D : Type} `{!NvmeKvDevice D} `{!NvmeKvDeviceLaws D}.
Implicit Types (k : nvme_kernel D) (c : nvme_passthru_kv_cmd).

(** The buffers of the process need no copy in the kernel. *)
Definition aligned k : Prop := forall cmd, nk_bounce k cmd = None.

(** The driver translates [c], the device runs it, and what comes back is the
    answer to [c]. *)
Definition exec_ok c k : Prop :=
  exists nc metadata meta_len st res buf d,
    kv_build_command c = Ret (inr (nc, metadata, meta_len)) /\
    dev_exec nc (meta_buffer metadata meta_len)
      (kv_dma_buffer (kc_opcode c) (kc_data_addr c) (kc_data_length c) (nk_bounce k c)) (nk_dev k) = (st, res, buf, d) /\
    dev_ready d /\
    pt_answer c (dev_contents (nk_dev k))
      (NvmeAioevent (kc_reqid c) (kc_ctxid c) (u32 res) (u16 st)
         (user_data false (kc_opcode c) (u16 st) buf (kc_data_addr c))) (dev_contents d).

Lemma land_byte z : 0 <= z < 256 -> Z.land z 0xff = z.
Proof. intros. change 0xff with (Z.ones 8). rewrite Z.land_ones by lia. by apply Z.mod_small. Qed.

Lemma exec_store c k :
  pt_ok c -> aligned k -> dev_ready (nk_dev k) -> kc_opcode c = nvme_cmd_kv_store -> exec_ok c k.
Proof.
  intros (_ & Hks & Hkey & Hdl & Hop) Hb Hd Ho.
  destruct Hop as [(_ & Hmax & Hopt)|[[E _]|[[E _]|[E _]]]]; [|rewrite Ho in E; done..].
  destruct (kv_key_arg_ok c Hkey) as (key & metadata & meta_len & Ek & Hkb).
  destruct (store_value_len (kc_data_length c)) as [vl inv] eqn:Ev.
  assert (Hv : 4 * vl - inv = kc_data_length c).
  { apply store_value_len_ok; [lia|done]. }
  unfold exec_ok, kv_build_command, kv_dma_buffer, pt_answer. rewrite Ho, Ek, Ev, (key_length_valid c Hkey), Hb.
  assert (Hob : Z.land (kc_cdw4 c) 255 = kc_cdw4 c)
    by (apply land_byte; destruct Hopt as [E|[E|E]]; rewrite E; vm_compute; intuition congruence).
  rewrite Hob. cbn.
  set (data := match kc_data_addr c with Some u => _ | None => _ end).
  assert (Hval : cmd_value vl inv data = pt_value c).
  { unfold cmd_value, pt_value. rewrite Hv. unfold data. destruct (kc_data_addr c) as [u|]; [|done].
    destruct (Z.eqb_spec (kc_data_length c) 0) as [->|_]; [done|]. simpl. by rewrite take_take, Nat.min_id. }
  pose proof (law_dev_store (nk_dev k) (kc_cdw3 c) (kc_cdw5 c) vl (u8 (kc_key_length c - 1)) (kc_cdw4 c) inv
    key (meta_buffer metadata meta_len) data Hd Hks) as L. rewrite Hval, Hkb in L.
  destruct (device_store _ _ _ _) as [st m] eqn:Es. destruct L as (res & d & E & Hr & Hc).
  { unfold pt_value, lenZ. rewrite length_take. lia. }
  { done. }
  eexists _, _, _, st, res, data, d. split; [reflexivity|]. split; [exact E|]. split; [done|].
  split; [done|]. split; [done|]. split; [|split; [|done]].
  - unfold device_store in Es. clear -Es. repeat case_match; by simplify_eq.
  - cbn [ev_data]. unfold user_data, data. destruct (kc_data_addr c) as [u|]; [|done].
    destruct (_ =? 0); [done|]. simpl. by rewrite memcpy_at_take.
Qed.

Lemma exec_retrieve c k :
  pt_ok c -> aligned k -> dev_ready (nk_dev k) -> kc_opcode c = nvme_cmd_kv_retrieve -> exec_ok c k.
Proof.
  intros (_ & Hks & Hkey & Hdl & Hop) Hb Hd Ho.
  destruct Hop as [[E _]|[(_ & H4 & Hm & H32 & Hoff)|[[E _]|[E _]]]]; [rewrite Ho in E; done| |rewrite Ho in E; done..].
  destruct (kv_key_arg_ok c Hkey) as (key & metadata & meta_len & Ek & Hkb).
  unfold exec_ok, kv_build_command, kv_dma_buffer, pt_answer. rewrite Ho, Ek, H4, (key_length_valid c Hkey), Hb. cbn.
  assert (Hw := shiftr_words (kc_data_length c) (proj1 Hdl) Hm).
  set (data := match kc_data_addr c with Some u => _ | None => _ end).
  assert (Hroom : kc_data_length c <= lenZ (default [] data)).
  { unfold data, lenZ in *. destruct (kc_data_addr c) as [u|]; [|simpl in *; lia].
    destruct (Z.eqb_spec (kc_data_length c) 0); simpl in *; [lia|]. rewrite length_take. lia. }
  pose proof (law_dev_retrieve (nk_dev k) (kc_cdw3 c) (kc_cdw5 c) (Z.shiftr (kc_data_length c) 2)
    (u8 (kc_key_length c - 1)) key (meta_buffer metadata meta_len) data Hd Hks) as L. rewrite Hw, Hkb in L.
  specialize (L Hroom). destruct (device_retrieve _ _ _ _) as [[st total] out] eqn:Es.
  destruct L as (res & d & E & Hres & Hr & Hc). eexists _, _, _, st, res, _, d. split; [reflexivity|].
  split; [exact E|]. split; [done|]. split; [done|]. split; [done|].
  unfold device_retrieve in Es. destruct (as_ks _ _ !! pt_key c) as [v|] eqn:Ev.
  2: { injection Es as <- <- <-. split; [done|]. split; [done|]. split; [|done]. cbn [ev_data].
       unfold user_data, data. destruct (kc_data_addr c) as [u|]; [|done]. destruct (_ =? 0); [done|].
       simpl. by rewrite memcpy_at_take. }
  pose proof (law_dev_value_len _ _ _ _ Hd Ev) as Hv.
  destruct (bool_decide _) eqn:Eb; injection Es as <- <- <-.
  - split; [done|]. split; [done|]. split; [|done]. cbn [ev_data].
    unfold user_data, data. destruct (kc_data_addr c) as [u|]; [|done]. destruct (_ =? 0); [done|].
    simpl. by rewrite memcpy_at_take.
  - split; [done|]. split; [intros _; cbn [ev_result]; rewrite Hres by done; apply u32_small; unfold lenZ in *; lia|].
    split; [|done]. cbn [ev_data]. unfold user_data, data, lenZ in *.
    destruct (kc_data_addr c) as [u|]; [|done]. destruct (Z.eqb_spec (kc_data_length c) 0) as [->|Hne].
    + unfold slice. simpl. by rewrite memcpy_at_nil.
    + simpl in *. f_equal. apply memcpy_at_part. unfold slice. rewrite length_take. lia.
Qed.

Lemma exec_delete c k :
  pt_ok c -> dev_ready (nk_dev k) -> kc_opcode c = nvme_cmd_kv_delete -> exec_ok c k.
Proof.
  intros (_ & Hks & Hkey & Hdl & Hop) Hd Ho.
  destruct Hop as [[E _]|[[E _]|[(_ & Hdata & Hopt)|[E _]]]]; [rewrite Ho in E; done..| |rewrite Ho in E; done].
  destruct (kv_key_arg_ok c Hkey) as (key & metadata & meta_len & Ek & Hkb).
  unfold exec_ok, kv_build_command, kv_dma_buffer, pt_answer. rewrite Ho, Ek, Hdata, (key_length_valid c Hkey).
  assert (Hob : Z.land (kc_cdw4 c) 255 = kc_cdw4 c)
    by (apply land_byte; destruct Hopt as [E|E]; rewrite E; vm_compute; intuition congruence).
  rewrite Hob. cbn.
  pose proof (law_dev_delete (nk_dev k) (kc_cdw3 c) (u8 (kc_key_length c - 1)) (kc_cdw4 c) key
    (meta_buffer metadata meta_len) Hd Hks Hopt) as L. rewrite Hkb in L.
  destruct (device_delete _ _ _) as [st m] eqn:Es. destruct L as (res & d & E & Hr & Hc).
  eexists _, _, _, st, res, None, d. split; [reflexivity|]. split; [exact E|]. split; [done|].
  split; [done|]. split; [done|]. split; [|done].
  unfold device_delete in Es. clear -Es. repeat case_match; by simplify_eq.
Qed.

Lemma exec_exist c k :
  pt_ok c -> dev_ready (nk_dev k) -> kc_opcode c = nvme_cmd_kv_exist -> exec_ok c k.
Proof.
  intros (_ & Hks & Hkey & Hdl & Hop) Hd Ho.
  destruct Hop as [[E _]|[[E _]|[[E _]|(_ & Hdata & H4)]]]; [rewrite Ho in E; done..|].
  destruct (kv_key_arg_ok c Hkey) as (key & metadata & meta_len & Ek & Hkb).
  unfold exec_ok, kv_build_command, kv_dma_buffer, pt_answer. rewrite Ho, Ek, Hdata, (key_length_valid c Hkey), H4. cbn.
  destruct (law_dev_exist (nk_dev k) (kc_cdw3 c) (u8 (kc_key_length c - 1)) 0 key
    (meta_buffer metadata meta_len) Hd Hks) as (res & d & E & Hr & Hc). rewrite Hkb in E.
  eexists _, _, _, _, res, None, d. split; [reflexivity|]. split; [exact E|]. split; [done|].
  split; [done|]. split; [done|]. split; [|done]. unfold device_exist. by destruct (bool_decide _).
Qed.

Lemma kernel_exec c k : pt_ok c -> aligned k -> dev_ready (nk_dev k) -> exec_ok c k.
Proof.
  intros H Hb Hd. pose proof (proj2 (proj2 (proj2 (proj2 H)))) as Hop.
  destruct Hop as [[E _]|[[E _]|[[E _]|[E _]]]].
  - by apply exec_store.
  - by apply exec_retrieve.
  - by apply exec_delete.
  - by apply exec_exist.
Qed.

(** ** The laws of the calls *)

(** The context [ax] exists, its eventfd is unread-free, and the completion
    worker of the CPU and the device have work as given. *)
Definition proc_base (ax : nvme_aioctx) k : Prop :=
  nk_tb k !! ax_ctxid ax = Some (Kaioctx (ax_eventfd ax) [] true) /\ 0 <= ax_ctxid ax < AIOCTX_MAX /\
  nk_efds k !! ax_eventfd ax = Some 0 /\ nk_capable k = true /\ aligned k /\ dev_ready (nk_dev k).

Definition worker_idle k : Prop := nk_workers k !! 0 = None /\ nk_rounds k !! 0 = None.

Definition proc_idle (ax : nvme_aioctx) (p : nvme_process D) : Prop :=
  let k := pr_kernel p in proc_base ax k /\ nk_inflight k = [] /\ worker_idle k.

(** The event a request becomes once it is on its context's list. *)
Definition final_event (cb : nvme_kaiocb) : nvme_aioevent :=
  ev_set_data (user_data (cb_need_to_copy cb) (cb_opcode cb) (ev_status (cb_event cb)) (cb_kbuf cb)
                 (ev_data (cb_event cb))) (cb_event cb).

(** One request in flight, and one with the completion worker. *)
Definition proc_inflight (ax : nvme_aioctx) (e : nvme_aioevent) (s : astore) k : Prop :=
  exists cb st res buf d, proc_base ax k /\ nk_inflight k = [cb] /\ worker_idle k /\
    dev_exec (cb_cmd cb) (cb_meta cb) (cb_kbuf cb) (nk_dev k) = (st, res, buf, d) /\ dev_ready d /\
    dev_contents d = s /\ ev_ctxid (cb_event cb) = ax_ctxid ax /\
    final_event (Kaiocb (ev_complete (u32 res) (u16 st) (cb_event cb)) (cb_opcode cb) (cb_cmd cb)
                   (cb_meta cb) (cb_len cb) buf (cb_need_to_copy cb)) = e.

Definition proc_with_worker (ax : nvme_aioctx) (e : nvme_aioevent) (s : astore) k : Prop :=
  exists cb, proc_base ax k /\ nk_inflight k = [] /\ nk_workers k !! 0 = Some [cb] /\ nk_rounds k !! 0 = None /\
    dev_contents (nk_dev k) = s /\ ev_ctxid (cb_event cb) = ax_ctxid ax /\ final_event cb = e.

Definition proc_waiting (ax : nvme_aioctx) (n : nat) (e : nvme_aioevent) (s : astore)
    (p : nvme_process D) : Prop :=
  match n with
  | O => proc_with_worker ax e s (pr_kernel p)
  | S O => proc_inflight ax e s (pr_kernel p)
  | _ => False
  end.

Lemma proc_submit ax c p :
  proc_idle ax p -> kc_ctxid c = ax_ctxid ax -> pt_ok c ->
  exists p' n e s, (forall fd, ioctl_aio_cmd fd c p = Ret (0, p')) /\
    pt_answer c (dev_contents (nk_dev (pr_kernel p))) e s /\ proc_waiting ax n e s p'.
Proof.
  intros (Hbase & Hin & Hw) Hctx Hok. set (k := pr_kernel p) in *.
  assert (Hb := Hbase). destruct Hb as (_ & _ & _ & Hcap & Hbounce & Hready).
  destruct (kernel_exec c k Hok Hbounce Hready) as (nc & md & ml & st & res & buf & d & E1 & E2 & Hd & Ha).
  assert (Hkv : is_kv_cmd (kc_opcode c) = true).
  { destruct Hok as (_ & _ & _ & _ & [[-> _]|[[-> _]|[[-> _]|[-> _]]]]); reflexivity. }
  exists (pr_set_kernel (submit_kv_aio nc c md ml k) p), 1%nat. eexists _, (dev_contents d).
  split; [|split; [exact Ha|]].
  - intros fd. simpl. fold k. unfold nvme_user_kv_cmd. rewrite Hcap, Hkv, (proj1 Hok), E1. reflexivity.
  - simpl. unfold submit_kv_aio, proc_inflight. simpl. fold k. rewrite Hin. simpl.
    eexists _, st, res, buf, d. split; [exact Hbase|]. split; [reflexivity|]. split; [done|].
    split; [exact E2|]. split; [done|]. split; [done|]. split; [done|].
    unfold final_event. cbn. by rewrite Hbounce.
Qed.

Lemma proc_timeout ax e s p :
  proc_inflight ax e s (pr_kernel p) ->
  exists p', proc_select (ax_eventfd ax) p = (0, p') /\ proc_with_worker ax e s (pr_kernel p').
Proof.
  intros (cb & st & res & buf & d & Hb & Hin & [Hw Hrd] & E & Hd & Hs & Hc & He).
  assert (Hb' := Hb). destruct Hb' as (_ & _ & Hefd & _).
  unfold proc_select, efd_count. rewrite Hefd. cbn [default Z.ltb Z.compare].
  unfold background_turn. rewrite Hrd, Hw. unfold kv_async_completion. rewrite Hin. cbn [lookup list_lookup mbind option_bind].
  rewrite E. cbn [default from_option id nk_efds nk_set_dev nk_set_requests]. rewrite Hefd. cbn [default Z.ltb Z.compare].
  eexists. split; [reflexivity|]. simpl. rewrite Hw. simpl.
  eexists. split; [|split; [reflexivity|split; [apply lookup_insert_eq|split; [exact Hrd|split; [done|]]]]].
  - destruct Hb as (H1 & H2 & H3 & H4 & H5 & _). exact (conj H1 (conj H2 (conj H3 (conj H4 (conj H5 Hd))))).
  - split; [exact Hc|exact He].
Qed.

Lemma proc_ready ax e s p :
  proc_with_worker ax e s (pr_kernel p) ->
  exists p1 p2 p3, proc_select (ax_eventfd ax) p = (1, p1) /\
    sys_read_eventfd (ax_eventfd ax) p1 = Ret (Some 1, p2) /\
    (forall fd, ioctl_get_aioevent fd 1 (ax_ctxid ax) p2 = Ret (0, [e], p3)) /\
    proc_idle ax p3 /\ dev_contents (nk_dev (pr_kernel p3)) = s.
Proof.
  intros (cb & Hb & Hin & Hw & Hrd & Hs & Hc & He).
  destruct Hb as (Htb & Hr & Hefd & Hcap & Hbounce & Hd). set (k := pr_kernel p) in *.
  assert (Hfind : forall k', nk_tb k' = nk_tb k ->
    find_kaioctx (ax_ctxid ax) k' = Ret (Some (Kaioctx (ax_eventfd ax) [] true))).
  { intros k' E. unfold find_kaioctx. rewrite E, Htb.
    destruct (Z.leb_spec 0 (ax_ctxid ax)), (Z.ltb_spec (ax_ctxid ax) AIOCTX_MAX); simpl; try done; lia. }
  set (x := Kaioctx (ax_eventfd ax) [cb_set_event e cb] true).
  set (k1 := NvmeKernel (<[ax_ctxid ax := x]> (nk_tb k)) (nk_tb_lock k) (nk_aio_context_id k)
    (alter (Z.add 1) (ax_eventfd ax) (nk_efds k)) (nk_inflight k) (delete 0 (nk_workers k)) (nk_rounds k)
    (nk_capable k) (nk_ns_id k) (nk_files k) (nk_bounce k) (nk_dev k)).
  assert (Hworker : worker_steps 4 0 k = Ret k1).
  { cbn [worker_steps]. unfold kvaio_percpu_worker at 1. rewrite Hrd, Hw. cbn [nk_rounds nk_set_rounds]. rewrite lookup_insert_eq.
    unfold kvaio_percpu_worker at 1. cbn [nk_rounds nk_set_rounds]. rewrite lookup_insert_eq.
    unfold kv_complete_aio_fn, set_aioctx_event. cbv zeta. rewrite Hc, Hfind by done.
    cbn [mbind dev_outcome_bind nk_rounds nk_set_rounds nk_set_tb nk_set_requests kx_eventfd]. rewrite lookup_insert_eq.
    unfold kvaio_percpu_worker at 1. cbn [nk_rounds nk_set_rounds]. rewrite lookup_insert_eq.
    cbn [nk_rounds nk_set_rounds eventfd_signal nk_set_efds]. rewrite lookup_insert_eq.
    unfold kvaio_percpu_worker at 1. cbn [nk_rounds nk_set_rounds]. rewrite lookup_insert_eq.
    cbn [nk_rounds nk_set_rounds]. rewrite lookup_delete_eq. fold (final_event cb). rewrite He.
    unfold k1. rewrite !insert_insert_eq, delete_insert_id by done. reflexivity. }
  assert (Hcount : nk_efds k1 !! ax_eventfd ax = Some 1).
  { unfold k1. simpl. by rewrite lookup_alter_eq, Hefd. }
  exists (pr_set_kernel k1 p). eexists _, _. split; [|split; [|split]].
  - unfold proc_select, efd_count. fold k. rewrite Hefd. cbn [default Z.ltb Z.compare].
    unfold background_turn, at_worker. rewrite Hrd, Hw. cbn [from_option id length Nat.mul Nat.add].
    rewrite Hworker, Hcount. reflexivity.
  - simpl. unfold eventfd_read. rewrite Hcount. reflexivity.
  - intros fd. simpl. unfold nvme_get_ioevents. simpl. rewrite Hcap. simpl.
    unfold find_kaioctx. simpl. rewrite lookup_insert_eq.
    destruct (Z.leb_spec 0 (ax_ctxid ax)), (Z.ltb_spec (ax_ctxid ax) AIOCTX_MAX); simpl; try lia. reflexivity.
  - split; [|exact Hs]. split; [|split; [done|split; [apply lookup_delete_eq|exact Hrd]]].
    split; [apply lookup_insert_eq|]. split; [done|]. split; [apply lookup_insert_eq|]. done.
Qed.

#[export, refine] Instance process_laws : KvKernelLaws (nvme_process D) := {|
  k_idle := proc_idle;
  k_contents := fun p => dev_contents (nk_dev (pr_kernel p));
  k_waiting := proc_waiting;
  law_k_spaces := _; law_k_value_len := _; law_k_submit := _; law_k_turns := _; law_k_timeout := _;
  law_k_ready := _
|}.
Proof.
  - intros ax p (Hb & _). apply law_dev_spaces. apply Hb.
  - intros ax p ks key v (Hb & _). apply law_dev_value_len. apply Hb.
  - intros ax fd c p Hp Hc Hok. destruct (proc_submit ax c p Hp Hc Hok) as (p' & n & e & s & H & Ha & Hw).
    exists p', n, e, s. split; [apply H|]. by split.
  - intros ax [|[|n]] e s p H; simpl in *; [lia|lia|done].
  - intros ax [|n] e s p H; [|done]. by apply proc_timeout.
  - intros ax e s p fd H. destruct (proc_ready ax e s p H) as (p1 & p2 & p3 & H1 & H2 & H3 & H4 & H5).
    exists p1, p2, p3. repeat split; auto; apply H4.
Defined.
End exec.
