(* ===== verification/KadiInv.v ===== *)
(** * Many requests through the adapter

    The contexts of [KADI] and the requests in the NVMe driver belong together:
    with any number of requests in flight, and whatever the device and the
    completion workers do in between, every accepted request gets its callback
    once, a poll returns, and it never finds an event without a context. *)

From Stdlib Require Import Strings.String.
From stdpp Require Import base numbers list gmap sorting.
From S2P Require Import Prelude.
From S2P Require Import AdiTypes.
From S2P Require Import Config.
From S2P Require Import NvmeCmd.
From S2P Require Import SimDevice.
From S2P Require Import NvmeAio.
From S2P Require Import NvmeAioSpec.
From S2P Require Import Kadi.
From S2P Require Import KadiSync.
From S2P Require Import KernelCalls.

(** The requests of a context. *)
Definition of_ctx (c : Z) (ts : list (Z * Z)) : list (Z * Z) := filter (fun t => t.1 = c) ts.

Lemma of_ctx_app c ts ts' : of_ctx c (ts ++ ts') = of_ctx c ts ++ of_ctx c ts'.
Proof. apply filter_app. Qed.

Lemma of_ctx_perm c ts ts' : ts ≡ₚ ts' -> of_ctx c ts ≡ₚ of_ctx c ts'.
Proof. intros H. unfold of_ctx. by rewrite H. Qed.

Lemma of_ctx_all c ts : Forall (fun t => t.1 = c) ts -> of_ctx c ts = ts.
Proof. apply filter_all. Qed.

Section kernel.
Context {D : Type} `{!NvmeKvDevice D}.
Implicit Types (k : nvme_kernel D) (p : nvme_process D).

(** ** The driver seen from one context *)

Definition sane k : Prop :=
  nk_capable k = true /\ forall fd n, nk_efds k !! fd = Some n -> 0 <= n.

(** [m] events of the context [c] were counted on the eventfd and read there, but
    are still on the list; no other context has this eventfd. *)
Definition ctx_state (c fd m : Z) k : Prop :=
  kinv k /\ sane k /\ (forall c' x', nk_tb k !! c' = Some x' -> kx_eventfd x' = fd -> c' = c) /\
  exists x n, nk_tb k !! c = Some x /\ kx_eventfd x = fd /\ nk_efds k !! fd = Some n /\
    n + m + pending fd k = Z.of_nat (length (kx_list x)).

Lemma worker_sane cpu k k' : sane k -> kvaio_percpu_worker cpu k = Ret k' -> sane k'.
Proof.
  intros Hk H. unfold kvaio_percpu_worker, kv_complete_aio_fn, set_aioctx_event in H.
  destruct (nk_rounds k !! cpu) as [[[|cb rest]|fd rest]|]; try (injection H as <-; done).
  - destruct (find_kaioctx _ k) as [[x|]| |]; try done; by injection H as <-.
  - injection H as <-. destruct Hk as [Hc He]. split; [done|]. cbn. intros fd' n.
    rewrite lookup_alter_Some. intros [(_ & m & Hm & ->)|[_ Hm]]; [|by eapply He].
    specialize (He _ _ Hm). lia.
  - destruct (nk_workers k !! cpu) as [[|cb l]|]; try done. by injection H as <-.
Qed.

(** What the threads of the driver do, and what a process does with its own context. *)
Definition own_label (l : klabel) : Prop := match l with LSet | LDel _ _ => False | _ => True end.

Lemma kstep_sane k l k' : own_label l -> sane k -> kstep k l k' -> sane k'.
Proof.
  intros Hown Hk Hst; revert Hown; destruct Hst as [cmd res st data k2 Hc H|i cpu k2 H|cpu k2 H|nr c evs k2 H|fd n k2 H|uctx r u k2 H|uctx r k2 H]; intros Hown; try done.
  - apply user_kv_aio_inv in H as (c & m & n & _ & ->). done.
  - unfold kv_async_completion in H. destruct (nk_inflight k !! i); [|done]. cbn in H.
    destruct (dev_exec _ _ _ _) as [[[? ?] ?] ?]. by injection H as <-.
  - by eapply worker_sane.
  - by apply ioevents_inv in H as [[_ ->]|(x & _ & _ & ->)].
  - unfold eventfd_read in H. destruct (nk_efds k !! fd) as [m|]; [|done]. destruct (m =? 0); [done|].
    injection H as _ <-. destruct Hk as [Hc He]. split; [done|]. cbn. intros fd' n'.
    rewrite lookup_insert_Some. intros [[_ <-]|[_ ?]]; [lia|by eapply He].
Qed.

(** Such steps make no contexts and leave their eventfds. *)
Lemma kstep_contexts k l k' c x' :
  own_label l -> kstep k l k' -> nk_tb k' !! c = Some x' -> exists x, nk_tb k !! c = Some x /\ kx_eventfd x' = kx_eventfd x.
Proof.
  intros Hown Hst Hx; revert Hown; destruct Hst as [cmd res st data k2 Hc H|i cpu k2 H|cpu k2 H|nr c2 evs k2 H|fd n k2 H|uctx r u k2 H|uctx r k2 H]; intros Hown; try done.
  - apply user_kv_aio_inv in H as (? & ? & ? & _ & ->). eauto.
  - unfold kv_async_completion in H. destruct (nk_inflight k !! i); [|done]. cbn in H.
    destruct (dev_exec _ _ _ _) as [[[? ?] ?] ?]. injection H as <-. eauto.
  - unfold kvaio_percpu_worker, kv_complete_aio_fn, set_aioctx_event, find_kaioctx in H.
    destruct (nk_rounds k !! cpu) as [[[|cb rest]|fd rest]|]; try (injection H as <-; eauto; done).
    + destruct (negb _); [done|]. destruct (nk_tb k !! ev_ctxid (cb_event cb)) as [y|] eqn:Hy; [destruct (kx_live y); [|done]|];
        injection H as <-; [|by eauto]. cbn in Hx. apply lookup_insert_Some in Hx as [[<- <-]|[_ Hx]]; eauto.
    + destruct (nk_workers k !! cpu) as [[|cb l]|]; try done. injection H as <-. eauto.
  - apply ioevents_inv in H as [[_ ->]|(y & Hy & _ & ->)]; [eauto|]. cbn in Hx.
    apply lookup_insert_Some in Hx as [[<- <-]|[_ Hx]]; eauto.
  - unfold eventfd_read in H. destruct (nk_efds k !! fd) as [m|]; [|done]. destruct (m =? 0); [done|]. injection H as _ <-. eauto.
Qed.

Lemma ctx_state_step c fd m l k k' :
  ctx_state c fd m k -> own_label l -> kstep k l k' ->
  ctx_state c fd (m + read_total fd [l] - ctx_count c (delivered [l])) k' /\
  of_ctx c (outstanding k) ++ of_ctx c (submitted [l]) ≡ₚ of_ctx c (delivered [l]) ++ of_ctx c (outstanding k').
Proof.
  intros (Hk & Hs & Hu & x & n & Hx & Hfd & Hn & Hm) Hown Hst.
  destruct (kstep_ok k l k' Hk Hst) as [Hk' Hp _ Hcount Hctx Hlab].
  assert (Hlost : of_ctx c (lost [l]) = []).
  { destruct l as [| |t| | | | |]; try done. change (lost [LDrop t]) with [t].
    unfold of_ctx. rewrite filter_cons_False; [done|]. intros E. by rewrite E, Hx in Hlab. }
  split.
  - destruct (Hcount fd n Hn) as (n' & Hn' & Ec). destruct (Hctx c x Hx) as (x' & Hx' & Hfd' & El); [by destruct l|].
    assert (Hone : listed_at fd [l] = ctx_count c (listed [l])).
    { destruct l as [|fd' t| | | | | |]; try done. destruct Hlab as (y & Hy & <-). unfold listed_at, listed. cbn.
      rewrite ctx_count_cons. change (ctx_count c []) with 0. destruct (Z.eqb_spec (kx_eventfd y) fd) as [E|E].
      - rewrite decide_True; [done|]. by eapply Hu.
      - rewrite decide_False; [done|]. intros <-. congruence. }
    split; [done|]. split; [by eapply kstep_sane|]. split.
    { intros c2 y Hy E. destruct (kstep_contexts _ _ _ _ _ Hown Hst Hy) as (y0 & Hy0 & E0). eapply Hu; [exact Hy0|congruence]. }
    exists x', n'. split; [done|]. split; [congruence|]. split; [done|]. lia.
  - rewrite <- of_ctx_app, (of_ctx_perm c _ _ Hp), !of_ctx_app, Hlost. done.
Qed.

(** The requests on the list of a context are among those in the driver. *)
Lemma ctx_list_outstanding c x k :
  kinv k -> nk_tb k !! c = Some x ->
  exists ts, of_ctx c (outstanding k) ≡ₚ (cb_tag <$> kx_list x) ++ ts.
Proof.
  intros (_ & Hl & _) Hx.
  exists (of_ctx c (cb_tag <$> nk_inflight k) ++ of_ctx c (in_workers k) ++ of_ctx c (in_rounds k) ++
          of_ctx c (gather (fun x => cb_tag <$> kx_list x) (delete c (nk_tb k)))).
  assert (Hall : of_ctx c (cb_tag <$> kx_list x) = cb_tag <$> kx_list x).
  { apply of_ctx_all, Forall_fmap. by eapply Hl. }
  unfold outstanding. rewrite !of_ctx_app.
  assert (Hc : of_ctx c (in_contexts k) ≡ₚ (cb_tag <$> kx_list x) ++ of_ctx c (gather (fun x => cb_tag <$> kx_list x) (delete c (nk_tb k)))).
  { rewrite <- Hall at 1. rewrite <- of_ctx_app. apply of_ctx_perm. exact (gather_lookup (fun x => cb_tag <$> kx_list x) _ _ _ Hx). }
  rewrite Hc. solve_Permutation.
Qed.

Lemma pending_nonneg fd k : 0 <= pending fd k.
Proof. unfold pending, occurs. lia. Qed.

(** Taking events from a context. *)
Lemma get_events c fd m nr k :
  ctx_state c fd m k -> 1 <= nr <= m -> nr <= 128 ->
  exists evs k', nvme_get_ioevents nr c k = Ret (0, evs, k') /\ ctx_state c fd (m - nr) k' /\
    of_ctx c (outstanding k) ≡ₚ (pair c <$> (ev_reqid <$> evs)) ++ of_ctx c (outstanding k').
Proof.
  intros Hc Hnr H128. assert (Hc' := Hc). destruct Hc' as (Hk & [Hcap Hpos] & _ & x & n & Hx & Hfd & Hn & Hlen).
  specialize (Hpos _ _ Hn). pose proof (pending_nonneg fd k). set (evs := cb_event <$> rev (take (Z.to_nat nr) (kx_list x))).
  assert (Hget : exists k', nvme_get_ioevents nr c k = Ret (0, evs, k')).
  { unfold nvme_get_ioevents. rewrite Hcap, (proj2 (Z.eqb_neq nr 0)), (proj2 (Z.ltb_ge 128 nr)) by lia. cbn [negb orb].
    rewrite (find_kaioctx_live _ x) by (done || apply Hk). by eexists. }
  destruct Hget as [k' Hget]. exists evs, k'. split; [done|].
  destruct (ctx_state_step _ _ _ (LDeliver _) _ _ Hc I (KGet k nr c evs k' Hget)) as [Hc2 Ho].
  assert (Htags : ev_tag <$> evs = pair c <$> (ev_reqid <$> evs)).
  { rewrite <- list_fmap_compose. apply Forall_fmap_ext_1. unfold evs. apply Forall_fmap.
    apply Forall_rev, Forall_take. eapply Forall_impl; [by eapply (proj1 (proj2 Hk))|].
    intros cb <-. reflexivity. }
  assert (Hd : delivered [LDeliver (ev_tag <$> evs)] = pair c <$> (ev_reqid <$> evs)).
  { unfold delivered. cbn. by rewrite app_nil_r. }
  assert (Hall : Forall (fun t : Z * Z => t.1 = c) (pair c <$> (ev_reqid <$> evs))).
  { apply Forall_fmap, Forall_true. done. }
  rewrite Hd in Hc2, Ho. rewrite (of_ctx_all _ _ Hall) in Ho. rewrite app_nil_r in Ho.
  split; [|exact Ho]. rewrite (ctx_count_all _ _ Hall), !length_fmap in Hc2.
  change (read_total fd _) with 0 in Hc2. unfold evs in Hc2. rewrite length_fmap, length_rev, length_take in Hc2.
  replace (m - nr) with (m + 0 - Z.of_nat (Z.to_nat nr `min` length (kx_list x))) by lia. exact Hc2.
Qed.
End kernel.

(** ** The adapter *)

Section adapter.
Context {D : Type} `{!NvmeKvDevice D}.
Implicit Types (a : KADI (nvme_process D)) (c : aio_cmd_ctx).

Definition kern a : nvme_kernel D := pr_kernel (ka_kernel a).
Definition set_kern (k : nvme_kernel D) a : KADI (nvme_process D) :=
  ka_set_kernel (pr_set_kernel k (ka_kernel a)) a.

(** Every index below the queue depth is that of a context, which is either free
    or in use. *)
Definition pool_ok a : Prop :=
  1 <= ka_qdepth a < 2 ^ 31 /\ ka_free a ++ elements (ka_pending a) ≡ₚ seqZ 0 (ka_qdepth a) /\
  forall i, 0 <= i < ka_qdepth a -> is_Some (ka_ctx a !! i).

(** The requests of the driver's context are those of the contexts in use. *)
Definition adapter_ok (m : Z) a : Prop :=
  let ctxid := ax_ctxid (ka_aioctx a) in
  pool_ok a /\ ctx_state ctxid (ax_eventfd (ka_aioctx a)) m (kern a) /\
  of_ctx ctxid (outstanding (kern a)) ≡ₚ pair ctxid <$> elements (ka_pending a).

(** The callbacks of the contexts in use. *)
Definition callback_of a (i : Z) : option Z * Z :=
  match ka_ctx a !! i with Some c => (cc_post_fn c, cc_post_data c) | None => (None, 0) end.
Definition waiting a : list (option Z * Z) := callback_of a <$> elements (ka_pending a).
Definition called (done : list (option Z * kadi_io_context)) : list (option Z * Z) :=
  (fun d => (d.1, ic_private_data d.2)) <$> done.

Lemma pending_range i a : pool_ok a -> i ∈ ka_pending a -> 0 <= i < ka_qdepth a.
Proof.
  intros (_ & Hp & _) Hi. assert (i ∈ seqZ 0 (ka_qdepth a)) as Hs%elem_of_seqZ; [|lia].
  rewrite <- Hp. apply elem_of_app. right. by apply elem_of_elements.
Qed.

Lemma pending_size a : pool_ok a -> Z.of_nat (length (elements (ka_pending a))) <= ka_qdepth a.
Proof.
  intros (Hq & Hp & _). apply Permutation_length in Hp. rewrite length_app, length_seqZ in Hp. lia.
Qed.

(** No more events are announced than there are contexts. *)
Lemma announced_bound a m :
  pool_ok a -> ctx_state (ax_ctxid (ka_aioctx a)) (ax_eventfd (ka_aioctx a)) m (kern a) ->
  of_ctx (ax_ctxid (ka_aioctx a)) (outstanding (kern a)) ≡ₚ pair (ax_ctxid (ka_aioctx a)) <$> elements (ka_pending a) ->
  m <= ka_qdepth a.
Proof.
  intros Hp (Hk & [_ Hpos] & _ & x & n & Hx & _ & Hn & Hlen) Ho. specialize (Hpos _ _ Hn).
  pose proof (pending_nonneg (ax_eventfd (ka_aioctx a)) (kern a)).
  destruct (ctx_list_outstanding _ x (kern a) Hk Hx) as [ts Hts]. pose proof (pending_size a Hp).
  rewrite Ho in Hts. apply Permutation_length in Hts. rewrite length_app, !length_fmap in Hts. lia.
Qed.

(** What the device and the workers do. *)
Definition internal (l : klabel) : Prop := match l with LTau | LList _ _ | LDrop _ => True | _ => False end.
Definition ktau k k' : Prop := exists l, internal l /\ kstep k l k'.

(** A step of the device or of a worker. *)
Lemma adapter_tau m k' a : adapter_ok m a -> ktau (kern a) k' -> adapter_ok m (set_kern k' a).
Proof.
  intros (Hp & Hc & Ho) (l & Hl & Hs).
  assert (Hown : own_label l /\ submitted [l] = [] /\ delivered [l] = [] /\ forall fd, read_total fd [l] = 0) by (by destruct l).
  destruct Hown as (Hown & E1 & E2 & E3). destruct (ctx_state_step _ _ _ _ _ _ Hc Hown Hs) as [Hc' Ho'].
  rewrite E1, E2, app_nil_r in Ho'. rewrite E2, E3, Z.add_0_r, Z.sub_0_r in Hc'.
  split; [exact Hp|]. split; [exact Hc'|]. etransitivity; [symmetry; exact Ho'|exact Ho].
Qed.

Lemma adapter_taus m k' a : adapter_ok m a -> rtc ktau (kern a) k' -> adapter_ok m (set_kern k' a).
Proof.
  intros Ha Hr. remember (kern a) as k eqn:E. revert a Ha E. induction Hr as [k|k k1 k2 Hs _ IH]; intros a Ha ->.
  - assert (E : set_kern (kern a) a = a); [|by rewrite E]. unfold set_kern, kern. destruct a as [? ? ? ? ? ? ? ? ? p]. by destruct p.
  - change (set_kern k2 a) with (set_kern k2 (set_kern k1 a)). apply IH; [by apply adapter_tau|done].
Qed.

Lemma worker_label_internal cpu (k : nvme_kernel D) : internal (worker_label cpu k).
Proof. unfold worker_label. by destruct (nk_rounds k !! cpu) as [[[|cb rest]|]|]; [|destruct (nk_tb k !! _)|..]. Qed.

Lemma worker_steps_run n cpu (k k' : nvme_kernel D) : worker_steps n cpu k = Ret k' -> rtc ktau k k'.
Proof.
  revert k. induction n as [|n IH]; intros k H; cbn in H; [injection H as <-; constructor|].
  destruct (kvaio_percpu_worker cpu k) as [k1| |] eqn:E; [|injection H as <-; constructor|done].
  eapply rtc_l; [exists (worker_label cpu k); split; [apply worker_label_internal|by apply KWorker]|].
  destruct (nk_rounds k1 !! cpu); [by apply IH|]. injection H as <-. constructor.
Qed.

Lemma background_steps (k : nvme_kernel D) : rtc ktau k (background_turn k).
Proof.
  assert (Hc : rtc ktau k (default k (kv_async_completion 0 0 k))).
  { destruct (kv_async_completion 0 0 k) as [k'|] eqn:E; [|constructor].
    apply rtc_once. exists LTau. split; [done|]. by eapply KComplete. }
  assert (Hw : rtc ktau k (match worker_steps (2 * length (at_worker k) + 2) 0 k with Ret k' => k' | _ => k end)).
  { destruct (worker_steps _ 0 k) as [k'| |] eqn:E; [by eapply worker_steps_run|constructor..]. }
  unfold background_turn. destruct (nk_rounds k !! 0); [done|]. by destruct (nk_workers k !! 0) as [[|]|].
Qed.

(** [select] lets the threads run, and says whether there are events to read. *)
Lemma select_ok a :
  adapter_ok 0 a -> exists r k', sys_select (ax_eventfd (ka_aioctx a)) (ka_kernel a) = (r, ka_kernel (set_kern k' a)) /\
    adapter_ok 0 (set_kern k' a) /\ (r = 0 \/ r = 1 /\ 0 < efd_count (ax_eventfd (ka_aioctx a)) k').
Proof.
  intros Ha. cbn [sys_select process_calls]. unfold proc_select. fold (kern a).
  destruct (Z.ltb_spec 0 (efd_count (ax_eventfd (ka_aioctx a)) (kern a))) as [Hn|Hn].
  { exists 1, (kern a). assert (E : set_kern (kern a) a = a).
    { unfold set_kern, kern. destruct a as [? ? ? ? ? ? ? ? ? p]. cbn. by destruct p. }
    rewrite E. split; [done|]. split; [done|]. by right. }
  assert (Ha' : adapter_ok 0 (set_kern (background_turn (kern a)) a)) by (apply adapter_taus; [done|apply background_steps]).
  eexists _, _. split; [reflexivity|]. split; [done|].
  destruct (Z.ltb_spec 0 (efd_count (ax_eventfd (ka_aioctx a)) (background_turn (kern a)))); [by right|by left].
Qed.

(** The events of requests in use, each once: their contexts are released. *)
Lemma complete_events_ok evs : forall a,
  pool_ok a -> NoDup (ev_reqid <$> evs) -> (forall e, e ∈ evs -> ev_reqid e ∈ ka_pending a) ->
  exists done, complete_events evs a =
      Ret (done, ka_set_ctxs (ka_free a ++ (ev_reqid <$> evs)) (ka_pending a ∖ list_to_set (ev_reqid <$> evs)) (ka_ctx a) a) /\
    called done = callback_of a <$> (ev_reqid <$> evs).
Proof.
  induction evs as [|e evs IH]; intros a Ha Hnd Hin; cbn [complete_events].
  { exists []. cbn [fmap list_fmap]. rewrite app_nil_r. split; [|done]. f_equal. f_equal.
    cbn. rewrite difference_empty_L. by destruct a. }
  cbn [fmap list_fmap] in Hnd |- *. apply NoDup_cons in Hnd as [Hne Hnd].
  set (i := ev_reqid e) in *. assert (Hi : i ∈ ka_pending a) by (apply Hin; left).
  pose proof (pending_range i a Ha Hi) as Hr. assert (Hq := proj1 Ha).
  destruct (proj2 (proj2 Ha) i Hr) as [c Hc].
  assert (Hu : u32 (s32 i) = i).
  { unfold s32. rewrite Z.mod_small by lia. unfold u32. rewrite Z.mod_small by lia. lia. }
  unfold get_cmdctx. fold i. rewrite Hu, bool_decide_true by done. rewrite Hc. cbn [mbind option_bind].
  destruct (IH (release_cmd_ctx i a)) as (done & E & Hd).
  - destruct Ha as (Hq' & Hp & Hx). split; [done|]. split; [|done]. cbn. rewrite <- Hp, <- app_assoc. cbn.
    f_equiv. rewrite <- (elements_union_singleton (ka_pending a ∖ {[i]}) i) by (rewrite not_elem_of_difference; right; by apply elem_of_singleton).
    by rewrite <- union_difference_singleton_L.
  - done.
  - intros e' He'. cbn. apply elem_of_difference. split; [apply Hin; by right|].
    rewrite elem_of_singleton. intros E'. apply Hne. rewrite <- E'. by apply list_elem_of_fmap_2.
  - rewrite E. eexists. split; [|].
    + cbn [mbind dev_outcome_bind release_cmd_ctx ka_set_ctxs ka_free ka_pending ka_ctx]. rewrite <- app_assoc.
      cbn [app]. rewrite difference_difference_l_L. reflexivity.
    + cbn [called fmap list_fmap fst snd]. f_equal; [|exact Hd]. unfold callback_of. rewrite Hc. f_equal.
      apply fill_private.
Qed.

(** The contexts in use after some were released. *)
Lemma elements_difference (X : gset Z) l :
  NoDup l -> (forall i, i ∈ l -> i ∈ X) -> elements X ≡ₚ l ++ elements (X ∖ list_to_set l).
Proof.
  intros Hnd Hin. apply NoDup_Permutation.
  - apply NoDup_elements.
  - apply NoDup_app. split; [done|]. split; [|apply NoDup_elements].
    intros i Hi. rewrite elem_of_elements, elem_of_difference, elem_of_list_to_set. tauto.
  - intros i. rewrite elem_of_app, !elem_of_elements, elem_of_difference, elem_of_list_to_set.
    split; [destruct (decide (i ∈ l)); tauto|intros [Hi|[Hi _]]; auto].
Qed.

Lemma waiting_after a free l :
  NoDup l -> (forall i, i ∈ l -> i ∈ ka_pending a) ->
  waiting a ≡ₚ (callback_of a <$> l) ++ waiting (ka_set_ctxs free (ka_pending a ∖ list_to_set l) (ka_ctx a) a).
Proof.
  intros Hnd Hin. unfold waiting. rewrite (elements_difference _ l Hnd Hin) at 1. by rewrite fmap_app.
Qed.

(** One round of the loop of a poll, with [m] events announced. *)
Lemma poll_round m a :
  adapter_ok m a -> 0 < m ->
  let nr := Z.min (Z.min (s32 m) MAX_AIO_EVENTS) (ka_qdepth a) in
  1 <= nr <= m /\ u16 nr = nr /\
  exists evs k' done a',
    ioctl_get_aioevent (ka_fd a) nr (ax_ctxid (ka_aioctx a)) (ka_kernel a) = Ret (0, evs, ka_kernel (set_kern k' a)) /\
    complete_events evs (set_kern k' a) = Ret (done, a') /\ adapter_ok (m - nr) a' /\
    waiting a ≡ₚ called done ++ waiting a'.
Proof.
  intros (Hp & Hc & Ho) Hm. pose proof (announced_bound a m Hp Hc Ho) as Hmq. assert (Hq := proj1 Hp).
  assert (Hs32 : s32 m = m) by (unfold s32; rewrite Z.mod_small by lia; lia).
  rewrite Hs32. set (nr := Z.min (Z.min m 128) (ka_qdepth a)). cbv zeta.
  split; [lia|]. split; [unfold u16; rewrite Z.mod_small by lia; lia|].
  destruct (get_events _ _ m nr (kern a) Hc) as (evs & k' & Hget & Hc' & Hout); [lia|lia|].
  set (ids := ev_reqid <$> evs) in *.
  assert (Hnd : NoDup ids /\ forall i, i ∈ ids -> i ∈ ka_pending a).
  { rewrite Ho in Hout. split.
    - assert (Hn : NoDup ((pair (ax_ctxid (ka_aioctx a)) <$> ids) ++ of_ctx (ax_ctxid (ka_aioctx a)) (outstanding k'))).
      { rewrite <- Hout. apply NoDup_fmap_2; [congruence|apply NoDup_elements]. }
      apply NoDup_app in Hn as [Hn _]. by apply NoDup_fmap_1 in Hn.
    - intros i Hi. apply (list_elem_of_fmap_2 (pair (ax_ctxid (ka_aioctx a)))) in Hi.
      assert (Hi' : (ax_ctxid (ka_aioctx a), i) ∈ pair (ax_ctxid (ka_aioctx a)) <$> elements (ka_pending a)).
      { rewrite Hout. apply elem_of_app. by left. }
      apply list_elem_of_fmap in Hi' as (j & [= ->] & Hj). by apply elem_of_elements. }
  destruct Hnd as [Hnd Hin].
  destruct (complete_events_ok evs (set_kern k' a) Hp Hnd) as (done & E & Hd).
  { intros e He. apply Hin. by apply list_elem_of_fmap_2. }
  exists evs, k', done. eexists. split; [|split; [exact E|split]].
  - cbn [ioctl_get_aioevent process_calls]. fold (kern a). rewrite Hget. reflexivity.
  - split; [|split; [exact Hc'|]].
    + destruct Hp as (_ & Hperm & Hx). split; [exact Hq|]. split; [|exact Hx]. cbn.
      rewrite <- app_assoc, <- Hperm. f_equiv. symmetry. by apply elements_difference.
    + cbn. rewrite Ho, (elements_difference _ ids Hnd Hin), fmap_app in Hout. by apply Permutation_app_inv_l in Hout.
  - rewrite Hd. exact (waiting_after (set_kern k' a) _ ids Hnd Hin).
Qed.

(** The loop of a poll takes the announced events and ends. *)
Lemma poll_loop_ok fuel : forall m n a,
  adapter_ok m a -> 0 <= m -> (Z.to_nat m <= fuel)%nat ->
  exists n' done a', poll_loop fuel m n a = Ret (0, n', done, a') /\ adapter_ok 0 a' /\
    waiting a ≡ₚ called done ++ waiting a'.
Proof.
  induction fuel as [|fuel IH]; intros m n a Ha Hm Hf.
  { assert (m = 0) as -> by lia. exists n, [], a. done. }
  destruct (Z.eqb_spec m 0) as [->|Hne]; [by exists n, [], a|].
  destruct (poll_round m a Ha) as (Hnr & Hu & evs & k' & done & a' & E1 & E2 & Ha' & Hw); [lia|].
  set (nr := Z.min (Z.min (s32 m) MAX_AIO_EVENTS) (ka_qdepth a)) in *.
  destruct (IH (m - nr) (u32 (n + nr)) a' Ha') as (n' & done' & a2 & E3 & Ha2 & Hw2); [lia|lia|].
  assert (Hmq : m < 2 ^ 64).
  { pose proof (announced_bound a m (proj1 Ha) (proj1 (proj2 Ha)) (proj2 (proj2 Ha))). destruct Ha as [[Hq _] _]. lia. }
  exists n', (done ++ done'), a2. split; [|split; [done|]].
  - cbn [poll_loop]. rewrite (proj2 (Z.eqb_neq m 0)) by done. fold nr. rewrite Hu, E1.
    cbn [mbind dev_outcome_bind Z.ltb Z.compare]. change (ka_set_kernel (ka_kernel (set_kern k' a)) a) with (set_kern k' a).
    rewrite E2. cbn [mbind dev_outcome_bind]. replace (u64 (m - nr)) with (m - nr) by (unfold u64; rewrite Z.mod_small by lia; lia).
    rewrite E3. reflexivity.
  - unfold called in *. rewrite fmap_app, <- app_assoc, <- Hw2. exact Hw.
Qed.

(** A poll. *)
Lemma poll_ok n a :
  adapter_ok 0 a -> exists n' cs a', poll_completion n a = Ret (0, n', cs, a') /\ adapter_ok 0 a' /\
    waiting a ≡ₚ called cs ++ waiting a'.
Proof.
  intros Ha. destruct (select_ok a Ha) as (r & k' & E & Ha1 & Hr).
  unfold poll_completion. rewrite E. change (ka_set_kernel (ka_kernel (set_kern k' a)) a) with (set_kern k' a).
  destruct Hr as [->|[-> Hcnt]]; cbn [Z.leb Z.compare].
  { exists 0, [], (set_kern k' a). done. }
  set (efd := ax_eventfd (ka_aioctx a)) in *. set (a1 := set_kern k' a) in *.
  destruct Ha1 as (Hp & Hc & Ho). assert (Hc' := Hc). destruct Hc' as (Hk & _ & _ & x & m & Hx & _ & Hm & Hlen).
  change (ax_eventfd (ka_aioctx a1)) with efd in *. change (kern a1) with k' in *.
  assert (Hcnt' : 0 < m). { unfold efd_count in Hcnt. by rewrite Hm in Hcnt. }
  set (k2 := nk_set_efds (<[efd := 0]> (nk_efds k')) k').
  assert (Hread : eventfd_read efd k' = Ret (m, k2)).
  { unfold eventfd_read. rewrite Hm, (proj2 (Z.eqb_neq m 0)) by lia. done. }
  destruct (ctx_state_step _ _ _ (LRead _ _) _ _ Hc I (KRead k' efd m k2 Hread)) as [Hc2 Ho2].
  destruct (poll_loop_ok (Z.to_nat m) m n (set_kern k2 a1)) as (n' & cs & a' & E3 & Ha' & Hw); [|lia|done|].
  { split; [exact Hp|]. split.
    - unfold read_total in Hc2. cbn in Hc2. rewrite Z.eqb_refl in Hc2.
      replace m with (m + 0 - ctx_count (ax_ctxid (ka_aioctx a1)) []) by (change (ctx_count _ []) with 0; lia). exact Hc2.
    - rewrite app_nil_r in Ho2. etransitivity; [symmetry; exact Ho2|exact Ho]. }
  exists n', cs, a'. split; [|done]. cbn [sys_read_eventfd process_calls].
  change (pr_kernel (ka_kernel a1)) with k'. rewrite Hread. cbn [mbind dev_outcome_bind]. exact E3.
Qed.

(** ** Submissions *)

Definition callback_pair (cb : option kadi_callback) : option Z * Z :=
  match cb with Some cb => (kcb_post_fn cb, kcb_private_data cb) | None => (None, 0) end.

(** A context that is taken from the pool, with the fields that the call sets. *)
Definition taken (i : Z) (rest : list Z) c a : KADI (nvme_process D) :=
  ka_set_ctxs rest ({[i]} ∪ ka_pending a) (<[i := c]> (ka_ctx a)) a.

Lemma pool_free i rest a : pool_ok a -> ka_free a = rest ++ [i] -> 0 <= i < ka_qdepth a /\ i ∉ ka_pending a.
Proof.
  intros (_ & Hp & _) Hf. rewrite Hf in Hp. split.
  - assert (i ∈ seqZ 0 (ka_qdepth a)) as Hs%elem_of_seqZ; [|lia].
    rewrite <- Hp, !elem_of_app. left. right. by apply list_elem_of_singleton.
  - assert (Hn : NoDup ((rest ++ [i]) ++ elements (ka_pending a))) by (rewrite Hp; apply NoDup_seqZ).
    apply NoDup_app in Hn as (_ & Hn & _). rewrite <- elem_of_elements. apply Hn.
    apply elem_of_app. right. by apply list_elem_of_singleton.
Qed.

Lemma pool_taken i rest c a : pool_ok a -> ka_free a = rest ++ [i] -> pool_ok (taken i rest c a).
Proof.
  intros Ha Hf. destruct (pool_free i rest a Ha Hf) as [_ Hi]. destruct Ha as (Hq & Hp & Hx).
  split; [done|]. split; cbn.
  - rewrite elements_union_singleton by done. rewrite <- Hp, Hf. solve_Permutation.
  - intros j Hj. apply lookup_insert_is_Some'. right. by apply Hx.
Qed.

Lemma callback_taken i rest c a j : j <> i -> callback_of (taken i rest c a) j = callback_of a j.
Proof. intros Hj. unfold callback_of. cbn. by rewrite lookup_insert_ne. Qed.

Lemma callbacks_taken i rest c a :
  i ∉ ka_pending a -> callback_of (taken i rest c a) <$> elements (ka_pending a) = waiting a.
Proof.
  intros Hi. apply list_fmap_ext. intros n j Hj. apply callback_taken. intros ->. apply Hi.
  apply elem_of_elements. by eapply list_elem_of_lookup_2.
Qed.

Lemma waiting_taken i rest c a :
  i ∉ ka_pending a -> waiting (taken i rest c a) ≡ₚ (cc_post_fn c, cc_post_data c) :: waiting a.
Proof.
  intros Hi. rewrite <- (callbacks_taken i rest c a Hi). unfold waiting. cbn [ka_pending taken ka_set_ctxs].
  rewrite elements_union_singleton by done.
  cbn [fmap list_fmap]. unfold callback_of at 1. cbn [ka_ctx taken ka_set_ctxs]. by rewrite lookup_insert_eq.
Qed.

(** The ioctl of a request: refused, or submitted. *)
Lemma aio_cmd_cases fd cmd b a :
  nk_capable (kern a) = true -> kv_build_command cmd = Ret b ->
  (exists p, ioctl_aio_cmd fd cmd (ka_kernel a) = Ret (-1, p) /\ pr_kernel p = kern a) \/
  (exists k' data, ioctl_aio_cmd fd cmd (ka_kernel a) = Ret (0, ka_kernel (set_kern k' a)) /\
     nvme_user_kv_cmd cmd true (kern a) = Ret (0, 0, 0, data, k')).
Proof.
  intros Hcap Hb. cbn [ioctl_aio_cmd process_calls]. fold (kern a). unfold nvme_user_kv_cmd. rewrite Hcap, Hb. cbn [negb].
  destruct (negb (kc_flags cmd =? 0)); [left; by eexists|]. destruct (negb (is_kv_cmd _)); [left; by eexists|].
  destruct b as [r|[[c m] n]]; [left; by eexists|]. right. by eexists _, _.
Qed.

(** The outcome of a submission: refused ([None]), or the callback is waiting. *)
Definition submitted_ok (cb : option kadi_callback) (r : option Z) a a' : Prop :=
  adapter_ok 0 a' /\
  match r with
  | Some z => z = 0 /\ waiting a' ≡ₚ callback_pair cb :: waiting a
  | None => ka_pending a' = ka_pending a /\ waiting a' ≡ₚ waiting a
  end.

Lemma release_taken i (X : gset Z) : i ∉ X -> ({[i]} ∪ X) ∖ {[i]} = X.
Proof.
  intros H. apply set_eq. intros j. rewrite elem_of_difference, elem_of_union, !elem_of_singleton.
  split; [intros [[->|?] ?]; done|]. intros Hj. split; [by right|]. by intros ->.
Qed.

(** A refused request goes back to the pool. *)
Lemma submit_refused i rest c p a :
  adapter_ok 0 a -> ka_free a = rest ++ [i] -> pr_kernel p = kern a ->
  submitted_ok None None a (release_cmd_ctx i (ka_set_kernel p (taken i rest c a))).
Proof.
  intros (Hp & Hc & Ho) Hf Hk. destruct (pool_free i rest a Hp Hf) as [_ Hn].
  split; [split; [|split]|].
  - destruct (pool_taken i rest c a Hp Hf) as (Hq & _ & Hx). split; [exact Hq|]. split; [|exact Hx]. cbn.
    rewrite release_taken by done. rewrite <- Hf. apply Hp.
  - unfold kern. cbn. rewrite Hk. exact Hc.
  - unfold kern. cbn. rewrite Hk, release_taken by done. exact Ho.
  - rewrite <- (callbacks_taken i rest c a Hn). unfold waiting.
    cbn [ka_pending release_cmd_ctx ka_set_kernel taken ka_set_ctxs]. by rewrite release_taken.
Qed.

(** A request that the driver takes is in use. *)
Lemma submit_accepted cb i rest c cmd data k' a :
  adapter_ok 0 a -> ka_free a = rest ++ [i] -> kc_ctxid cmd = ax_ctxid (ka_aioctx a) -> kc_reqid cmd = i ->
  (cc_post_fn c, cc_post_data c) = callback_pair cb ->
  nvme_user_kv_cmd cmd true (kern a) = Ret (0, 0, 0, data, k') ->
  submitted_ok cb (Some 0) a (ka_set_kernel (ka_kernel (set_kern k' (taken i rest c a))) (taken i rest c a)).
Proof.
  intros (Hp & Hc & Ho) Hf Hctx Hreq Hcb Hsub. destruct (pool_free i rest a Hp Hf) as [_ Hn].
  assert (Hst : kstep (kern a) (LSubmit (kc_ctxid cmd, kc_reqid cmd)) k').
  { eapply KSubmit; [|exact Hsub]. rewrite Hctx. destruct Hc as ((Htb & _) & _ & _ & x & n & Hx & _). by apply (Htb _ x). }
  destruct (ctx_state_step _ _ _ (LSubmit _) _ _ Hc I Hst) as [Hc' Ho'].
  change (ctx_count _ _) with 0 in Hc'. change (read_total _ _) with 0 in Hc'. change (0 + 0 - 0) with 0 in Hc'.
  split; [split; [|split]|].
  - exact (pool_taken i rest c a Hp Hf).
  - exact Hc'.
  - unfold kern. cbn. rewrite elements_union_singleton by done. cbn.
    change (of_ctx _ (delivered _)) with (@nil (Z * Z)) in Ho'. cbn [app] in Ho'. rewrite <- Ho', Ho.
    change (submitted _) with [(kc_ctxid cmd, kc_reqid cmd)].
    rewrite Hctx, Hreq, of_ctx_all by (repeat constructor). solve_Permutation.
  - split; [done|]. rewrite <- Hcb. exact (waiting_taken i rest c a Hn).
Qed.

Lemma submit_taken cb i rest c cmd b a :
  adapter_ok 0 a -> ka_free a = rest ++ [i] -> kc_ctxid cmd = ax_ctxid (ka_aioctx a) -> kc_reqid cmd = i ->
  kv_build_command cmd = Ret b -> (cc_post_fn c, cc_post_data c) = callback_pair cb ->
  exists r a', submit_aio i cmd (taken i rest c a) = Ret (r, a') /\ submitted_ok cb r a a'.
Proof.
  intros Ha Hf Hctx Hreq Hb Hcb.
  destruct (aio_cmd_cases (ka_fd a) cmd b (taken i rest c a)) as [(p & E & Hk)|(k' & data & E & Hsub)];
    [apply Ha|done|..]; unfold submit_aio; cbn [ka_fd taken ka_set_ctxs] in *; rewrite E;
    cbn [mbind dev_outcome_bind Z.ltb Z.compare].
  - exists None. eexists. split; [reflexivity|]. exact (submit_refused i rest c p a Ha Hf Hk).
  - exists (Some 0). eexists. split; [reflexivity|]. by eapply submit_accepted.
Qed.

Lemma call_submits cb key value buf (mk : Z -> nvme_passthru_kv_cmd) a :
  adapter_ok 0 a -> ka_free a <> [] ->
  (forall i, kc_ctxid (mk i) = ax_ctxid (ka_aioctx a) /\ kc_reqid (mk i) = i /\ exists b, kv_build_command (mk i) = Ret b) ->
  exists i fr pe cx r a', let a1 := ka_set_ctxs fr pe cx a in
    get_cmd_ctx cb a = Ret (i, a1) /\
    submit_aio i (mk i) (set_ctx i key value buf (mk i) a1) = Ret (r, a') /\ submitted_ok cb r a a'.
Proof.
  intros Ha Hne Hmk. destruct (rev (ka_free a)) as [|i rest] eqn:Er.
  { destruct Hne. rewrite <- (rev_involutive (ka_free a)), Er. reflexivity. }
  apply rev_last in Er. destruct (pool_free i (rev rest) a (proj1 Ha) Er) as [Hi _].
  destruct (proj2 (proj2 (proj1 Ha)) i Hi) as [c0 Hc0]. destruct (Hmk i) as (Hctx & Hreq & b & Hb).
  set (c := AioCmdCtx (default (cc_key c0) key) (default (cc_value c0) value) (default (cc_buf c0) buf)
              (callback_pair cb).1 (callback_pair cb).2 (mk i)).
  destruct (submit_taken cb i (rev rest) c (mk i) b a Ha Er Hctx Hreq Hb) as (r & a' & E & Hok).
  { by destruct cb as [[f d]|]. }
  exists i, (rev rest), ({[i]} ∪ ka_pending a),
    (<[i := AioCmdCtx (cc_key c0) (cc_value c0) (cc_buf c0) (callback_pair cb).1 (callback_pair cb).2 (cc_cmd c0)]> (ka_ctx a)), r, a'.
  cbv zeta. split; [|split; [|done]].
  - unfold get_cmd_ctx. rewrite Er, rev_app_distr, rev_involutive. cbn [rev app]. rewrite Hc0. by destruct cb.
  - rewrite <- E. f_equal. unfold set_ctx, taken. cbn [ka_free ka_pending ka_ctx ka_set_ctxs].
    by rewrite alter_insert_eq.
Qed.

(** ** Calls *)

Inductive adapter_call :=
| AStore (ks : Z) (key : option kv_key) (value : option kv_value) (opt : Z) (cb : option kadi_callback)
| ARetrieve (ks : Z) (key : option kv_key) (value : option kv_value) (cb : option kadi_callback)
| ADelete (ks : Z) (key : option kv_key) (check_exist : Z) (cb : option kadi_callback)
| AExist (ks : Z) (key : option (list byte)) (length : Z) (cb : kadi_callback)
| AIterRead (h : kv_iter_context) (cb : option kadi_callback).

Definition call_cb (c : adapter_call) : option kadi_callback :=
  match c with
  | AStore _ _ _ _ cb | ARetrieve _ _ _ cb | ADelete _ _ _ cb | AIterRead _ cb => cb
  | AExist _ _ _ cb => Some cb
  end.

(** The code that a call returns; a [bool] is one or zero. *)
Definition run_call (c : adapter_call) a : dev_outcome (Z * KADI (nvme_process D)) :=
  match c with
  | AStore ks key value opt cb => kadi_store ks key value opt cb a
  | ARetrieve ks key value cb => kadi_retrieve ks key value cb a
  | ADelete ks key check_exist cb => kadi_delete ks key cb check_exist a
  | AExist ks key length cb => '(b, a) ← kadi_exist ks key length (Some cb) a; Ret (Z.b2z b, a)
  | AIterRead h cb => iter_read_async h cb a
  end.

(** Whether the code of a call says that the request was accepted. *)
Definition code_tells (c : adapter_call) (r : Z) (accepted : bool) : Prop :=
  match c with
  | AExist _ _ _ _ => r = 1
  | _ => accepted = (r =? 0)
  end.

(** A call returns unless there is no free context; it has either submitted its
    request or left everything as it was. *)
Definition call_ok (c : adapter_call) a : Prop :=
  (ka_free a = [] /\ run_call c a = Blocked) \/
  exists r a' accepted, run_call c a = Ret (r, a') /\ adapter_ok 0 a' /\ code_tells c r accepted /\
    if accepted : bool then waiting a' ≡ₚ callback_pair (call_cb c) :: waiting a
    else ka_pending a' = ka_pending a /\ waiting a' ≡ₚ waiting a.

(** The commands of the calls can always be translated. *)
Lemma build_key_cmd cmd key :
  kc_arg cmd = key_arg key (kc_key_length cmd) ->
  kc_opcode cmd = nvme_cmd_kv_store \/ kc_opcode cmd = nvme_cmd_kv_retrieve \/
  kc_opcode cmd = nvme_cmd_kv_delete \/ kc_opcode cmd = nvme_cmd_kv_exist ->
  exists b, kv_build_command cmd = Ret b.
Proof.
  intros Ha Ho. assert (Hk : exists k, kv_key_arg cmd = Ret k).
  { unfold kv_key_arg. rewrite Ha. unfold key_arg.
    destruct (Z.ltb_spec KVCMD_INLINE_KEY_MAX (kc_key_length cmd)), (Z.leb_spec (kc_key_length cmd) KVCMD_INLINE_KEY_MAX);
      try lia; by eexists. }
  destruct Hk as [[[k m] n] Hk]. unfold kv_build_command.
  destruct (store_value_len (kc_data_length cmd)) as [vl inv]. destruct Ho as [-> |[-> |[-> | ->]]]; cbn;
    destruct (key_length_invalid cmd); try (by eexists); rewrite Hk; by eexists.
Qed.

Implicit Types (call : adapter_call).

(** A call that returns at once. *)
Lemma call_ok_same call code a :
  adapter_ok 0 a -> run_call call a = Ret (code, a) -> code_tells call code false -> call_ok call a.
Proof. intros Ha E Hc. right. by exists code, a, false. Qed.

(** A call that takes a context, submits the command [mk i] and returns [ret]. *)
Lemma call_ok_request call key value buf (mk : Z -> KADI (nvme_process D) -> nvme_passthru_kv_cmd) (ret : option Z -> Z) a :
  adapter_ok 0 a ->
  run_call call a =
    ('(i, a) ← get_cmd_ctx (call_cb call) a;
     '(r, a) ← submit_aio i (mk i a) (set_ctx i key value buf (mk i a) a); Ret (ret r, a)) ->
  (forall i fr pe cx, mk i (ka_set_ctxs fr pe cx a) = mk i a) ->
  (forall i, kc_ctxid (mk i a) = ax_ctxid (ka_aioctx a) /\ kc_reqid (mk i a) = i /\
     exists b, kv_build_command (mk i a) = Ret b) ->
  code_tells call (ret (Some 0)) true -> code_tells call (ret None) false -> call_ok call a.
Proof.
  intros Ha Hrun Hmk Hcmd Ht Hf. destruct (decide (ka_free a = [])) as [E|Hne].
  { left. split; [done|]. rewrite Hrun. unfold get_cmd_ctx. by rewrite E. }
  destruct (call_submits (call_cb call) key value buf (fun i => mk i a) a Ha Hne Hcmd)
    as (i & fr & pe & cx & r & a' & E1 & E2 & Hok & Hr). cbv zeta in E1, E2.
  rewrite E1 in Hrun. cbn [mbind dev_outcome_bind] in Hrun. rewrite Hmk, E2 in Hrun. cbn [mbind dev_outcome_bind] in Hrun.
  right. exists (ret r), a', (match r with Some _ => true | None => false end).
  split; [done|]. split; [done|]. destruct r as [z|]; [|done]. destruct Hr as [-> Hr]. done.
Qed.

Lemma adapter_call_ok call a : adapter_ok 0 a -> call_ok call a.
Proof.
  intros Ha. destruct call as [ks [k|] [v|] opt cb|ks [k|] [v|] cb|ks [k|] opt cb|ks key len cb|h cb];
    try (eapply call_ok_same; [done|reflexivity|done]).
  - destruct (decide (k_key k = None)) as [E|E].
    { eapply call_ok_same; [done|cbn [run_call]; unfold kadi_store; by rewrite bool_decide_true|done]. }
    apply (call_ok_request _ (Some (Some k)) (Some (Some v)) None (store_cmd ks k v opt) aio_ret); try done.
    + cbn [run_call]. unfold kadi_store. by rewrite bool_decide_false.
    + intros i. split; [done|]. split; [done|]. eapply build_key_cmd; [reflexivity|auto].
  - destruct (decide (k_key k = None)) as [E|E].
    { eapply call_ok_same; [done|cbn [run_call]; unfold kadi_retrieve; by rewrite bool_decide_true|done]. }
    apply (call_ok_request _ (Some (Some k)) (Some (Some v)) None (retrieve_cmd ks k v) aio_ret); try done.
    + cbn [run_call]. unfold kadi_retrieve. by rewrite bool_decide_false.
    + intros i. split; [done|]. split; [done|]. eapply build_key_cmd; [reflexivity|auto].
  - destruct (decide (k_key k = None)) as [E|E].
    { eapply call_ok_same; [done|cbn [run_call]; unfold kadi_delete; by rewrite bool_decide_true|done]. }
    apply (call_ok_request _ (Some (Some k)) (Some None) None (delete_cmd ks k opt) aio_ret); try done.
    + cbn [run_call]. unfold kadi_delete. by rewrite bool_decide_false.
    + intros i. split; [done|]. split; [done|]. eapply build_key_cmd; [reflexivity|auto].
  - apply (call_ok_request _ None None None (exist_cmd ks key len) (fun r => Z.b2z (exist_ret r))); try done.
    + cbn [run_call]. unfold kadi_exist. destruct (get_cmd_ctx _ a) as [[i a1]| |]; [|done..].
      cbn [mbind dev_outcome_bind]. by destruct (submit_aio _ _ _) as [[r a2]| |].
    + intros i. split; [done|]. split; [done|]. eapply build_key_cmd; [reflexivity|auto].
  - apply (call_ok_request _ None None (Some (ki_buf h)) (fun i a => iter_read_cmd h (ax_ctxid (ka_aioctx a)) i a)
      (default (kv_result_code KV_ERR_SYS_IO))); try done.
    intros i. split; [done|]. split; [done|]. by eexists.
Qed.

(** ** Runs *)

(** A step of the process (a call or a poll) or of the driver: the callbacks of
    the requests accepted and those called. *)
Inductive astep a : list (option Z * Z) -> list (option Z * Z) -> KADI (nvme_process D) -> Prop :=
| astep_call call r a' :
    run_call call a = Ret (r, a') ->
    astep a (if decide (ka_pending a' = ka_pending a) then [] else [callback_pair (call_cb call)]) [] a'
| astep_poll n r n' cs a' : poll_completion n a = Ret (r, n', cs, a') -> astep a [] (called cs) a'
| astep_kernel k' : ktau (kern a) k' -> astep a [] [] (set_kern k' a).

Inductive atrace a : list (option Z * Z) -> list (option Z * Z) -> KADI (nvme_process D) -> Prop :=
| atrace_nil : atrace a [] [] a
| atrace_step ss cs a1 ss' cs' a2 :
    atrace a ss cs a1 -> astep a1 ss' cs' a2 -> atrace a (ss ++ ss') (cs ++ cs') a2.

Lemma astep_ok a ss cs a' :
  adapter_ok 0 a -> astep a ss cs a' -> adapter_ok 0 a' /\ waiting a ++ ss ≡ₚ cs ++ waiting a'.
Proof.
  intros Ha [call r a2 H|n r n' cs2 a2 H|k' H].
  - destruct (adapter_call_ok call a Ha) as [[_ E]|(r' & a3 & b & E & Hok & _ & Hw)]; [congruence|].
    assert (a3 = a2) as -> by congruence. split; [done|]. cbn [app]. destruct b.
    + rewrite decide_False; [rewrite Hw; solve_Permutation|].
      intros Ep. apply Permutation_length in Hw. unfold waiting in Hw. cbn [length] in Hw.
      rewrite !length_fmap, Ep in Hw. lia.
    + destruct Hw as [Hp Hw]. rewrite decide_True by done. by rewrite Hw, app_nil_r.
  - destruct (poll_ok n a Ha) as (n2 & cs3 & a3 & E & Hok & Hw). rewrite E in H. injection H as _ _ -> ->.
    split; [done|]. by rewrite app_nil_r.
  - split; [by apply adapter_tau|]. by rewrite app_nil_r.
Qed.

Lemma atrace_ok a ss cs a' :
  adapter_ok 0 a -> atrace a ss cs a' -> adapter_ok 0 a' /\ waiting a ++ ss ≡ₚ cs ++ waiting a'.
Proof.
  intros Ha. induction 1 as [|ss cs a1 ss' cs' a2 _ [IH1 IH2] Hs].
  - split; [done|]. by rewrite app_nil_r.
  - destruct (astep_ok _ _ _ _ IH1 Hs) as [Hok Hw]. split; [done|].
    by rewrite app_assoc, IH2, <- !app_assoc, Hw.
Qed.

(** ** Opening *)

(** The driver with the contexts of any other devices, whose requests all belong to
    contexts; file descriptors are handed out in order. *)
Definition process_ok (p : nvme_process D) : Prop :=
  kinv (pr_kernel p) /\ (forall t, t ∈ outstanding (pr_kernel p) -> is_Some (nk_tb (pr_kernel p) !! t.1)) /\
  sane (pr_kernel p) /\ forall fd, is_Some (nk_efds (pr_kernel p) !! fd) -> fd < pr_next_fd p.

Lemma with_context_ok id efd next (k : nvme_kernel D) :
  kinv k -> (forall t, t ∈ outstanding k -> is_Some (nk_tb k !! t.1)) -> sane k ->
  0 <= id < AIOCTX_MAX -> 0 <= next < AIOCTX_MAX -> nk_tb k !! id = None -> nk_efds k !! efd = None ->
  ctx_state id efd 0 (with_context id efd next k) /\ of_ctx id (outstanding (with_context id efd next k)) = [].
Proof.
  intros (Hok & Hl & Hout & Hsig & _) Hctx [Hcap Hpos] Hid Hnext Hfree Hefd.
  assert (Hne : forall j x, nk_tb k !! j = Some x -> kx_eventfd x <> efd).
  { intros j x Hx. destruct (Hok j x Hx) as (_ & _ & n & Hn). congruence. }
  assert (Hdom : forall f, is_Some (nk_efds k !! f) -> is_Some (<[efd := 0]> (nk_efds k) !! f))
    by (intros f Hf; apply lookup_insert_is_Some'; by right).
  assert (Hperm : outstanding (with_context id efd next k) ≡ₚ outstanding k).
  { unfold outstanding, in_contexts. cbn. by rewrite gather_insert, gather_delete. }
  assert (Hpend : pending efd k = 0).
  { unfold pending, occurs. rewrite filter_none; [done|]. eapply Forall_impl; [exact Hsig|]. cbn. intros f [n Hn] ->. congruence. }
  split; [split; [|split; [|split]]|].
  - refine (conj _ (conj _ (conj _ (conj _ Hnext)))).
    + intros c x. cbn. rewrite lookup_insert_Some. intros [[<- <-]|[_ Hx]]; cbn.
      * split; [done|]. split; [done|]. rewrite lookup_insert_eq. by eexists.
      * destruct (Hok c x Hx) as (? & ? & ?). auto.
    + intros j x. cbn. rewrite lookup_insert_Some. intros [[<- <-]|[_ Hx]]; [constructor|by eapply Hl].
    + by rewrite Hperm.
    + eapply Forall_impl; [exact Hsig|]. cbn. auto.
  - split; [done|]. cbn. intros fd n. rewrite lookup_insert_Some. intros [[_ <-]|[_ ?]]; [lia|by eapply Hpos].
  - intros c' x'. cbn. rewrite lookup_insert_Some. intros [[<- _]|[_ Hx]] E; [done|]. by destruct (Hne _ _ Hx).
  - exists (Kaioctx efd [] true), 0. cbn. rewrite !lookup_insert_eq. split; [done|]. split; [done|]. split; [done|].
    change (pending efd (with_context id efd next k)) with (pending efd k). lia.
  - apply Permutation_nil_r. rewrite (of_ctx_perm id _ _ Hperm). unfold of_ctx. rewrite filter_none; [done|].
    apply Forall_forall. intros t Ht%Hctx <-. destruct Ht as [x Hx]. congruence.
Qed.

Lemma opened_ok path qd id next p :
  may_open path p -> process_ok p -> 1 <= qd < 2 ^ 31 -> 0 <= id < AIOCTX_MAX -> 0 <= next < AIOCTX_MAX ->
  nk_tb (pr_kernel p) !! id = None -> adapter_ok 0 (opened qd id next p).
Proof.
  intros (_ & _ & _ & _ & _ & Hfd) (Hk & Hctx & Hs & Hfresh) Hq Hid Hnext Hfree.
  destruct (with_context_ok id (pr_next_fd p + 1) next (pr_kernel p) Hk Hctx Hs Hid Hnext Hfree) as [Hc Ho].
  { apply eq_None_not_Some. intros Hn%Hfresh. lia. }
  split; [|split; [exact Hc|]].
  - split; [done|]. cbn. rewrite elements_empty, app_nil_r. split; [done|].
    intros i Hi. apply lookup_alloc, elem_of_seqZ. lia.
  - change (of_ctx id (outstanding (with_context id (pr_next_fd p + 1) next (pr_kernel p))) ≡ₚ
      pair id <$> elements (∅ : gset Z)). by rewrite Ho, elements_empty.
Qed.

(** C4. Opening a device gives an adapter.  Any number of clients then store, read,
    delete, check and iterate through it while the device and the completion
    workers run in any order: the callbacks of the requests accepted are, each
    once, those that polls have called and those of the requests in flight; every
    context is free or in flight. *)
Theorem callbacks_exactly_once path nsid ax qd p :
  may_open path p -> process_ok p -> 1 <= qd < 2 ^ 31 ->
  exists a0, kadi_open path (kadi_new qd nsid ax p) = Ret (0, a0) /\
    forall ss cs a, atrace a0 ss cs a ->
      ss ≡ₚ cs ++ waiting a /\ ka_free a ++ elements (ka_pending a) ≡ₚ seqZ 0 (ka_qdepth a).
Proof.
  intros Hp Hk Hq. destruct (kadi_open_eq path nsid ax qd p Hp) as (id & next & E & Hid & Hnext & Hfree).
  eexists. split; [exact E|]. intros ss cs a Ht.
  destruct (atrace_ok _ ss cs a (opened_ok path qd id next p Hp Hk Hq Hid Hnext Hfree) Ht) as [Hok Hw].
  split; [exact Hw|apply Hok].
Qed.

(** C12. In every state that such a run reaches, a poll returns with code 0: its loop
    ends and it never gets an event whose context is not in use.  A call returns
    too, unless all contexts are in flight; its code is 0 exactly if the request
    was accepted, but for an existence check, which always returns [true]. *)
Theorem adapter_returns path nsid ax qd p a0 ss cs a n call :
  may_open path p -> process_ok p -> 1 <= qd < 2 ^ 31 ->
  kadi_open path (kadi_new qd nsid ax p) = Ret (0, a0) -> atrace a0 ss cs a ->
  (exists n' cs' a', poll_completion n a = Ret (0, n', cs', a')) /\
  (ka_free a = [] /\ run_call call a = Blocked \/
   exists r a' accepted, run_call call a = Ret (r, a') /\ code_tells call r accepted /\
     length (waiting a') = (length (waiting a) + if accepted then 1 else 0)%nat).
Proof.
  intros Hp Hk Hq Hopen Ht. destruct (kadi_open_eq path nsid ax qd p Hp) as (id & next & E & Hid & Hnext & Hfree).
  assert (a0 = opened qd id next p) as -> by congruence.
  destruct (atrace_ok _ ss cs a (opened_ok path qd id next p Hp Hk Hq Hid Hnext Hfree) Ht) as [Hok _]. split.
  - destruct (poll_ok n a Hok) as (n' & cs' & a' & E' & _). by exists n', cs', a'.
  - destruct (adapter_call_ok call a Hok) as [H|(r & a' & b & E' & _ & Hc & Hw)]; [by left|right].
    exists r, a', b. split; [done|]. split; [done|]. destruct b.
    + apply Permutation_length in Hw. cbn [length] in Hw. lia.
    + destruct Hw as [_ Hw]. apply Permutation_length in Hw. lia.
Qed.
End adapter.

(** ** A run on a simulated device *)

Definition sim_path : list byte := lit "/dev/nvme0n1"%string.
Definition sim_process : nvme_process sim_device := NvmeProcess sim_kernel [sim_path] 6 0.

Lemma sim_may_open : may_open sim_path sim_process.
Proof.
  split; [by apply list_elem_of_singleton|]. split; [exact sim_kernel_wf|]. split.
  { intros H. destruct (H 0) as [x Hx]; [lia|]. done. }
  split; [done|]. split; cbn; lia.
Qed.

Lemma sim_kernel_inv : kinv sim_kernel.
Proof. refine (conj _ (conj _ (conj _ (conj _ _)))); [done|done|constructor|constructor|cbn; lia]. Qed.

Lemma sim_process_ok : process_ok sim_process.
Proof.
  split; [exact sim_kernel_inv|]. split; [by intros t Ht%elem_of_nil|]. split; [split; [done|]|].
  - cbn. intros fd n. rewrite lookup_singleton_Some. intros [_ <-]. lia.
  - cbn. intros fd [n Hn]. apply lookup_singleton_Some in Hn as [<- _]. lia.
Qed.

(** A store, on its way to the device and back, and the poll that finds it. *)
Definition sim_store : adapter_call :=
  AStore 1 (Some (mk_key (lit "title"%string))) (Some (mk_value (lit "blue"%string))) 0 (Some (KadiCallback (Some 7) 77)).

Definition sim_opened : KADI (nvme_process sim_device) := opened 2 1 2 sim_process.
Definition sim_stored : KADI (nvme_process sim_device) := (run (run_call sim_store sim_opened) (0, sim_opened)).2.

Lemma sim_open : kadi_open sim_path (kadi_new 2 0 (NvmeAioctx 0 0) sim_process) = Ret (0, sim_opened).
Proof. vm_compute. reflexivity. Qed.

Lemma sim_store_step : astep sim_opened [(Some 7, 77)] [] sim_stored.
Proof. exact (astep_call sim_opened sim_store 0 sim_stored eq_refl). Qed.

Lemma callbacks_exactly_once_witness :
  exists a, atrace sim_opened [(Some 7, 77)] [(Some 7, 77)] a /\ [(Some 7, 77)] ≡ₚ [(Some 7, 77)] ++ waiting a.
Proof.
  destruct (callbacks_exactly_once sim_path 0 (NvmeAioctx 0 0) 2 sim_process sim_may_open sim_process_ok) as (a0 & E & H); [lia|].
  assert (a0 = sim_opened) as -> by (rewrite sim_open in E; congruence).
  assert (Hrun : exists a cs, atrace sim_opened [(Some 7, 77)] cs a /\ cs = [(Some 7, 77)]).
  { eexists _, _. split.
    - eapply (atrace_step _ [(Some 7, 77)] [] _ [] _); [eapply (atrace_step _ [(Some 7, 77)] [] _ [] [])|].
      + exact (atrace_step _ [] [] _ _ _ _ (atrace_nil _) sim_store_step).
      + refine (astep_poll _ 0 _ _ [] _ _). vm_compute. reflexivity.
      + eapply (astep_poll _ 0). vm_compute. reflexivity.
    - vm_compute. reflexivity. }
  destruct Hrun as (a & cs & Ht & ->). exists a. split; [done|]. apply (H _ _ _ Ht).
Defined.

Lemma adapter_returns_witness :
  exists r a', run_call sim_store sim_stored = Ret (r, a') /\ length (waiting sim_stored) = 1%nat.
Proof.
  destruct (adapter_returns sim_path 0 (NvmeAioctx 0 0) 2 sim_process sim_opened [(Some 7, 77)] [] sim_stored 0 sim_store
    sim_may_open sim_process_ok) as [_ [[H _]|(r & a' & _ & E & _)]].
  - lia.
  - exact sim_open.
  - exact (atrace_step _ [] [] _ _ _ _ (atrace_nil _) sim_store_step).
  - vm_compute in H. discriminate.
  - exists r, a'. split; [exact E|]. vm_compute. reflexivity.
Defined.
