(* ===== verification/KernelAdi.v ===== *)
(** * The device interface over the kernel driver

    [device_abstract_layer/kernel_driver_adapter/kvs_adi.cpp]: the functions of
    the ADI on a [KADI] object.  Results are the integers of the code, because
    this layer passes device status codes and negative codes through.

    A handle is an [option]: [None] is [NULL]; its flag says whether the pointer
    to the [KADI] object in it is set.  The object itself is passed along. *)

From stdpp Require Import base numbers list gmap.
From Stdlib Require Import SpecFloat.
From S2P Require Import Prelude.
From S2P Require Import AdiTypes.
From S2P Require Import Device.
From S2P Require Import NvmeCmd.
From S2P Require Import Kadi.

(** ** Handles *)

Record kadi_dev_handle := KadiDevHandle { kdh_devid : Z; kdh_dev : bool }.
Record kadi_queue_handle := KadiQueueHandle { kqh_qid : Z; kqh_dev : bool }.
Record kadi_ns_handle := KadiNsHandle { knh_nsid : Z; knh_dev : bool }.

Abbreviation rc := kv_result_code.

(** [class devlist]: the objects in use, by address. *)
Definition devlist_add (adi : Z) (l : gset Z) : Z * gset Z :=
  if decide (adi ∈ l) then (-1, l) else (Z.of_nat (size ({[adi]} ∪ l)) - 1, {[adi]} ∪ l).
Definition devlist_remove (adi : Z) (l : gset Z) : Z * gset Z :=
  if decide (adi ∈ l) then (0, l ∖ {[adi]}) else (-1, l).

Section adi.
Context {K : Type} `{!KvKernel K}.
Implicit Types (a : KADI K).

(** ** Devices *)

(** [kv_cleanup_device] on a handle whose object is at address [ptr]: the object
    is closed by its destructor. *)
Definition kadi_cleanup_device (ptr : Z) (dev_hdl : option kadi_dev_handle) (devs : gset Z) a
    : dev_outcome (Z * gset Z * K) :=
  match dev_hdl with
  | None => Ret (rc KV_ERR_PARAM_INVALID, devs, ka_kernel a)
  | Some h =>
      if kdh_dev h
      then '(_, a) ← kadi_close a; Ret (0, (devlist_remove ptr devs).2, ka_kernel a)
      else Ret (0, devs, ka_kernel a)
  end.

(** [kv_initialize_device]; [ptr] is the address of the new object, [nsid] and
    [ax] what its uninitialised fields hold. *)
Definition kadi_initialize_device (ptr nsid : Z) (ax : nvme_aioctx) (devpath : list byte)
    (queuedepth : Z) (dev_hdl : option (option kadi_dev_handle)) (devs : gset Z) (k : K)
    : dev_outcome (Z * option (option kadi_dev_handle) * option (KADI K) * gset Z * K) :=
  match dev_hdl with
  | None => Ret (rc KV_ERR_PARAM_INVALID, dev_hdl, None, devs, k)
  | Some (Some _) => Ret (rc KV_ERR_DEV_INITIALIZED, dev_hdl, None, devs, k)
  | Some None =>
      let a := kadi_new queuedepth nsid ax k in
      let '(devid, devs) := devlist_add ptr devs in
      let hnd := Some (KadiDevHandle devid true) in
      if devid =? -1
      then '(_, devs, k) ← kadi_cleanup_device ptr hnd devs a;
           Ret (rc KV_ERR_DEV_INIT, dev_hdl, None, devs, k)
      else
        '(r, a) ← kadi_open devpath a;
        if r =? 0
        then let '(_, a) := update_capacity a in Ret (0, Some hnd, Some a, devs, ka_kernel a)
        else
          let e := sys_errno (ka_kernel a) in
          let r := if e =? 2 then KV_ERR_DEV_NOT_EXIST
                   else if e =? EACCES then KV_ERR_PERMISSION else KV_ERR_UNCORRECTIBLE in
          '(_, devs, k) ← kadi_cleanup_device ptr hnd devs a;
          Ret (rc r, dev_hdl, None, devs, k)
  end.

Definition kadi_get_device_info (dev_hdl : option kadi_dev_handle) (devinfo : option kv_device) a
    : Z * option kv_device :=
  match devinfo, dev_hdl with
  | Some _, Some h =>
      if negb (kdh_dev h) then (rc KV_ERR_DEV_NOT_EXIST, devinfo)
      else (0, Some (KvDevice 1 1 1 (ka_capacity a) SAMSUNG_KV_MIN_VALUE_LEN SAMSUNG_KV_MAX_VALUE_LEN
                       SAMSUNG_KV_MIN_KEY_LEN SAMSUNG_KV_MAX_KEY_LEN))
  | _, _ => (rc KV_ERR_PARAM_INVALID, devinfo)
  end.

Definition kadi_get_device_waf (dev_hdl : kadi_dev_handle) (waf : Z) a : Z * Z * KADI K :=
  if negb (kdh_dev dev_hdl) then (rc KV_ERR_DEV_NOT_EXIST, waf, a)
  else let '(w, a) := get_dev_waf a in (0, w, a).

(** [(uint16_t)round(1.0 * u / n * 10000)] in double arithmetic; [None] where the
    value is not finite. *)
Definition kadi_utilization (u n : Z) : option Z :=
  let q := SFdiv 53 1024 (SFmul 53 1024 (double_of_Z 1) (double_of_Z u)) (double_of_Z n) in
  u16 <$> round_float (SFmul 53 1024 q (double_of_Z 10000)).

Definition kadi_get_device_stat (dev_hdl : kadi_dev_handle) (dev_st : option kv_device_stat) a
    : dev_outcome (Z * option kv_device_stat * KADI K) :=
  match dev_st with
  | None => Ret (rc KV_ERR_PARAM_INVALID, dev_st, a)
  | Some _ =>
      if negb (kdh_dev dev_hdl) then Ret (rc KV_ERR_DEV_NOT_EXIST, dev_st, a)
      else
        let '(r, space, a) := get_freespace a in
        match space with
        | Some (_, _, (u, n)) =>
            if negb (r =? 0) then Ret (rc KV_ERR_SYS_IO, dev_st, a)
            else match kadi_utilization u n with
                 | Some z => Ret (0, Some (KvDeviceStat 1 1 z 0), a)
                 | None => Undef
                 end
        | None => Ret (rc KV_ERR_SYS_IO, dev_st, a)
        end
  end.

(** ** Queues and namespaces *)

(** A queue handle is only a pointer to the object. *)
Definition kadi_create_queue (dev_hdl : option kadi_dev_handle) (que_given hdl_given : bool)
    : Z * option kadi_queue_handle :=
  match dev_hdl with
  | Some h =>
      if negb (que_given && hdl_given) then (rc KV_ERR_PARAM_INVALID, None)
      else if negb (kdh_dev h) then (rc KV_ERR_DEV_NOT_EXIST, None)
      else (0, Some (KadiQueueHandle 0 true))
  | None => (rc KV_ERR_PARAM_INVALID, None)
  end.

Definition kadi_get_namespace_default (dev_hdl : option kadi_dev_handle) (hdl_given : bool)
    : Z * option kadi_ns_handle :=
  match dev_hdl with
  | Some h =>
      if negb hdl_given then (rc KV_ERR_PARAM_INVALID, None)
      else if negb (kdh_dev h) then (rc KV_ERR_DEV_NOT_EXIST, None)
      else (0, Some (KadiNsHandle 0 true))
  | None => (rc KV_ERR_PARAM_INVALID, None)
  end.

Definition kadi_delete_namespace (ns_hdl : option kadi_ns_handle) : Z :=
  match ns_hdl with Some _ => 0 | None => rc KV_ERR_NS_DEFAULT end.

Definition kadi_get_namespace_info (dev_hdl : kadi_dev_handle) (ns_hdl : option kadi_ns_handle)
    (nsinfo : option kv_namespace) a : Z * option kv_namespace :=
  match nsinfo, ns_hdl with
  | Some _, Some _ =>
      if negb (kdh_dev dev_hdl) then (rc KV_ERR_DEV_NOT_EXIST, nsinfo)
      else (0, Some (KvNamespace 0 true (ka_capacity a)))
  | _, _ => (rc KV_ERR_PARAM_INVALID, nsinfo)
  end.

(** The fields [attached] and [capacity] are left as they were. *)
Definition kadi_get_namespace_stat (dev_hdl : kadi_dev_handle) (ns_st : kv_namespace_stat) a
    : Z * kv_namespace_stat * KADI K :=
  if negb (kdh_dev dev_hdl) then (rc KV_ERR_DEV_NOT_EXIST, ns_st, a)
  else
    let '(r, space, a) := get_freespace a in
    match space with
    | Some (bytesused, capacity, _) =>
        if negb (r =? 0) then (rc KV_ERR_SYS_IO, ns_st, a)
        else (0, KvNamespaceStat 0 (nst_attached ns_st) (nst_capacity ns_st) (capacity -64 bytesused), a)
    | None => (rc KV_ERR_SYS_IO, ns_st, a)
    end.

(** ** Commands *)

(** The two handles of every command; dereferencing an unset object pointer. *)
Definition with_handles {A} (que_hdl : option kadi_queue_handle) (ns_hdl : option kadi_ns_handle)
    (invalid : bool) (bad : A) (run : dev_outcome A) : dev_outcome A :=
  match que_hdl, ns_hdl with
  | Some q, Some _ => if invalid then Ret bad else if kqh_dev q then run else Undef
  | _, _ => Ret bad
  end.

Definition kadi_kv_purge (que_hdl : option kadi_queue_handle) (ns_hdl : option kadi_ns_handle) : Z :=
  match que_hdl, ns_hdl with
  | Some _, Some _ => rc KV_ERR_DD_UNSUPPORTED_CMD
  | _, _ => rc KV_ERR_PARAM_INVALID
  end.

Definition kadi_kv_delete_group (que_hdl : option kadi_queue_handle) (ns_hdl : option kadi_ns_handle)
    (grp_cond : option kv_group_condition) : Z :=
  match que_hdl, ns_hdl, grp_cond with
  | Some _, Some _, Some _ => rc KV_ERR_DD_UNSUPPORTED_CMD
  | _, _, _ => rc KV_ERR_PARAM_INVALID
  end.

(** The option of a store for the device; [None] is the default branch. *)
Definition kadi_store_option (opt : Z) : option Z :=
  if opt =? KV_STORE_OPT_DEFAULT then Some STORE_OPTION_NOTHING
  else if opt =? KV_STORE_OPT_COMPRESS then Some STORE_OPTION_COMP
  else if opt =? KV_STORE_OPT_IDEMPOTENT then Some STORE_OPTION_IDEMPOTENT
  else if opt =? KV_STORE_OPT_UPDATE_ONLY then Some STORE_OPTION_UPDATE_ONLY
  else None.

Definition kadi_kv_store (que_hdl : option kadi_queue_handle) (ns_hdl : option kadi_ns_handle) (ks : Z)
    (key : option kv_key) (value : option kv_value) (opt : Z) (post_fn : option kadi_callback) a
    : dev_outcome (Z * KADI K) :=
  with_handles que_hdl ns_hdl (bool_decide (key = None \/ value = None)) (rc KV_ERR_PARAM_INVALID, a)
    match kadi_store_option opt with
    | None => Ret (rc KV_ERR_OPTION_INVALID, a)
    | Some o => kadi_store ks key value o post_fn a
    end.

(** The option of a read is not passed on. *)
Definition kadi_kv_retrieve (que_hdl : option kadi_queue_handle) (ns_hdl : option kadi_ns_handle) (ks : Z)
    (key : option kv_key) (opt : Z) (value : option kv_value) (post_fn : option kadi_callback) a
    : dev_outcome (Z * KADI K) :=
  with_handles que_hdl ns_hdl (bool_decide (key = None \/ value = None)) (rc KV_ERR_PARAM_INVALID, a)
    (kadi_retrieve ks key value post_fn a).

Definition kadi_kv_retrieve_sync (que_hdl : option kadi_queue_handle) (ns_hdl : option kadi_ns_handle)
    (ks : Z) (key : option kv_key) (opt : Z) (value : option kv_value) a
    : dev_outcome (Z * option kv_value * KADI K) :=
  with_handles que_hdl ns_hdl (bool_decide (key = None \/ value = None))
    (rc KV_ERR_PARAM_INVALID, value, a) (kadi_retrieve_sync ks key value a).

Definition kadi_kv_delete (que_hdl : option kadi_queue_handle) (ns_hdl : option kadi_ns_handle) (ks : Z)
    (key : option kv_key) (opt : Z) (post_fn : option kadi_callback) a : dev_outcome (Z * KADI K) :=
  with_handles que_hdl ns_hdl (bool_decide (key = None)) (rc KV_ERR_PARAM_INVALID, a)
    (kadi_delete ks key post_fn opt a).

(** The end of [kv_exist]. *)
Definition exist_answer (post_fn : option kadi_callback) (e : bool) (buffer_size : Z)
    (buffer : option (list byte)) : Z * option (list byte) :=
  match post_fn with
  | None => (0, if 0 <? buffer_size
                then (fun l => <[0%nat := if e then Byte.x01 else Byte.x00]> l) <$> buffer else buffer)
  | Some _ => (if e then 0 else rc KV_ERR_SYS_IO, buffer)
  end.

(** [kv_exist]: the first key is checked and used; the result buffer is written
    only without a callback. *)
Definition kadi_kv_exist (que_hdl : option kadi_queue_handle) (ns_hdl : option kadi_ns_handle) (ks : Z)
    (keys : list kv_key) (key_cnt buffer_size : Z) (buffer : option (list byte))
    (post_fn : option kadi_callback) a : dev_outcome (Z * option (list byte) * KADI K) :=
  with_handles que_hdl ns_hdl (key_cnt <? 1) (rc KV_ERR_PARAM_INVALID, buffer, a)
    match keys with
    | [] => Undef
    | key :: _ =>
        let res := validate_key_value key None in
        if negb (is_success res) then Ret (rc res, buffer, a)
        else
          '(e, a) ← kadi_exist ks (k_key key) (k_length key) post_fn a;
          let '(r, buffer) := exist_answer post_fn e buffer_size buffer in
          Ret (r, buffer, a)
    end.

Definition kadi_poll_completion (que_hdl : option kadi_queue_handle) (num_events : option Z) a
    : dev_outcome (Z * option Z * list (option Z * kadi_io_context) * KADI K) :=
  match que_hdl, num_events with
  | Some q, Some n =>
      if kqh_dev q
      then '(r, n, done, a) ← poll_completion n a; Ret (r, Some n, done, a)
      else Undef
  | _, _ => Ret (rc KV_ERR_PARAM_INVALID, num_events, [], a)
  end.

(** ** Iterators *)

(** The option of an iterator for the device. *)
Definition kadi_iter_option (it_op : Z) : option Z :=
  if it_op =? KV_ITERATOR_OPT_KEY then Some ITER_OPTION_KEY_ONLY
  else if it_op =? KV_ITERATOR_OPT_KV then Some ITER_OPTION_KEY_VALUE
  else if it_op =? KV_ITERATOR_OPT_KV_WITH_DELETE then Some ITER_OPTION_DEL_KEY_VALUE
  else None.

(** [iter_handle] is what the caller's variable holds before the call; the
    fields of the context that are not set do not matter. *)
Definition kadi_open_iterator_sync (que_hdl : kadi_queue_handle) (ks it_op : Z)
    (it_cond : kv_group_condition) (iter_handle : Z) a : dev_outcome (Z * Z * KADI K) :=
  if negb (kqh_dev que_hdl) then Ret (rc KV_ERR_DEV_NOT_EXIST, iter_handle, a)
  else match kadi_iter_option it_op with
       | None => Ret (rc KV_ERR_OPTION_INVALID, iter_handle, a)
       | Some opt =>
           '(r, h, a) ← iter_open ks (KvIterContext 0 (htobe32 (gc_bit_pattern it_cond))
                                        (htobe32 (gc_bitmask it_cond)) None ITER_BUFSIZE 0 false) opt a;
           Ret (r, if r =? 0 then u8 (ki_handle h) else iter_handle, a)
       end.

Definition kadi_close_iterator_sync (que_hdl : option kadi_queue_handle) (ns_hdl : option kadi_ns_handle)
    (iter_hdl : Z) a : dev_outcome (Z * KADI K) :=
  match que_hdl, ns_hdl with
  | Some q, Some _ =>
      if iter_hdl =? 0 then Ret (rc KV_ERR_PARAM_INVALID, a)
      else if negb (kqh_dev q) then Ret (rc KV_ERR_DEV_NOT_EXIST, a)
      else iter_close (KvIterContext iter_hdl 0 0 None 0 0 false) a
  | _, _ => Ret (rc KV_ERR_PARAM_INVALID, a)
  end.

Definition iter_hdl_invalid (iter_hdl : Z) : bool := (iter_hdl <=? 0) || (SAMSUNG_MAX_ITERATORS <? iter_hdl).

Definition kadi_iterator_next (que_hdl : option kadi_queue_handle) (ns_hdl : option kadi_ns_handle)
    (iter_hdl : Z) (iter_list : option kv_iterator_list) (post_fn : option kadi_callback) a
    : dev_outcome (Z * KADI K) :=
  with_handles que_hdl ns_hdl (iter_hdl_invalid iter_hdl || bool_decide (iter_list = None))
    (rc KV_ERR_PARAM_INVALID, a)
    match iter_list with
    | Some l => iter_read_async (KvIterContext iter_hdl 0 0 (Some (il_it_list l)) (s32 (il_size l)) 0 false)
                  post_fn a
    | None => Undef
    end.

(** [kv_iterator_next_sync]: the list with the buffer the device filled. *)
Definition kadi_iterator_next_sync (que_hdl : option kadi_queue_handle) (ns_hdl : option kadi_ns_handle)
    (iter_hdl : Z) (l : kv_iterator_list) a : dev_outcome (Z * kv_iterator_list * KADI K) :=
  with_handles que_hdl ns_hdl (iter_hdl_invalid iter_hdl) (rc KV_ERR_PARAM_INVALID, l, a)
    ('(r, h, a) ← iter_read (KvIterContext iter_hdl 0 0 (Some (il_it_list l)) (s32 (il_size l)) 0 false) a;
     let buf := default [] (ki_buf h) in
     if (r =? 0) || (r =? KV_STATUS_SCAN_FINISHED)
     then
       let '(num, size) := if 0 <? ki_byteswritten h then (word_at 0 4 buf, ki_byteswritten h) else (0, 0) in
       Ret (0, KvIteratorList num (if r =? 0 then ki_end h else true) size buf, a)
     else Ret (r, KvIteratorList (il_num_entries l) (il_end l) (il_size l) buf, a)).

Definition kadi_list_iterators_sync (que_hdl : option kadi_queue_handle) (ns_hdl : option kadi_ns_handle)
    (iters : list kv_iterator) (iter_cnt : Z) a : dev_outcome (Z * list kv_iterator * Z * KADI K) :=
  with_handles que_hdl ns_hdl false (rc KV_ERR_PARAM_INVALID, iters, iter_cnt, a)
    (Kadi.iter_list iters iter_cnt a).
End adi.
