(* ===== verification/Crc32.v ===== *)
(** * The checksum of the benchmark suite

    [utils/crc32.cc]: CRC-32 byte by byte ([crc32_1]) and by eight bytes at a time
    with eight tables ([crc32_8]), for a little-endian host.  The keys of the
    benchmark are made with the latter.

    Both compute the remainder bit by bit ([crc32_bitwise], the algorithm that the
    comment above the tables gives), and the checksum of two messages of one
    length that differ within four neighbouring bytes is different. *)

From Stdlib.Strings Require Import String.
From stdpp Require Import base numbers list.
From Stdlib Require Import Btauto.
From S2P Require Import Prelude.
From S2P Require Import Crc32Table.

(** [crc_lookup[t][i]] *)
Definition crc_entry (t : nat) (i : Z) : Z :=
  default 0 (crc_lookup !! t ≫= fun row => row !! Z.to_nat i).

(** [~] on 32 bits. *)
Definition not32 (z : Z) : Z := u32 (Z.lnot z).

Definition crc_byte (crc : Z) (b : byte) : Z :=
  Z.lxor (Z.shiftr crc 8) (crc_entry 0 (Z.lxor (Z.land crc 0xFF) (byteZ b))).

Definition crc32_1 (data : list byte) (prev_value : Z) : Z :=
  not32 (foldl crc_byte (not32 prev_value) data).

(** One round of [crc32_8]; [w1] and [w2] are the two words read. *)
Definition crc_block (crc w1 w2 : Z) : Z :=
  let one := Z.lxor w1 crc in
  let two := w2 in
  Z.lxor (crc_entry 7 (Z.land one 0xFF))
  (Z.lxor (crc_entry 6 (Z.land (Z.shiftr one 8) 0xFF))
  (Z.lxor (crc_entry 5 (Z.land (Z.shiftr one 16) 0xFF))
  (Z.lxor (crc_entry 4 (Z.land (Z.shiftr one 24) 0xFF))
  (Z.lxor (crc_entry 3 (Z.land two 0xFF))
  (Z.lxor (crc_entry 2 (Z.land (Z.shiftr two 8) 0xFF))
  (Z.lxor (crc_entry 1 (Z.land (Z.shiftr two 16) 0xFF))
          (crc_entry 0 (Z.land (Z.shiftr two 24) 0xFF)))))))).

(** The loops of [crc32_8]: eight bytes while there are eight, then one by one. *)
Fixpoint crc_blocks (data : list byte) (crc : Z) : Z :=
  match data with
  | b0 :: b1 :: b2 :: b3 :: b4 :: b5 :: b6 :: b7 :: data' =>
      crc_blocks data' (crc_block crc (le_int [b0; b1; b2; b3]) (le_int [b4; b5; b6; b7]))
  | _ => foldl crc_byte crc data
  end.

Definition crc32_8 (data : list byte) (prev_value : Z) : Z :=
  not32 (crc_blocks data (not32 prev_value)).

(** [crc32_8_last8]: of the last eight bytes, or of all if there are fewer. *)
Definition crc32_8_last8 (data : list byte) (prev_value : Z) : Z :=
  let min := Nat.min (length data) 8 in
  crc32_8 (take min (drop (length data - min) data)) prev_value.

(** ** The remainder, bit by bit *)

Definition Polynomial : Z := 0xEDB88320.

Definition crc_bit (crc : Z) : Z := Z.lxor (Z.shiftr crc 1) (Z.land crc 1 * Polynomial).

(** [n] zero bytes. *)
Definition crc_zeros (n : nat) (crc : Z) : Z := Nat.iter (8 * n) crc_bit crc.

Definition crc32_bitwise (data : list byte) (prev_value : Z) : Z :=
  not32 (foldl (fun crc b => crc_zeros 1 (Z.lxor crc (byteZ b))) (not32 prev_value) data).

(** ** Bits *)

Lemma land_1 z : Z.land z 1 = Z.b2z (Z.testbit z 0).
Proof. change 1 with (Z.ones 1) at 1. rewrite Z.land_ones, Z.bit0_mod by lia. done. Qed.

Lemma testbit_small z n i : 0 <= z < 2 ^ n -> n <= i -> Z.testbit z i = false.
Proof.
  intros Hz Hi. destruct (Z.eq_dec z 0) as [->|]; [apply Z.bits_0|].
  apply Z.bits_above_log2; [lia|]. assert (Z.log2 z < n) by (apply Z.log2_lt_pow2; lia). lia.
Qed.

Lemma testbit_ff z i : 0 <= i -> Z.testbit (Z.land z 255) i = Z.testbit z i && (i <? 8).
Proof.
  intros Hi. rewrite Z.land_spec. change 255 with (Z.ones 8). by rewrite Z.testbit_ones_nonneg by lia.
Qed.

Lemma shiftl_or_neg z k i : 0 <= i -> 0 <= k -> Z.testbit (Z.shiftl z k) i = Z.testbit z (i - k).
Proof. intros. by apply Z.shiftl_spec. Qed.

(** A word is the sum of its bytes. *)
Lemma word_bytes w :
  0 <= w < 2 ^ 32 ->
  w = Z.lxor (Z.land w 255) (Z.lxor (Z.shiftl (Z.land (Z.shiftr w 8) 255) 8)
        (Z.lxor (Z.shiftl (Z.land (Z.shiftr w 16) 255) 16) (Z.shiftl (Z.land (Z.shiftr w 24) 255) 24))).
Proof.
  intros Hw. apply Z.bits_inj'. intros i Hi. rewrite !Z.lxor_spec, !shiftl_or_neg, testbit_ff by lia.
  assert (H : forall k, 0 <= k -> Z.testbit (Z.land (Z.shiftr w k) 255) (i - k) =
    Z.testbit w i && (k <=? i) && (i <? k + 8)).
  { intros k Hk. destruct (Z.leb_spec k i) as [Hle|Hlt].
    - rewrite testbit_ff, Z.shiftr_spec by lia. rewrite andb_true_r. f_equal; [f_equal; lia|].
      destruct (Z.ltb_spec (i - k) 8), (Z.ltb_spec i (k + 8)); done || lia.
    - rewrite Z.testbit_neg_r by lia. by rewrite andb_false_r. }
  rewrite !H by lia.
  destruct (Z.ltb_spec i 32) as [Hi2|Hi2].
  2: { rewrite (testbit_small w 32 i) by lia. done. }
  repeat match goal with |- context [?a <? ?b] => destruct (Z.ltb_spec a b)
                       | |- context [?a <=? ?b] => destruct (Z.leb_spec a b) end; try lia;
    destruct (Z.testbit w i); done.
Qed.

(** ** The remainder is linear *)

Lemma crc_bit_lxor a b : crc_bit (Z.lxor a b) = Z.lxor (crc_bit a) (crc_bit b).
Proof.
  unfold crc_bit. rewrite !land_1, Z.lxor_spec, Z.shiftr_lxor. apply Z.bits_inj'. intros i _.
  rewrite !Z.lxor_spec. destruct (Z.testbit a 0), (Z.testbit b 0); cbn [xorb Z.b2z];
    rewrite ?Z.mul_0_l, ?Z.mul_1_l, ?Z.bits_0; btauto.
Qed.

Lemma crc_bit_double c : crc_bit (Z.shiftl c 1) = c.
Proof.
  unfold crc_bit. rewrite land_1, Z.shiftl_spec, Z.testbit_neg_r, Z.shiftr_shiftl_l by lia.
  cbn [Z.b2z]. by rewrite Z.mul_0_l, Z.lxor_0_r, Z.sub_diag, Z.shiftl_0_r.
Qed.

Lemma iter_lxor n a b :
  Nat.iter n crc_bit (Z.lxor a b) = Z.lxor (Nat.iter n crc_bit a) (Nat.iter n crc_bit b).
Proof. induction n as [|n IH]; [done|]. rewrite !Nat.iter_succ, IH. apply crc_bit_lxor. Qed.

Lemma crc_zeros_lxor n a b : crc_zeros n (Z.lxor a b) = Z.lxor (crc_zeros n a) (crc_zeros n b).
Proof. apply iter_lxor. Qed.

Lemma crc_zeros_add n m c : crc_zeros (n + m) c = crc_zeros n (crc_zeros m c).
Proof.
  unfold crc_zeros. replace (8 * (n + m))%nat with (8 * n + 8 * m)%nat by lia. apply Nat.iter_add.
Qed.

Lemma iter_shiftl n c : Nat.iter n crc_bit (Z.shiftl c (Z.of_nat n)) = c.
Proof.
  induction n as [|n IH]; [by rewrite Z.shiftl_0_r|].
  rewrite Nat.iter_succ_r, Nat2Z.inj_succ, <- Z.add_1_r, <- Z.shiftl_shiftl, crc_bit_double by lia. exact IH.
Qed.

(** Zero bytes undo a shift. *)
Lemma crc_zeros_shiftl n m c : (m <= n)%nat -> crc_zeros n (Z.shiftl c (8 * Z.of_nat m)) = crc_zeros (n - m) c.
Proof.
  intros Hm. replace n with ((n - m) + m)%nat at 1 by lia. rewrite crc_zeros_add. f_equal.
  unfold crc_zeros. replace (8 * Z.of_nat m) with (Z.of_nat (8 * m)) by lia. apply iter_shiftl.
Qed.

(** A byte that comes after [n] others. *)
Lemma crc_zeros_byte n c b :
  Z.lxor (crc_zeros n c) b = crc_zeros n (Z.lxor c (Z.shiftl b (8 * Z.of_nat n))).
Proof. by rewrite crc_zeros_lxor, crc_zeros_shiftl, Nat.sub_diag by lia. Qed.

(** ** The tables *)

Lemma crc_lookup_zeros : forall t i, (t < 8)%nat -> 0 <= i < 256 -> crc_entry t i = crc_zeros (S t) i.
Proof.
  assert (H : forallb (fun t => forallb (fun i => crc_entry t i =? crc_zeros (S t) i) (seqZ 0 256)) (seq 0 8) = true)
    by (vm_compute; reflexivity).
  intros t i Ht Hi. rewrite forallb_forall in H. specialize (H t ltac:(apply in_seq; lia)).
  rewrite forallb_forall in H. apply Z.eqb_eq, H, list_elem_of_In, elem_of_seqZ. lia.
Qed.

Lemma land_ff_range z : 0 <= Z.land z 255 < 256.
Proof. change 255 with (Z.ones 8). rewrite Z.land_ones by lia. apply Z.mod_pos_bound. lia. Qed.

Lemma byteZ_bits b i : 8 <= i -> Z.testbit (byteZ b) i = false.
Proof. apply testbit_small. apply byteZ_range. Qed.

Lemma crc_byte_zeros crc b : crc_byte crc b = crc_zeros 1 (Z.lxor crc (byteZ b)).
Proof.
  unfold crc_byte. set (low := Z.lxor (Z.land crc 255) (byteZ b)).
  assert (Elow : low = Z.land (Z.lxor crc (byteZ b)) 255).
  { apply Z.bits_inj'. intros i Hi. unfold low. rewrite testbit_ff, !Z.lxor_spec, testbit_ff by done.
    destruct (Z.ltb_spec i 8); [by rewrite !andb_true_r|]. rewrite byteZ_bits by done. by rewrite !andb_false_r. }
  assert (Esplit : Z.lxor crc (byteZ b) = Z.lxor (Z.shiftl (Z.shiftr crc 8) (8 * Z.of_nat 1)) low).
  { apply Z.bits_inj'. intros i Hi. unfold low. rewrite !Z.lxor_spec, testbit_ff, shiftl_or_neg by lia.
    destruct (Z.ltb_spec i 8).
    - rewrite (Z.testbit_neg_r (Z.shiftr crc 8)) by lia. by rewrite andb_true_r.
    - rewrite Z.shiftr_spec, andb_false_r by lia. replace (i - 8 * Z.of_nat 1 + 8) with i by lia. done. }
  rewrite crc_lookup_zeros, Esplit, crc_zeros_lxor, crc_zeros_shiftl, Nat.sub_diag by
    (rewrite ?Elow; auto using land_ff_range with lia).
  done.
Qed.

(** ** Both loops compute the remainder of the message *)

Lemma add_lxor a b : Z.land a b = 0 -> a + b = Z.lxor a b.
Proof. intros H. by rewrite Z.add_nocarry_lxor. Qed.

Lemma le_int_cons b l : le_int (b :: l) = Z.lxor (byteZ b) (Z.shiftl (le_int l) (8 * Z.of_nat 1)).
Proof.
  cbn [le_int]. rewrite <- add_lxor; [rewrite Z.shiftl_mul_pow2 by lia; change (2 ^ (8 * Z.of_nat 1)) with 256; lia|].
  apply Z.bits_inj'. intros i Hi. rewrite Z.land_spec, Z.bits_0, shiftl_or_neg by lia.
  destruct (Z.ltb_spec i 8); [rewrite (Z.testbit_neg_r (le_int l)) by lia; apply andb_false_r|].
  by rewrite byteZ_bits by done.
Qed.

(** The message as one number. *)
Lemma crc_bytes_closed l c : foldl crc_byte c l = crc_zeros (length l) (Z.lxor c (le_int l)).
Proof.
  revert c. induction l as [|b l IH]; intros c; cbn [foldl length]; [by rewrite Z.lxor_0_r|].
  rewrite IH, crc_byte_zeros, crc_zeros_byte, <- (Nat.add_1_r (length l)), crc_zeros_add.
  by rewrite le_int_cons, Z.lxor_assoc.
Qed.

Lemma crc_zeros_word n w :
  (4 <= n)%nat -> 0 <= w < 2 ^ 32 ->
  crc_zeros n w = Z.lxor (crc_zeros n (Z.land w 255)) (Z.lxor (crc_zeros (n - 1) (Z.land (Z.shiftr w 8) 255))
    (Z.lxor (crc_zeros (n - 2) (Z.land (Z.shiftr w 16) 255)) (crc_zeros (n - 3) (Z.land (Z.shiftr w 24) 255)))).
Proof.
  intros Hn Hw. rewrite (word_bytes w Hw) at 1. rewrite !crc_zeros_lxor.
  change (Z.shiftl ?x 8) with (Z.shiftl x (8 * Z.of_nat 1)).
  change (Z.shiftl ?x 16) with (Z.shiftl x (8 * Z.of_nat 2)).
  change (Z.shiftl ?x 24) with (Z.shiftl x (8 * Z.of_nat 3)).
  by rewrite !crc_zeros_shiftl by lia.
Qed.

Lemma lxor_range n a b : 0 <= n -> 0 <= a < 2 ^ n -> 0 <= b < 2 ^ n -> 0 <= Z.lxor a b < 2 ^ n.
Proof.
  intros Hn Ha Hb. assert (H0 : 0 <= Z.lxor a b) by (apply Z.lxor_nonneg; lia). split; [done|].
  destruct (Z.eq_dec (Z.lxor a b) 0) as [->|]; [lia|]. apply Z.log2_lt_pow2; [lia|].
  destruct (Z.lt_ge_cases (Z.log2 (Z.lxor a b)) n); [done|]. exfalso.
  assert (Ht : Z.testbit (Z.lxor a b) (Z.log2 (Z.lxor a b)) = true) by (apply Z.bit_log2; lia).
  rewrite Z.lxor_spec, (testbit_small a n), (testbit_small b n) in Ht by done. done.
Qed.

(** Eight bytes at a time. *)
Lemma crc_block_zeros c w1 w2 :
  0 <= c < 2 ^ 32 -> 0 <= w1 < 2 ^ 32 -> 0 <= w2 < 2 ^ 32 ->
  crc_block c w1 w2 = crc_zeros 8 (Z.lxor c (Z.lxor w1 (Z.shiftl w2 (8 * Z.of_nat 4)))).
Proof.
  intros Hc H1 H2. unfold crc_block. rewrite !crc_lookup_zeros by (auto using land_ff_range with lia).
  rewrite <- (Z.lxor_assoc c w1), crc_zeros_lxor, crc_zeros_shiftl, (Z.lxor_comm c w1) by lia.
  pose proof (lxor_range 32 w1 c ltac:(lia) H1 Hc) as Hone.
  rewrite (crc_zeros_word 8 _ ltac:(lia) Hone), (crc_zeros_word (8 - 4) _ ltac:(lia) H2).
  cbn [Nat.sub]. by rewrite !Z.lxor_assoc.
Qed.

(** ** Zero bytes keep different remainders apart *)

Lemma crc_bit_range c : 0 <= c < 2 ^ 32 -> 0 <= crc_bit c < 2 ^ 32.
Proof.
  intros Hc. unfold crc_bit. apply lxor_range; [lia| |].
  - rewrite Z.shiftr_div_pow2 by lia. split; [apply Z.div_pos; lia|]. apply Z.div_lt_upper_bound; lia.
  - rewrite land_1. unfold Polynomial. destruct (Z.testbit c 0); cbn [Z.b2z]; lia.
Qed.

Lemma crc_zeros_range n c : 0 <= c < 2 ^ 32 -> 0 <= crc_zeros n c < 2 ^ 32.
Proof. intros Hc. unfold crc_zeros. apply Nat.iter_invariant; [|done]. intros c'. apply crc_bit_range. Qed.

Lemma crc_bit_nonzero c : 0 < c < 2 ^ 32 -> crc_bit c <> 0.
Proof.
  intros Hc E. unfold crc_bit in E. apply Z.lxor_eq in E. rewrite land_1 in E.
  assert (Hs : Z.shiftr c 1 < 2 ^ 31) by (rewrite Z.shiftr_div_pow2 by lia; apply Z.div_lt_upper_bound; lia).
  assert (Hodd := Z.bit0_mod c). destruct (Z.testbit c 0); cbn [Z.b2z] in *.
  - unfold Polynomial in E. lia.
  - rewrite Z.shiftr_div_pow2 in E by lia. change (2 ^ 1) with 2 in E. pose proof (Z.div_mod c 2). lia.
Qed.

Lemma crc_zeros_nonzero n c : 0 < c < 2 ^ 32 -> crc_zeros n c <> 0.
Proof.
  intros Hc. enough (H : 0 < crc_zeros n c < 2 ^ 32) by lia. unfold crc_zeros.
  apply Nat.iter_invariant; [|done]. intros c' Hc'. pose proof (crc_bit_range c'). pose proof (crc_bit_nonzero c' Hc'). lia.
Qed.

(** ** The checksum *)

Lemma le_int_app l1 l2 :
  le_int (l1 ++ l2) = Z.lxor (le_int l1) (Z.shiftl (le_int l2) (8 * Z.of_nat (length l1))).
Proof.
  induction l1 as [|b l1 IH]; cbn [app length]; [by rewrite Z.shiftl_0_r, Z.lxor_0_l|].
  rewrite !le_int_cons, IH, Z.shiftl_lxor, Z.shiftl_shiftl, Z.lxor_assoc by lia. do 3 f_equal. lia.
Qed.

Lemma le_int_word l : length l = 4%nat -> 0 <= le_int l < 2 ^ 32.
Proof. intros Hl. pose proof (le_int_range l) as H. rewrite Hl in H. exact H. Qed.

Lemma crc_block_range c w1 w2 :
  0 <= c < 2 ^ 32 -> 0 <= w1 < 2 ^ 32 -> 0 <= w2 < 2 ^ 32 -> 0 <= crc_block c w1 w2 < 2 ^ 32.
Proof.
  intros Hc H1 H2. rewrite crc_block_zeros, <- Z.lxor_assoc, crc_zeros_lxor, crc_zeros_shiftl by (done || lia).
  apply lxor_range; [lia|apply crc_zeros_range, lxor_range; done || lia|by apply crc_zeros_range].
Qed.

(** A block of eight bytes in front of a message. *)
Lemma crc_blocks_step blk l c :
  length blk = 8%nat -> 0 <= c < 2 ^ 32 ->
  let c' := crc_block c (le_int (take 4 blk)) (le_int (drop 4 blk)) in
  0 <= c' < 2 ^ 32 /\
  crc_zeros (length l) (Z.lxor c' (le_int l)) = crc_zeros (length (blk ++ l)) (Z.lxor c (le_int (blk ++ l))).
Proof.
  intros Hl Hc c'.
  assert (H1 := le_int_word (take 4 blk) ltac:(rewrite length_take; lia)).
  assert (H2 := le_int_word (drop 4 blk) ltac:(rewrite length_drop; lia)).
  split; [by apply crc_block_range|]. unfold c'. rewrite crc_block_zeros by done.
  rewrite crc_zeros_byte, length_app, Hl, (Nat.add_comm 8), crc_zeros_add, le_int_app, Hl, Z.lxor_assoc.
  rewrite <- (take_drop 4 blk) at 3. rewrite le_int_app, length_take, Hl. done.
Qed.

Lemma crc_blocks_closed l c :
  0 <= c < 2 ^ 32 -> crc_blocks l c = crc_zeros (length l) (Z.lxor c (le_int l)).
Proof.
  revert c. induction l as [l IH] using (induction_ltof1 _ (@length byte)); intros c Hc. unfold ltof in IH.
  destruct l as [|b0 [|b1 [|b2 [|b3 [|b4 [|b5 [|b6 [|b7 l]]]]]]]]; try exact (crc_bytes_closed _ c).
  destruct (crc_blocks_step [b0; b1; b2; b3; b4; b5; b6; b7] l c eq_refl Hc) as [Hc' E].
  cbn [crc_blocks]. rewrite IH; [exact E|cbn; lia|exact Hc'].
Qed.

Lemma not32_range z : 0 <= not32 z < 2 ^ 32.
Proof. apply u32_range. Qed.

Lemma crc32_8_closed data prev :
  crc32_8 data prev = not32 (crc_zeros (length data) (Z.lxor (not32 prev) (le_int data))).
Proof. unfold crc32_8. by rewrite crc_blocks_closed by apply not32_range. Qed.

(** C24. The checksum computed by eight bytes at a time from the eight tables is, for
    every message and start value, the one computed byte by byte from one table,
    and the remainder of the division bit by bit by the polynomial. *)
Theorem crc32_8_remainder data prev :
  crc32_8 data prev = crc32_bitwise data prev /\ crc32_1 data prev = crc32_bitwise data prev.
Proof.
  assert (E : crc32_1 data prev = crc32_bitwise data prev).
  { unfold crc32_1, crc32_bitwise. f_equal. generalize (not32 prev).
    induction data as [|b l IH]; intros c; cbn [foldl]; [done|]. by rewrite IH, crc_byte_zeros. }
  split; [|exact E]. rewrite <- E, crc32_8_closed. unfold crc32_1. by rewrite crc_bytes_closed.
Qed.

Lemma not32_small z : 0 <= z < 2 ^ 32 -> not32 z = 2 ^ 32 - 1 - z.
Proof. intros Hz. unfold not32, u32, Z.lnot. symmetry. apply Z.mod_unique with (-1); lia. Qed.

Lemma not32_inj a b : 0 <= a < 2 ^ 32 -> 0 <= b < 2 ^ 32 -> not32 a = not32 b -> a = b.
Proof. intros Ha Hb. rewrite !not32_small by done. lia. Qed.

(** Messages of one length have different remainders if they differ within a
    word. *)
Lemma crc_zeros_burst pre w1 w2 suf c :
  length w1 = length w2 -> (length w1 <= 4)%nat -> w1 <> w2 ->
  let r w := crc_zeros (length (pre ++ w ++ suf)) (Z.lxor c (le_int (pre ++ w ++ suf))) in r w1 <> r w2.
Proof.
  intros Hl Hle Hne r E. unfold r in E. rewrite !le_int_app, !length_app, <- Hl in E.
  set (n := (length pre + (length w1 + length suf))%nat) in E.
  apply Z.lxor_eq_0_iff in E. rewrite <- crc_zeros_lxor in E.
  set (d := Z.lxor (le_int w1) (le_int w2)).
  assert (Ed : Z.lxor (Z.lxor c (Z.lxor (le_int pre) (Z.shiftl (Z.lxor (le_int w1)
      (Z.shiftl (le_int suf) (8 * Z.of_nat (length w1)))) (8 * Z.of_nat (length pre)))))
    (Z.lxor c (Z.lxor (le_int pre) (Z.shiftl (Z.lxor (le_int w2)
      (Z.shiftl (le_int suf) (8 * Z.of_nat (length w1)))) (8 * Z.of_nat (length pre))))) =
    Z.shiftl d (8 * Z.of_nat (length pre))).
  { apply Z.bits_inj'. intros i Hi. unfold d. rewrite ?Z.lxor_spec, !shiftl_or_neg, !Z.lxor_spec by lia. btauto. }
  rewrite Ed, crc_zeros_shiftl in E by lia. revert E. apply crc_zeros_nonzero.
  assert (Hr : forall w, length w = length w1 -> 0 <= le_int w < 2 ^ 32).
  { intros w Hw. pose proof (le_int_range w) as H. rewrite Hw in H.
    assert (256 ^ Z.of_nat (length w1) <= 256 ^ 4) by (apply Z.pow_le_mono_r; lia). lia. }
  pose proof (lxor_range 32 (le_int w1) (le_int w2) ltac:(lia) (Hr w1 eq_refl) (Hr w2 (eq_sym Hl))) as Hd.
  assert (d <> 0); [|unfold d in *; lia]. intros E. apply Z.lxor_eq in E. apply Hne. by apply le_int_inj.
Qed.

Lemma crc_bytes_range l c : 0 <= c < 2 ^ 32 -> 0 <= crc_zeros (length l) (Z.lxor c (le_int l)) < 2 ^ 32.
Proof.
  rewrite <- crc_bytes_closed. revert c. induction l as [|b l IH]; intros c Hc; cbn [foldl]; [done|].
  apply IH. rewrite crc_byte_zeros. apply crc_zeros_range, lxor_range; [lia|done|].
  pose proof (byteZ_range b). lia.
Qed.

(** Two messages of one length that differ only within four neighbouring bytes
    have different checksums, whatever the start value. *)
Theorem crc32_8_detects pre w1 w2 suf prev :
  length w1 = length w2 -> (length w1 <= 4)%nat -> w1 <> w2 ->
  crc32_8 (pre ++ w1 ++ suf) prev <> crc32_8 (pre ++ w2 ++ suf) prev.
Proof.
  intros Hl Hle Hne E. rewrite !crc32_8_closed in E.
  apply not32_inj in E; [|apply crc_bytes_range, not32_range..].
  exact (crc_zeros_burst pre w1 w2 suf (not32 prev) Hl Hle Hne E).
Qed.

Lemma crc32_8_detects_witness :
  crc32_8 (list_byte_of_string "user"%string ++ list_byte_of_string "0001"%string ++ list_byte_of_string "-profile"%string) 0 <>
  crc32_8 (list_byte_of_string "user"%string ++ list_byte_of_string "0010"%string ++ list_byte_of_string "-profile"%string) 0.
Proof. apply crc32_8_detects; [reflexivity|cbn; lia|vm_compute; congruence]. Defined.

(** The check value of CRC-32, and continuing a checksum. *)
Example crc32_check_value : crc32_8 (list_byte_of_string "123456789"%string) 0 = 0xCBF43926.
Proof. vm_compute. reflexivity. Qed.

Lemma crc32_8_app l1 l2 prev : crc32_8 (l1 ++ l2) prev = crc32_8 l2 (crc32_8 l1 prev).
Proof.
  assert (H : forall data p, crc32_8 data p = crc32_1 data p).
  { intros data p. rewrite crc32_8_closed. unfold crc32_1. by rewrite crc_bytes_closed. }
  rewrite !H. unfold crc32_1. rewrite foldl_app. do 2 f_equal.
  pose proof (crc_bytes_range l1 (not32 prev) (not32_range prev)) as Hr. rewrite <- crc_bytes_closed in Hr.
  set (c := foldl crc_byte (not32 prev) l1) in *. rewrite (not32_small c Hr), not32_small by lia. lia.
Qed.
