(* ===== verification/IterBuf.v ===== *)
(** * Iterator buffers of the kernel driver

    The device returns the keys of an iterator as a count followed by entries
    (length, key) padded to words; the API promises entries without padding and
    without the count.  [reformat_iterbuffer] of [kvkdd.cpp] moves them together
    in the caller's buffer.  Reading or writing outside that buffer is [Undef]. *)

From stdpp Require Import base numbers list gmap.
From S2P Require Import Prelude.
From S2P Require Import AdiTypes.
From S2P Require Import KvsTypes.

Definition KEY_LEN_BYTES : Z := 4.

(** [memmove (buf + dst, buf + src, n)] *)
Definition memmove (dst src n : nat) (buf : list byte) : list byte :=
  memcpy_at dst (take n (drop src buf)) buf.

Definition padded_length (key_size : Z) : Z := Z.shiftl (Z.shiftr (key_size + 3) 2) 2.

(** The loop: [cur] and [data] are the offsets of [current_ptr] and [data_buff],
    [len] is [buffdata_len].  The result code, the buffer and [current_ptr]. *)
Fixpoint reformat_loop (fuel : nat) (i key_count : Z) (cur data : nat) (len : Z) (buf : list byte)
    : dev_outcome (Z * list byte * nat) :=
  if negb ((i <? key_count) && (0 <? len)) then Ret (0, buf, cur)
  else match fuel with
       | O => Blocked
       | S f =>
           if len <? KEY_LEN_BYTES then Ret (kv_result_code KV_ERR_SYS_IO, buf, cur)
           else if (length buf <? data + 4)%nat then Undef
           else
             let buf := memmove cur data 4 buf in
             let cur := (cur + 4)%nat in
             let key_size := le_int (take 4 (drop data buf)) in
             let len := u32 (len - KEY_LEN_BYTES) in
             let data := (data + 4)%nat in
             if len <? key_size then Ret (kv_result_code KV_ERR_SYS_IO, buf, cur)
             else if 256 <=? key_size then Ret (kv_result_code KV_ERR_SYS_IO, buf, cur)
             else
               let n := Z.to_nat key_size in
               if (length buf <? data + n)%nat then Undef
               else
                 let buf := memmove cur data n buf in
                 let padded := padded_length key_size in
                 reformat_loop f (i + 1) key_count (cur + n)%nat (data + Z.to_nat padded)%nat
                   (u32 (len - padded)) buf
       end.

(** [reformat_iterbuffer] on a list with a buffer.  Every round moves [data_buff]
    by at least four bytes. *)
Definition reformat_iterbuffer (l : kvs_iterator_list) : dev_outcome (Z * kvs_iterator_list) :=
  if il_size l <? KEY_LEN_BYTES
  then Ret (kv_result_code KV_ERR_SYS_IO, KvIteratorList 0 (il_end l) 0 (il_it_list l))
  else
    '(ret, buf, cur) ← reformat_loop (S (length (il_it_list l))) 0 (il_num_entries l) 0 4
                         (il_size l - KEY_LEN_BYTES) (il_it_list l);
    Ret (ret, KvIteratorList (il_num_entries l) (il_end l) (Z.of_nat cur) buf).

(** ** Formats *)

(** The entry of a key as the device writes it and as the API promises it. *)
Definition pad (n : nat) : list byte := replicate ((4 - n mod 4) mod 4) Byte.x00.
Definition api_entry (k : list byte) : list byte := int_le 4 (Z.of_nat (length k)) ++ k.
Definition device_entry (k : list byte) : list byte := api_entry k ++ pad (length k).

Definition api_buffer (ks : list (list byte)) : list byte := concat (api_entry <$> ks).
Definition device_buffer (ks : list (list byte)) : list byte :=
  int_le 4 (Z.of_nat (length ks)) ++ concat (device_entry <$> ks).

(** ** Moving the entries together *)

Lemma memcpy_at_app a b src : memcpy_at (length a) src (a ++ b) = a ++ src ++ drop (length src) b.
Proof. unfold memcpy_at. by rewrite take_app_length, drop_app_add. Qed.

Lemma padded_length_pad (k : list byte) :
  Z.to_nat (padded_length (Z.of_nat (length k))) = (length k + length (pad (length k)))%nat.
Proof.
  unfold padded_length, pad. rewrite length_replicate, Z.shiftl_mul_pow2, Z.shiftr_div_pow2 by lia.
  change (2 ^ 2) with 4. set (n := length k).
  replace 4 with (Z.of_nat 4) by done. replace (Z.of_nat n + 3) with (Z.of_nat (n + 3)) by lia.
  rewrite <- Nat2Z.inj_div, <- Nat2Z.inj_mul, Nat2Z.id.
  pose proof (Nat.div_mod_eq (n + 3) 4). pose proof (Nat.div_mod_eq n 4).
  pose proof (Nat.mod_upper_bound (n + 3) 4 ltac:(lia)). pose proof (Nat.mod_upper_bound n 4 ltac:(lia)).
  destruct (n mod 4)%nat as [|[|[|[|m]]]]; [| | | |lia];
    match goal with |- context [((4 - ?a) mod 4)%nat] =>
      let v := eval vm_compute in ((4 - a) mod 4)%nat in change ((4 - a) mod 4)%nat with v end; lia.
Qed.

Lemma length_device_entry k : length (device_entry k) = (4 + (length k + length (pad (length k))))%nat.
Proof. unfold device_entry, api_entry. rewrite !length_app, length_int_le. lia. Qed.

Lemma le_int_length (k : list byte) : (length k < 256)%nat -> le_int (int_le 4 (Z.of_nat (length k))) = Z.of_nat (length k).
Proof. intros. apply le_int_int_le. change (256 ^ Z.of_nat 4) with 4294967296. lia. Qed.

(** One entry, with [a] before the gap [m] and [b] after the entry. *)
Lemma move_entry a m k b :
  (4 <= length m)%nat ->
  let buf := a ++ m ++ device_entry k ++ b in
  let buf1 := memmove (length a) (length a + length m) 4 buf in
  let buf2 := memmove (length a + 4) (length a + length m + 4) (length k) buf1 in
  exists m', buf2 = (a ++ api_entry k) ++ m' ++ b /\ length m' = (length m + length (pad (length k)))%nat /\
    take 4 (drop (length a + length m) buf1) = int_le 4 (Z.of_nat (length k)) /\
    length buf1 = length buf.
Proof.
  intros Hm. set (hdr := int_le 4 (Z.of_nat (length k))). set (rest := k ++ pad (length k) ++ b).
  assert (Hh : length hdr = 4%nat) by apply length_int_le.
  assert (Hbuf : a ++ m ++ device_entry k ++ b = a ++ m ++ hdr ++ rest).
  { unfold device_entry, api_entry, rest. by rewrite <- !app_assoc. }
  cbv zeta. rewrite Hbuf. set (buf := a ++ m ++ hdr ++ rest).
  assert (H1 : memmove (length a) (length a + length m) 4 buf = a ++ hdr ++ drop 4 m ++ hdr ++ rest).
  { unfold memmove, buf. rewrite drop_app_add, drop_app_length. rewrite <- Hh at 1. rewrite take_app_length.
    rewrite memcpy_at_app, Hh. by rewrite drop_app_le by lia. }
  rewrite H1. set (gap := drop 4 m). assert (Hg : length gap = (length m - 4)%nat) by apply length_drop.
  assert (Hdrop : drop (length a + length m) (a ++ hdr ++ gap ++ hdr ++ rest) = hdr ++ rest).
  { rewrite drop_app_add, app_assoc. rewrite drop_app_length'; [done|]. rewrite length_app. lia. }
  assert (Hdrop4 : drop (length a + length m + 4) (a ++ hdr ++ gap ++ hdr ++ rest) = rest).
  { rewrite <- drop_drop, Hdrop. by rewrite drop_app_length'. }
  exists (drop (length k) (gap ++ hdr ++ k ++ pad (length k))). split_and!.
  - unfold memmove. rewrite Hdrop4. unfold rest. rewrite take_app_length.
    replace (length a + 4)%nat with (length (a ++ hdr)) by (rewrite length_app; lia).
    rewrite (app_assoc a hdr), memcpy_at_app. unfold api_entry. fold hdr. rewrite <- !app_assoc.
    rewrite <- drop_app_le by (rewrite !length_app; lia). by rewrite <- !app_assoc.
  - rewrite length_drop, !length_app. lia.
  - rewrite Hdrop, <- Hh. apply take_app_length.
  - unfold buf. rewrite !length_app. lia.
Qed.

(** The loop over the entries of [ks], which follow the gap [m]; the device may
    report more bytes than the entries take. *)
Lemma reformat_loop_packs ks : forall fuel i a m b extra,
  (4 <= length m)%nat -> (length ks <= fuel)%nat ->
  Forall (fun k : list byte => (length k < 256)%nat) ks ->
  0 <= extra -> Z.of_nat (length (concat (device_entry <$> ks))) + extra < 2 ^ 32 ->
  exists tl,
    reformat_loop fuel i (i + Z.of_nat (length ks)) (length a) (length a + length m)
      (Z.of_nat (length (concat (device_entry <$> ks))) + extra)
      (a ++ m ++ concat (device_entry <$> ks) ++ b)
    = Ret (0, (a ++ api_buffer ks) ++ tl, length (a ++ api_buffer ks)).
Proof.
  induction ks as [|k ks IH]; intros fuel i a m b extra Hm Hf Hks Hx Hlen.
  - exists (m ++ b). cbn [length fmap list_fmap concat app api_buffer Z.of_nat].
    rewrite Z.add_0_r, app_nil_r. destruct fuel; cbn [reformat_loop]; by rewrite Z.ltb_irrefl.
  - apply Forall_cons in Hks as [Hk Hks]. destruct fuel as [|fuel]; [cbn in Hf; lia|].
    cbn [fmap list_fmap concat] in Hlen |- *. rewrite <- app_assoc.
    set (es := concat (device_entry <$> ks)) in *.
    rewrite length_app in Hlen |- *. pose proof (length_device_entry k) as Hde.
    destruct (move_entry a m k (es ++ b) Hm) as (m' & H2 & Hm' & Hhd & Hl1). cbv zeta in H2, Hhd, Hl1.
    set (buf := a ++ m ++ device_entry k ++ es ++ b) in *.
    assert (Hb : length buf = (length a + (length m + (length (device_entry k) + (length es + length b))))%nat).
    { unfold buf. by rewrite !length_app. }
    pose proof (padded_length_pad k) as Hp. change (2 ^ 32) with 4294967296 in *.
    assert (Hp0 : 0 <= padded_length (Z.of_nat (length k))).
    { apply Z.shiftl_nonneg, Z.shiftr_nonneg. lia. }
    cbn [reformat_loop]. change KEY_LEN_BYTES with 4.
    rewrite Hhd, le_int_length, Nat2Z.id, H2, Hl1 by done.
    rewrite (proj2 (Z.ltb_lt i _)) by (cbn [length]; lia).
    rewrite (proj2 (Z.ltb_lt 0 _)) by lia. cbn [andb negb].
    rewrite (proj2 (Z.ltb_ge _ 4)) by lia.
    rewrite (proj2 (Nat.ltb_ge _ _)) by lia. rewrite !u32_small by lia.
    rewrite (proj2 (Z.ltb_ge _ (Z.of_nat (length k)))) by lia.
    rewrite (proj2 (Z.leb_gt 256 _)) by lia. rewrite (proj2 (Nat.ltb_ge _ _)) by lia.
    destruct (IH fuel (i + 1) (a ++ api_entry k) m' b extra) as [tl Htl]; [lia|cbn in Hf; lia|done|done|fold es; lia|].
    exists tl. fold es in Htl. unfold api_buffer in *. cbn [fmap list_fmap concat]. rewrite (app_assoc a (api_entry k)).
    rewrite <- Htl. f_equal; try (rewrite length_app; unfold api_entry; rewrite length_app, length_int_le); try lia.
    cbn [length]. lia.
Qed.

(** The loop gives up or leaves the buffer before the fuel runs out: a round needs
    four bytes of the buffer and [data_buff] never returns. *)
Lemma length_memmove dst src n buf :
  (dst <= src)%nat -> (src + n <= length buf)%nat -> length (memmove dst src n buf) = length buf.
Proof.
  intros Hd Hs. unfold memmove, memcpy_at. rewrite !length_app, length_take, !length_drop, length_take, length_drop.
  lia.
Qed.

Lemma reformat_loop_returns fuel : forall i n cur data len buf,
  (cur <= data)%nat -> (data <= length buf + 4)%nat -> (length buf + 5 <= fuel + data)%nat ->
  reformat_loop fuel i n cur data len buf <> Blocked.
Proof.
  induction fuel as [|f IH]; intros i n cur data len buf Hc Hd Hf.
  - exfalso. lia.
  - cbn [reformat_loop]. destruct (negb _); [done|]. destruct (_ <? _); [done|].
    destruct (Nat.ltb_spec (length buf) (data + 4)) as [|H1]; [done|].
    set (ks := le_int _). set (buf1 := memmove cur data 4 buf).
    assert (Hb1 : length buf1 = length buf) by (apply length_memmove; lia).
    destruct (_ <? ks); [done|]. destruct (Z.leb_spec 256 ks) as [|Hk]; [done|]. rewrite Hb1.
    destruct (Nat.ltb_spec (length buf) (data + 4 + Z.to_nat ks)) as [|H2]; [done|].
    assert (Hp : (Z.to_nat ks <= Z.to_nat (padded_length ks) <= Z.to_nat ks + 3)%nat).
    { assert (0 <= ks) by apply le_int_range. pose proof (padded_length_pad (replicate (Z.to_nat ks) Byte.x00)) as Hp.
      rewrite length_replicate, Z2Nat.id in Hp by done. unfold pad in Hp. rewrite length_replicate in Hp.
      pose proof (Nat.mod_upper_bound (4 - Z.to_nat ks mod 4) 4 ltac:(lia)). lia. }
    assert (Hb2 : length (memmove (cur + 4) (data + 4) (Z.to_nat ks) buf1) = length buf).
    { rewrite length_memmove; [done|lia|rewrite Hb1; lia]. }
    apply IH; rewrite ?Hb2; lia.
Qed.

(** The reformatting of an iterator buffer ends, whatever the buffer holds. *)
Theorem reformat_returns l : reformat_iterbuffer l <> Blocked.
Proof.
  unfold reformat_iterbuffer. destruct (_ <? _); [done|].
  pose proof (reformat_loop_returns (S (length (il_it_list l))) 0 (il_num_entries l) 0 4
                (il_size l - KEY_LEN_BYTES) (il_it_list l)) as H.
  destruct (reformat_loop _ _ _ _ _ _ _) as [[[? ?] ?]| |]; [done| |done].
  exfalso. apply H; [lia..|done].
Qed.

(** C28. A buffer in the device's format (a count, then length, key and padding for each
    key), with whatever follows it, becomes the packed sequence of lengths and keys
    that the API promises, and the list's size is the size of that sequence. *)
Theorem reformat_packs (ks : list (list byte)) (last : bool) (extra : Z) (b : list byte) :
  Forall (fun k => (length k < 256)%nat) ks -> 0 <= extra ->
  Z.of_nat (length (device_buffer ks)) + extra < 2 ^ 32 ->
  exists tl,
    reformat_iterbuffer
      (KvIteratorList (Z.of_nat (length ks)) last (Z.of_nat (length (device_buffer ks)) + extra)
         (device_buffer ks ++ b))
    = Ret (0, KvIteratorList (Z.of_nat (length ks)) last (Z.of_nat (length (api_buffer ks)))
                (api_buffer ks ++ tl)).
Proof.
  intros Hks Hx. unfold device_buffer. rewrite length_app, length_int_le. intros Hlen.
  set (hd := int_le 4 _). assert (Hh : length hd = 4%nat) by apply length_int_le.
  unfold reformat_iterbuffer. cbn [il_size il_end il_it_list il_num_entries]. change KEY_LEN_BYTES with 4.
  rewrite (proj2 (Z.ltb_ge _ 4)) by lia.
  destruct (reformat_loop_packs ks (S (length ((hd ++ concat (device_entry <$> ks)) ++ b))) 0 [] hd b extra)
    as [tl Htl]; [lia| |done|done|change (2 ^ 32) with 4294967296 in *; lia|].
  { rewrite !length_app. enough (length ks <= length (concat (device_entry <$> ks)))%nat by lia. clear.
    induction ks as [|k ks IH]; [done|]. cbn [length fmap list_fmap concat].
    rewrite length_app, length_device_entry. cbn [fmap] in IH. lia. }
  cbn [length app] in Htl. rewrite Hh in Htl. change (0 + 4)%nat with 4%nat in Htl.
  exists tl. rewrite <- app_assoc at 2.
  replace (Z.of_nat _ + extra - 4) with (Z.of_nat (length (concat (device_entry <$> ks))) + extra) by lia.
  change (0 + Z.of_nat (length ks)) with (Z.of_nat (length ks)) in Htl.
  rewrite Htl. done.
Qed.

Lemma reformat_packs_witness : exists tl,
  reformat_iterbuffer
    (KvIteratorList 2 true 24 (device_buffer [[Byte.x61; Byte.x62]; [Byte.x63; Byte.x64; Byte.x65; Byte.x66; Byte.x67]] ++ [Byte.x00; Byte.x01]))
  = Ret (0, KvIteratorList 2 true 15 (api_buffer [[Byte.x61; Byte.x62]; [Byte.x63; Byte.x64; Byte.x65; Byte.x66; Byte.x67]] ++ tl)).
Proof.
  apply (reformat_packs [[Byte.x61; Byte.x62]; [Byte.x63; Byte.x64; Byte.x65; Byte.x66; Byte.x67]] true 0 [Byte.x00; Byte.x01]).
  - repeat constructor.
  - done.
  - done.
Defined.

(** When the bytes the device reports end with the key of an entry instead of its
    padding, [buffdata_len] underflows and a count that is too large is followed
    beyond the buffer. *)
Lemma reformat_underflow :
  reformat_iterbuffer (KvIteratorList 2 true 9 (int_le 4 2 ++ api_entry [Byte.x61])) = Undef.
Proof. vm_compute. reflexivity. Qed.
