(* ===== verification/KddDriver.v ===== *)
(** * The kernel driver of the API

    [api/src/driver_adapter/kvkdd.cpp]: [class KDDriver] passes the calls of the
    front end to the device interface over the kernel driver ([KernelAdi]) and
    translates the results.  A command carries a context allocated for it; the
    callback [kdd_on_io_complete] finds it through [private_data].

    A synchronous call waits for its context to be marked as done, which only the
    callback thread of the adapter ([KDThread]) can do: the model gives it turns,
    each of them one poll, and the call is [Blocked] when there is no such thread. *)

From stdpp Require Import base numbers list gmap.
From S2P Require Import Prelude.
From S2P Require Import AdiTypes.
From S2P Require Import KvsTypes.
From S2P Require Import KvsDriver.
From S2P Require Import EmulDriver.
From S2P Require Import NvmeCmd.
From S2P Require Import Kadi.
From S2P Require Import KernelAdi.
From S2P Require Import IterBuf.

(** ** Result codes *)

(** The table [code_map]: that of the emulator's driver but for
    [KV_ERR_KEY_EXIST], which has no entry. *)
Definition kdd_code_map (r : kv_result) : kvs_result :=
  match r with
  | KV_ERR_KEY_EXIST => KVS_ERR_SYS_IO
  | r => code_map r
  end.

Definition kdd_convert_return_code (kv_return_code : Z) : kvs_result :=
  match kv_result_of_code kv_return_code with
  | Some r => kdd_code_map r
  | None => KVS_ERR_SYS_IO
  end.

(** The entry of a code in a list of cases, or the general conversion. *)
Definition code_case (cases : list (Z * kvs_result)) (code : Z) : kvs_result :=
  match find (fun p => p.1 =? code) cases with
  | Some (_, r) => r
  | None => kdd_convert_return_code code
  end.

(** The status codes of the device, by operation. *)
Definition iter_next_codes : list (Z * kvs_result) :=
  [(0x301, KVS_ERR_BUFFER_SMALL); (0x390, KVS_ERR_ITERATOR_NOT_EXIST); (0x308, KVS_ERR_PARAM_INVALID);
   (0x394, KVS_ERR_SYS_IO); (0x393, KVS_SUCCESS)].
Definition retrieve_codes : list (Z * kvs_result) :=
  [(0x301, KVS_ERR_VALUE_LENGTH_INVALID); (0x302, KVS_ERR_VALUE_OFFSET_INVALID);
   (0x303, KVS_ERR_KEY_LENGTH_INVALID); (0x304, KVS_ERR_OPTION_INVALID); (0x308, KVS_ERR_PARAM_INVALID);
   (0x310, KVS_ERR_KEY_NOT_EXIST)].
Definition store_codes : list (Z * kvs_result) :=
  [(0x301, KVS_ERR_VALUE_LENGTH_INVALID); (0x303, KVS_ERR_KEY_LENGTH_INVALID);
   (0x304, KVS_ERR_OPTION_INVALID); (0x308, KVS_ERR_PARAM_INVALID); (0x310, KVS_ERR_KEY_NOT_EXIST);
   (0x311, KVS_ERR_SYS_IO); (0x312, KVS_ERR_DEV_CAPAPCITY); (0x380, KVS_ERR_VALUE_UPDATE_NOT_ALLOWED)].
Definition delete_codes : list (Z * kvs_result) :=
  [(0x310, KVS_ERR_KEY_NOT_EXIST); (0x304, KVS_ERR_OPTION_INVALID)].
Definition exist_codes : list (Z * kvs_result) :=
  [(0x301, KVS_ERR_VALUE_LENGTH_INVALID); (0x303, KVS_ERR_KEY_LENGTH_INVALID); (0x305, KVS_ERR_SYS_IO);
   (0x310, KVS_SUCCESS)].

Definition convert_op_code (opcode dev_status_code : Z) : kvs_result :=
  if dev_status_code =? 0 then KVS_SUCCESS
  else if dev_status_code <? 0 then KVS_ERR_SYS_IO
  else if opcode =? KVS_CMD_ITER_NEXT then code_case iter_next_codes dev_status_code
  else if opcode =? KVS_CMD_RETRIEVE then code_case retrieve_codes dev_status_code
  else if opcode =? KVS_CMD_STORE then code_case store_codes dev_status_code
  else if opcode =? KVS_CMD_DELETE then code_case delete_codes dev_status_code
  else if opcode =? KVS_CMD_EXIST then code_case exist_codes dev_status_code
  else KVS_ERR_SYS_IO.

(** ** Data *)

(** The union [result_buffer] of a context. *)
Inductive kdd_result_buffer :=
| rb_null
| rb_list (list : kvs_exist_list)
| rb_iter_list (iter_list : kvs_iterator_list).

(** [kv_kdd_context]; the structures it points to are the caller's. *)
Record kv_kdd_context := KvKddContext {
  kx_context : Z;                  (* iocb.context, the operation *)
  kx_key : option kvs_key;
  kx_value : option kvs_value;
  kx_private1 : Z;
  kx_private2 : Z;
  kx_result_buffer : kdd_result_buffer;
  kx_iter_hd : Z;
  kx_result : Z;
  kx_on_complete : option Z;
  kx_done : bool;
  kx_syncio : bool
}.

(** [class KDDriver]: [kd_adi] is the object that the handles point to, [kd_ctx]
    the memory of the contexts with the next address, and [kd_log] the calls of
    user callbacks so far. *)
Record KDDriver (K : Type) := MkKDDriver {
  kd_adi : KADI K;
  kd_devH : kadi_dev_handle;
  kd_nsH : option kadi_ns_handle;
  kd_sqH : option kadi_queue_handle;
  kd_cqH : option kadi_queue_handle;
  kd_queuedepth : Z;
  kd_ctx : gmap Z kv_kdd_context;
  kd_next : Z;
  kd_log : list (Z * kv_kdd_context)
}.

Arguments MkKDDriver {K}.
Arguments kd_adi {K}.
Arguments kd_devH {K}.
Arguments kd_nsH {K}.
Arguments kd_sqH {K}.
Arguments kd_cqH {K}.
Arguments kd_queuedepth {K}.
Arguments kd_ctx {K}.
Arguments kd_next {K}.
Arguments kd_log {K}.

(** ** What the callback does to a context *)

Definition kx_with_value (v : kvs_value) (c : kv_kdd_context) : kv_kdd_context :=
  KvKddContext (kx_context c) (kx_key c) (Some v) (kx_private1 c) (kx_private2 c) (kx_result_buffer c)
    (kx_iter_hd c) (kx_result c) (kx_on_complete c) (kx_done c) (kx_syncio c).
Definition kx_with_buffer (b : kdd_result_buffer) (c : kv_kdd_context) : kv_kdd_context :=
  KvKddContext (kx_context c) (kx_key c) (kx_value c) (kx_private1 c) (kx_private2 c) b
    (kx_iter_hd c) (kx_result c) (kx_on_complete c) (kx_done c) (kx_syncio c).
Definition kx_with_result (r : Z) (finished : bool) (c : kv_kdd_context) : kv_kdd_context :=
  KvKddContext (kx_context c) (kx_key c) (kx_value c) (kx_private1 c) (kx_private2 c) (kx_result_buffer c)
    (kx_iter_hd c) r (kx_on_complete c) finished (kx_syncio c).

(** The list of an iterator read that succeeded. *)
Definition iter_next_result (l : kvs_iterator_list) (h : kadi_hiter) : dev_outcome kvs_iterator_list :=
  match hi_end h, hi_buf h, hi_buflength h with
  | Some last, Some buf, Some n =>
      match buf with
      | Some b =>
          if 0 <? n
          then if (length b <? 4)%nat then Undef
               else '(_, l) ← reformat_iterbuffer (KvIteratorList (le_int (take 4 b)) last n b); Ret l
          else Ret (KvIteratorList 0 last n b)
      | None => Ret (KvIteratorList 0 last n [])
      end
  | _, _, _ => Undef
  end.

(** The result of an existence check, written to the first byte of the list. *)
Definition exist_result_byte (retcode : Z) : byte := if retcode =? 0x310 then Byte.x00 else Byte.x01.

(** What the callback writes, and the result code that it goes on with. *)
Definition kdd_results (c : kv_kdd_context) (ic : kadi_io_context) : dev_outcome (Z * kv_kdd_context) :=
  if kx_context c =? KVS_CMD_RETRIEVE
  then match ic_value ic with
       | None => Undef
       | Some v => Ret (if v_length v <? v_actual_value_size v then rc KV_ERR_BUFFER_SMALL else ic_retcode ic,
                        kx_with_value v c)
       end
  else if (kx_context c =? KVS_CMD_ITER_NEXT) && (ic_retcode ic =? 0)
  then match kx_result_buffer c with
       | rb_iter_list l => l ← iter_next_result l (ic_hiter ic); Ret (ic_retcode ic, kx_with_buffer (rb_iter_list l) c)
       | _ => Undef
       end
  else if kx_context c =? KVS_CMD_EXIST
  then match kx_result_buffer c with
       | rb_list (KvsExistList n len (Some (_ :: rest))) =>
           Ret (ic_retcode ic,
                kx_with_buffer (rb_list (KvsExistList n len (Some (exist_result_byte (ic_retcode ic) :: rest)))) c)
       | _ => Undef
       end
  else Ret (ic_retcode ic, c).

Section kdd.
Context {K : Type} `{!KvKernel K}.
Implicit Types (d : KDDriver K) (a : KADI K).

Definition kd_set_adi a d : KDDriver K :=
  MkKDDriver a (kd_devH d) (kd_nsH d) (kd_sqH d) (kd_cqH d) (kd_queuedepth d) (kd_ctx d) (kd_next d) (kd_log d).
Definition kd_set_ctx (ctx : gmap Z kv_kdd_context) (next : Z) d : KDDriver K :=
  MkKDDriver (kd_adi d) (kd_devH d) (kd_nsH d) (kd_sqH d) (kd_cqH d) (kd_queuedepth d) ctx next (kd_log d).
Definition kd_add_log (l : list (Z * kv_kdd_context)) d : KDDriver K :=
  MkKDDriver (kd_adi d) (kd_devH d) (kd_nsH d) (kd_sqH d) (kd_cqH d) (kd_queuedepth d) (kd_ctx d) (kd_next d)
    (kd_log d ++ l).

(** [delete ctx] *)
Definition kdd_free (id : Z) d : KDDriver K := kd_set_ctx (delete id (kd_ctx d)) (kd_next d) d.

Definition kdd_on_io_complete (ic : kadi_io_context) d : dev_outcome (KDDriver K) :=
  let id := ic_private_data ic in
  match kd_ctx d !! id with
  | None => Undef
  | Some c =>
      '(retcode, c) ← kdd_results c ic;
      if kx_syncio c
      then Ret (kd_set_ctx (<[id := kx_with_result retcode true c]> (kd_ctx d)) (kd_next d) d)
      else
        let c := kx_with_result (kvs_result_code (convert_op_code (kx_context c) retcode)) (kx_done c) c in
        let calls := match kx_on_complete c with Some f => [(f, c)] | None => [] end in
        Ret (kdd_free id (kd_add_log calls d))
  end.

(** The callbacks of a poll; the only function passed down is the one above. *)
Fixpoint kdd_complete_all (done : list (option Z * kadi_io_context)) d : dev_outcome (KDDriver K) :=
  match done with
  | [] => Ret d
  | (Some _, ic) :: done' => kdd_on_io_complete ic d ≫= kdd_complete_all done'
  | (None, _) :: done' => kdd_complete_all done' d
  end.

(** ** Waiting *)

(** A turn of [KDThread::entry]; the count of events is not read. *)
Definition kdd_thread_turn d : dev_outcome (KDDriver K) :=
  if ka_started (kd_adi d)
  then '(_, _, done, a) ← poll_completion 2048 (kd_adi d); kdd_complete_all done (kd_set_adi a d)
  else Blocked.

(** [wait_for_io]: until the context is marked as done. *)
Fixpoint kdd_wait_for_io (fuel : nat) (id : Z) d : dev_outcome (KDDriver K) :=
  match kd_ctx d !! id with
  | None => Undef
  | Some c =>
      if kx_done c then Ret d
      else match fuel with
           | O => Blocked
           | S f => kdd_thread_turn d ≫= kdd_wait_for_io f id
           end
  end.

(** ** The calls *)

Definition KDD_ON_IO_COMPLETE : Z := 1.
Definition kdd_post_fn (id : Z) : option kadi_callback := Some (KadiCallback (Some KDD_ON_IO_COMPLETE) id).

Definition kdd_prep_io_context (opcode : Z) (key : option kvs_key) (value : option kvs_value)
    (buffer : kdd_result_buffer) (iter_hd : Z) (mode : io_mode) d : Z * KDDriver K :=
  let id := kd_next d in
  let '(p1, p2, f) := match mode with Sync => (0, 0, None) | Async p1 p2 f => (p1, p2, f) end in
  (id, kd_set_ctx (<[id := KvKddContext opcode key value p1 p2 buffer iter_hd 0 f false (is_sync mode)]> (kd_ctx d))
         (id + 1) d).

(** [while (ret == KV_ERR_QUEUE_IS_FULL)]: submit again. *)
Fixpoint retry_full (fuel : nat) (submit : KADI K -> dev_outcome (Z * KADI K)) a : dev_outcome (Z * KADI K) :=
  '(r, a) ← submit a;
  if r =? rc KV_ERR_QUEUE_IS_FULL
  then match fuel with O => Blocked | S f => retry_full f submit a end
  else Ret (r, a).

(** What follows the preparation in every call that may be asynchronous: submit,
    wait if the call is synchronous, and free the context unless it is in use.
    The result code comes with the context that a synchronous call waited for.
    The adapter never reports a full queue, so one retry is more than enough. *)
Definition kdd_run (opcode id : Z) (mode : io_mode) (submit : KADI K -> dev_outcome (Z * KADI K)) d
    : dev_outcome (kvs_result * option kv_kdd_context * KDDriver K) :=
  '(ret, a) ← retry_full 1 submit (kd_adi d);
  let d := kd_set_adi a d in
  if is_sync mode && (ret =? 0)
  then
    d ← kdd_wait_for_io (S (sys_turns (ka_kernel a))) id d;
    match kd_ctx d !! id with
    | None => Undef
    | Some c => Ret (convert_op_code opcode (kx_result c), Some c, kdd_free id d)
    end
  else Ret (convert_op_code opcode ret, None, if negb (ret =? 0) then kdd_free id d else d).

Definition kdd_store_tuple (ks : Z) (key : kvs_key) (value : kvs_value) (st_type : Z) (mode : io_mode) d
    : dev_outcome (kvs_result * KDDriver K) :=
  let '(id, d) := kdd_prep_io_context KVS_CMD_STORE (Some key) (Some value) rb_null 0 mode d in
  match trans_store_cmd_opt st_type with
  | None => Ret (KVS_ERR_OPTION_INVALID, kdd_free id d)
  | Some opt =>
      '(r, _, d) ← kdd_run KVS_CMD_STORE id mode
                     (kadi_kv_store (kd_sqH d) (kd_nsH d) ks (Some key) (Some value) opt (kdd_post_fn id)) d;
      Ret (r, d)
  end.

Definition kdd_retrieve_tuple (ks : Z) (key : kvs_key) (value : kvs_value) (retrieve_delete : bool)
    (mode : io_mode) d : dev_outcome (kvs_result * kvs_value * KDDriver K) :=
  let '(id, d) := kdd_prep_io_context KVS_CMD_RETRIEVE (Some key) (Some value) rb_null 0 mode d in
  let opt := if negb retrieve_delete then KV_RETRIEVE_OPT_DEFAULT else KV_RETRIEVE_OPT_DELETE in
  '(r, c, d) ← kdd_run KVS_CMD_RETRIEVE id mode
                 (kadi_kv_retrieve (kd_sqH d) (kd_nsH d) ks (Some key) opt (Some value) (kdd_post_fn id)) d;
  Ret (r, default value (c ≫= kx_value), d).

Definition kdd_delete_tuple (ks : Z) (key : kvs_key) (delete_error : bool) (mode : io_mode) d
    : dev_outcome (kvs_result * KDDriver K) :=
  let '(id, d) := kdd_prep_io_context KVS_CMD_DELETE (Some key) None rb_null 0 mode d in
  let opt := if negb delete_error then KV_DELETE_OPT_DEFAULT else KV_DELETE_OPT_ERROR in
  '(r, _, d) ← kdd_run KVS_CMD_DELETE id mode
                 (kadi_kv_delete (kd_sqH d) (kd_nsH d) ks (Some key) opt (kdd_post_fn id)) d;
  Ret (r, d).

(** The list that a context holds. *)
Definition kx_exist_list (el : kvs_exist_list) (c : option kv_kdd_context) : kvs_exist_list :=
  match c with
  | Some c => match kx_result_buffer c with rb_list el' => el' | _ => el end
  | None => el
  end.

(** One key at most.  The adapter gets the result buffer but does not write to it
    when it has a callback. *)
Definition kdd_exist_tuple (ks : Z) (keys : list kvs_key) (el : kvs_exist_list) (mode : io_mode) d
    : dev_outcome (kvs_result * kvs_exist_list * KDDriver K) :=
  if (1 <? length keys)%nat then Ret (kdd_convert_return_code (rc KV_ERR_PARAM_INVALID), el, d)
  else
    let '(id, d) := kdd_prep_io_context KVS_CMD_EXIST (head keys) None (rb_list el) 0 mode d in
    '(r, c, d) ← kdd_run KVS_CMD_EXIST id mode
                   (fun a => '(r, _, a) ← kadi_kv_exist (kd_sqH d) (kd_nsH d) ks keys (Z.of_nat (length keys))
                                (el_length el) (el_result_buffer el) (kdd_post_fn id) a; Ret (r, a)) d;
    Ret (r, kx_exist_list el c, d).

(** *** Iterators *)

(** The open iterators of the device, with the same prefix and mask or not:
    the code, and the handle that the caller's variable then holds. *)
Fixpoint scan_opened (iters : list kv_iterator) (bitmask bit_pattern opened iter_hd : Z) : kvs_result * Z :=
  match iters with
  | [] => (if opened =? SAMSUNG_MAX_ITERATORS then KVS_ERR_ITERATOR_MAX else KVS_SUCCESS, iter_hd)
  | it :: iters' =>
      if it_status it =? 1
      then if (it_prefix it =? bit_pattern) && (it_bitmask it =? bitmask)
           then (KVS_ERR_ITERATOR_OPEN, it_handle_id it)
           else scan_opened iters' bitmask bit_pattern (opened + 1) iter_hd
      else scan_opened iters' bitmask bit_pattern opened iter_hd
  end.

Definition iterator_zero : kv_iterator := KvIterator 0 0 0 0 0 0 0.

Definition check_opened_iterators (bitmask bit_pattern iter_hd : Z) d
    : dev_outcome (kvs_result * Z * KDDriver K) :=
  '(r, iters, count, a) ←
    kadi_list_iterators_sync (kd_sqH d) (kd_nsH d)
      (replicate (Z.to_nat SAMSUNG_MAX_ITERATORS) iterator_zero) SAMSUNG_MAX_ITERATORS (kd_adi d);
  let d := kd_set_adi a d in
  if negb (r =? 0) then Ret (kdd_convert_return_code r, iter_hd, d)
  else
    let '(r, iter_hd) := scan_opened (take (Z.to_nat count) iters) bitmask bit_pattern 0 iter_hd in
    Ret (r, iter_hd, d).

Definition kdd_iter_option (iter_type : Z) : option Z :=
  if iter_type =? KVS_ITERATOR_KEY then Some KV_ITERATOR_OPT_KEY
  else if iter_type =? KVS_ITERATOR_KEY_VALUE then Some KV_ITERATOR_OPT_KV
  else None.

Definition kdd_create_iterator (ks iter_type bitmask bit_pattern iter_hd : Z) d
    : dev_outcome (kvs_result * Z * KDDriver K) :=
  '(ret, iter_hd, d) ← check_opened_iterators bitmask bit_pattern iter_hd d;
  if negb (kvs_is_success ret) then Ret (ret, iter_hd, d)
  else match kdd_iter_option iter_type, kd_sqH d with
       | None, _ => Ret (KVS_ERR_OPTION_INVALID, iter_hd, d)
       | Some opt, Some sqH =>
           '(r, iter_hd, a) ← kadi_open_iterator_sync sqH ks opt (KvGroupCondition bitmask bit_pattern)
                                iter_hd (kd_adi d);
           Ret (kdd_convert_return_code r, iter_hd, kd_set_adi a d)
       | Some _, None => Undef
       end.

Definition kdd_delete_iterator (hiter : Z) d : dev_outcome (kvs_result * KDDriver K) :=
  '(r, a) ← kadi_close_iterator_sync (kd_sqH d) (kd_nsH d) hiter (kd_adi d);
  Ret (kdd_convert_return_code r, kd_set_adi a d).

(** The synchronous read reformats the list whatever the device answered. *)
Definition kdd_iterator_next (hiter : Z) (iter_list : kvs_iterator_list) (mode : io_mode) d
    : dev_outcome (kvs_result * kvs_iterator_list * KDDriver K) :=
  if is_sync mode
  then
    '(r, l, a) ← kadi_iterator_next_sync (kd_sqH d) (kd_nsH d) hiter iter_list (kd_adi d);
    '(_, l) ← reformat_iterbuffer l;
    Ret (kdd_convert_return_code r, l, kd_set_adi a d)
  else
    let '(id, d) := kdd_prep_io_context KVS_CMD_ITER_NEXT None None (rb_iter_list iter_list) hiter mode d in
    '(r, a) ← kadi_iterator_next (kd_sqH d) (kd_nsH d) hiter (Some iter_list) (kdd_post_fn id) (kd_adi d);
    let d := kd_set_adi a d in
    Ret (convert_op_code KVS_CMD_ITER_NEXT r, iter_list, if negb (r =? 0) then kdd_free id d else d).

(** *** Device information and completions *)

Definition kdd_get_used_size d : dev_outcome (kvs_result * option Z * KDDriver K) :=
  '(r, st, a) ← kadi_get_device_stat (kd_devH d) (Some (KvDeviceStat 0 0 0 0)) (kd_adi d);
  let d := kd_set_adi a d in
  Ret (kdd_convert_return_code r, if negb (r =? 0) then None else ds_utilization <$> st, d).

Definition kdd_get_total_size d : dev_outcome (kvs_result * option Z * KDDriver K) :=
  let '(r, info) := kadi_get_device_info (Some (kd_devH d)) (Some (KvDevice 0 0 0 0 0 0 0 0)) (kd_adi d) in
  Ret (kdd_convert_return_code r, if negb (r =? 0) then None else d_capacity <$> info, d).

(** [get_waf] in tenths; [junk] is what the variable holds before the call. *)
Definition kdd_get_waf (junk : Z) d : Z * KDDriver K :=
  let '(_, w, a) := kadi_get_device_waf (kd_devH d) junk (kd_adi d) in (u32 w, kd_set_adi a d).

(** One poll: the number of events, whatever [max] is. *)
Definition kdd_process_completions d : dev_outcome (Z * KDDriver K) :=
  '(_, n, done, a) ← kadi_poll_completion (kd_cqH d) (Some 0) (kd_adi d);
  d ← kdd_complete_all done (kd_set_adi a d);
  Ret (default 0 n, d).

(** ** Life of a driver *)

(** [KDDriver::create_queue]; [qid] is its static counter. *)
Definition kdd_create_queue (qid is_polling : Z) (devH : kadi_dev_handle) a
    : Z * option kadi_queue_handle * KADI K :=
  let '(_, h) := kadi_create_queue (Some devH) true true in
  (qid + 1, h, if is_polling =? 0 then start_cbthread a else a).

(** [KDDriver::init]; [ptr], [nsid] and [ax] describe the memory of the new
    object.  The code, the driver, the counter, the devices and the process. *)
Definition kdd_init (ptr nsid : Z) (ax : nvme_aioctx) (devpath : list byte) (queue_depth is_polling qid : Z)
    (devs : gset Z) (k : K) : dev_outcome (kvs_result * option (KDDriver K) * Z * gset Z * K) :=
  '(r, hdl, adi, devs, k) ← kadi_initialize_device ptr nsid ax devpath queue_depth (Some None) devs k;
  if negb (r =? 0) then Ret (kdd_convert_return_code r, None, qid, devs, k)
  else match hdl, adi with
       | Some (Some devH), Some a =>
           let '(r, nsH) := kadi_get_namespace_default (Some devH) true in
           if negb (r =? 0) then Ret (kdd_convert_return_code r, None, qid, devs, k)
           else
             let '(cqid, cqH, a) := kdd_create_queue qid is_polling devH a in
             let '(sqid, sqH, a) := kdd_create_queue cqid is_polling devH a in
             Ret (kdd_convert_return_code r,
                  Some (MkKDDriver a devH nsH sqH cqH queue_depth ∅ 1 []), sqid, devs, ka_kernel a)
       | _, _ => Undef
       end.

(** The destructor; deleting a queue or the namespace only frees its handle. *)
Definition kdd_destroy (ptr : Z) (devs : gset Z) d : dev_outcome (gset Z * K) :=
  '(_, devs, k) ← kadi_cleanup_device ptr (Some (kd_devH d)) devs (kd_adi d); Ret (devs, k).
End kdd.

(** [trans_iter_type] converts its own code, which is not one of the device. *)
Definition trans_iter_type (dev_it_type : Z) (kvs_it_type : option Z) : kvs_result * option Z :=
  match kvs_it_type with
  | None => (KVS_ERR_PARAM_INVALID, None)
  | Some old =>
      let '(ret, t) := if dev_it_type =? KV_ITERATOR_OPT_KEY then (KVS_SUCCESS, KVS_ITERATOR_KEY)
                       else if dev_it_type =? KV_ITERATOR_OPT_KV then (KVS_SUCCESS, KVS_ITERATOR_KEY_VALUE)
                       else (KVS_ERR_OPTION_INVALID, old) in
      (kdd_convert_return_code (kvs_result_code ret), Some t)
  end.

#[export] Instance kdd_driver {K} `{!KvKernel K} : KvsDriver (KDDriver K) := {|
  store_tuple := kdd_store_tuple;
  retrieve_tuple := kdd_retrieve_tuple;
  delete_tuple := kdd_delete_tuple;
  exist_tuple := kdd_exist_tuple;
  create_iterator := kdd_create_iterator;
  delete_iterator := kdd_delete_iterator;
  iterator_next := kdd_iterator_next;
  get_used_size := kdd_get_used_size;
  get_total_size := kdd_get_total_size
|}.
