(* ===== verification/KddLaws.v ===== *)
(** * The kernel driver as a driver of the API

    [class KDDriver] satisfies the laws of the driver interface when the system
    calls satisfy theirs: a synchronous call is answered from one finite map per
    key space.  So the theorems on the front end hold for the whole stack: API,
    driver, device interface, adapter, NVMe driver and device. *)

From Stdlib Require Import Strings.String.
From stdpp Require Import base numbers list gmap.
From S2P Require Import Prelude.
From S2P Require Import AdiTypes.
From S2P Require Import EmulInv.
From S2P Require Import EmulSpec.
From S2P Require Import KvsTypes.
From S2P Require Import KvsDriver.
From S2P Require Import EmulDriver.
From S2P Require Import NvmeCmd.
From S2P Require Import Kadi.
From S2P Require Import KernelSpec.
From S2P Require Import KadiSync.
From S2P Require Import KernelAdi.
From S2P Require Import KddDriver.

(** ** Commands of the calls *)

Lemma key_arg_ok key c :
  drv_key_ok key -> kc_key_length c = k_length key -> kc_arg c = key_arg (k_key key) (k_length key) ->
  pt_key_ok c /\ pt_key c = key_bytes key.
Proof.
  intros [[l [Hl Hlen]] Hk] E1 E2. unfold pt_key_ok, pt_key, key_bytes. rewrite E1, E2, Hl.
  unfold key_arg in *.
  destruct (Z.leb_spec (k_length key) 16) as [H16|H16]; cbn [default from_option id].
  - set (t := take _ l). assert (Ht : length t = Z.to_nat (k_length key)) by (unfold t; rewrite length_take; lia).
    split; [split; [lia|split; [lia|]]|].
    + unfold memcpy_at. rewrite !length_app, length_take, length_drop, Ht. change (length zero_key) with 16%nat. lia.
    + rewrite <- Ht. apply take_memcpy_at.
  - split; [split; [lia|]|done]. unfold lenZ. lia.
Qed.

Lemma store_cmd_ok {K} ks key value o i (a : KADI K) :
  ks_ok ks -> drv_key_ok key -> drv_value_ok value ->
  o = STORE_OPTION_NOTHING \/ o = STORE_OPTION_IDEMPOTENT \/ o = STORE_OPTION_UPDATE_ONLY ->
  pt_ok (store_cmd ks key value o i a) /\ pt_key (store_cmd ks key value o i a) = key_bytes key.
Proof.
  intros Hks Hk (Hv & Hlen & _) Ho. destruct (key_arg_ok key (store_cmd ks key value o i a) Hk) as [H1 H2]; [done..|].
  split; [|done]. split; [done|]. split; [done|]. split; [done|]. split.
  - cbn. exact Hv.
  - left. split; [done|]. split; [|done]. cbn. lia.
Qed.

Lemma retrieve_cmd_ok {K} ks key value i (a : KADI K) :
  ks_ok ks -> drv_key_ok key -> drv_value_ok value -> v_length value mod 4 = 0 ->
  pt_ok (retrieve_cmd ks key value i a) /\ pt_key (retrieve_cmd ks key value i a) = key_bytes key.
Proof.
  intros Hks Hk (Hv & Hlen & Hoff & _) Hm.
  destruct (key_arg_ok key (retrieve_cmd ks key value i a) Hk) as [H1 H2]; [done..|].
  split; [|done]. split; [done|]. split; [done|]. split; [done|]. split; [exact Hv|].
  right. left. split; [done|]. split; [done|]. split; [done|]. cbn. lia.
Qed.

Lemma delete_cmd_ok {K} ks key opt i (a : KADI K) :
  ks_ok ks -> drv_key_ok key -> opt = 0 \/ opt = DELETE_OPTION_CHECK_KEY_EXIST ->
  pt_ok (delete_cmd ks key opt i a) /\ pt_key (delete_cmd ks key opt i a) = key_bytes key.
Proof.
  intros Hks Hk Ho. destruct (key_arg_ok key (delete_cmd ks key opt i a) Hk) as [H1 H2]; [done..|].
  split; [|done]. split; [done|]. split; [done|]. split; [done|]. split; [done|].
  right. right. left. done.
Qed.

Lemma exist_cmd_ok {K} ks key i (a : KADI K) :
  ks_ok ks -> drv_key_ok key ->
  pt_ok (exist_cmd ks (k_key key) (k_length key) i a) /\
  pt_key (exist_cmd ks (k_key key) (k_length key) i a) = key_bytes key.
Proof.
  intros Hks Hk. destruct (key_arg_ok key (exist_cmd ks (k_key key) (k_length key) i a) Hk) as [H1 H2]; [done..|].
  split; [|done]. split; [done|]. split; [done|]. split; [done|]. split; [done|]. by right; right; right.
Qed.

Section laws.
Context {K : Type} `{!KvKernel K} `{!KvKernelLaws K}.
Implicit Types (a : KADI K) (d : KDDriver K) (kc : kv_kdd_context) (c : aio_cmd_ctx).

(** ** Submission *)

(** [call] submits the command [mk i] for some context [i]. *)
Definition submits (call : KADI K -> dev_outcome (Z * KADI K)) (mk : Z -> nvme_passthru_kv_cmd)
    (f : option Z) (pd : Z) (value : option (option kv_value)) a : Prop :=
  exists i c n e s a2, call a = Ret (0, a2) /\ pt_answer (mk i) (k_contents (ka_kernel a)) e s /\
    adi_waiting i c n e s a2 /\ cc_cmd c = mk i /\ cc_post_fn c = f /\ cc_post_data c = pd /\
    (forall v, value = Some v -> cc_value c = v) /\ ka_started a2 = ka_started a.

Definition handles_ok d : Prop :=
  exists q ns, kd_sqH d = Some (KadiQueueHandle q true) /\ kd_nsH d = Some ns.

Lemma store_submits d ks key value opt o f pd a :
  handles_ok d -> adi_ready a -> ks_ok ks -> drv_key_ok key -> drv_value_ok value ->
  kadi_store_option opt = Some o ->
  o = STORE_OPTION_NOTHING \/ o = STORE_OPTION_IDEMPOTENT \/ o = STORE_OPTION_UPDATE_ONLY ->
  submits (kadi_kv_store (kd_sqH d) (kd_nsH d) ks (Some key) (Some value) opt (Some (KadiCallback f pd)))
    (fun i => store_cmd ks key value o i a) f pd (Some (Some value)) a.
Proof.
  intros (q & ns & -> & ->) Ha Hks Hk Hv Hopt Ho.
  destruct (submit_ready f pd (Some (Some key)) (Some (Some value)) None (fun i => store_cmd ks key value o i a) a Ha)
    as (i & fr & pe & cx & a2 & c & n & e & s & E1 & E2 & Hans & Hw & (H1 & H2 & H3 & _ & H5) & Hst).
  { intros i _. split; [by apply store_cmd_ok|done]. }
  exists i, c, n, e, s, a2. split; [|done]. unfold kadi_kv_store, with_handles. rewrite Hopt.
  rewrite bool_decide_false by (intros [|]; done). cbn [kqh_dev]. unfold kadi_store.
  destruct Hk as [(l & Hl & _) _]. rewrite bool_decide_false by (rewrite Hl; done). rewrite E1.
  cbn [mbind dev_outcome_bind]. change (store_cmd ks key value o i (ka_set_ctxs fr pe cx a)) with (store_cmd ks key value o i a).
  cbv zeta in E2. rewrite E2. reflexivity.
Qed.

Lemma retrieve_submits d ks key value opt f pd a :
  handles_ok d -> adi_ready a -> ks_ok ks -> drv_key_ok key -> drv_value_ok value -> v_length value mod 4 = 0 ->
  submits (kadi_kv_retrieve (kd_sqH d) (kd_nsH d) ks (Some key) opt (Some value) (Some (KadiCallback f pd)))
    (fun i => retrieve_cmd ks key value i a) f pd (Some (Some value)) a.
Proof.
  intros (q & ns & -> & ->) Ha Hks Hk Hv Hm.
  destruct (submit_ready f pd (Some (Some key)) (Some (Some value)) None (fun i => retrieve_cmd ks key value i a) a Ha)
    as (i & fr & pe & cx & a2 & c & n & e & s & E1 & E2 & Hans & Hw & (H1 & H2 & H3 & _ & H5) & Hst).
  { intros i _. split; [by apply retrieve_cmd_ok|done]. }
  exists i, c, n, e, s, a2. split; [|done]. unfold kadi_kv_retrieve, with_handles.
  rewrite bool_decide_false by (intros [|]; done). cbn [kqh_dev]. unfold kadi_retrieve.
  destruct Hk as [(l & Hl & _) _]. rewrite bool_decide_false by (rewrite Hl; done). rewrite E1.
  cbn [mbind dev_outcome_bind]. change (retrieve_cmd ks key value i (ka_set_ctxs fr pe cx a)) with (retrieve_cmd ks key value i a).
  cbv zeta in E2. rewrite E2. reflexivity.
Qed.

Lemma delete_submits d ks key opt f pd a :
  handles_ok d -> adi_ready a -> ks_ok ks -> drv_key_ok key -> opt = 0 \/ opt = DELETE_OPTION_CHECK_KEY_EXIST ->
  submits (kadi_kv_delete (kd_sqH d) (kd_nsH d) ks (Some key) opt (Some (KadiCallback f pd)))
    (fun i => delete_cmd ks key opt i a) f pd None a.
Proof.
  intros (q & ns & -> & ->) Ha Hks Hk Ho.
  destruct (submit_ready f pd (Some (Some key)) (Some None) None (fun i => delete_cmd ks key opt i a) a Ha)
    as (i & fr & pe & cx & a2 & c & n & e & s & E1 & E2 & Hans & Hw & (H1 & H2 & H3 & _ & _) & Hst).
  { intros i _. split; [by apply delete_cmd_ok|done]. }
  exists i, c, n, e, s, a2. split; [|done]. unfold kadi_kv_delete, with_handles.
  rewrite bool_decide_false by done. cbn [kqh_dev]. unfold kadi_delete.
  destruct Hk as [(l & Hl & _) _]. rewrite bool_decide_false by (rewrite Hl; done). rewrite E1.
  cbn [mbind dev_outcome_bind]. change (delete_cmd ks key opt i (ka_set_ctxs fr pe cx a)) with (delete_cmd ks key opt i a).
  cbv zeta in E2. rewrite E2. reflexivity.
Qed.

Lemma drv_key_valid key : drv_key_ok key -> validate_key_value key None = KV_SUCCESS.
Proof.
  intros [(l & Hl & _) Hk]. unfold validate_key_value. rewrite Hl.
  destruct (Z.ltb_spec (k_length key) 4), (Z.ltb_spec 255 (k_length key)); simpl; try lia. done.
Qed.

Lemma exist_submits d ks key n b f pd a :
  handles_ok d -> adi_ready a -> ks_ok ks -> drv_key_ok key ->
  submits (fun a => '(r, _, a) ← kadi_kv_exist (kd_sqH d) (kd_nsH d) ks [key] 1 n b (Some (KadiCallback f pd)) a; Ret (r, a))
    (fun i => exist_cmd ks (k_key key) (k_length key) i a) f pd None a.
Proof.
  intros (q & ns & -> & ->) Ha Hks Hk.
  destruct (submit_ready f pd None None None (fun i => exist_cmd ks (k_key key) (k_length key) i a) a Ha)
    as (i & fr & pe & cx & a2 & c & m & e & s & E1 & E2 & Hans & Hw & (H1 & H2 & H3 & _ & _) & Hst).
  { intros i _. split; [by apply exist_cmd_ok|done]. }
  exists i, c, m, e, s, a2. split; [|done]. unfold kadi_kv_exist, with_handles. change (1 <? 1) with false.
  cbn [kqh_dev]. rewrite (drv_key_valid key Hk). cbn [is_success]. change (is_success KV_SUCCESS) with true. cbn [negb].
  unfold kadi_exist. rewrite E1. cbn [mbind dev_outcome_bind].
  change (exist_cmd ks (k_key key) (k_length key) i (ka_set_ctxs fr pe cx a)) with (exist_cmd ks (k_key key) (k_length key) i a).
  cbv zeta in E2. rewrite E2. reflexivity.
Qed.

(** ** Waiting *)

(** The callback thread runs until the context [id] is done. *)
Lemma wait_done n : forall fuel kc code kc' i c e s id d fn,
  (n <= fuel)%nat -> adi_waiting i c n e s (kd_adi d) -> ka_started (kd_adi d) = true ->
  kd_ctx d !! id = Some kc -> kx_done kc = false -> cc_post_fn c = Some fn -> cc_post_data c = id ->
  kdd_results kc (fill_ioresult c e) = Ret (code, kc') -> kx_syncio kc' = true ->
  exists a', kdd_wait_for_io (S fuel) id d =
      Ret (kd_set_ctx (<[id := kx_with_result code true kc']> (kd_ctx d)) (kd_next d) (kd_set_adi a' d)) /\
    adi_ready a' /\ k_contents (ka_kernel a') = s /\ ka_started a' = true.
Proof.
  induction n as [|n IH]; intros fuel kc code kc' i c e s id d fn Hn Hw Hst Hid Hdone Hfn Hpd Hres Hsync.
  - destruct (poll_ready 2048 i c e s (kd_adi d) Hw) as (a' & E & Ha & Hs & Hst').
    exists a'. split; [|rewrite <- Hst; done].
    cbn [kdd_wait_for_io]. rewrite Hid, Hdone. unfold kdd_thread_turn. rewrite Hst, E.
    cbn [mbind dev_outcome_bind]. rewrite Hfn. cbn [kdd_complete_all]. unfold kdd_on_io_complete.
    rewrite fill_private, Hpd. cbn [kd_ctx kd_set_adi]. rewrite Hid, Hres. cbn [mbind dev_outcome_bind].
    rewrite Hsync. cbn [mbind dev_outcome_bind].
    destruct fuel; cbn [kdd_wait_for_io kd_ctx kd_set_ctx]; rewrite lookup_insert_eq; reflexivity.
  - destruct (poll_timeout 2048 i c n e s (kd_adi d) Hw) as (a' & E & Hw' & Hst').
    destruct fuel as [|fuel]; [lia|].
    destruct (IH fuel kc code kc' i c e s id (kd_set_adi a' d) fn) as (a2 & E2 & H2); try done; [lia|by rewrite <- Hst|].
    exists a2. split; [|done]. change (kd_set_adi a2 (kd_set_adi a' d)) with (kd_set_adi a2 d) in E2.
    change (kd_ctx (kd_set_adi a' d)) with (kd_ctx d) in E2. change (kd_next (kd_set_adi a' d)) with (kd_next d) in E2.
    rewrite <- E2. remember (S fuel) as m. cbn [kdd_wait_for_io]. rewrite Hid, Hdone. unfold kdd_thread_turn.
    rewrite Hst, E. cbn [mbind dev_outcome_bind kdd_complete_all]. subst m. reflexivity.
Qed.

Definition kd_ok d : Prop := adi_ready (kd_adi d) /\ ka_started (kd_adi d) = true /\ handles_ok d.
Definition kd_abs d : astore := k_contents (ka_kernel (kd_adi d)).

(** A synchronous call: [kc] is its context, and [results] says what the callback
    writes for the answer to the command. *)
Lemma run_sync (opcode id fn : Z) (submit : KADI K -> dev_outcome (Z * KADI K))
    (mk : Z -> nvme_passthru_kv_cmd) (value : option (option kv_value)) kc d
    (Q : astore -> Z -> kv_kdd_context -> Prop) :
  kd_ok d -> kd_ctx d !! id = Some kc -> kx_done kc = false ->
  submits submit mk (Some fn) id value (kd_adi d) ->
  (forall i c e s, pt_answer (mk i) (kd_abs d) e s -> cc_cmd c = mk i ->
     (forall v, value = Some v -> cc_value c = v) ->
     exists code kc', kdd_results kc (fill_ioresult c e) = Ret (code, kc') /\ kx_syncio kc' = true /\ Q s code kc') ->
  exists code kc' d', kdd_run opcode id Sync submit d =
      Ret (convert_op_code opcode code, Some (kx_with_result code true kc'), d') /\
    kd_ok d' /\ Q (kd_abs d') code kc'.
Proof.
  intros (Ha & Hst & Hh) Hid Hdone (i & c & n & e & s & a2 & E & Hans & Hw & Hcmd & Hfn & Hpd & Hv & Hst2) Hres.
  destruct (Hres i c e s Hans Hcmd Hv) as (code & kc' & Hr & Hsync & HQ).
  destruct (wait_done n (sys_turns (ka_kernel a2)) kc code kc' i c e s id (kd_set_adi a2 d) fn)
    as (a' & Ew & Ha' & Hs & Hst'); try done.
  { apply (law_k_turns (ka_aioctx a2) n e s). apply Hw. }
  { cbn [kd_adi kd_set_adi]. by rewrite Hst2. }
  exists code, kc'. eexists. split; [|split; [|]].
  - unfold kdd_run. cbn [retry_full]. rewrite E. cbn [mbind dev_outcome_bind].
    change (0 =? rc KV_ERR_QUEUE_IS_FULL) with false. cbn [mbind dev_outcome_bind is_sync andb Z.eqb]. rewrite Ew.
    cbn [mbind dev_outcome_bind kd_ctx kd_set_ctx]. rewrite lookup_insert_eq. reflexivity.
  - split; [exact Ha'|]. split; [exact Hst'|exact Hh].
  - unfold kd_abs. cbn [kd_adi kdd_free kd_set_ctx kd_set_adi]. by rewrite Hs.
Qed.

(** ** The laws *)

(** The structures a read may be given: a size larger than the buffer would turn
    every error into [KVS_ERR_BUFFER_SMALL]. *)
Definition kdd_read_ok (v : kvs_value) : Prop := v_actual_value_size v <= v_length v.

(** The state in which a synchronous call submits its command. *)
Definition with_ctx kc d : KDDriver K := kd_set_ctx (<[kd_next d := kc]> (kd_ctx d)) (kd_next d + 1) d.

Lemma with_ctx_lookup kc d : kd_ctx (with_ctx kc d) !! kd_next d = Some kc.
Proof. apply lookup_insert_eq. Qed.

(** The status of an event becomes the result code, and nothing is written. *)
Lemma results_status kc c e :
  kc_opcode (cc_cmd c) <> nvme_cmd_kv_iter_read ->
  kx_context kc = KVS_CMD_STORE \/ kx_context kc = KVS_CMD_DELETE ->
  kdd_results kc (fill_ioresult c e) = Ret (ev_status e, kc).
Proof. intros Hop Hx. unfold kdd_results. rewrite fill_retcode by done. by destruct Hx as [-> | ->]. Qed.

Lemma kdd_store_law d ks key value st :
  kd_ok d -> ks_ok ks -> drv_key_ok key -> drv_value_ok value ->
  st = KVS_STORE_POST \/ st = KVS_STORE_NOOVERWRITE ->
  let '(r, m) := map_store st (key_bytes key) (value_bytes value) (as_ks ks (kd_abs d)) in
  exists d', kdd_store_tuple ks key value st Sync d = Ret (r, d') /\ kd_ok d' /\
    kd_abs d' = as_update ks (fun _ => m) (kd_abs d).
Proof.
  intros Hd Hks Hk Hv Hst.
  set (o := if st =? KVS_STORE_NOOVERWRITE then STORE_OPTION_IDEMPOTENT else STORE_OPTION_NOTHING).
  assert (Ho : exists opt, trans_store_cmd_opt st = Some opt /\ kadi_store_option opt = Some o).
  { unfold o. destruct Hst as [-> | ->]; eexists; done. }
  assert (Ho' : o = STORE_OPTION_NOTHING \/ o = STORE_OPTION_IDEMPOTENT \/ o = STORE_OPTION_UPDATE_ONLY).
  { unfold o. destruct (st =? _); auto. }
  destruct Ho as (opt & Eopt & Eo).
  set (kc := KvKddContext KVS_CMD_STORE (Some key) (Some value) 0 0 rb_null 0 0 None false true).
  pose proof (store_submits (with_ctx kc d) ks key value opt o (Some KDD_ON_IO_COMPLETE) (kd_next d)
    (kd_adi d) (proj2 (proj2 Hd)) (proj1 Hd) Hks Hk Hv Eo Ho') as Hsub.
  destruct (run_sync KVS_CMD_STORE (kd_next d) KDD_ON_IO_COMPLETE _ _ _ kc (with_ctx kc d)
    (fun s code _ => device_store o (key_bytes key) (value_bytes value) (as_ks ks (kd_abs d)) =
       (code, as_ks ks s) /\ s = as_update ks (fun _ => as_ks ks s) (kd_abs d)) Hd
    (with_ctx_lookup kc d) eq_refl Hsub) as (code & kc' & d' & E & Hok' & HQ & Hs').
  { intros i c e s (_ & _ & Hans) Hcmd _. cbn [kc_opcode store_cmd] in Hans.
    change (is_kv_store_cmd nvme_cmd_kv_store) with true in Hans. cbv iota in Hans.
    rewrite (proj2 (store_cmd_ok ks key value o i (kd_adi d) Hks Hk Hv Ho')) in Hans.
    change (pt_value _) with (value_bytes value) in Hans. cbn [kc_cdw3 kc_cdw4 store_cmd] in Hans.
    change (kd_abs (with_ctx kc d)) with (kd_abs d) in Hans.
    destruct (device_store _ _ _ _) as [cd m]. destruct Hans as (Hs & _ & Hs').
    exists (ev_status e), kc. split; [apply results_status; [by rewrite Hcmd|by left]|]. split; [done|].
    assert (Hm : as_ks ks s = m). { rewrite Hs'. apply as_ks_update; [done|]. eapply law_k_spaces, Hd. }
    rewrite Hm, Hs. done. }
  unfold map_store. unfold device_store, o in HQ. unfold kdd_store_tuple. cbn [kdd_prep_io_context is_sync]. rewrite Eopt.
  fold kc. fold (with_ctx kc d). unfold kdd_post_fn. rewrite E. cbn [mbind dev_outcome_bind].
  destruct (as_ks ks (kd_abs d) !! key_bytes key); destruct Hst as [-> | ->]; cbn in HQ; injection HQ as <- Hm;
    exists d'; (split; [reflexivity|]); (split; [done|]); by rewrite Hm.
Qed.

Lemma kdd_delete_law d ks key err :
  kd_ok d -> ks_ok ks -> drv_key_ok key ->
  let '(r, m) := map_delete err (key_bytes key) (as_ks ks (kd_abs d)) in
  exists d', kdd_delete_tuple ks key err Sync d = Ret (r, d') /\ kd_ok d' /\
    kd_abs d' = as_update ks (fun _ => m) (kd_abs d).
Proof.
  intros Hd Hks Hk. set (o := if negb err then KV_DELETE_OPT_DEFAULT else KV_DELETE_OPT_ERROR).
  assert (Ho : o = 0 \/ o = DELETE_OPTION_CHECK_KEY_EXIST) by (unfold o; destruct err; auto).
  set (kc := KvKddContext KVS_CMD_DELETE (Some key) None 0 0 rb_null 0 0 None false true).
  pose proof (delete_submits (with_ctx kc d) ks key o (Some KDD_ON_IO_COMPLETE) (kd_next d)
    (kd_adi d) (proj2 (proj2 Hd)) (proj1 Hd) Hks Hk Ho) as Hsub.
  destruct (run_sync KVS_CMD_DELETE (kd_next d) KDD_ON_IO_COMPLETE _ _ _ kc (with_ctx kc d)
    (fun s code _ => device_delete o (key_bytes key) (as_ks ks (kd_abs d)) =
       (code, as_ks ks s) /\ s = as_update ks (fun _ => as_ks ks s) (kd_abs d)) Hd
    (with_ctx_lookup kc d) eq_refl Hsub) as (code & kc' & d' & E & Hok' & HQ & Hs').
  { intros i c e s (_ & _ & Hans) Hcmd _. cbn [kc_opcode delete_cmd] in Hans.
    change (is_kv_store_cmd nvme_cmd_kv_delete) with false in Hans.
    change (is_kv_retrieve_cmd nvme_cmd_kv_delete) with false in Hans.
    change (is_kv_delete_cmd nvme_cmd_kv_delete) with true in Hans. cbv iota in Hans.
    rewrite (proj2 (delete_cmd_ok ks key o i (kd_adi d) Hks Hk Ho)) in Hans. cbn [kc_cdw3 kc_cdw4 delete_cmd] in Hans.
    change (kd_abs (with_ctx kc d)) with (kd_abs d) in Hans.
    destruct (device_delete _ _ _) as [cd m]. destruct Hans as (Hs & Hs').
    exists (ev_status e), kc. split; [apply results_status; [by rewrite Hcmd|by right]|]. split; [done|].
    assert (Hm : as_ks ks s = m). { rewrite Hs'. apply as_ks_update; [done|]. eapply law_k_spaces, Hd. }
    rewrite Hm, Hs. done. }
  unfold map_delete. unfold device_delete in HQ. unfold kdd_delete_tuple. cbn [kdd_prep_io_context is_sync].
  fold o. fold kc. fold (with_ctx kc d). unfold kdd_post_fn. rewrite E. cbn [mbind dev_outcome_bind].
  destruct (as_ks ks (kd_abs d) !! key_bytes key); unfold o in HQ; destruct err; cbn in HQ; injection HQ as <- Hm;
    exists d'; (split; [reflexivity|]); (split; [done|]); by rewrite Hm.
Qed.

(** The value of a read that the device answered. *)
Lemma results_read kc c e v :
  kc_opcode (cc_cmd c) = nvme_cmd_kv_retrieve -> kx_context kc = KVS_CMD_RETRIEVE -> cc_value c = Some v ->
  kdd_results kc (fill_ioresult c e) =
    let actual := ev_result e -32 v_offset v in
    let v' := if ev_status e =? 0 then KvValue (ev_data e) (Z.min actual (v_length v)) actual (v_offset v)
              else KvValue (ev_data e) (v_length v) (v_actual_value_size v) (v_offset v) in
    Ret (if v_length v' <? v_actual_value_size v' then rc KV_ERR_BUFFER_SMALL else ev_status e, kx_with_value v' kc).
Proof.
  intros Hop Hx Hv. unfold kdd_results. rewrite Hx. cbn [Z.eqb Pos.eqb].
  rewrite fill_retcode by (by rewrite Hop). unfold fill_ioresult. rewrite Hop, Hv. cbn.
  rewrite andb_false_r. by destruct (ev_status e =? 0).
Qed.

(** The answer of the device to a read is that of the map. *)
Lemma read_answer (k : list byte) (value : kvs_value) (m : bytes_map) (e : nvme_aioevent) :
  drv_value_ok value -> kdd_read_ok value -> (forall l, m !! k = Some l -> lenZ l < 2 ^ 32) ->
  (let '(st, total, out) := device_retrieve k (v_offset value) (v_length value) m in
   ev_status e = st /\ (st = 0 -> ev_result e = total) /\
   ev_data e = match out with Some o => memcpy_at 0 o <$> v_value value | None => v_value value end) ->
  let actual := ev_result e -32 v_offset value in
  let v' := if ev_status e =? 0 then KvValue (ev_data e) (Z.min actual (v_length value)) actual (v_offset value)
            else KvValue (ev_data e) (v_length value) (v_actual_value_size value) (v_offset value) in
  map_retrieve id k value m =
    (convert_op_code KVS_CMD_RETRIEVE
       (if v_length v' <? v_actual_value_size v' then rc KV_ERR_BUFFER_SMALL else ev_status e), v').
Proof.
  intros Hv Hrd Hlen Hans. unfold device_retrieve in Hans. unfold map_retrieve, kdd_read_ok in *. cbv zeta.
  destruct (m !! k) as [l|].
  2: { destruct Hans as (-> & _ & ->). change (KV_STATUS_KEY_NOT_EXIST =? 0) with false. cbn.
       rewrite (proj2 (Z.ltb_ge _ _)) by lia. by destruct value. }
  destruct (bool_decide _) eqn:Eb.
  - destruct Hans as (-> & _ & ->). change (KV_STATUS_INVALID_OFFSET =? 0) with false. cbn.
    rewrite (proj2 (Z.ltb_ge _ _)) by lia. by destruct value.
  - destruct Hans as (-> & Hr & ->). rewrite (Hr eq_refl). apply bool_decide_eq_false in Eb.
    specialize (Hlen l eq_refl). destruct Hv as (_ & Hvl & Hoff & _). unfold lenZ in *.
    assert (Hact : u32 (Z.of_nat (length l) - v_offset value) = Z.of_nat (length l) - v_offset value).
    { apply u32_small. lia. }
    cbn [Z.eqb]. change (0 =? 0) with true. cbv iota. cbn [v_length v_actual_value_size].
    rewrite Hact. unfold slice at 2. rewrite length_take, length_drop.
    replace (Z.of_nat (Z.to_nat (v_length value) `min` (length l - Z.to_nat (v_offset value))))
      with (Z.min (Z.of_nat (length l) - v_offset value) (v_length value)) by lia.
    f_equal. case_bool_decide.
    + by rewrite (proj2 (Z.ltb_lt _ _)) by lia.
    + by rewrite (proj2 (Z.ltb_ge _ _)) by lia.
Qed.

Lemma kdd_retrieve_law d ks key value :
  kd_ok d -> ks_ok ks -> drv_key_ok key -> drv_value_ok value -> kdd_read_ok value ->
  v_length value mod KVS_VALUE_LENGTH_ALIGNMENT_UNIT = 0 ->
  let '(r, value') := map_retrieve id (key_bytes key) value (as_ks ks (kd_abs d)) in
  exists d', kdd_retrieve_tuple ks key value false Sync d = Ret (r, value', d') /\ kd_ok d' /\ kd_abs d' = kd_abs d.
Proof.
  intros Hd Hks Hk Hv Hrd Hal.
  set (kc := KvKddContext KVS_CMD_RETRIEVE (Some key) (Some value) 0 0 rb_null 0 0 None false true).
  pose proof (retrieve_submits (with_ctx kc d) ks key value KV_RETRIEVE_OPT_DEFAULT (Some KDD_ON_IO_COMPLETE) (kd_next d)
    (kd_adi d) (proj2 (proj2 Hd)) (proj1 Hd) Hks Hk Hv Hal) as Hsub.
  destruct (run_sync KVS_CMD_RETRIEVE (kd_next d) KDD_ON_IO_COMPLETE _ _ _ kc (with_ctx kc d)
    (fun s code kc' => s = kd_abs d /\
       map_retrieve id (key_bytes key) value (as_ks ks (kd_abs d)) =
         (convert_op_code KVS_CMD_RETRIEVE code, default value (kx_value kc'))) Hd
    (with_ctx_lookup kc d) eq_refl Hsub) as (code & kc' & d' & E & Hok' & Hs' & HQ).
  { intros i c e s (_ & _ & Hans) Hcmd Hval. cbn [kc_opcode retrieve_cmd] in Hans.
    change (is_kv_store_cmd nvme_cmd_kv_retrieve) with false in Hans.
    change (is_kv_retrieve_cmd nvme_cmd_kv_retrieve) with true in Hans. cbv iota in Hans.
    rewrite (proj2 (retrieve_cmd_ok ks key value i (kd_adi d) Hks Hk Hv Hal)) in Hans.
    cbn [kc_cdw3 kc_cdw5 kc_data_length kc_data_addr retrieve_cmd] in Hans.
    change (kd_abs (with_ctx kc d)) with (kd_abs d) in Hans.
    eexists _, _. split; [exact (results_read kc c e value ltac:(by rewrite Hcmd) eq_refl (Hval _ eq_refl))|].
    split; [done|]. assert (Hs : s = kd_abs d).
    { destruct (device_retrieve _ _ _ _) as [[st total] out]. apply Hans. }
    split; [done|]. apply (read_answer (key_bytes key) value (as_ks ks (kd_abs d)) e Hv Hrd).
    - intros v El. exact (law_k_value_len _ _ _ _ _ (proj2 (proj2 (proj2 (proj1 Hd)))) El).
    - destruct (device_retrieve _ _ _ _) as [[st total] out]. destruct Hans as (H1 & H2 & H3 & _). done. }
  unfold kdd_retrieve_tuple. cbn [kdd_prep_io_context is_sync negb]. fold kc. fold (with_ctx kc d).
  unfold kdd_post_fn. rewrite E, HQ. exists d'. done.
Qed.

Lemma kdd_exist_law d ks key n b :
  kd_ok d -> ks_ok ks -> drv_key_ok key ->
  exists d', kdd_exist_tuple ks [key] (KvsExistList n 1 (Some [b])) Sync d =
    Ret (KVS_SUCCESS,
         KvsExistList n 1 (Some [if bool_decide (is_Some (as_ks ks (kd_abs d) !! key_bytes key))
                                 then Byte.x01 else Byte.x00]), d') /\
    kd_ok d' /\ kd_abs d' = kd_abs d.
Proof.
  intros Hd Hks Hk. set (el := KvsExistList n 1 (Some [b])).
  set (kc := KvKddContext KVS_CMD_EXIST (Some key) None 0 0 (rb_list el) 0 0 None false true).
  pose proof (exist_submits (with_ctx kc d) ks key 1 (Some [b]) (Some KDD_ON_IO_COMPLETE) (kd_next d)
    (kd_adi d) (proj2 (proj2 Hd)) (proj1 Hd) Hks Hk) as Hsub.
  destruct (run_sync KVS_CMD_EXIST (kd_next d) KDD_ON_IO_COMPLETE _ _ _ kc (with_ctx kc d)
    (fun s code kc' => s = kd_abs d /\ code = device_exist (key_bytes key) (as_ks ks (kd_abs d)) /\
       kx_result_buffer kc' = rb_list (KvsExistList n 1 (Some [exist_result_byte code]))) Hd
    (with_ctx_lookup kc d) eq_refl Hsub) as (code & kc' & d' & E & Hok' & Hs' & HQ & Hb).
  { intros i c e s (_ & _ & Hans) Hcmd _. cbn [kc_opcode exist_cmd] in Hans.
    change (is_kv_store_cmd nvme_cmd_kv_exist) with false in Hans.
    change (is_kv_retrieve_cmd nvme_cmd_kv_exist) with false in Hans.
    change (is_kv_delete_cmd nvme_cmd_kv_exist) with false in Hans. cbv iota in Hans.
    rewrite (proj2 (exist_cmd_ok ks key i (kd_adi d) Hks Hk)) in Hans. cbn [kc_cdw3 exist_cmd] in Hans.
    destruct Hans as [Hst Hs]. eexists _, _. split.
    { unfold kdd_results. rewrite fill_retcode by (by rewrite Hcmd). reflexivity. }
    split; [done|]. rewrite Hst. done. }
  unfold kdd_exist_tuple. cbn [length Nat.ltb Nat.leb head hd_error kdd_prep_io_context is_sync]. fold el. fold kc.
  fold (with_ctx kc d). unfold kdd_post_fn. change (Z.of_nat 1) with 1. cbn [el_length el_result_buffer el].
  rewrite E. cbn [mbind dev_outcome_bind kx_exist_list kx_with_result kx_result_buffer]. rewrite Hb, HQ.
  exists d'. unfold device_exist. split; [|done]. by destruct (bool_decide _).
Qed.

#[export] Instance kdd_driver_laws : KvsDriverLaws (KDDriver K) := {|
  drv_ok := kd_ok;
  drv_abs := kd_abs;
  drv_read_ok := kdd_read_ok;
  drv_unread := id;
  law_drv_spaces := fun d Hd => law_k_spaces _ _ (proj2 (proj2 (proj2 (proj1 Hd))));
  law_drv_read_ok := fun _ n Hn => Hn;
  law_store_tuple := kdd_store_law;
  law_retrieve_tuple := kdd_retrieve_law;
  law_delete_tuple := kdd_delete_law;
  law_exist_tuple := kdd_exist_law
|}.
End laws.
