(* ===== verification/KernelStack.v ===== *)
(** * The stack over the kernel driver

    Opening the kernel driver of the API on a process with an NVMe device, and
    the calls of the API on it: front end, [KDDriver], device interface, [KADI],
    NVMe driver and device together. *)

From Stdlib Require Import Strings.String.
From stdpp Require Import base numbers list gmap.
From S2P Require Import Prelude.
From S2P Require Import AdiTypes.
From S2P Require Import EmulInv.
From S2P Require Import EmulSpec.
From S2P Require Import Config.
From S2P Require Import KvsTypes.
From S2P Require Import KvsDriver.
From S2P Require Import EmulDriver.
From S2P Require Import KeySpace.
From S2P Require Import KeySpaceSpec.
From S2P Require Import Frontend.
From S2P Require Import FrontendSpec.
From S2P Require Import NvmeCmd.
From S2P Require Import SimDevice.
From S2P Require Import NvmeAio.
From S2P Require Import NvmeAioSpec.
From S2P Require Import Kadi.
From S2P Require Import KernelSpec.
From S2P Require Import KadiSync.
From S2P Require Import KernelCalls.
From S2P Require Import KadiInv.
From S2P Require Import KernelAdi.
From S2P Require Import KddDriver.
From S2P Require Import KddLaws.

Section stack.
Context {D : Type} `{!NvmeKvDevice D} `{!NvmeKvDeviceLaws D}.
Implicit Types (p : nvme_process D) (d : KDDriver (nvme_process D)).

(** The device below a driver. *)
Definition nvme_device d : D := nk_dev (pr_kernel (ka_kernel (kd_adi d))).

(** ** Opening *)

(** A process that may open the device, whose buffers are aligned, with nothing in
    flight. *)
Definition process_fresh (path : list byte) p : Prop :=
  let k := pr_kernel p in
  may_open path p /\ nk_inflight k = [] /\ worker_idle k /\ aligned k /\ dev_ready (nk_dev k).

(** [open] sets up the contexts and a context of the driver. *)
Lemma kadi_open_ready path nsid ax qd p :
  process_fresh path p -> 1 <= qd <= 2 ^ 31 ->
  exists a, kadi_open path (kadi_new qd nsid ax p) = Ret (0, a) /\ adi_ready a /\
    dev_contents (nk_dev (pr_kernel (ka_kernel a))) = dev_contents (nk_dev (pr_kernel p)) /\ ka_started a = false.
Proof.
  intros (Hopen & Hin & Hw & Hb & Hd) Hq.
  destruct (kadi_open_eq path nsid ax qd p Hopen) as (id & next & E & Hid & _ & Hfree).
  eexists. split; [exact E|]. split; [|split; reflexivity]. split; [split|split; [|split]].
  - cbn. lia.
  - intros i. cbn. intros Hi. pose proof Hi as Hr%elem_of_seqZ. split; [lia|]. by apply lookup_alloc.
  - cbn. rewrite seqZ_cons by lia. done.
  - done.
  - destruct Hopen as (_ & _ & _ & Hcap & _). split; [|split; [exact Hin|exact Hw]]. cbn. split; [apply lookup_insert_eq|].
    split; [done|]. split; [apply lookup_insert_eq|]. done.
Qed.

(** Asking the device for its size changes neither the contexts nor the store. *)
Lemma update_capacity_ready (a : KADI (nvme_process D)) :
  adi_ready a -> adi_ready (update_capacity a).2 /\
    dev_contents (nk_dev (pr_kernel (ka_kernel (update_capacity a).2))) = dev_contents (nk_dev (pr_kernel (ka_kernel a))) /\
    ka_started (update_capacity a).2 = ka_started a.
Proof.
  intros (Hf & Hne & Hp & ((Htb & Hr & Hefd & Hcap & Hb & Hd) & Hin & Hw)).
  destruct (law_dev_admin (nk_dev (pr_kernel (ka_kernel a))) nvme_cmd_admin_identify (ka_nsid a) 0
    (replicate (Z.to_nat identify_ret_data_size) Byte.x00) Hd (or_intror eq_refl)) as (st & res & data & d' & E & Hd' & Hs).
  unfold update_capacity, get_freespace. cbn [ioctl_admin_cmd process_calls pc_opcode pc_nsid pc_cdw10 pc_addr].
  unfold nvme_user_cmd. rewrite Hcap, E. cbn [negb]. unfold sys_return.
  assert (Hst : 0 <= u16 st) by (apply Z.mod_pos_bound; lia).
  rewrite (proj2 (Z.ltb_ge _ _)) by done. rewrite (proj2 (Z.ltb_ge _ _)) by done.
  cbn [negb Z.eqb snd]. split; [|split; [exact Hs|reflexivity]].
  split; [exact Hf|]. split; [exact Hne|]. split; [exact Hp|]. split; [|split; [exact Hin|exact Hw]].
  exact (conj Htb (conj Hr (conj Hefd (conj Hcap (conj Hb Hd'))))).
Qed.

Lemma kdd_init_opens ptr nsid ax path qd pol qid devs p :
  process_fresh path p -> 1 <= qd <= 2 ^ 31 -> ptr ∉ devs ->
  exists d, kdd_init ptr nsid ax path qd pol qid devs p =
      Ret (KVS_SUCCESS, Some d, qid + 1 + 1, {[ptr]} ∪ devs, ka_kernel (kd_adi d)) /\
    adi_ready (kd_adi d) /\ ka_started (kd_adi d) = (pol =? 0) /\ handles_ok d /\
    drv_abs d = dev_contents (nk_dev (pr_kernel p)).
Proof.
  intros Hp Hq Hptr. destruct (kadi_open_ready path nsid ax qd p Hp Hq) as (a & E & Ha & Hs & Hst).
  destruct (update_capacity_ready a Ha) as (Ha' & Hs' & Hst').
  unfold kdd_init, kadi_initialize_device, devlist_add. rewrite decide_False by done.
  destruct (Z.eqb_spec (Z.of_nat (size ({[ptr]} ∪ devs)) - 1) (-1)) as [E0|_].
  { assert (size ({[ptr]} ∪ devs) = 0)%nat as Hz by lia. apply size_empty_inv in Hz. clear -Hz. set_solver. }
  rewrite E. cbn [mbind dev_outcome_bind Z.eqb]. destruct (update_capacity a) as [r a'] eqn:Eu.
  cbn [snd] in Ha', Hs', Hst'.
  cbn [mbind dev_outcome_bind Z.eqb negb kadi_get_namespace_default kdh_dev kdd_create_queue kadi_create_queue andb].
  change (kdd_convert_return_code 0) with KVS_SUCCESS.
  set (a'' := if pol =? 0 then start_cbthread (if pol =? 0 then start_cbthread a' else a')
              else if pol =? 0 then start_cbthread a' else a').
  exists (MkKDDriver a'' (KadiDevHandle (Z.of_nat (size ({[ptr]} ∪ devs)) - 1) true)
    (Some (KadiNsHandle 0 true)) (Some (KadiQueueHandle 0 true)) (Some (KadiQueueHandle 0 true)) qd ∅ 1 []).
  split; [reflexivity|]. unfold drv_abs, a''.
  destruct (pol =? 0); (split; [exact Ha'|]); (split; [cbn; congruence|]);
    (split; [by eexists _, _|cbn; by rewrite Hs', Hs]).
Qed.

Lemma init_in_service ptr nsid ax path qd qid devs p :
  process_fresh path p -> 1 <= qd <= 2 ^ 31 -> ptr ∉ devs ->
  exists d, kdd_init ptr nsid ax path qd 0 qid devs p =
      Ret (KVS_SUCCESS, Some d, qid + 1 + 1, {[ptr]} ∪ devs, ka_kernel (kd_adi d)) /\
    drv_ok d /\ drv_abs d = dev_contents (nk_dev (pr_kernel p)).
Proof.
  intros Hp Hq Hptr. destruct (kdd_init_opens ptr nsid ax path qd 0 qid devs p Hp Hq Hptr) as (d & E & Ha & Hst & Hh & Hs).
  exists d. split; [exact E|]. split; [exact (conj Ha (conj Hst Hh))|exact Hs].
Qed.

(** C29. Opening the driver for a path of a device succeeds, whatever the memory of
    the new objects held, and gives a driver that is in service without touching
    the pairs on the device.  [ptr] is a new address. *)
Theorem kdd_init_ready ptr nsid ax path qd qid devs p :
  process_fresh path p -> 1 <= qd <= 2 ^ 31 -> ptr ∉ devs ->
  exists d, kdd_init ptr nsid ax path qd 0 qid devs p =
      Ret (KVS_SUCCESS, Some d, qid + 1 + 1, {[ptr]} ∪ devs, ka_kernel (kd_adi d)) /\
    drv_ok d /\ drv_abs d = dev_contents (nk_dev (pr_kernel p)).
Proof. exact (init_in_service ptr nsid ax path qd qid devs p). Qed.

Lemma wait_without_thread fuel id kc d :
  ka_started (kd_adi d) = false -> kd_ctx d !! id = Some kc -> kx_done kc = false ->
  kdd_wait_for_io fuel id d = Blocked.
Proof.
  intros Hst Hid Hdone. destruct fuel; cbn [kdd_wait_for_io]; rewrite Hid, Hdone; [done|].
  unfold kdd_thread_turn. by rewrite Hst.
Qed.

Lemma store_without_thread d ks key value st :
  adi_ready (kd_adi d) -> ka_started (kd_adi d) = false -> handles_ok d ->
  ks_ok ks -> drv_key_ok key -> drv_value_ok value -> st = KVS_STORE_POST \/ st = KVS_STORE_NOOVERWRITE ->
  kdd_store_tuple ks key value st Sync d = Blocked.
Proof.
  intros Ha Hst Hh Hks Hk Hv Hst'.
  set (o := if st =? KVS_STORE_NOOVERWRITE then STORE_OPTION_IDEMPOTENT else STORE_OPTION_NOTHING).
  assert (Ho : exists opt, trans_store_cmd_opt st = Some opt /\ kadi_store_option opt = Some o).
  { unfold o. destruct Hst' as [-> | ->]; eexists; done. }
  destruct Ho as (opt & Eopt & Eo).
  destruct (store_submits d ks key value opt o (Some KDD_ON_IO_COMPLETE) (kd_next d) (kd_adi d) Hh Ha Hks Hk Hv Eo)
    as (i & c & n & e & s & a2 & E & _ & _ & _ & _ & _ & _ & Hst2).
  { unfold o. destruct (st =? _); auto. }
  unfold kdd_store_tuple. cbn [kdd_prep_io_context is_sync]. rewrite Eopt. unfold kdd_run, kdd_post_fn.
  cbn [retry_full kd_sqH kd_nsH kd_set_ctx kd_adi]. rewrite E. cbn [mbind dev_outcome_bind].
  change (0 =? rc KV_ERR_QUEUE_IS_FULL) with false. cbn [mbind dev_outcome_bind is_sync andb Z.eqb].
  erewrite wait_without_thread; [reflexivity|cbn [kd_adi kd_set_adi]; by rewrite Hst2|apply lookup_insert_eq|reflexivity].
Qed.

(** Opened for polling the driver starts no thread for the completions, while
    opening it succeeds all the same; a synchronous store on it submits its command
    and then waits for ever. *)
Theorem kdd_polling_blocks ptr nsid ax path qd pol qid devs p :
  process_fresh path p -> 1 <= qd <= 2 ^ 31 -> ptr ∉ devs -> pol <> 0 ->
  exists d, kdd_init ptr nsid ax path qd pol qid devs p =
      Ret (KVS_SUCCESS, Some d, qid + 1 + 1, {[ptr]} ∪ devs, ka_kernel (kd_adi d)) /\
    forall ks key value st, ks_ok ks -> drv_key_ok key -> drv_value_ok value ->
      st = KVS_STORE_POST \/ st = KVS_STORE_NOOVERWRITE ->
      kdd_store_tuple ks key value st Sync d = Blocked.
Proof.
  intros Hp Hq Hptr Hpol.
  destruct (kdd_init_opens ptr nsid ax path qd pol qid devs p Hp Hq Hptr) as (d & E & Ha & Hst & Hh & _).
  exists d. split; [exact E|]. intros ks key value st. apply store_without_thread; [exact Ha| |exact Hh].
  rewrite Hst. by apply Z.eqb_neq.
Qed.

(** ** The calls of the API *)


(** ** The synchronous read of the adapter *)

(** A synchronous command, of a process whose buffers are aligned. *)
Lemma user_kv_cmd_sync (k : nvme_kernel D) c :
  nk_capable k = true -> aligned k -> kc_flags c = 0 -> is_kv_cmd (kc_opcode c) = true -> exec_ok c k ->
  exists e (d : D), nvme_user_kv_cmd c false k =
      Ret (ev_status e, ev_result e, ev_status e, ev_data e, nk_set_dev d k) /\
    0 <= ev_status e /\ dev_ready d /\ pt_answer c (dev_contents (nk_dev k)) e (dev_contents d).
Proof.
  intros Hcap Hb Hf Hop (nc & metadata & meta_len & st & res & buf & d & Eb & Ee & Hd & Ha).
  eexists _, d. split; [|split; [|split; [exact Hd|exact Ha]]].
  - unfold nvme_user_kv_cmd. rewrite Hcap, Hf, Hop, Eb. cbn [negb Z.eqb mbind dev_outcome_bind].
    unfold submit_kv_sync. fold (meta_buffer metadata meta_len). rewrite Ee, Hb. reflexivity.
  - cbn. apply Z.mod_pos_bound. lia.
Qed.

(** The answer of [kv_retrieve_sync] for a key that fits into the command. *)
Definition zero_key_answer (n : Z) (buf : list byte) (v : kv_value) (m : bytes_map) : Z * option kv_value :=
  match m !! replicate (Z.to_nat n) Byte.x00 with
  | None => (rc KV_ERR_SYS_IO, Some v)
  | Some d => (0, Some (KvValue (Some (memcpy_at 0 (slice 0 (v_length v) d) buf))
                          (Z.min (lenZ d) (v_length v)) (lenZ d) 0))
  end.

(** The synchronous read of the adapter never passes a key of up to sixteen
    bytes to the device: whatever the bytes of the key are, the answer is that for
    the key of the same length that consists of zeros. *)
Theorem retrieve_sync_reads_zero_key ks key kb v buf (a : KADI (nvme_process D)) :
  let k := pr_kernel (ka_kernel a) in
  nk_capable k = true -> aligned k -> dev_ready (nk_dev k) -> ks_ok ks ->
  k_key key = Some kb -> KVCMD_MIN_KEY_SIZE <= k_length key <= KVCMD_INLINE_KEY_MAX ->
  v_value v = Some buf -> 0 <= v_length v <= lenZ buf -> v_length v < 2 ^ 32 -> v_length v mod 4 = 0 ->
  v_offset v = 0 ->
  let '(r, v') := zero_key_answer (k_length key) buf v (as_ks ks (dev_contents (nk_dev k))) in
  exists a', kadi_retrieve_sync ks (Some key) (Some v) a = Ret (r, v', a').
Proof.
  intros k Hcap Hb Hd Hks Ek Hlen Ev Hl H32 Hm Ho.
  unfold kadi_retrieve_sync. rewrite bool_decide_eq_false_2 by (rewrite Ek, Ev; by intros [?|?]).
  rewrite (proj2 (Z.leb_le _ KVCMD_INLINE_KEY_MAX)) by lia.
  set (c := PassthruKv _ _ _ _ _ _ _ _ _ _ _ _ _ _).
  assert (Hok : pt_ok c).
  { split; [done|]. split; [done|]. cbn. rewrite Ev, Ho.
    split; [split; cbn; [lia|split; [lia|done]]|].
    split; [done|]. right. left. by repeat split; try lia. }
  destruct (user_kv_cmd_sync k c Hcap Hb eq_refl eq_refl (exec_retrieve c k Hok Hb Hd eq_refl)) as (e & d & E & Hst & Hd' & Ha).
  assert (Hkey : pt_key c = replicate (Z.to_nat (k_length key)) Byte.x00).
  { unfold pt_key, c. cbn [kc_key_length kc_arg]. unfold zero_key. rewrite take_replicate. f_equal. lia. }
  unfold pt_answer in Ha. cbn [c kc_opcode kc_cdw3 is_kv_store_cmd is_kv_retrieve_cmd] in Ha.
  destruct Ha as (_ & _ & Ha). change (is_kv_store_cmd nvme_cmd_kv_retrieve) with false in Ha.
  cbn [ioctl_io_kv_cmd process_calls]. fold k. rewrite E. cbn [mbind dev_outcome_bind]. unfold sys_return.
  rewrite (proj2 (Z.ltb_ge _ _)) by done. cbn iota in Ha. change (is_kv_retrieve_cmd _) with true in Ha. cbn iota in Ha.
  rewrite Hkey in Ha. unfold device_retrieve in Ha. unfold zero_key_answer. cbn [c kc_data_length kc_data_addr kc_cdw5] in Ha.
  rewrite Ho, Ev in *. destruct (as_ks ks (dev_contents (nk_dev k)) !! _) as [w|].
  - rewrite bool_decide_eq_false_2 in Ha by (intros [? _]; done). destruct Ha as (Es & Er & Edata & _).
    rewrite Es, Er, Edata by done. cbn. eexists. reflexivity.
  - destruct Ha as (Es & _ & Edata & _). rewrite Es, Edata. cbn. eexists.
    destruct v as [v1 v2 v3 v4]. cbn in *. by subst.
Qed.
End stack.

(** ** A session on a simulated device *)

Lemma sim_process_fresh : process_fresh sim_path sim_process.
Proof. split; [exact sim_may_open|]. do 3 (split; [done|]). exact sim_empty_ready. Qed.

Lemma kdd_init_ready_witness : exists d,
  kdd_init 4096 0 (NvmeAioctx 0 0) sim_path 256 0 (-1) ∅ sim_process =
    Ret (KVS_SUCCESS, Some d, 1, {[4096]} ∪ ∅, ka_kernel (kd_adi d)) /\
  drv_ok d /\ drv_abs d = [∅; ∅].
Proof.
  apply (kdd_init_ready 4096 0 (NvmeAioctx 0 0) sim_path 256 (-1) ∅ sim_process sim_process_fresh).
  - lia.
  - apply not_elem_of_empty.
Defined.

Lemma kdd_polling_blocks_witness : exists d,
  kdd_init 4096 0 (NvmeAioctx 0 0) sim_path 256 1 (-1) ∅ sim_process =
    Ret (KVS_SUCCESS, Some d, 1, {[4096]} ∪ ∅, ka_kernel (kd_adi d)) /\
  kdd_store_tuple 1 (mk_key (lit "title"%string)) (mk_value (lit "blue"%string)) KVS_STORE_POST Sync d = Blocked.
Proof.
  destruct (kdd_polling_blocks 4096 0 (NvmeAioctx 0 0) sim_path 256 1 (-1) ∅ sim_process sim_process_fresh)
    as (d & E & H); [lia|apply not_elem_of_empty|done|].
  exists d. split; [exact E|]. apply H; [vm_compute; split; congruence| | |by left].
  - split; [by eexists; split; [reflexivity|vm_compute; split; congruence]|vm_compute; split; congruence].
  - split; [vm_compute; split; congruence|]. split; [vm_compute; split; congruence|]. by vm_compute.
Defined.


(** A device with one pair, and its adapter: the pair is not found. *)
Definition sim_one_pair : nvme_process sim_device :=
  NvmeProcess (nk_set_dev (SimDevice [∅; {[lit "title"%string := lit "blue"%string]}] []) sim_kernel) [sim_path] 6 0.

Lemma sim_one_pair_ready : dev_ready (nk_dev (pr_kernel sim_one_pair)).
Proof.
  split; [done|]. intros ks k v. unfold as_ks.
  set (m := {[lit "title"%string := lit "blue"%string]} : bytes_map).
  change (sd_store _) with [∅; m]. destruct (Z.to_nat ks) as [|[|n]]; simpl; [by rewrite lookup_empty| |by rewrite lookup_empty].
  unfold m. rewrite lookup_singleton_Some. by intros [_ <-].
Qed.

Lemma retrieve_sync_reads_zero_key_witness :
  let a := opened 2 1 2 sim_one_pair in
  let v := KvValue (Some (replicate 8 Byte.x00)) 8 0 0 in
  as_ks 1 (dev_contents (nk_dev (pr_kernel (ka_kernel a)))) !! lit "title"%string = Some (lit "blue"%string) /\
  exists a', kadi_retrieve_sync 1 (Some (mk_key (lit "title"%string))) (Some v) a = Ret (rc KV_ERR_SYS_IO, Some v, a').
Proof.
  split; [vm_compute; reflexivity|].
  set (v := KvValue (Some (replicate 8 Byte.x00)) 8 0 0).
  assert (Hz : zero_key_answer 5 (replicate 8 Byte.x00) v
    (as_ks 1 (dev_contents (nk_dev (pr_kernel (ka_kernel (opened 2 1 2 sim_one_pair)))))) = (rc KV_ERR_SYS_IO, Some v))
    by (vm_compute; reflexivity).
  pose proof (retrieve_sync_reads_zero_key 1 (mk_key (lit "title"%string)) (lit "title"%string) v
    (replicate 8 Byte.x00) (opened 2 1 2 sim_one_pair) eq_refl (fun _ => eq_refl) sim_one_pair_ready) as H.
  change (k_length _) with 5 in H. rewrite Hz in H.
  apply H; try reflexivity; vm_compute; split; congruence.
Defined.
