(* ===== verification/AvlTree.v ===== *)
(** * The search tree of the benchmark suite

    [utils/avltree.cc]: nodes embedded in the objects of the caller, with parent
    pointers whose two low bits hold the balance factor plus one, as the file is
    built ([_AVL_SEPARATE_PARENT_BF] and [_AVL_NEXT_POINTER] are not defined).
    The memory is a finite map from addresses to nodes; following a pointer to an
    address that holds no node is [Undef].  Loops carry the number of nodes as
    fuel: they visit no node twice in a tree ([AvlSpec]). *)

From stdpp Require Import base numbers list gmap.
From S2P Require Import Prelude.

Record avl_node := AvlNode { nd_parent : Z; nd_left : Z; nd_right : Z }.
Record avl_tree := AvlTree { tr_root : Z; tr_aux : Z }.

(** The nodes in memory, by address; [NULL] is 0. *)
Abbreviation avl_heap := (gmap Z avl_node).

Definition avl_load (a : Z) (h : avl_heap) : dev_outcome avl_node :=
  match h !! a with Some n => Ret n | None => Undef end.

Definition avl_set_left (a v : Z) (h : avl_heap) : dev_outcome avl_heap :=
  n ← avl_load a h; Ret (<[a := AvlNode (nd_parent n) v (nd_right n)]> h).
Definition avl_set_right (a v : Z) (h : avl_heap) : dev_outcome avl_heap :=
  n ← avl_load a h; Ret (<[a := AvlNode (nd_parent n) (nd_left n) v]> h).

Definition avl_parent (n : avl_node) : Z := Z.land (nd_parent n) (u64 (Z.lnot 3)).
Definition avl_bf (n : avl_node) : Z := Z.land (nd_parent n) 3 - 1.

(** [_abs]; [n >> 31] is the sign of an [int]. *)
Definition _abs (n : Z) : Z := let mask := Z.shiftr n 31 in Z.lxor (mask + n) mask.

Definition avl_set_parent (node parent : Z) (h : avl_heap) : dev_outcome avl_heap :=
  n ← avl_load node h;
  Ret (<[node := AvlNode (Z.lor parent (Z.land (nd_parent n) 3)) (nd_left n) (nd_right n)]> h).

Definition avl_set_bf (node bf : Z) (h : avl_heap) : dev_outcome avl_heap :=
  n ← avl_load node h;
  Ret (<[node := AvlNode (Z.lor (avl_parent n) (u64 (bf + 1))) (nd_left n) (nd_right n)]> h).

(** [if (node) avl_set_parent(node, parent)] *)
Definition set_parent_if (node parent : Z) (h : avl_heap) : dev_outcome avl_heap :=
  if node =? 0 then Ret h else avl_set_parent node parent h.

(** ** Rotations

    The result is the new root of the subtree, what is left in [*child_bf] and
    what is written to [*height_delta], which callers that pass [NULL] ignore. *)

Definition _rotate_LL (parent parent_bf child_bf : Z) (h : avl_heap)
    : dev_outcome (Z * Z * Z * avl_heap) :=
  np ← avl_load parent h;
  let child := nd_left np in
  nc ← avl_load child h;
  let c_left := if nd_left nc =? 0 then 0 else 1 in
  let c_right := if nd_right nc =? 0 then 0 else 1 in
  let '(c_left, c_right, p_right, height_delta) :=
    if child_bf <? 0 then
      let c_left := c_right - child_bf in
      let p_right := c_left + 1 + parent_bf in
      (c_left, c_right, p_right, Z.max c_left (Z.max c_right p_right + 1) - (c_left + 1))
    else
      let c_right := c_left + child_bf in
      let p_right := c_right + 1 + parent_bf in
      (c_left, c_right, p_right, Z.max c_left (Z.max c_right p_right + 1) - (c_right + 1)) in
  let child_bf := (Z.max c_right p_right + 1) - c_left in
  h ← avl_set_bf parent (p_right - c_right) h;
  nc ← avl_load child h;
  h ← avl_set_left parent (nd_right nc) h;
  h ← set_parent_if (nd_right nc) parent h;
  h ← avl_set_right child parent h;
  np ← avl_load parent h;
  h ← avl_set_parent child (avl_parent np) h;
  h ← avl_set_parent parent child h;
  Ret (child, child_bf, height_delta, h).

Definition _rotate_RR (parent parent_bf child_bf : Z) (h : avl_heap)
    : dev_outcome (Z * Z * Z * avl_heap) :=
  np ← avl_load parent h;
  let child := nd_right np in
  nc ← avl_load child h;
  let c_left := if nd_left nc =? 0 then 0 else 1 in
  let c_right := if nd_right nc =? 0 then 0 else 1 in
  let '(c_left, c_right, p_left, height_delta) :=
    if child_bf <? 0 then
      let c_left := c_right - child_bf in
      let p_left := c_left + 1 - parent_bf in
      (c_left, c_right, p_left, Z.max c_right (Z.max c_left p_left + 1) - (c_left + 1))
    else
      let c_right := c_left + child_bf in
      let p_left := c_right + 1 - parent_bf in
      (c_left, c_right, p_left, Z.max c_right (Z.max c_left p_left + 1) - (c_right + 1)) in
  let child_bf := c_right - (Z.max c_left p_left + 1) in
  h ← avl_set_bf parent (c_left - p_left) h;
  nc ← avl_load child h;
  h ← avl_set_right parent (nd_left nc) h;
  h ← set_parent_if (nd_left nc) parent h;
  h ← avl_set_left child parent h;
  np ← avl_load parent h;
  h ← avl_set_parent child (avl_parent np) h;
  h ← avl_set_parent parent child h;
  Ret (child, child_bf, height_delta, h).

Definition _rotate_LR (parent parent_bf : Z) (h : avl_heap) : dev_outcome (Z * avl_heap) :=
  np ← avl_load parent h;
  let child := nd_left np in
  nc ← avl_load child h;
  '(child_bf, height_delta, h) ←
    (if nd_right nc =? 0 then Ret (avl_bf nc, 0, h)
     else
       ng ← avl_load (nd_right nc) h;
       '(top, child_bf, height_delta, h) ← _rotate_RR child (avl_bf nc) (avl_bf ng) h;
       h ← avl_set_left parent top h;
       Ret (child_bf, height_delta, h));
  '(ret, child_bf, _, h) ← _rotate_LL parent (parent_bf - height_delta) child_bf h;
  h ← avl_set_bf ret child_bf h;
  Ret (ret, h).

Definition _rotate_RL (parent parent_bf : Z) (h : avl_heap) : dev_outcome (Z * avl_heap) :=
  np ← avl_load parent h;
  let child := nd_right np in
  nc ← avl_load child h;
  '(child_bf, height_delta, h) ←
    (if nd_left nc =? 0 then Ret (avl_bf nc, 0, h)
     else
       ng ← avl_load (nd_left nc) h;
       '(top, child_bf, height_delta, h) ← _rotate_LL child (avl_bf nc) (avl_bf ng) h;
       h ← avl_set_right parent top h;
       Ret (child_bf, height_delta, h));
  '(ret, child_bf, _, h) ← _rotate_RR parent (parent_bf + height_delta) child_bf h;
  h ← avl_set_bf ret child_bf h;
  Ret (ret, h).

(** The balance factor of a child that exists. *)
Definition avl_bf_at (a : Z) (h : avl_heap) : dev_outcome Z :=
  n ← avl_load a h; Ret (avl_bf n).

Definition _balance_tree (node bf : Z) (h : avl_heap) : dev_outcome (Z * avl_heap) :=
  if node =? 0 then Ret (node, h)
  else
    n ← avl_load node h;
    let height_diff := avl_bf n + bf in
    if (height_diff <? -1) && negb (nd_left n =? 0) then
      lbf ← avl_bf_at (nd_left n) h;
      if lbf <=? 0 then
        '(node, child_bf, _, h) ← _rotate_LL node height_diff lbf h;
        h ← avl_set_bf node child_bf h; Ret (node, h)
      else _rotate_LR node height_diff h
    else if (1 <? height_diff) && negb (nd_right n =? 0) then
      rbf ← avl_bf_at (nd_right n) h;
      if 0 <=? rbf then
        '(node, child_bf, _, h) ← _rotate_RR node height_diff rbf h;
        h ← avl_set_bf node child_bf h; Ret (node, h)
      else _rotate_RL node height_diff h
    else h ← avl_set_bf node (avl_bf n + bf) h; Ret (node, h).

(** ** Walks *)

(** [while (node) { p = node; node = node->left; }] and its mirror image. *)
Fixpoint walk_left (fuel : nat) (p node : Z) (h : avl_heap) : dev_outcome Z :=
  if node =? 0 then Ret p
  else match fuel with
       | O => Blocked
       | S f => n ← avl_load node h; walk_left f node (nd_left n) h
       end.
Fixpoint walk_right (fuel : nat) (p node : Z) (h : avl_heap) : dev_outcome Z :=
  if node =? 0 then Ret p
  else match fuel with
       | O => Blocked
       | S f => n ← avl_load node h; walk_right f node (nd_right n) h
       end.

Definition avl_first (t : avl_tree) (h : avl_heap) : dev_outcome Z := walk_left (size h) 0 (tr_root t) h.
Definition avl_last (t : avl_tree) (h : avl_heap) : dev_outcome Z := walk_right (size h) 0 (tr_root t) h.

(** The loop over the ancestors: the first one that [p] is the left ([next]) or
    the right ([prev]) child of. *)
Fixpoint climb (child : avl_node -> Z) (fuel : nat) (p node : Z) (h : avl_heap) : dev_outcome Z :=
  if node =? 0 then Ret 0
  else match fuel with
       | O => Blocked
       | S f => n ← avl_load node h;
                if child n =? p then Ret node else climb child f node (avl_parent n) h
       end.

Definition avl_next (node : Z) (h : avl_heap) : dev_outcome Z :=
  if node =? 0 then Ret 0
  else
    n ← avl_load node h;
    if negb (nd_right n =? 0) then walk_left (size h) node (nd_right n) h
    else if negb (avl_parent n =? 0) then climb nd_left (size h) node (avl_parent n) h
    else Ret 0.

Definition avl_prev (node : Z) (h : avl_heap) : dev_outcome Z :=
  if node =? 0 then Ret 0
  else
    n ← avl_load node h;
    if negb (nd_left n =? 0) then walk_right (size h) node (nd_left n) h
    else if negb (avl_parent n =? 0) then climb nd_right (size h) node (avl_parent n) h
    else Ret 0.

Section func.
(** [avl_cmp_func] *)
Variable func : Z -> Z -> Z -> Z.

(** The loop of the searches and of the insertion, from [cur] down: the last
    node looked at and the node that compares equal, or 0. *)
Fixpoint descend (fuel : nat) (aux node p cur : Z) (h : avl_heap) : dev_outcome (Z * Z) :=
  if cur =? 0 then Ret (p, 0)
  else match fuel with
       | O => Blocked
       | S f =>
           n ← avl_load cur h;
           let cmp := func cur node aux in
           if 0 <? cmp then descend f aux node cur (nd_left n) h
           else if cmp <? 0 then descend f aux node cur (nd_right n) h
           else Ret (cur, cur)
       end.

Definition avl_search (t : avl_tree) (node : Z) (h : avl_heap) : dev_outcome Z :=
  '(_, p) ← descend (size h) (tr_aux t) node 0 (tr_root t) h; Ret p.

Definition avl_search_greater (t : avl_tree) (node : Z) (h : avl_heap) : dev_outcome Z :=
  '(pp, p) ← descend (size h) (tr_aux t) node 0 (tr_root t) h;
  if negb (p =? 0) then Ret p
  else if pp =? 0 then Ret pp
  else if 0 <? func pp node (tr_aux t) then Ret pp else avl_next pp h.

Definition avl_search_smaller (t : avl_tree) (node : Z) (h : avl_heap) : dev_outcome Z :=
  '(pp, p) ← descend (size h) (tr_aux t) node 0 (tr_root t) h;
  if negb (p =? 0) then Ret p
  else if pp =? 0 then Ret pp
  else if func pp node (tr_aux t) <? 0 then Ret pp else avl_prev pp h.
End func.

(** ** Rebalancing

    The loops from a node to the root after an insertion and after a removal
    differ in the sign of the change passed on to the parent ([side] if the
    subtree is the left one) and in the comparison that decides whether there is
    one ([cascade]). *)
Fixpoint balance_up (side : Z) (cascade : Z -> Z -> bool) (fuel : nat) (node bf : Z) (t : avl_tree)
    (h : avl_heap) : dev_outcome (Z * avl_tree * avl_heap) :=
  if node =? 0 then Ret (node, t, h)
  else match fuel with
       | O => Blocked
       | S f =>
           n ← avl_load node h;
           let p := avl_parent n in
           if negb (p =? 0) then
             let bf_old := avl_bf n in
             np ← avl_load p h;
             '(node, h) ←
               (if nd_right np =? node then
                  '(node, h) ← _balance_tree node bf h; h ← avl_set_right p node h; Ret (node, h)
                else
                  '(node, h) ← _balance_tree node bf h; h ← avl_set_left p node h; Ret (node, h));
             n ← avl_load node h;
             np ← avl_load p h;
             let pass := if nd_left np =? node then side else - side in
             let bf :=
               if (nd_left n =? 0) && (nd_right n =? 0) then pass
               else if cascade (_abs bf_old) (_abs (avl_bf n)) then pass else 0 in
             if bf =? 0 then Ret (node, t, h) else balance_up side cascade f p bf t h
           else if node =? tr_root t then
             '(r, h) ← _balance_tree (tr_root t) bf h;
             Ret (node, AvlTree r (tr_aux t), h)
           else if bf =? 0 then Ret (node, t, h) else balance_up side cascade f p bf t h
       end.

Definition insert_balance := balance_up (-1) Z.ltb.
Definition remove_balance := balance_up 1 (fun old new => new <? old).

Definition avl_init (aux : Z) : avl_tree := AvlTree 0 aux.

(** The result is the node that the loop ends with, or the node found. *)
Definition avl_insert (func : Z -> Z -> Z -> Z) (t : avl_tree) (node : Z) (h : avl_heap)
    : dev_outcome (Z * avl_tree * avl_heap) :=
  '(p, cur) ← descend func (size h) (tr_aux t) node 0 (tr_root t) h;
  if negb (cur =? 0) then Ret (cur, t, h)
  else
    h ← avl_set_parent node p h;
    h ← avl_set_bf node 0 h;
    h ← avl_set_right node 0 h;
    h ← avl_set_left node 0 h;
    '(t, h) ←
      (if negb (p =? 0) then
         h ← (if 0 <? func p node (tr_aux t) then avl_set_left p node h else avl_set_right p node h);
         Ret (t, h)
       else Ret (AvlTree node (tr_aux t), h));
    insert_balance (size h) node 0 t h.

(** Putting [next] into the place of [node] in its parent. *)
Definition replace_child (p node next : Z) (h : avl_heap) : dev_outcome avl_heap :=
  np ← avl_load p h;
  if nd_left np =? node then avl_set_left p next h else avl_set_right p next h.

(** The first case of [avl_remove]: [next], the smallest node of the right
    subtree, takes the place of [node].  The node to rebalance from and the change
    of its balance. *)
Definition remove_with_next (node next : Z) (h : avl_heap) : dev_outcome (Z * Z * avl_heap) :=
  nx ← avl_load next h;
  h ← (if negb (avl_parent nx =? 0) && negb (avl_parent nx =? node) then
         h ← avl_set_left (avl_parent nx) (nd_right nx) h;
         set_parent_if (nd_right nx) (avl_parent nx) h
       else Ret h);
  n ← avl_load node h;
  h ← (if negb (avl_parent n =? 0) then replace_child (avl_parent n) node next h else Ret h);
  n ← avl_load node h;
  '(cur, bf, h) ←
    (if negb (nd_right n =? next) then
       h ← avl_set_right next (nd_right n) h;
       h ← set_parent_if (nd_right n) next h;
       nx ← avl_load next h;
       Ret (avl_parent nx, 1, h)
     else Ret (next, -1, h));
  n ← avl_load node h;
  h ← avl_set_left next (nd_left n) h;
  h ← set_parent_if (nd_left n) next h;
  n ← avl_load node h;
  h ← avl_set_parent next (avl_parent n) h;
  h ← avl_set_bf next (avl_bf n) h;
  Ret (cur, bf, h).

(** The second case: there is no right subtree. *)
Definition remove_without_next (node : Z) (h : avl_heap) : dev_outcome (Z * Z * avl_heap) :=
  n ← avl_load node h;
  let p := avl_parent n in
  '(bf, h) ←
    (if negb (p =? 0) then
       np ← avl_load p h;
       if nd_left np =? node
       then h ← avl_set_left p (nd_left n) h; Ret (1, h)
       else h ← avl_set_right p (nd_left n) h; Ret (-1, h)
     else Ret (0, h));
  n ← avl_load node h;
  h ← set_parent_if (nd_left n) p h;
  n ← avl_load node h;
  Ret (avl_parent n, bf, h).

Definition avl_remove (t : avl_tree) (node : Z) (h : avl_heap) : dev_outcome (avl_tree * avl_heap) :=
  if node =? 0 then Ret (t, h)
  else
    n ← avl_load node h;
    next ← avl_first (AvlTree (nd_right n) 0) h;
    '(cur, bf, h) ← (if negb (next =? 0) then remove_with_next node next h else remove_without_next node h);
    n ← avl_load node h;
    let t :=
      if tr_root t =? node
      then AvlTree (if next =? 0 then (if nd_left n =? 0 then next else nd_left n) else next) (tr_aux t)
      else t in
    '(_, t, h) ← remove_balance (size h) cur bf t h;
    Ret (t, h).
