(* ===== verification/AvlSpec.v ===== *)
(** * Theory of the search tree

    A tree in memory ([rep]) stands for an abstract tree that also has the stored
    balance factors.  Rotations are proved on memory once, for any heights; what
    rebalancing makes of a tree is then a function on abstract trees ([bal]), and
    the loops to the root work on a subtree and its context. *)

From stdpp Require Import base numbers list gmap sorting.
From S2P Require Import Prelude.
From S2P Require Import AvlTree.

(** ** Parent words *)

(** Addresses of nodes: not [NULL], the two low bits clear. *)
Definition addr_ok (a : Z) : Prop := 0 < a < 2 ^ 64 /\ a mod 4 = 0.
(** A parent pointer: an address or [NULL]. *)
Definition par_ok (a : Z) : Prop := 0 <= a < 2 ^ 64 /\ a mod 4 = 0.

Definition pack (par b : Z) : Z := par + (b + 1).

Lemma addr_par a : addr_ok a -> par_ok a.
Proof. intros [? ?]. split; lia. Qed.

Lemma par_0 : par_ok 0.
Proof. split; [lia|done]. Qed.

Lemma small_bits x i : 0 <= x < 4 -> 2 <= i -> Z.testbit x i = false.
Proof.
  intros Hx Hi. rewrite <- (Z.mod_small x (2 ^ 2)) by lia. by apply Z.mod_pow2_bits_high.
Qed.

Lemma par_shiftl par : par_ok par -> exists q, par = Z.shiftl q 2 /\ 0 <= q < 2 ^ 62.
Proof.
  intros [Hr Hm]. apply Z.mod_divide in Hm as [q ->]; [|lia]. exists q.
  rewrite Z.shiftl_mul_pow2 by lia. lia.
Qed.

Lemma lor_low par x : par_ok par -> 0 <= x < 4 -> Z.lor par x = par + x.
Proof.
  intros (q & -> & _)%par_shiftl Hx.
  assert (Z.land (Z.shiftl q 2) x = 0).
  { apply Z.bits_inj'. intros i Hi. rewrite Z.land_spec, Z.bits_0, Z.shiftl_spec by lia.
    destruct (Z.ltb_spec i 2); [by rewrite Z.testbit_neg_r by lia|].
    by rewrite (small_bits x i), andb_false_r by lia. }
  by rewrite <- Z.lxor_lor, <- Z.add_nocarry_lxor.
Qed.

Lemma land_low par x : par_ok par -> 0 <= x < 4 -> Z.land (par + x) 3 = x.
Proof.
  intros (q & -> & _)%par_shiftl Hx. rewrite Z.shiftl_mul_pow2 by lia. change 3 with (Z.ones 2).
  rewrite Z.land_ones by lia. change (2 ^ 2) with 4. rewrite Z.add_comm, Z_mod_plus_full.
  apply Z.mod_small. lia.
Qed.

Lemma land_high par x : par_ok par -> 0 <= x < 4 -> Z.land (par + x) (u64 (Z.lnot 3)) = par.
Proof.
  intros Hp Hx. rewrite <- lor_low by done. destruct (par_shiftl par Hp) as (q & -> & Hq).
  change (u64 (Z.lnot 3)) with (Z.shiftl (Z.ones 62) 2). apply Z.bits_inj'. intros i Hi.
  rewrite Z.land_spec, Z.lor_spec, !Z.shiftl_spec by lia.
  destruct (Z.ltb_spec i 2); [by rewrite !(Z.testbit_neg_r _ (i - 2)), andb_false_r by lia|].
  rewrite (small_bits x i), orb_false_r by lia. destruct (Z.ltb_spec (i - 2) 62).
  - by rewrite Z.ones_spec_low, andb_true_r by lia.
  - rewrite Z.ones_spec_high, andb_false_r by lia. symmetry.
    rewrite <- (Z.mod_small q (2 ^ 62)) by lia. by apply Z.mod_pow2_bits_high.
Qed.

Lemma bf_pack par b l r : par_ok par -> -1 <= b <= 2 -> avl_bf (AvlNode (pack par b) l r) = b.
Proof. intros Hp Hb. unfold avl_bf, pack. cbn [nd_parent]. rewrite land_low by (done || lia). lia. Qed.

Lemma parent_pack par b l r : par_ok par -> -1 <= b <= 2 -> avl_parent (AvlNode (pack par b) l r) = par.
Proof. intros Hp Hb. unfold avl_parent, pack. cbn [nd_parent]. by rewrite land_high by (done || lia). Qed.

Lemma abs_bf b : -1 <= b <= 2 -> _abs b = Z.abs b.
Proof.
  intros Hb. assert (b = -1 \/ b = 0 \/ b = 1 \/ b = 2) as [-> | [-> | [-> | ->]]] by lia; reflexivity.
Qed.

(** What the setters do to the node at an address. *)
Lemma set_bf_eq h a par b l r b' :
  h !! a = Some (AvlNode (pack par b) l r) -> par_ok par -> -1 <= b <= 2 -> -1 <= b' <= 2 ->
  avl_set_bf a b' h = Ret (<[a := AvlNode (pack par b') l r]> h).
Proof.
  intros Ha Hp Hb Hb'. unfold avl_set_bf, avl_load. rewrite Ha. cbn [mbind dev_outcome_bind].
  rewrite parent_pack by done. cbn [nd_left nd_right]. unfold u64. rewrite Z.mod_small by lia.
  by rewrite lor_low by (done || lia).
Qed.

Lemma set_parent_eq h a par b l r par' :
  h !! a = Some (AvlNode (pack par b) l r) -> par_ok par -> -1 <= b <= 2 -> par_ok par' ->
  avl_set_parent a par' h = Ret (<[a := AvlNode (pack par' b) l r]> h).
Proof.
  intros Ha Hp Hb Hp'. unfold avl_set_parent, avl_load. rewrite Ha. cbn [mbind dev_outcome_bind nd_parent nd_left nd_right].
  unfold pack. rewrite land_low by (done || lia). by rewrite lor_low by (done || lia).
Qed.

Lemma set_left_eq h a w l r l' :
  h !! a = Some (AvlNode w l r) -> avl_set_left a l' h = Ret (<[a := AvlNode w l' r]> h).
Proof. intros Ha. unfold avl_set_left, avl_load. by rewrite Ha. Qed.

Lemma set_right_eq h a w l r r' :
  h !! a = Some (AvlNode w l r) -> avl_set_right a r' h = Ret (<[a := AvlNode w l r']> h).
Proof. intros Ha. unfold avl_set_right, avl_load. by rewrite Ha. Qed.

Lemma load_eq h a n : h !! a = Some n -> avl_load a h = Ret n.
Proof. intros Ha. unfold avl_load. by rewrite Ha. Qed.

(** ** Trees *)

Inductive tree := E | T (l : tree) (a b : Z) (r : tree).
Implicit Types (t l r : tree) (h : avl_heap).

Definition root_of t : Z := match t with E => 0 | T _ a _ _ => a end.
Definition bf_of t : Z := match t with E => 0 | T _ _ b _ => b end.
Fixpoint inorder t : list Z := match t with E => [] | T l a _ r => inorder l ++ a :: inorder r end.
Fixpoint height t : Z := match t with E => 0 | T l _ _ r => 1 + Z.max (height l) (height r) end.

(** The tree [t] is in memory, below the node [par]. *)
Fixpoint rep h (par : Z) t : Prop :=
  match t with
  | E => True
  | T l a b r =>
      h !! a = Some (AvlNode (pack par b) (root_of l) (root_of r)) /\ addr_ok a /\ -1 <= b <= 2 /\
      rep h a l /\ rep h a r
  end.

(** The stored factors are the differences of the heights, and at most one. *)
Fixpoint avl t : Prop :=
  match t with
  | E => True
  | T l _ b r => b = height r - height l /\ -1 <= b <= 1 /\ avl l /\ avl r
  end.

Definition mk l (a : Z) r : tree := T l a (height r - height l) r.

Lemma height_nonneg t : 0 <= height t.
Proof. induction t; simpl; lia. Qed.

Lemma height_0 t : height t = 0 -> t = E.
Proof. destruct t as [|l a b r]; [done|]. simpl. pose proof (height_nonneg l). pose proof (height_nonneg r). lia. Qed.

Lemma avl_mk l a r : avl l -> avl r -> -1 <= height r - height l <= 1 -> avl (mk l a r).
Proof. by simpl. Qed.

Lemma rep_frame h h' par t :
  (forall a, a ∈ inorder t -> h' !! a = h !! a) -> rep h par t -> rep h' par t.
Proof.
  revert par. induction t as [|l IHl a b r IHr]; intros par Hf; simpl; [done|].
  intros (Ha & Hok & Hb & Hl & Hr). split; [rewrite Hf; [done|simpl; set_solver]|].
  split; [done|]. split; [done|]. split; [apply IHl|apply IHr]; try done; intros; apply Hf; simpl; set_solver.
Qed.

Lemma rep_insert h par t a n : a ∉ inorder t -> rep h par t -> rep (<[a := n]> h) par t.
Proof. intros Ha. apply rep_frame. intros b Hb. apply lookup_insert_ne. set_solver. Qed.

Lemma rep_addr h par t a : rep h par t -> a ∈ inorder t -> addr_ok a /\ is_Some (h !! a).
Proof.
  revert par. induction t as [|l IHl b bf r IHr]; intros par; simpl; [set_solver|].
  intros (Hb & Hok & _ & Hl & Hr). rewrite elem_of_app, elem_of_cons. intros [?|[->|?]]; eauto.
Qed.

Lemma root_of_in t : t <> E -> root_of t ∈ inorder t.
Proof. destruct t as [|l a b r]; [done|]. intros _. simpl. set_solver. Qed.

Lemma root_of_0 h par t : rep h par t -> root_of t = 0 <-> t = E.
Proof.
  destruct t as [|l a b r]; simpl; [done|]. intros (_ & [[? _] _] & _). split; [lia|done].
Qed.

(** Changing the parent of a subtree. *)
Lemma rep_reparent h par par' t :
  rep h par t -> par_ok par -> par_ok par' -> NoDup (inorder t) ->
  exists h', set_parent_if (root_of t) par' h = Ret h' /\ rep h' par' t /\
    (forall x, x <> root_of t -> h' !! x = h !! x).
Proof.
  intros Hr Hp Hp' Hnd. unfold set_parent_if. destruct t as [|l a b r]; simpl in *; [by exists h|].
  destruct Hr as (Ha & Hok & Hb & Hl & Hr). destruct (Z.eqb_spec a 0) as [->|_]; [destruct Hok; lia|].
  rewrite (set_parent_eq _ _ _ _ _ _ par' Ha) by done. eexists. split; [done|].
  apply NoDup_app in Hnd as (_ & Hd & Hnd). apply NoDup_cons in Hnd as [Hn _].
  split; [|intros x Hx; by apply lookup_insert_ne].
  split; [by rewrite lookup_insert_eq|]. split; [done|]. split; [done|].
  split; apply rep_insert; try done. intros Hin. apply (Hd a Hin). set_solver.
Qed.

Lemma ne_root x t : x ∉ inorder t -> x <> 0 -> x <> root_of t.
Proof. intros Hx H0 ->. destruct t; [done|]. by apply Hx, root_of_in. Qed.

(** The parts of a tree share no node. *)
Lemma nodup_node l a b r :
  NoDup (inorder (T l a b r)) ->
  NoDup (inorder l) /\ NoDup (inorder r) /\ (a ∉ inorder l) /\ (a ∉ inorder r) /\
  (forall x, x ∈ inorder l -> x ∉ inorder r).
Proof.
  simpl. intros (Hl & Hd & (Ha & Hr)%NoDup_cons)%NoDup_app. split; [done|]. split; [done|].
  split; [intros Hin; apply (Hd a Hin), elem_of_cons; auto|]. split; [done|].
  intros x Hx Hin. apply (Hd x Hx), elem_of_cons; auto.
Qed.

Lemma not_in_node x l a b r : x ∉ inorder (T l a b r) <-> x <> a /\ (x ∉ inorder l) /\ x ∉ inorder r.
Proof. simpl. rewrite not_elem_of_app, not_elem_of_cons. tauto. Qed.

Definition same_but (t : tree) h h' : Prop := forall x, x ∉ inorder t -> h' !! x = h !! x.

Lemma rep_ne_root h par s t x :
  rep h par s -> x ∈ inorder s -> x ∉ inorder t -> x <> root_of t.
Proof. intros Hs Hx Ht. apply ne_root; [done|]. destruct (rep_addr _ _ _ _ Hs Hx) as [[? _] _]. lia. Qed.

(** A subtree that a change of one other root leaves alone. *)
Lemma rep_away h h' par s t :
  rep h par s -> (forall x, x ∈ inorder s -> x ∉ inorder t) ->
  (forall x, x <> root_of t -> h' !! x = h !! x) -> rep h' par s.
Proof. intros Hs Hd Hf. eapply rep_frame; [|exact Hs]. intros x Hx. apply Hf. eauto using rep_ne_root. Qed.

Lemma reparent_same h h' t par : set_parent_if (root_of t) par h = Ret h' -> same_but t h h'.
Proof.
  unfold set_parent_if. destruct t as [|l a b r]; [by intros [= <-]|]. cbn [root_of].
  destruct (a =? 0); [by intros [= <-]|]. unfold avl_set_parent, avl_load. destruct (h !! a); [|done].
  intros [= <-] x [Hx _]%not_in_node. by apply lookup_insert_ne.
Qed.

(** ** Rotations *)

(** Steps of the code on a memory whose contents are known. *)
Ltac heap_read H := erewrite load_eq by H; cbn [mbind dev_outcome_bind nd_left nd_right root_of].

Lemma rotate_LL_rep h par cl c cb cr p pb r :
  rep h par (T (T cl c cb cr) p pb r) -> par_ok par -> NoDup (inorder (T (T cl c cb cr) p pb r)) ->
  -1 <= height r - height cr <= 2 ->
  exists h',
    _rotate_LL p (height r - height (T cl c cb cr)) (height cr - height cl) h =
      Ret (c, height (mk cr p r) - height cl,
           Z.max (height cl) (height (mk cr p r)) - height (T cl c cb cr), h') /\
    rep h' par (T cl c cb (mk cr p r)) /\ same_but (T (T cl c cb cr) p pb r) h h'.
Proof.
  intros (Hp & Hpok & Hpb & (Hc & Hcok & Hcb & Hcl & Hcr) & Hr) Hpar Hnd Hd.
  apply nodup_node in Hnd as (Hndc & Hndr & Hpc & Hpr & Hcr').
  apply not_in_node in Hpc as (Hne & Hpcl & Hpcr).
  apply nodup_node in Hndc as (Hndcl & Hndcr & Hccl & Hccr & Hdisj).
  assert (Hcr0 : c ∉ inorder r) by (apply Hcr'; simpl; apply elem_of_app; right; left).
  destruct (rep_reparent (<[p := AvlNode (pack par (height r - height cr)) (root_of cr) (root_of r)]> h) c p cr)
    as (h3 & E3 & Hcr3 & Hf3); [by apply rep_insert|by apply addr_par..|done|].
  assert (Hp0 : p <> root_of cr) by (apply ne_root; [done|destruct Hpok; lia]).
  assert (Hc0 : c <> root_of cr) by (apply ne_root; [done|destruct Hcok; lia]).
  unfold _rotate_LL. heap_read ltac:(exact Hp). heap_read ltac:(exact Hc).
  match goal with |- context [if height cr - height cl <? 0 then ?x else ?y] =>
    set (hs := if height cr - height cl <? 0 then x else y) end.
  assert (Hhs : exists k, hs = (height cl + k, height cr + k, height r + k,
     Z.max (height cl) (height (mk cr p r)) - height (T cl c cb cr))).
  { subst hs. cbn [height mk]. destruct (Z.ltb_spec (height cr - height cl) 0).
    - exists ((if root_of cr =? 0 then 0 else 1) - height cr). f_equal; [f_equal; [f_equal|]|]; lia.
    - exists ((if root_of cl =? 0 then 0 else 1) - height cl). f_equal; [f_equal; [f_equal|]|]; lia. }
  destruct Hhs as [k ->]. replace (height r + k - (height cr + k)) with (height r - height cr) by lia.
  rewrite (set_bf_eq _ _ _ _ _ _ _ Hp) by done. cbn [mbind dev_outcome_bind].
  heap_read ltac:(rewrite lookup_insert_ne by done; exact Hc).
  erewrite set_left_eq by apply lookup_insert_eq. cbn [mbind dev_outcome_bind]. rewrite insert_insert_eq, E3.
  cbn [mbind dev_outcome_bind].
  erewrite set_right_eq by (rewrite Hf3, lookup_insert_ne by done; exact Hc). cbn [mbind dev_outcome_bind].
  heap_read ltac:(rewrite lookup_insert_ne, Hf3 by done; apply lookup_insert_eq). rewrite parent_pack by done.
  erewrite set_parent_eq by (apply lookup_insert_eq || done || by apply addr_par). cbn [mbind dev_outcome_bind].
  rewrite insert_insert_eq.
  erewrite set_parent_eq by ((rewrite lookup_insert_ne, Hf3 by done; apply lookup_insert_eq) || done || by apply addr_par).
  cbn [mbind dev_outcome_bind]. eexists. split; [do 4 f_equal; cbn [height mk]; lia|]. split.
  - split; [rewrite lookup_insert_ne by done; apply lookup_insert_eq|]. split; [done|]. split; [done|]. split.
    + do 2 (apply rep_insert; [done|]). eapply rep_away; [|exact Hdisj|exact Hf3]. by apply rep_insert.
    + split; [apply lookup_insert_eq|]. split; [done|]. split; [done|]. split.
      * by do 2 (apply rep_insert; [done|]).
      * do 2 (apply rep_insert; [done|]). eapply (rep_away _ _ _ _ cr); [| |exact Hf3]; [by apply rep_insert|].
        intros x Hx Hin. apply (Hcr' x); [|done]. simpl. apply elem_of_app. right. by right.
  - intros x (Hxp & (Hxc & _ & Hxcr)%not_in_node & _)%not_in_node. rewrite !lookup_insert_ne by done.
    rewrite (reparent_same _ _ _ _ E3) by done. by apply lookup_insert_ne.
Qed.

Lemma rotate_RR_rep h par l p pb cl c cb cr :
  rep h par (T l p pb (T cl c cb cr)) -> par_ok par -> NoDup (inorder (T l p pb (T cl c cb cr))) ->
  -1 <= height cl - height l <= 2 ->
  exists h',
    _rotate_RR p (height (T cl c cb cr) - height l) (height cr - height cl) h =
      Ret (c, height cr - height (mk l p cl),
           Z.max (height cr) (height (mk l p cl)) - height (T cl c cb cr), h') /\
    rep h' par (T (mk l p cl) c cb cr) /\ same_but (T l p pb (T cl c cb cr)) h h'.
Proof.
  intros (Hp & Hpok & Hpb & Hl & (Hc & Hcok & Hcb & Hcl & Hcr)) Hpar Hnd Hd.
  apply nodup_node in Hnd as (Hndl & Hndc & Hpl & Hpc & Hlc).
  apply not_in_node in Hpc as (Hne & Hpcl & Hpcr).
  apply nodup_node in Hndc as (Hndcl & Hndcr & Hccl & Hccr & Hdisj).
  assert (Hcl0 : c ∉ inorder l) by (intros Hin; apply (Hlc c Hin); simpl; apply elem_of_app; right; left).
  destruct (rep_reparent (<[p := AvlNode (pack par (height cl - height l)) (root_of l) (root_of cl)]> h) c p cl)
    as (h3 & E3 & Hcl3 & Hf3); [by apply rep_insert|by apply addr_par..|done|].
  assert (Hp0 : p <> root_of cl) by (apply ne_root; [done|destruct Hpok; lia]).
  assert (Hc0 : c <> root_of cl) by (apply ne_root; [done|destruct Hcok; lia]).
  unfold _rotate_RR. heap_read ltac:(exact Hp). heap_read ltac:(exact Hc).
  match goal with |- context [if height cr - height cl <? 0 then ?x else ?y] =>
    set (hs := if height cr - height cl <? 0 then x else y) end.
  assert (Hhs : exists k, hs = (height cl + k, height cr + k, height l + k,
     Z.max (height cr) (height (mk l p cl)) - height (T cl c cb cr))).
  { subst hs. cbn [height mk]. destruct (Z.ltb_spec (height cr - height cl) 0).
    - exists ((if root_of cr =? 0 then 0 else 1) - height cr). f_equal; [f_equal; [f_equal|]|]; lia.
    - exists ((if root_of cl =? 0 then 0 else 1) - height cl). f_equal; [f_equal; [f_equal|]|]; lia. }
  destruct Hhs as [k ->]. replace (height cl + k - (height l + k)) with (height cl - height l) by lia.
  rewrite (set_bf_eq _ _ _ _ _ _ _ Hp) by done. cbn [mbind dev_outcome_bind].
  heap_read ltac:(rewrite lookup_insert_ne by done; exact Hc).
  erewrite set_right_eq by apply lookup_insert_eq. cbn [mbind dev_outcome_bind]. rewrite insert_insert_eq, E3.
  cbn [mbind dev_outcome_bind].
  erewrite set_left_eq by (rewrite Hf3, lookup_insert_ne by done; exact Hc). cbn [mbind dev_outcome_bind].
  heap_read ltac:(rewrite lookup_insert_ne, Hf3 by done; apply lookup_insert_eq). rewrite parent_pack by done.
  erewrite set_parent_eq by (apply lookup_insert_eq || done || by apply addr_par). cbn [mbind dev_outcome_bind].
  rewrite insert_insert_eq.
  erewrite set_parent_eq by ((rewrite lookup_insert_ne, Hf3 by done; apply lookup_insert_eq) || done || by apply addr_par).
  cbn [mbind dev_outcome_bind]. eexists. split; [do 4 f_equal; cbn [height mk]; lia|]. split.
  - split; [rewrite lookup_insert_ne by done; apply lookup_insert_eq|]. split; [done|]. split; [done|]. split.
    + split; [apply lookup_insert_eq|]. split; [done|]. split; [done|]. split.
      * do 2 (apply rep_insert; [done|]). eapply (rep_away _ _ _ _ cl); [| |exact Hf3]; [by apply rep_insert|].
        intros x Hx Hin. apply (Hlc x Hx). simpl. apply elem_of_app. by left.
      * by do 2 (apply rep_insert; [done|]).
    + do 2 (apply rep_insert; [done|]). eapply (rep_away _ _ _ _ cl); [| |exact Hf3]; [by apply rep_insert|].
      intros x Hx Hin. by apply (Hdisj x Hin).
  - intros x (Hxp & _ & (Hxc & Hxcl & _)%not_in_node)%not_in_node. rewrite !lookup_insert_ne by done.
    rewrite (reparent_same _ _ _ _ E3) by done. by apply lookup_insert_ne.
Qed.

(** ** Rebalancing a tree *)

(** The subtrees are in order; the stored factor of the root misses [bf]. *)
Definition off_by (bf : Z) t : Prop :=
  match t with
  | E => False
  | T l _ b r => avl l /\ avl r /\ b + bf = height r - height l /\ -2 <= b + bf <= 2 /\ -1 <= b <= 1
  end.

Definition bal t : tree :=
  match t with
  | E => E
  | T l a b r =>
      if height r - height l <? -1 then
        match l with
        | E => t
        | T ll c _ lr =>
            if height lr <=? height ll then mk ll c (mk lr a r)
            else match lr with E => t | T gl g _ gr => mk (mk ll c gl) g (mk gr a r) end
        end
      else if 1 <? height r - height l then
        match r with
        | E => t
        | T rl c _ rr =>
            if height rl <=? height rr then mk (mk l a rl) c rr
            else match rl with E => t | T gl g _ gr => mk (mk l a gl) g (mk gr c rr) end
        end
      else mk l a r
  end.

Lemma bal_inorder t : inorder (bal t) = inorder t.
Proof.
  destruct t as [|l a b r]; [done|]. unfold bal. repeat case_match; subst; simpl;
    rewrite <- ?app_assoc; simpl; rewrite <- ?app_assoc; done.
Qed.

Lemma bal_avl bf t :
  off_by bf t -> avl (bal t) /\ exists l a b r, bal t = T l a b r.
Proof.
  destruct t as [|l a b r]; [done|]. intros (Hl & Hr & Hb & Hd & _). unfold bal.
  destruct (Z.ltb_spec (height r - height l) (-1)); [|destruct (Z.ltb_spec 1 (height r - height l))].
  - destruct l as [|ll c cb lr]; [simpl in *; pose proof (height_nonneg r); lia|].
    destruct Hl as (-> & Hcb & Hll & Hlr). simpl in *.
    destruct (Z.leb_spec (height lr) (height ll)); [split; [|eauto 10]; simpl; split_and!; done || lia|].
    destruct lr as [|gl g gb gr]; [simpl in *; pose proof (height_nonneg ll); lia|].
    destruct Hlr as (-> & Hgb & Hgl & Hgr). simpl in *. split; [|eauto 10]. simpl. split_and!; done || lia.
  - destruct r as [|rl c cb rr]; [simpl in *; pose proof (height_nonneg l); lia|].
    destruct Hr as (-> & Hcb & Hrl & Hrr). simpl in *.
    destruct (Z.leb_spec (height rl) (height rr)); [split; [|eauto 10]; simpl; split_and!; done || lia|].
    destruct rl as [|gl g gb gr]; [simpl in *; pose proof (height_nonneg rr); lia|].
    destruct Hrl as (-> & Hgb & Hgl & Hgr). simpl in *. split; [|eauto 10]. simpl. split_and!; done || lia.
  - split; [|eauto 10]. simpl. split_and!; done || lia.
Qed.

Lemma same_but_trans t t' h h1 h2 :
  same_but t h h1 -> same_but t' h1 h2 -> inorder t' ⊆ inorder t -> same_but t h h2.
Proof. intros H1 H2 Hs x Hx. rewrite H2, H1; [done|done|]. intros Hin. by apply Hx, Hs. Qed.

Lemma rep_set_bf h par l a b r b' :
  rep h par (T l a b r) -> par_ok par -> NoDup (inorder (T l a b r)) -> -1 <= b' <= 2 ->
  exists h', avl_set_bf a b' h = Ret h' /\ rep h' par (T l a b' r) /\ same_but (T l a b r) h h'.
Proof.
  intros (Ha & Hok & Hb & Hl & Hr) Hp (_ & _ & Hal & Har & _)%nodup_node Hb'.
  rewrite (set_bf_eq _ _ _ _ _ _ _ Ha) by done. eexists. split; [done|]. split.
  - split; [apply lookup_insert_eq|]. split; [done|]. split; [done|]. split; by apply rep_insert.
  - intros x (Hx & _)%not_in_node. by apply lookup_insert_ne.
Qed.

(** Putting another subtree, already in memory, at the place of a child. *)
Lemma rep_set_left h par l a b r l' :
  rep h a l' -> h !! a = Some (AvlNode (pack par b) (root_of l) (root_of r)) -> addr_ok a -> -1 <= b <= 2 ->
  rep h a r -> a ∉ inorder l' -> a ∉ inorder r ->
  exists h', avl_set_left a (root_of l') h = Ret h' /\ rep h' par (T l' a b r) /\
    forall x, x <> a -> h' !! x = h !! x.
Proof.
  intros Hl' Ha Hok Hb Hr Hal Har. rewrite (set_left_eq _ _ _ _ _ _ Ha). eexists. split; [done|].
  split; [|intros x Hx; by apply lookup_insert_ne].
  split; [apply lookup_insert_eq|]. split; [done|]. split; [done|]. split; by apply rep_insert.
Qed.

Lemma rep_set_right h par l a b r r' :
  rep h a r' -> h !! a = Some (AvlNode (pack par b) (root_of l) (root_of r)) -> addr_ok a -> -1 <= b <= 2 ->
  rep h a l -> a ∉ inorder r' -> a ∉ inorder l ->
  exists h', avl_set_right a (root_of r') h = Ret h' /\ rep h' par (T l a b r') /\
    forall x, x <> a -> h' !! x = h !! x.
Proof.
  intros Hr' Ha Hok Hb Hl Har Hal. rewrite (set_right_eq _ _ _ _ _ _ Ha). eexists. split; [done|].
  split; [|intros x Hx; by apply lookup_insert_ne].
  split; [apply lookup_insert_eq|]. split; [done|]. split; [done|]. split; by apply rep_insert.
Qed.

Lemma rotate_LR_rep h par ll c cb gl g gb gr p pb r :
  let t := T (T ll c cb (T gl g gb gr)) p pb r in
  rep h par t -> par_ok par -> NoDup (inorder t) ->
  avl (T ll c cb (T gl g gb gr)) -> avl r -> cb = 1 -> height r - height (T ll c cb (T gl g gb gr)) = -2 ->
  exists h', _rotate_LR p (-2) h = Ret (g, h') /\ rep h' par (mk (mk ll c gl) g (mk gr p r)) /\ same_but t h h'.
Proof.
  intros t Hrep Hpar Hnd Hl Hr -> Hd. pose proof Hrep as (Hp & Hpok & Hpb & Hrl & Hrr).
  pose proof Hrl as (Hc & Hcok & Hcb & Hrll & (Hg & Hgok & Hgb & _)).
  destruct (nodup_node _ _ _ _ Hnd) as (Hndl & Hndr & Hpl & Hpr & Hlr).
  destruct Hl as (Hcb' & _ & Hall & (Hgb' & Hgbr & Hagl & Hagr)).
  destruct (rotate_RR_rep h p ll c 1 gl g gb gr Hrl (addr_par _ Hpok) Hndl) as (h1 & E1 & Hrep1 & Hs1);
    [simpl in *; lia|].
  assert (Hp1 : h1 !! p = Some (AvlNode (pack par pb) c (root_of r))) by (rewrite Hs1; done).
  assert (Hin1 : inorder (T (mk ll c gl) g gb gr) = inorder (T ll c 1 (T gl g gb gr))).
  { simpl. by rewrite <- app_assoc. }
  destruct (rep_set_left h1 par (T ll c 1 (T gl g gb gr)) p pb r (T (mk ll c gl) g gb gr) Hrep1 Hp1 Hpok Hpb)
    as (h2 & E2 & Hrep2 & Hs2); [|by rewrite Hin1|done|].
  { eapply rep_frame; [|exact Hrr]. intros x Hx. apply Hs1. intros Hin. by apply (Hlr x Hin). }
  destruct (rotate_LL_rep h2 par (mk ll c gl) g gb gr p pb r Hrep2 Hpar) as (h3 & E3 & Hrep3 & Hs3).
  { change (NoDup (inorder (T (mk ll c gl) g gb gr) ++ p :: inorder r)). by rewrite Hin1. }
  { simpl in *; lia. }
  destruct (rep_set_bf h3 par (mk ll c gl) g gb (mk gr p r) (height (mk gr p r) - height (mk ll c gl)) Hrep3 Hpar)
    as (h4 & E4 & Hrep4 & Hs4).
  { revert Hnd. subst t. simpl. rewrite <- !app_assoc. simpl. by rewrite <- !app_assoc. }
  { simpl in *; lia. }
  exists h4. split; [|split; [exact Hrep4|]].
  - unfold _rotate_LR. heap_read ltac:(exact Hp). heap_read ltac:(exact Hc). cbn [root_of] in *.
    destruct (Z.eqb_spec g 0) as [->|_]; [destruct Hgok; lia|]. heap_read ltac:(exact Hg).
    rewrite !bf_pack by (done || lia || by apply addr_par).
    replace (_rotate_RR c 1 gb h) with (_rotate_RR c (height (T gl g gb gr) - height ll) (height gr - height gl) h)
      by (f_equal; simpl in *; lia).
    rewrite E1. cbn [mbind dev_outcome_bind]. cbn [root_of] in E2. rewrite E2. cbn [mbind dev_outcome_bind].
    match goal with |- context [_rotate_LL p ?x ?y h2] =>
      replace (_rotate_LL p x y h2) with (_rotate_LL p (height r - height (T (mk ll c gl) g gb gr))
        (height gr - height (mk ll c gl)) h2) by (f_equal; simpl in *; lia) end.
    rewrite E3. cbn [mbind dev_outcome_bind]. rewrite E4. done.
  - intros x Hx. pose proof Hx as (Hxp & Hxl & Hxr)%not_in_node.
    rewrite Hs4, Hs3, Hs2, Hs1; [done|done|done|..].
    + change (x ∉ inorder (T (mk ll c gl) g gb gr) ++ p :: inorder r). rewrite Hin1. exact Hx.
    + revert Hx. subst t. simpl. rewrite <- !app_assoc. simpl. by rewrite <- !app_assoc.
Qed.

Lemma rotate_RL_rep h par l p pb gl g gb gr c cb rr :
  let t := T l p pb (T (T gl g gb gr) c cb rr) in
  rep h par t -> par_ok par -> NoDup (inorder t) ->
  avl l -> avl (T (T gl g gb gr) c cb rr) -> cb = -1 -> height (T (T gl g gb gr) c cb rr) - height l = 2 ->
  exists h', _rotate_RL p 2 h = Ret (g, h') /\ rep h' par (mk (mk l p gl) g (mk gr c rr)) /\ same_but t h h'.
Proof.
  intros t Hrep Hpar Hnd Hl Hr -> Hd. pose proof Hrep as (Hp & Hpok & Hpb & Hrl & Hrr).
  pose proof Hrr as (Hc & Hcok & Hcb & (Hg & Hgok & Hgb & _) & _).
  destruct (nodup_node _ _ _ _ Hnd) as (Hndl & Hndr & Hpl & Hpr & Hlr).
  destruct Hr as (Hcb' & _ & (Hgb' & Hgbr & Hagl & Hagr) & Harr).
  destruct (rotate_LL_rep h p gl g gb gr c (-1) rr Hrr (addr_par _ Hpok) Hndr) as (h1 & E1 & Hrep1 & Hs1);
    [simpl in *; lia|].
  assert (Hp1 : h1 !! p = Some (AvlNode (pack par pb) (root_of l) c)) by (rewrite Hs1; done).
  assert (Hin1 : inorder (T gl g gb (mk gr c rr)) = inorder (T (T gl g gb gr) c (-1) rr)).
  { simpl. by rewrite <- app_assoc. }
  destruct (rep_set_right h1 par l p pb (T (T gl g gb gr) c (-1) rr) (T gl g gb (mk gr c rr)) Hrep1 Hp1 Hpok Hpb)
    as (h2 & E2 & Hrep2 & Hs2); [|by rewrite Hin1|done|].
  { eapply rep_frame; [|exact Hrl]. intros x Hx. apply Hs1. by apply Hlr. }
  destruct (rotate_RR_rep h2 par l p pb gl g gb (mk gr c rr) Hrep2 Hpar) as (h3 & E3 & Hrep3 & Hs3).
  { change (NoDup (inorder l ++ p :: inorder (T gl g gb (mk gr c rr)))). by rewrite Hin1. }
  { simpl in *; lia. }
  destruct (rep_set_bf h3 par (mk l p gl) g gb (mk gr c rr) (height (mk gr c rr) - height (mk l p gl)) Hrep3 Hpar)
    as (h4 & E4 & Hrep4 & Hs4).
  { revert Hnd. subst t. simpl. rewrite <- !app_assoc. simpl. by rewrite <- ?app_assoc. }
  { simpl in *; lia. }
  exists h4. split; [|split; [exact Hrep4|]].
  - unfold _rotate_RL. heap_read ltac:(exact Hp). heap_read ltac:(exact Hc). cbn [root_of] in *.
    destruct (Z.eqb_spec g 0) as [->|_]; [destruct Hgok; lia|]. heap_read ltac:(exact Hg).
    rewrite !bf_pack by (done || lia || by apply addr_par).
    replace (_rotate_LL c (-1) gb h) with (_rotate_LL c (height rr - height (T gl g gb gr)) (height gr - height gl) h)
      by (f_equal; simpl in *; lia).
    rewrite E1. cbn [mbind dev_outcome_bind]. cbn [root_of] in E2. rewrite E2. cbn [mbind dev_outcome_bind].
    match goal with |- context [_rotate_RR p ?x ?y h2] =>
      replace (_rotate_RR p x y h2) with (_rotate_RR p (height (T gl g gb (mk gr c rr)) - height l)
        (height (mk gr c rr) - height gl) h2) by (f_equal; simpl in *; lia) end.
    rewrite E3. cbn [mbind dev_outcome_bind]. rewrite E4. done.
  - intros x Hx. pose proof Hx as (Hxp & Hxl & Hxr)%not_in_node.
    rewrite Hs4, Hs3, Hs2, Hs1; [done|done|done|..].
    + change (x ∉ inorder l ++ p :: inorder (T gl g gb (mk gr c rr))). rewrite Hin1. exact Hx.
    + revert Hx. subst t. simpl. rewrite <- !app_assoc. simpl. by rewrite <- ?app_assoc.
Qed.

(** A single rotation with the factor of the new root. *)
Lemma rotate_left_single h par ll c cb lr a b r :
  let t := T (T ll c cb lr) a b r in
  rep h par t -> par_ok par -> NoDup (inorder t) -> avl (T ll c cb lr) -> height lr <= height ll ->
  height r - height (T ll c cb lr) = -2 ->
  exists h', ('(n, child_bf, _, h) ← _rotate_LL a (height r - height (T ll c cb lr)) cb h;
              h ← avl_set_bf n child_bf h; Ret (n, h)) = Ret (c, h') /\
    rep h' par (mk ll c (mk lr a r)) /\ same_but t h h'.
Proof.
  intros t Hrep Hpar Hnd (Hcb & Hcb1 & _) Hle Hd.
  destruct (rotate_LL_rep h par ll c cb lr a b r Hrep Hpar Hnd) as (h1 & E1 & Hrep1 & Hs1); [simpl in *; lia|].
  rewrite <- Hcb in E1. rewrite E1. cbn [mbind dev_outcome_bind].
  assert (Hin : inorder (T ll c cb (mk lr a r)) = inorder t) by (subst t; simpl; by rewrite <- app_assoc).
  destruct (rep_set_bf h1 par ll c cb (mk lr a r) (height (mk lr a r) - height ll) Hrep1 Hpar)
    as (h2 & E2 & Hrep2 & Hs2); [by rewrite Hin|simpl in *; lia|].
  rewrite E2. exists h2. split; [done|]. split; [done|].
  eapply same_but_trans; [exact Hs1|exact Hs2|by rewrite Hin].
Qed.

Lemma rotate_right_single h par l a b rl c cb rr :
  let t := T l a b (T rl c cb rr) in
  rep h par t -> par_ok par -> NoDup (inorder t) -> avl (T rl c cb rr) -> height rl <= height rr ->
  height (T rl c cb rr) - height l = 2 ->
  exists h', ('(n, child_bf, _, h) ← _rotate_RR a (height (T rl c cb rr) - height l) cb h;
              h ← avl_set_bf n child_bf h; Ret (n, h)) = Ret (c, h') /\
    rep h' par (mk (mk l a rl) c rr) /\ same_but t h h'.
Proof.
  intros t Hrep Hpar Hnd (Hcb & Hcb1 & _) Hle Hd.
  destruct (rotate_RR_rep h par l a b rl c cb rr Hrep Hpar Hnd) as (h1 & E1 & Hrep1 & Hs1); [simpl in *; lia|].
  rewrite <- Hcb in E1. rewrite E1. cbn [mbind dev_outcome_bind].
  assert (Hin : inorder (T (mk l a rl) c cb rr) = inorder t) by (subst t; simpl; by rewrite <- app_assoc).
  destruct (rep_set_bf h1 par (mk l a rl) c cb rr (height rr - height (mk l a rl)) Hrep1 Hpar)
    as (h2 & E2 & Hrep2 & Hs2); [by rewrite Hin|simpl in *; lia|].
  rewrite E2. exists h2. split; [done|]. split; [done|].
  eapply same_but_trans; [exact Hs1|exact Hs2|by rewrite Hin].
Qed.

(** [_balance_tree] rebalances the tree in memory. *)
Lemma balance_tree_rep h par t bf :
  rep h par t -> par_ok par -> NoDup (inorder t) -> off_by bf t ->
  exists h', _balance_tree (root_of t) bf h = Ret (root_of (bal t), h') /\ rep h' par (bal t) /\ same_but t h h'.
Proof.
  intros Hrep Hpar Hnd Hoff. destruct t as [|l a b r]; [done|].
  destruct Hoff as (Hal & Har & Hb & Hd & Hbr). pose proof Hrep as (Ha & Haok & Hb2 & Hrl & Hrr).
  unfold _balance_tree. cbn [root_of]. destruct (Z.eqb_spec a 0) as [->|_]; [destruct Haok; lia|].
  heap_read ltac:(exact Ha). rewrite bf_pack, Hb by done. unfold bal.
  destruct (Z.ltb_spec (height r - height l) (-1)); [|destruct (Z.ltb_spec 1 (height r - height l))]; cbn [andb].
  - destruct l as [|ll c cb lr]; [simpl in *; pose proof (height_nonneg r); lia|].
    pose proof Hrl as (Hc & Hcok & Hcb & _). pose proof Hal as (Hcb' & Hcb1 & Hall & Halr). cbn [root_of].
    destruct (Z.eqb_spec c 0) as [->|_]; [destruct Hcok; lia|]. cbn [negb]. unfold avl_bf_at.
    heap_read ltac:(exact Hc). rewrite bf_pack by (done || by apply addr_par).
    destruct (Z.leb_spec (height lr) (height ll)).
    + rewrite (proj2 (Z.leb_le cb 0)) by lia. apply rotate_left_single; done || lia.
    + rewrite (proj2 (Z.leb_gt cb 0)) by lia.
      destruct lr as [|gl g gb gr]; [simpl in *; pose proof (height_nonneg ll); lia|].
      replace (height r - height (T ll c cb (T gl g gb gr))) with (-2) by lia.
      apply rotate_LR_rep; try done; lia.
  - destruct r as [|rl c cb rr]; [simpl in *; pose proof (height_nonneg l); lia|].
    pose proof Hrr as (Hc & Hcok & Hcb & _). pose proof Har as (Hcb' & Hcb1 & Harl & Harr). cbn [root_of].
    destruct (Z.eqb_spec c 0) as [->|_]; [destruct Hcok; lia|]. cbn [negb]. unfold avl_bf_at.
    heap_read ltac:(exact Hc). rewrite bf_pack by (done || by apply addr_par).
    destruct (Z.leb_spec (height rl) (height rr)).
    + rewrite (proj2 (Z.leb_le 0 cb)) by lia. apply rotate_right_single; done || lia.
    + rewrite (proj2 (Z.leb_gt 0 cb)) by lia.
      destruct rl as [|gl g gb gr]; [simpl in *; pose proof (height_nonneg rr); lia|].
      replace (height (T (T gl g gb gr) c cb rr) - height l) with 2 by lia.
      apply rotate_RL_rep; try done; lia.
  - destruct (rep_set_bf h par l a b r (height r - height l) Hrep Hpar Hnd) as (h1 & E1 & Hrep1 & Hs1); [lia|].
    rewrite E1. exists h1. done.
Qed.

(** ** A subtree and its context *)

(** The way from the subtree to the root: it is the left child of a node with
    another right child, or the right one. *)
Inductive crumb := CL (a b : Z) (r : tree) | CR (l : tree) (a b : Z).
Abbreviation ctx := (list crumb).
Implicit Types (k : ctx).

Definition plug1 (c : crumb) t : tree := match c with CL a b r => T t a b r | CR l a b => T l a b t end.
Fixpoint plug k t : tree := match k with [] => t | c :: k => plug k (plug1 c t) end.
Definition crumb_addr (c : crumb) : Z := match c with CL a _ _ | CR _ a _ => a end.
Definition par_of k : Z := match k with [] => 0 | c :: _ => crumb_addr c end.

Fixpoint left_of k : list Z :=
  match k with
  | [] => []
  | CL _ _ _ :: k => left_of k
  | CR l a _ :: k => left_of k ++ inorder l ++ [a]
  end.
Fixpoint right_of k : list Z :=
  match k with
  | [] => []
  | CL a _ r :: k => a :: inorder r ++ right_of k
  | CR _ _ _ :: k => right_of k
  end.

Lemma plug_inorder k t : inorder (plug k t) = left_of k ++ inorder t ++ right_of k.
Proof.
  revert t. induction k as [|[a b r|l a b] k IH]; intros t; simpl.
  - by rewrite app_nil_r.
  - rewrite IH. simpl. by rewrite <- !app_assoc.
  - rewrite IH. simpl. by rewrite <- !app_assoc.
Qed.

Fixpoint rep_ctx h (x : Z) k : Prop :=
  match k with
  | [] => True
  | CL a b r :: k =>
      h !! a = Some (AvlNode (pack (par_of k) b) x (root_of r)) /\ addr_ok a /\ -1 <= b <= 2 /\
      rep h a r /\ rep_ctx h a k
  | CR l a b :: k =>
      h !! a = Some (AvlNode (pack (par_of k) b) (root_of l) x) /\ addr_ok a /\ -1 <= b <= 2 /\
      rep h a l /\ rep_ctx h a k
  end.

Lemma rep_plug h k t : rep h 0 (plug k t) <-> rep h (par_of k) t /\ rep_ctx h (root_of t) k.
Proof.
  revert t. induction k as [|[a b r|l a b] k IH]; intros t; simpl; [tauto| |]; rewrite IH; simpl; tauto.
Qed.

Lemma rep_ctx_frame h h' x k :
  (forall a, a ∈ left_of k ++ right_of k -> h' !! a = h !! a) -> rep_ctx h x k -> rep_ctx h' x k.
Proof.
  revert x. induction k as [|[a b r|l a b] k IH]; intros x Hf; simpl; [done| |];
    intros (Ha & Hok & Hb & Hr & Hk); simpl in Hf; setoid_rewrite elem_of_app in Hf.
  - rewrite Hf by (right; left). split; [done|]. split; [done|]. split; [done|]. split.
    + revert Hr. apply rep_frame. intros y Hy. apply Hf. right. right. by apply elem_of_app; left.
    + apply IH; [|done]. intros y [Hy|Hy]%elem_of_app; apply Hf; [by left|].
      right. right. by apply elem_of_app; right.
  - rewrite Hf by (left; apply elem_of_app; right; apply elem_of_app; right; left).
    split; [done|]. split; [done|]. split; [done|]. split.
    + revert Hr. apply rep_frame. intros y Hy. apply Hf. left. apply elem_of_app. right. by apply elem_of_app; left.
    + apply IH; [|done]. intros y [Hy|Hy]%elem_of_app; apply Hf; [|by right]. left. by apply elem_of_app; left.
Qed.

(** The context is in order around a subtree of height [H]. *)
Fixpoint ctx_avl k (H : Z) : Prop :=
  match k with
  | [] => True
  | CL _ b r :: k => b = height r - H /\ -1 <= b <= 1 /\ avl r /\ ctx_avl k (1 + Z.max H (height r))
  | CR l _ b :: k => b = H - height l /\ -1 <= b <= 1 /\ avl l /\ ctx_avl k (1 + Z.max (height l) H)
  end.

Lemma avl_plug k t : avl (plug k t) <-> avl t /\ ctx_avl k (height t).
Proof.
  revert t. induction k as [|[a b r|l a b] k IH]; intros t; simpl; [tauto| |]; rewrite IH; simpl; tauto.
Qed.

Lemma root_of_plug k t t' : (k = [] -> root_of t = root_of t') -> root_of (plug k t) = root_of (plug k t').
Proof.
  revert t t'. induction k as [|c k IH]; intros t t' Hk; simpl; [by apply Hk|].
  apply IH. by destruct c.
Qed.
