(* ===== verification/AvlOps.v ===== *)
(** * The operations of the search tree

    Insertion, removal, the walks and the searches of [AvlTree], on trees in
    memory: what they return, that they return, and the tree they leave. *)

From stdpp Require Import base numbers list gmap sorting.
From S2P Require Import Prelude.
From S2P Require Import AvlTree.
From S2P Require Import AvlSpec.

Implicit Types (t l r : tree) (h : avl_heap) (k : ctx) (tr : avl_tree).

(** ** The way to the root *)

(** A tree an insertion has made higher: a leaf, or not balanced evenly. *)
Definition grown t : Prop := bf_of t <> 0 \/ height t = 1.

(** One child of the root of [t] has become higher by [s], which the stored factor
    misses by [bf]; the height was [H].  A new leaf stands for an empty tree. *)
Definition was (s bf : Z) t (H : Z) : Prop :=
  match t with
  | E => False
  | T l _ b r =>
      (bf = - s /\ 0 <= height l - s /\ (s = 1 -> grown l) /\ H = 1 + Z.max (height l - s) (height r)) \/
      (bf = s /\ 0 <= height r - s /\ (s = 1 -> grown r) /\ H = 1 + Z.max (height l) (height r - s)) \/
      (s = 1 /\ bf = 0 /\ l = E /\ r = E /\ b = 0 /\ H = 0)
  end.

(** The comparison of the two loops. *)
Definition cascade (s : Z) : Z -> Z -> bool := if s =? 1 then Z.ltb else fun old new => new <? old.

Definition is_leaf t : bool := match t with T E _ _ E => true | _ => false end.

Ltac bal_cases Hs Hw :=
  destruct Hs as [-> | ->];
  [change (cascade 1) with Z.ltb|change (cascade (-1)) with (fun old new => new <? old)]; cbv beta;
  (match goal with |- context [?x <? ?y] => destruct (Z.ltb_spec x y) end);
  unfold was, grown in Hw; simpl in *;
  destruct Hw as [(? & ? & ? & ?)|[(? & ? & ? & ?)|(? & ? & ? & ? & ? & ?)]]; subst; simpl in *; lia || discriminate.

(** The height has changed exactly when the loop passes a change on. *)
Lemma bal_step s bf t H :
  s = 1 \/ s = -1 -> off_by bf t -> was s bf t H ->
  height (bal t) = H + (if is_leaf (bal t) || cascade s (Z.abs (bf_of t)) (Z.abs (bf_of (bal t))) then s else 0).
Proof.
  intros Hs Hoff Hw. destruct t as [|l a b r]; [done|]. destruct Hoff as (Hl & Hr & Hb & Hd & Hb1).
  pose proof (height_nonneg l) as Hl0. pose proof (height_nonneg r) as Hr0. cbn [bf_of]. unfold bal.
  destruct (Z.ltb_spec (height r - height l) (-1)); [|destruct (Z.ltb_spec 1 (height r - height l))].
  - destruct l as [|ll c cb lr]; [simpl in *; lia|]. destruct Hl as (Hcb & Hcb1 & Hll & Hlr).
    destruct (Z.leb_spec (height lr) (height ll)).
    + replace (is_leaf (mk ll c (mk lr a r))) with false by (by destruct ll). bal_cases Hs Hw.
    + destruct lr as [|gl g gb gr]; [simpl in *; pose proof (height_nonneg ll); lia|].
      destruct Hlr as (Hgb & Hgb1 & _ & _). bal_cases Hs Hw.
  - destruct r as [|rl c cb rr]; [simpl in *; lia|]. destruct Hr as (Hcb & Hcb1 & Hrl & Hrr).
    destruct (Z.leb_spec (height rl) (height rr)).
    + bal_cases Hs Hw.
    + destruct rl as [|gl g gb gr]; [simpl in *; pose proof (height_nonneg rr); lia|].
      destruct Hrl as (Hgb & Hgb1 & _ & _). bal_cases Hs Hw.
  - destruct l as [|ll c cb lr], r as [|rl d db rr].
    + cbn [is_leaf mk orb]. destruct Hs as [-> | ->]; simpl in *; lia.
    + bal_cases Hs Hw.
    + bal_cases Hs Hw.
    + bal_cases Hs Hw.
Qed.

Definition passes (s : Z) t : bool :=
  is_leaf (bal t) || cascade s (Z.abs (bf_of t)) (Z.abs (bf_of (bal t))).

Lemma grown_step s bf t H :
  s = 1 -> off_by bf t -> was s bf t H -> passes s t = true -> grown (bal t).
Proof.
  intros -> Hoff Hw Hp. unfold passes in Hp. apply orb_true_iff in Hp as [Hp|Hp].
  - right. destruct (bal t) as [|[] ? ? []]; done.
  - left. change (cascade 1) with Z.ltb in Hp. lia.
Qed.

(** What a subtree whose height has changed by [s] means for its parent. *)
Lemma passed_on s c k t H :
  ctx_avl (c :: k) H -> avl t -> height t = H + s -> 0 <= H -> (s = 1 -> grown t) -> s = 1 \/ s = -1 ->
  let bf := match c with CL _ _ _ => - s | CR _ _ _ => s end in
  exists H', off_by bf (plug1 c t) /\ was s bf (plug1 c t) H' /\ ctx_avl k H' /\ 0 <= H'.
Proof.
  intros Hk Ht Hh H0 Hg Hs bf. subst bf. destruct c as [a b r|l a b]; destruct Hk as (Hb & Hb1 & Hr & Hk).
  - exists (1 + Z.max H (height r)). simpl. split; [split_and!; done || lia|]. split; [|split; [done|lia]].
    left. split_and!; done || lia.
  - exists (1 + Z.max (height l) H). simpl. split; [split_and!; done || lia|]. split; [|split; [done|lia]].
    right. left. split_and!; done || lia.
Qed.

Lemma ctx_disjoint k t :
  NoDup (inorder (plug k t)) ->
  NoDup (inorder t) /\ forall x, x ∈ left_of k ++ right_of k -> x ∉ inorder t.
Proof.
  rewrite plug_inorder. intros (_ & Hl & (Ht & Hr & _)%NoDup_app)%NoDup_app. split; [done|].
  intros x [Hx|Hx]%elem_of_app Hin; [apply (Hl x Hx), elem_of_app; by left|by apply (Hr x)].
Qed.

Lemma par_of_ok h x k : rep_ctx h x k -> par_ok (par_of k).
Proof. destruct k as [|[] k]; simpl; [intros _; apply par_0| |]; intros (_ & ? & _); by apply addr_par. Qed.

Lemma crumb_in c k : crumb_addr c ∈ left_of (c :: k) ++ right_of (c :: k).
Proof. destruct c; simpl; rewrite !elem_of_app, !elem_of_cons; auto. Qed.

Lemma in_plug x k t : x ∈ inorder (plug k t) <-> x ∈ left_of k ++ right_of k \/ x ∈ inorder t.
Proof. rewrite plug_inorder, !elem_of_app. tauto. Qed.

(** The two children of a node are not the same node. *)
Lemma roots_differ h par l a b r :
  rep h par (T l a b r) -> NoDup (inorder (T l a b r)) -> l <> E \/ r <> E -> root_of l <> root_of r.
Proof.
  intros (_ & _ & _ & Hl & Hr) (_ & _ & _ & _ & Hd)%nodup_node Hne Heq.
  destruct l as [|ll c lb lr], r as [|rl d rb rr]; [by destruct Hne|..].
  - simpl in *. destruct Hr as (_ & [? _] & _). lia.
  - simpl in *. destruct Hl as (_ & [? _] & _). lia.
  - apply (Hd c); [by apply (root_of_in (T ll c lb lr))|]. simpl in Heq. subst d. by apply (root_of_in (T rl c rb rr)).
Qed.

(** Writing another subtree root into the parent. *)
Definition link (c : crumb) (y : Z) h : dev_outcome avl_heap :=
  match c with CL a _ _ => avl_set_left a y h | CR _ a _ => avl_set_right a y h end.

Lemma ctx_nodup c k :
  NoDup (left_of (c :: k) ++ right_of (c :: k)) ->
  (crumb_addr c ∉ left_of k ++ right_of k) /\
  (crumb_addr c ∉ match c with CL _ _ r => inorder r | CR l _ _ => inorder l end).
Proof.
  destruct c as [a b r|l a b]; cbn [left_of right_of crumb_addr].
  - intros (_ & Hd & ((Ha & Hb)%not_elem_of_app & _)%NoDup_cons)%NoDup_app. split; [|done].
    intros [Hx|Hx]%elem_of_app; [|done]. apply (Hd a Hx). left.
  - rewrite <- !app_assoc. intros (_ & Hd & (_ & Hl & Hr)%NoDup_app)%NoDup_app. split.
    + intros [Hx|Hx]%elem_of_app; [apply (Hd a Hx), elem_of_app; right; left|].
      apply NoDup_cons in Hr as [Hr _]. done.
    + intros Hx. apply (Hl a Hx). left.
Qed.

Lemma link_rep h x y c k :
  rep_ctx h x (c :: k) -> NoDup (left_of (c :: k) ++ right_of (c :: k)) ->
  exists h', link c y h = Ret h' /\ rep_ctx h' y (c :: k) /\ forall z, z <> crumb_addr c -> h' !! z = h !! z.
Proof.
  intros Hk (Ha & Hb)%ctx_nodup. destruct c as [a b r|l a b]; destruct Hk as (Hna & Hok & Hbr & Hr & Hk);
    cbn [link crumb_addr] in *; [rewrite (set_left_eq _ _ _ _ _ _ Hna)|rewrite (set_right_eq _ _ _ _ _ _ Hna)];
    (eexists; split; [done|]; split; [|intros z Hz; by apply lookup_insert_ne]);
    (split; [apply lookup_insert_eq|]; split; [done|]; split; [done|]; split; [by apply rep_insert|]);
    (eapply rep_ctx_frame; [|exact Hk]); intros z Hz; apply lookup_insert_ne; by intros ->.
Qed.

Lemma nodup_ctx k t : NoDup (inorder (plug k t)) -> NoDup (left_of k ++ right_of k).
Proof.
  rewrite plug_inorder. intros (Hl & Hd & (_ & _ & Hr)%NoDup_app)%NoDup_app. apply NoDup_app.
  split; [done|]. split; [|done]. intros x Hx Hin. apply (Hd x Hx), elem_of_app. by right.
Qed.

(** Replacing the subtree in the memory of its context. *)
Lemma plug_replace h c k t t' :
  rep h (crumb_addr c) t' -> rep_ctx h (root_of t) (c :: k) ->
  NoDup (inorder (plug (c :: k) t)) -> crumb_addr c ∉ inorder t' ->
  exists h', link c (root_of t') h = Ret h' /\
    rep h' 0 (plug (c :: k) t') /\ forall x, x <> crumb_addr c -> h' !! x = h !! x.
Proof.
  intros Ht' Hk Hnd Ha. destruct (link_rep h (root_of t) (root_of t') c k Hk (nodup_ctx _ _ Hnd)) as (h' & E' & Hk' & Hf).
  exists h'. split; [done|]. split; [|done]. apply rep_plug. split; [|done].
  eapply rep_frame; [|exact Ht']. intros x Hx. apply Hf. by intros ->.
Qed.

Lemma lookup_crumb h x c k : rep_ctx h x (c :: k) -> exists np, h !! crumb_addr c = Some np /\ crumb_addr c <> 0.
Proof.
  destruct c as [a b r|l a b]; simpl; intros (Ha & [? _] & _); rewrite Ha; (eexists; split; [done|lia]).
Qed.

(** What the loop reads of the rebalanced subtree and of its parent. *)
Lemma read_back h c k t :
  rep h 0 (plug (c :: k) t) -> NoDup (inorder (plug (c :: k) t)) -> t <> E ->
  exists n np, h !! root_of t = Some n /\ h !! crumb_addr c = Some np /\
    ((nd_left n =? 0) && (nd_right n =? 0)) = is_leaf t /\ avl_bf n = bf_of t /\ avl_parent n = crumb_addr c /\
    (nd_left np =? root_of t) = match c with CL _ _ _ => true | CR _ _ _ => false end /\
    (nd_right np =? root_of t) = match c with CL _ _ _ => false | CR _ _ _ => true end.
Proof.
  intros Hrep Hnd Hne. pose proof (proj1 (rep_plug _ _ _) Hrep) as [Ht Hk].
  pose proof (par_of_ok _ _ _ Hk) as Hp. destruct (ctx_disjoint k _ Hnd) as [Hnd1 _].
  pose proof (proj1 (rep_plug _ k _) Hrep) as [Ht1 _].
  destruct t as [|l a b r]; [done|]. pose proof Ht as (Ha & Haok & Hb & Hl & Hr). cbn [root_of].
  destruct (lookup_crumb _ _ _ _ Hk) as (np & Hnp & _). eexists _, np. split; [exact Ha|]. split; [exact Hnp|].
  rewrite bf_pack, parent_pack by done. split; [|split; [done|split; [done|]]].
  - cbn [nd_left nd_right]. destruct l as [|? c1 ? ?], r as [|? c2 ? ?]; cbn [root_of is_leaf]; try done.
    + simpl in Hr. destruct Hr as (_ & [? _] & _). simpl. apply Z.eqb_neq. lia.
    + simpl in Hl. destruct Hl as (_ & [? _] & _). simpl. rewrite andb_true_r. apply Z.eqb_neq. lia.
    + simpl in Hl. destruct Hl as (_ & [? _] & _). simpl. rewrite (proj2 (Z.eqb_neq _ _)) by lia. done.
  - destruct c as [a' b' r'|l' a' b']; simpl in Hk, Hnp, Ht1, Hnd1; destruct Hk as (Hna & _);
      rewrite Hna in Hnp; injection Hnp as <-; cbn [nd_left nd_right].
    + split; [apply Z.eqb_refl|]. apply Z.eqb_neq, not_eq_sym, (roots_differ h (par_of k) (T l a b r) a' b' r'); auto.
    + split; [|apply Z.eqb_refl]. apply Z.eqb_neq, (roots_differ h (par_of k) l' a' b' (T l a b r)); auto.
Qed.

Lemma off_by_node bf t : off_by bf t -> t <> E.
Proof. by destruct t. Qed.

(** The part of a turn of [balance_up] that rebalances the subtree. *)
Lemma balance_child h c k t bf np :
  rep h 0 (plug (c :: k) t) -> NoDup (inorder (plug (c :: k) t)) -> off_by bf t ->
  h !! crumb_addr c = Some np ->
  exists h',
    (if nd_right np =? root_of t then
       '(node, h) ← _balance_tree (root_of t) bf h; h ← avl_set_right (crumb_addr c) node h; Ret (node, h)
     else
       '(node, h) ← _balance_tree (root_of t) bf h; h ← avl_set_left (crumb_addr c) node h; Ret (node, h)) =
      Ret (root_of (bal t), h') /\
    rep h' 0 (plug (c :: k) (bal t)) /\ same_but (plug (c :: k) t) h h'.
Proof.
  intros Hrep Hnd Hoff Hnp. pose proof (proj1 (rep_plug _ _ _) Hrep) as [Ht Hk].
  destruct (ctx_disjoint _ _ Hnd) as [Hndt Hd].
  destruct (balance_tree_rep h (crumb_addr c) t bf Ht) as (h1 & E1 & Hrep1 & Hs1);
    [by apply (par_of_ok h (root_of t) (c :: k))|done..|].
  assert (Hk1 : rep_ctx h1 (root_of t) (c :: k)).
  { eapply rep_ctx_frame; [|exact Hk]. intros x Hx. by apply Hs1, Hd. }
  destruct (plug_replace h1 c k t (bal t) Hrep1 Hk1 Hnd) as (h2 & E2 & Hrep2 & Hf2);
    [rewrite bal_inorder; apply Hd, crumb_in|].
  exists h2. rewrite E1. cbn [mbind dev_outcome_bind]. split; [|split; [done|]].
  - destruct (read_back h c k t Hrep Hnd (off_by_node bf t Hoff)) as (_ & np' & _ & Hnp' & _ & _ & _ & _ & Hside).
    rewrite Hnp in Hnp'. injection Hnp' as <-. rewrite Hside. unfold link in E2. by destruct c; cbn [crumb_addr]; rewrite E2.
  - intros x Hx. rewrite in_plug in Hx. rewrite Hf2; [apply Hs1; tauto|]. intros ->.
    apply Hx. left. apply crumb_in.
Qed.

Lemma off_by_bf bf t : off_by bf t -> -1 <= bf_of t <= 1.
Proof. destruct t; [done|]. by intros (_ & _ & _ & _ & ?). Qed.

Lemma avl_bf_of t : avl t -> -1 <= bf_of t <= 1.
Proof. destruct t; simpl; [lia|]. by intros (_ & ? & _). Qed.

Lemma was_height s bf t H : was s bf t H -> 0 <= H.
Proof. destruct t as [|l a b r]; [done|]. pose proof (height_nonneg l). pose proof (height_nonneg r). simpl. lia. Qed.

Definition pass_on (s : Z) (c : crumb) : Z := match c with CL _ _ _ => - s | CR _ _ _ => s end.

(** A turn of the loop below the root. *)
Lemma balance_turn s fuel c k t bf h tr :
  s = 1 \/ s = -1 -> rep h 0 (plug (c :: k) t) -> NoDup (inorder (plug (c :: k) t)) -> off_by bf t ->
  exists h', balance_up (- s) (cascade s) (S fuel) (root_of t) bf tr h =
      (if passes s t then balance_up (- s) (cascade s) fuel (crumb_addr c) (pass_on s c) tr h'
       else Ret (root_of (bal t), tr, h')) /\
    rep h' 0 (plug (c :: k) (bal t)) /\ same_but (plug (c :: k) t) h h'.
Proof.
  intros Hs Hrep Hnd Hoff. pose proof (off_by_node bf t Hoff) as Hne.
  destruct (bal_avl bf t Hoff) as [Hbal (l' & a' & b' & r' & Hbt)].
  destruct (read_back h c k t Hrep Hnd Hne) as (n & np & Hn & Hnp & _ & Hbf & Hpar & _).
  pose proof (proj1 (rep_plug _ _ _) Hrep) as [Ht Hctx].
  destruct (lookup_crumb _ _ _ _ Hctx) as (_ & _ & Hc0).
  destruct (balance_child h c k t bf np Hrep Hnd Hoff Hnp) as (h1 & E1 & Hrep1 & Hs1).
  destruct (read_back h1 c k (bal t) Hrep1) as (n1 & np1 & Hn1 & Hnp1 & Hleaf & Hbf1 & _ & Hside & _);
    [by rewrite plug_inorder, bal_inorder, <- plug_inorder|by rewrite Hbt|].
  exists h1. split; [|done]. cbn [balance_up].
  rewrite (proj2 (Z.eqb_neq (root_of t) 0)) by (intros E0; by apply Hne, (root_of_0 _ _ _ Ht)).
  heap_read ltac:(exact Hn). rewrite Hpar, (proj2 (Z.eqb_neq _ _) Hc0). cbn [negb].
  heap_read ltac:(exact Hnp). rewrite E1. cbn [mbind dev_outcome_bind].
  rewrite (load_eq _ _ _ Hn1), (load_eq _ _ _ Hnp1). cbn [mbind dev_outcome_bind].
  pose proof (off_by_bf bf t Hoff). pose proof (avl_bf_of _ Hbal).
  rewrite Hleaf, Hside, Hbf, Hbf1, !abs_bf by lia. unfold passes.
  replace (if (match c with CL _ _ _ => true | CR _ _ _ => false end) then - s else - - s) with (pass_on s c)
    by (destruct c; simpl; lia).
  pose proof (proj2 (Z.eqb_neq (pass_on s c) 0) ltac:(destruct c, Hs; simpl; subst; lia)) as Hnz.
  destruct (is_leaf (bal t)); cbn [orb]; [by rewrite Hnz|]. destruct (cascade _ _ _); by rewrite ?Hnz.
Qed.

(** From a subtree that one child has made too high or too low, up to the root. *)
Lemma balance_up_rep s fuel k : s = 1 \/ s = -1 -> (length k < fuel)%nat ->
  forall t bf H h tr,
  rep h 0 (plug k t) -> NoDup (inorder (plug k t)) -> off_by bf t -> was s bf t H -> ctx_avl k H ->
  tr_root tr = root_of (plug k t) ->
  exists ret h' t', balance_up (- s) (cascade s) fuel (root_of t) bf tr h =
      Ret (ret, AvlTree (root_of t') (tr_aux tr), h') /\
    rep h' 0 t' /\ avl t' /\ inorder t' = inorder (plug k t) /\ same_but (plug k t) h h'.
Proof.
  intros Hs. revert fuel. induction k as [|c k IH]; intros [|fuel] Hf t bf H h tr Hrep Hnd Hoff Hw Hk Hroot;
    try (simpl in Hf; lia); destruct (bal_avl bf t Hoff) as [Hbal _].
  - destruct t as [|l a b r]; [done|]. cbn [plug] in *. pose proof Hrep as (Ha & Haok & Hb & _). cbn [root_of] in *.
    destruct (balance_tree_rep h 0 (T l a b r) bf Hrep par_0 Hnd Hoff) as (h' & E' & Hrep' & Hs'). cbn [balance_up].
    destruct (Z.eqb_spec a 0) as [->|_]; [destruct Haok; lia|]. heap_read ltac:(exact Ha).
    rewrite parent_pack by (done || apply par_0). simpl negb. cbv iota. rewrite Hroot, Z.eqb_refl.
    cbn [root_of] in E'. rewrite E'. cbn [mbind dev_outcome_bind]. eexists a, h', (bal (T l a b r)).
    split; [done|]. split; [done|]. split; [done|]. split; [apply bal_inorder|done].
  - destruct (balance_turn s fuel c k t bf h tr Hs Hrep Hnd Hoff) as (h1 & E1 & Hrep1 & Hs1). rewrite E1.
    assert (Hin1 : inorder (plug (c :: k) (bal t)) = inorder (plug (c :: k) t)) by (by rewrite !plug_inorder, bal_inorder).
    pose proof (bal_step s bf t H Hs Hoff Hw) as Hh. pose proof (grown_step s bf t H) as Hg.
    fold (passes s t) in Hh. destruct (passes s t).
    + destruct (passed_on s c k (bal t) H Hk Hbal Hh) as (H' & Hoff' & Hw' & Hk' & _);
        [by eapply was_height|by intros ->; apply Hg|done|]. fold (pass_on s c) in Hoff', Hw'.
      replace (crumb_addr c) with (root_of (plug1 c (bal t))) by (by destruct c).
      destruct (IH fuel ltac:(simpl in Hf; lia) (plug1 c (bal t)) (pass_on s c) H' h1 tr Hrep1)
        as (ret & h' & t' & E' & Hr' & Ha' & Hi' & Hs');
        [by change (NoDup (inorder (plug (c :: k) (bal t)))); rewrite Hin1|done..| |].
      { rewrite Hroot. by apply (root_of_plug (c :: k)). }
      exists ret, h', t'. split; [exact E'|]. split; [done|]. split; [done|].
      split; [by rewrite Hi', <- Hin1|]. eapply same_but_trans; [exact Hs1|exact Hs'|].
      by change (inorder (plug (c :: k) (bal t)) ⊆ inorder (plug (c :: k) t)); rewrite Hin1.
    + rewrite Z.add_0_r in Hh. eexists _, h1, (plug (c :: k) (bal t)).
      split; [|split; [done|split; [apply avl_plug; by rewrite Hh|by split]]].
      do 3 f_equal. destruct tr as [rt aux]. simpl in *. f_equal. rewrite Hroot. by apply (root_of_plug (c :: k)).
Qed.

(** ** Walks *)

Lemma height_inorder t : height t <= Z.of_nat (length (inorder t)).
Proof. induction t as [|l IHl a b r IHr]; simpl; [done|]. rewrite length_app. simpl. lia. Qed.

(** A tree has no more nodes than the memory. *)
Lemma rep_size h par t : rep h par t -> NoDup (inorder t) -> (length (inorder t) <= size h)%nat.
Proof.
  intros Hr Hnd. rewrite <- size_dom, <- (size_list_to_set (C := gset Z)) by done. apply subseteq_size.
  intros x. rewrite elem_of_list_to_set, elem_of_dom. intros Hx. by apply (rep_addr _ _ _ _ Hr).
Qed.

Lemma plug_length k t : (length k + length (inorder t) <= length (inorder (plug k t)))%nat.
Proof.
  revert t. induction k as [|c k IH]; intros t; simpl; [done|]. specialize (IH (plug1 c t)).
  destruct c; simpl in *; rewrite length_app in IH; simpl in IH; lia.
Qed.

Lemma root_nonzero h par l a b r : rep h par (T l a b r) -> (a =? 0) = false.
Proof. intros (_ & [? _] & _). apply Z.eqb_neq. lia. Qed.

Lemma walk_left_rep fuel h par t p :
  rep h par t -> (Z.to_nat (height t) <= fuel)%nat ->
  walk_left fuel p (root_of t) h = Ret (default p (head (inorder t))).
Proof.
  revert fuel par p. induction t as [|l IHl a b r _]; intros fuel par p Hr Hf; [by destruct fuel|].
  pose proof (height_nonneg l). pose proof (height_nonneg r). destruct fuel as [|fuel]; [simpl in Hf; lia|].
  cbn [walk_left root_of]. rewrite (root_nonzero _ _ _ _ _ _ Hr). destruct Hr as (Ha & _ & _ & Hl & _).
  rewrite (load_eq _ _ _ Ha). cbn [mbind dev_outcome_bind nd_left].
  rewrite (IHl fuel a a Hl) by (simpl in Hf; lia). simpl. by destruct (inorder l).
Qed.

Lemma walk_right_rep fuel h par t p :
  rep h par t -> (Z.to_nat (height t) <= fuel)%nat ->
  walk_right fuel p (root_of t) h = Ret (default p (last (inorder t))).
Proof.
  revert fuel par p. induction t as [|l _ a b r IHr]; intros fuel par p Hr Hf; [by destruct fuel|].
  pose proof (height_nonneg l). pose proof (height_nonneg r). destruct fuel as [|fuel]; [simpl in Hf; lia|].
  cbn [walk_right root_of]. rewrite (root_nonzero _ _ _ _ _ _ Hr). destruct Hr as (Ha & _ & _ & _ & Hr).
  rewrite (load_eq _ _ _ Ha). cbn [mbind dev_outcome_bind nd_right].
  rewrite (IHr fuel a a Hr) by (simpl in Hf; lia). cbn [inorder]. rewrite last_app, last_cons. by destruct (last (inorder r)).
Qed.

Lemma climb_left_rep fuel h k t :
  rep h 0 (plug k t) -> NoDup (inorder (plug k t)) -> t <> E -> (length k <= fuel)%nat ->
  climb nd_left fuel (root_of t) (par_of k) h = Ret (default 0 (head (right_of k))).
Proof.
  revert fuel t. induction k as [|c k IH]; intros fuel t Hr Hnd Hne Hf; [by destruct fuel|].
  destruct (read_back h c k t Hr Hnd Hne) as (_ & np & _ & Hnp & _ & _ & _ & Hside & _).
  pose proof (proj1 (rep_plug _ _ _) Hr) as [_ Hk].
  destruct (lookup_crumb _ _ _ _ Hk) as (_ & _ & Hc0). destruct fuel as [|fuel]; [simpl in Hf; lia|].
  cbn [climb par_of]. rewrite (proj2 (Z.eqb_neq _ _) Hc0), (load_eq _ _ _ Hnp). cbn [mbind dev_outcome_bind].
  rewrite Hside. destruct c as [a b r|l a b]; [done|]. cbn [crumb_addr right_of].
  simpl in Hk, Hnp. destruct Hk as (Hna & _ & Hb & _ & Hk). rewrite Hna in Hnp. injection Hnp as <-.
  rewrite parent_pack by (done || by eapply par_of_ok). apply (IH fuel (T l a b t)); [done..|simpl in Hf; lia].
Qed.

Lemma climb_right_rep fuel h k t :
  rep h 0 (plug k t) -> NoDup (inorder (plug k t)) -> t <> E -> (length k <= fuel)%nat ->
  climb nd_right fuel (root_of t) (par_of k) h = Ret (default 0 (last (left_of k))).
Proof.
  revert fuel t. induction k as [|c k IH]; intros fuel t Hr Hnd Hne Hf; [by destruct fuel|].
  destruct (read_back h c k t Hr Hnd Hne) as (_ & np & _ & Hnp & _ & _ & _ & _ & Hside).
  pose proof (proj1 (rep_plug _ _ _) Hr) as [_ Hk].
  destruct (lookup_crumb _ _ _ _ Hk) as (_ & _ & Hc0). destruct fuel as [|fuel]; [simpl in Hf; lia|].
  cbn [climb par_of]. rewrite (proj2 (Z.eqb_neq _ _) Hc0), (load_eq _ _ _ Hnp). cbn [mbind dev_outcome_bind].
  rewrite Hside. destruct c as [a b r|l a b]; [|cbn [left_of]; by rewrite app_assoc, last_snoc].
  cbn [crumb_addr left_of]. simpl in Hk, Hnp. destruct Hk as (Hna & _ & Hb & _ & Hk). rewrite Hna in Hnp. injection Hnp as <-.
  rewrite parent_pack by (done || by eapply par_of_ok). apply (IH fuel (T t a b r)); [done..|simpl in Hf; lia].
Qed.

(** Every node of a tree has its place. *)
Lemma focus a t : a ∈ inorder t -> exists k l b r, t = plug k (T l a b r).
Proof.
  induction t as [|l IHl c b r IHr]; simpl; [by intros ?%not_elem_of_nil|].
  intros [Hl|[->|Hr]%elem_of_cons]%elem_of_app; [|by exists [], l, b, r|].
  - destruct (IHl Hl) as (k & l' & b' & r' & ->). exists (k ++ [CL c b r]), l', b', r'.
    generalize (T l' a b' r'). clear. induction k as [|d k IH]; intros t; simpl; [done|apply IH].
  - destruct (IHr Hr) as (k & l' & b' & r' & ->). exists (k ++ [CR l c b]), l', b', r'.
    generalize (T l' a b' r'). clear. induction k as [|d k IH]; intros t; simpl; [done|apply IH].
Qed.

(** The tree [t] is in memory, in order; [tr] is its header. *)
Definition tree_in h tr t : Prop :=
  rep h 0 t /\ avl t /\ NoDup (inorder t) /\ tr_root tr = root_of t.

Lemma fuel_height h par t : rep h par t -> NoDup (inorder t) -> (Z.to_nat (height t) <= size h)%nat.
Proof. intros Hr Hnd. pose proof (height_inorder t). pose proof (rep_size _ _ _ Hr Hnd). lia. Qed.

Lemma fuel_ctx h k t : rep h 0 (plug k t) -> NoDup (inorder (plug k t)) -> t <> E -> (length k < size h)%nat.
Proof.
  intros Hr Hnd Hne. pose proof (rep_size _ _ _ Hr Hnd). pose proof (plug_length k t).
  destruct t; [done|]. simpl in *. rewrite length_app in *. simpl in *. lia.
Qed.

Lemma nodup_split (a : Z) L R L' R' : NoDup (L ++ a :: R) -> L ++ a :: R = L' ++ a :: R' -> L = L' /\ R = R'.
Proof.
  revert L'. induction L as [|x L IH]; intros [|y L'] Hnd E'; simpl in *.
  - by injection E' as ->.
  - injection E' as -> ->. apply NoDup_cons in Hnd as [Hn _]. destruct Hn. apply elem_of_app. right. left.
  - injection E' as <- E'. apply NoDup_cons in Hnd as [Hn _]. destruct Hn. apply elem_of_app. right. left.
  - injection E' as <- E'. apply NoDup_cons in Hnd as [_ Hnd]. destruct (IH L' Hnd E') as [-> ->]. done.
Qed.

(** A node of the tree, with its neighbours in order. *)
Lemma focus_split t L a R :
  NoDup (inorder t) -> inorder t = L ++ a :: R ->
  exists k l b r, t = plug k (T l a b r) /\ L = left_of k ++ inorder l /\ R = inorder r ++ right_of k.
Proof.
  intros Hnd HL. destruct (focus a t) as (k & l & b & r & ->); [rewrite HL; apply elem_of_app; right; left|].
  assert (E' : inorder (plug k (T l a b r)) = (left_of k ++ inorder l) ++ a :: (inorder r ++ right_of k)).
  { rewrite plug_inorder. simpl. by rewrite <- !app_assoc. }
  exists k, l, b, r. split; [done|]. apply (nodup_split a); [by rewrite <- HL|by rewrite <- HL].
Qed.

Lemma node_at h k l a b r :
  rep h 0 (plug k (T l a b r)) ->
  h !! a = Some (AvlNode (pack (par_of k) b) (root_of l) (root_of r)) /\ (a =? 0) = false /\
  rep h a l /\ rep h a r /\ par_ok (par_of k) /\ -1 <= b <= 2 /\ rep_ctx h a k.
Proof.
  intros [Ht Hk]%rep_plug. pose proof (root_nonzero _ _ _ _ _ _ Ht).
  destruct Ht as (Ha & Hok & Hb & Hl & Hr). split_and!; try done; try lia. by eapply par_of_ok.
Qed.

Lemma nodup_focus k l a b r :
  NoDup (inorder (plug k (T l a b r))) -> NoDup (inorder l) /\ NoDup (inorder r).
Proof. intros (Hnd & _)%ctx_disjoint. by apply nodup_node in Hnd as (? & ? & _). Qed.

Lemma avl_next_rep h tr t L a R :
  tree_in h tr t -> inorder t = L ++ a :: R -> avl_next a h = Ret (default 0 (head R)).
Proof.
  intros (Hr & _ & Hnd & _) HL. destruct (focus_split t L a R Hnd HL) as (k & l & b & r & -> & -> & ->).
  destruct (node_at _ _ _ _ _ _ Hr) as (Ha & Ha0 & _ & Hrr & Hp & Hb & Hk).
  unfold avl_next. rewrite Ha0, (load_eq _ _ _ Ha). cbn [mbind dev_outcome_bind nd_right].
  destruct r as [|rl c rb rr].
  - cbn [root_of]. rewrite Z.eqb_refl. cbn [negb inorder]. rewrite parent_pack by done. cbn [app].
    destruct k as [|d k]; [done|]. destruct (lookup_crumb _ _ _ _ Hk) as (_ & _ & Hc0).
    cbn [par_of]. rewrite (proj2 (Z.eqb_neq _ _) Hc0). cbn [negb].
    apply (climb_left_rep (size h) h (d :: k) (T l a b E)); [done..|].
    pose proof (fuel_ctx h (d :: k) _ Hr Hnd ltac:(done)). lia.
  - cbn [root_of]. rewrite (root_nonzero _ _ _ _ _ _ Hrr). cbn [negb].
    pose proof (walk_left_rep (size h) h a (T rl c rb rr) a Hrr) as Hw. cbn [root_of] in Hw. rewrite Hw.
    + f_equal. simpl. by destruct (inorder rl).
    + eapply fuel_height; [exact Hrr|by apply nodup_focus in Hnd as [_ ?]].
Qed.

Lemma avl_prev_rep h tr t L a R :
  tree_in h tr t -> inorder t = L ++ a :: R -> avl_prev a h = Ret (default 0 (last L)).
Proof.
  intros (Hr & _ & Hnd & _) HL. destruct (focus_split t L a R Hnd HL) as (k & l & b & r & -> & -> & ->).
  destruct (node_at _ _ _ _ _ _ Hr) as (Ha & Ha0 & Hrl & _ & Hp & Hb & Hk).
  unfold avl_prev. rewrite Ha0, (load_eq _ _ _ Ha). cbn [mbind dev_outcome_bind nd_left].
  destruct l as [|ll c lb lr].
  - cbn [root_of]. rewrite Z.eqb_refl. cbn [negb inorder]. rewrite parent_pack, app_nil_r by done.
    destruct k as [|d k]; [done|]. destruct (lookup_crumb _ _ _ _ Hk) as (_ & _ & Hc0).
    cbn [par_of]. rewrite (proj2 (Z.eqb_neq _ _) Hc0). cbn [negb].
    apply (climb_right_rep (size h) h (d :: k) (T E a b r)); [done..|].
    pose proof (fuel_ctx h (d :: k) _ Hr Hnd ltac:(done)). lia.
  - cbn [root_of]. rewrite (root_nonzero _ _ _ _ _ _ Hrl). cbn [negb].
    pose proof (walk_right_rep (size h) h a (T ll c lb lr) a Hrl) as Hw. cbn [root_of] in Hw. rewrite Hw.
    + f_equal. rewrite last_app. destruct (last (inorder (T ll c lb lr))) eqn:El; [done|].
      by apply last_None, app_nil in El as [_ ?].
    + eapply fuel_height; [exact Hrl|by apply nodup_focus in Hnd as [? _]].
Qed.
