(* ===== verification/AvlInsert.v ===== *)
(** * Searching and inserting

    The search of [AvlTree] from the root down, as a search in the ordered list of
    the nodes, and [avl_insert], which puts its node at its place in that list and
    keeps the tree balanced. *)

From stdpp Require Import base numbers list gmap sorting.
From S2P Require Import Prelude.
From S2P Require Import AvlTree.
From S2P Require Import AvlSpec.
From S2P Require Import AvlOps.

Implicit Types (t l r : tree) (h : avl_heap) (k : ctx) (tr : avl_tree).

(** ** Order *)

Section order.
Variable func : Z -> Z -> Z -> Z.
Variable key : Z -> Z.

(** The comparison of nodes of [L] with [node] is that of their keys. *)
Definition compares (aux node : Z) (L : list Z) : Prop :=
  forall a, a ∈ L -> Z.sgn (func a node aux) = Z.sgn (key a - key node).

Definition key_sorted : list Z -> Prop := StronglySorted (fun a b => key a < key b).

Lemma key_sorted_node l a b r :
  key_sorted (inorder (T l a b r)) ->
  key_sorted (inorder l) /\ key_sorted (inorder r) /\
  (forall x, x ∈ inorder l -> key x < key a) /\ (forall x, x ∈ inorder r -> key a < key x).
Proof.
  unfold key_sorted. simpl. rewrite StronglySorted_app. intros (Hd & Hl & Hr).
  inversion_clear Hr as [|? ? Hs' Hf]. rewrite Forall_forall in Hf. split_and!; try done.
  intros x Hx. apply Hd; [done|left].
Qed.

(** The search from a subtree down. *)
Lemma descend_rep fuel aux node h t : forall k,
  rep h 0 (plug k t) -> compares aux node (inorder t) -> key_sorted (inorder t) ->
  (Z.to_nat (height t) <= fuel)%nat ->
  (exists a, a ∈ inorder t /\ key a = key node /\ descend func fuel aux node (par_of k) (root_of t) h = Ret (a, a)) \/
  (exists k' L R, plug k' E = plug k t /\ inorder t = L ++ R /\ left_of k' = left_of k ++ L /\ right_of k' = R ++ right_of k /\
     (forall a, a ∈ L -> key a < key node) /\ (forall a, a ∈ R -> key node < key a) /\
     descend func fuel aux node (par_of k) (root_of t) h = Ret (par_of k', 0)).
Proof.
  revert fuel. induction t as [|l IHl a b r IHr]; intros fuel k Hrep Hc Hs Hf.
  - right. exists k, [], []. rewrite !app_nil_r. split_and!; try done; try by intros ? ?%not_elem_of_nil. by destruct fuel.
  - pose proof (height_nonneg l). pose proof (height_nonneg r). destruct fuel as [|fuel]; [simpl in Hf; lia|].
    destruct (key_sorted_node _ _ _ _ Hs) as (Hsl & Hsr & Hla & Hra).
    destruct (node_at _ _ _ _ _ _ Hrep) as (Ha & Ha0 & _). cbn [descend root_of]. rewrite Ha0, (load_eq _ _ _ Ha).
    cbn [mbind dev_outcome_bind nd_left nd_right]. pose proof (Hc a ltac:(simpl; apply elem_of_app; right; left)) as Hsg.
    destruct (Z.ltb_spec 0 (func a node aux)); [|destruct (Z.ltb_spec (func a node aux) 0)].
    + destruct (IHl fuel (CL a b r :: k) Hrep) as [(x & Hx & Hkx & E')|(k' & L & R & E1 & E2 & E3 & E4 & E5 & E6 & E')];
        [intros x Hx; apply Hc; simpl; apply elem_of_app; by left|done|simpl in Hf; lia| |].
      * left. exists x. split; [simpl; apply elem_of_app; by left|done].
      * right. exists k', L, (R ++ a :: inorder r). simpl in *. rewrite E2, <- !app_assoc. split_and!; try done.
        intros x [Hx|[->|Hx]%elem_of_cons]%elem_of_app; [by apply E6|lia|]. specialize (Hra x Hx). lia.
    + destruct (IHr fuel (CR l a b :: k) Hrep) as [(x & Hx & Hkx & E')|(k' & L & R & E1 & E2 & E3 & E4 & E5 & E6 & E')];
        [intros x Hx; apply Hc; simpl; apply elem_of_app; right; by right|done|simpl in Hf; lia| |].
      * left. exists x. split; [simpl; apply elem_of_app; right; by right|done].
      * right. exists k', (inorder l ++ a :: L), R. simpl in *. rewrite E2, E3, <- !app_assoc. split_and!; try done.
        intros x [Hx|[->|Hx]%elem_of_cons]%elem_of_app; [|lia|by apply E5]. specialize (Hla x Hx). lia.
    + left. exists a. split; [simpl; apply elem_of_app; right; left|]. split; [lia|done].
Qed.

(** The search from the root. *)
Lemma search_rep aux node h tr t :
  tree_in h tr t -> compares aux node (inorder t) -> key_sorted (inorder t) ->
  (exists a, a ∈ inorder t /\ key a = key node /\ descend func (size h) aux node 0 (tr_root tr) h = Ret (a, a)) \/
  (exists k, plug k E = t /\
     (forall a, a ∈ left_of k -> key a < key node) /\ (forall a, a ∈ right_of k -> key node < key a) /\
     descend func (size h) aux node 0 (tr_root tr) h = Ret (par_of k, 0)).
Proof.
  intros (Hr & _ & Hnd & ->) Hc Hs.
  destruct (descend_rep (size h) aux node h t [] Hr Hc Hs) as [?|(k & L & R & E1 & E2 & E3 & E4 & E5 & E6 & E')];
    [by eapply fuel_height|by left|]. right. exists k. simpl in *. rewrite app_nil_r in E4. by rewrite E3, E4.
Qed.
End order.

(** ** Insertion *)

Lemma fresh_node {A} h node n0 p (f : avl_heap -> dev_outcome A) :
  h !! node = Some n0 -> par_ok p ->
  (h ← avl_set_parent node p h; h ← avl_set_bf node 0 h; h ← avl_set_right node 0 h;
   h ← avl_set_left node 0 h; f h) = f (<[node := AvlNode (pack p 0) 0 0]> h).
Proof.
  intros Hn Hp. unfold avl_set_parent, avl_set_bf, avl_set_right, avl_set_left, avl_load.
  assert (Hlow : 0 <= Z.land (nd_parent n0) 3 < 4).
  { change 3 with (Z.ones 2). rewrite Z.land_ones by lia. apply Z.mod_pos_bound. lia. }
  rewrite Hn. cbn [mbind dev_outcome_bind]. rewrite !lookup_insert_eq. cbn [mbind dev_outcome_bind].
  rewrite !lookup_insert_eq. cbn [mbind dev_outcome_bind]. rewrite !lookup_insert_eq.
  cbn [mbind dev_outcome_bind nd_parent nd_left nd_right]. rewrite !insert_insert_eq. do 3 f_equal.
  unfold avl_parent. cbn [nd_parent]. change (u64 (0 + 1)) with 1. rewrite (lor_low p (Z.land _ _)), land_high by done.
  by rewrite lor_low by (done || lia).
Qed.

(** The new leaf below the last node of the search. *)
Lemma attach_leaf h k node :
  rep h 0 (plug k E) -> NoDup (inorder (plug k E)) -> addr_ok node -> node ∉ inorder (plug k E) ->
  let h1 := <[node := AvlNode (pack (par_of k) 0) 0 0]> h in
  exists h2, (match k with [] => Ret h1 | c :: _ => link c node h1 end) = Ret h2 /\
    rep h2 0 (plug k (T E node 0 E)) /\ same_but (plug k (T E node 0 E)) h h2.
Proof.
  intros Hrep Hnd Hok Hn h1. pose proof (proj1 (rep_plug _ _ _) Hrep) as [_ Hk].
  rewrite in_plug in Hn. apply Decidable.not_or in Hn as [Hn _].
  assert (Hleaf : rep h1 (par_of k) (T E node 0 E)).
  { simpl. split; [apply lookup_insert_eq|]. split_and!; done || lia. }
  assert (Hk1 : rep_ctx h1 0 k).
  { eapply rep_ctx_frame; [|exact Hk]. intros x Hx. apply lookup_insert_ne. by intros ->. }
  assert (Hf1 : forall x, x ∉ inorder (plug k (T E node 0 E)) -> h1 !! x = h !! x).
  { intros x Hx. apply lookup_insert_ne. intros ->. apply Hx, in_plug. right. left. }
  destruct k as [|c k]; [by exists h1|].
  destruct (plug_replace h1 c k E (T E node 0 E) Hleaf Hk1 Hnd) as (h2 & E2 & Hrep2 & Hf2).
  { intros Hx%list_elem_of_singleton. apply Hn. rewrite <- Hx. apply crumb_in. }
  exists h2. split; [done|]. split; [done|]. intros x Hx. rewrite Hf2; [by apply Hf1|].
  intros ->. apply Hx, in_plug. left. apply crumb_in.
Qed.

(** The comparison made again to choose the side gives the side of the search. *)
Lemma link_side func key aux node h x c k h1 :
  rep_ctx h x (c :: k) -> compares func key aux node (left_of (c :: k) ++ right_of (c :: k)) ->
  (forall a, a ∈ left_of (c :: k) -> key a < key node) -> (forall a, a ∈ right_of (c :: k) -> key node < key a) ->
  (if 0 <? func (crumb_addr c) node aux then avl_set_left (crumb_addr c) node h1
   else avl_set_right (crumb_addr c) node h1) = link c node h1.
Proof.
  intros Hk Hc HL HR. pose proof (Hc _ (crumb_in c k)) as Hsg. destruct c as [a b r|l a b]; cbn [crumb_addr link] in *.
  - pose proof (HR a ltac:(left)). by rewrite (proj2 (Z.ltb_lt _ _)) by lia.
  - pose proof (HL a ltac:(simpl; apply elem_of_app; right; apply elem_of_app; right; left)).
    by rewrite (proj2 (Z.ltb_ge _ _)) by lia.
Qed.

Lemma avl_insert_rep func key h tr t node n0 :
  tree_in h tr t -> key_sorted key (inorder t) -> compares func key (tr_aux tr) node (inorder t) ->
  addr_ok node -> h !! node = Some n0 ->
  (exists a, a ∈ inorder t /\ key a = key node /\ avl_insert func tr node h = Ret (a, tr, h)) \/
  (exists ret tr' h' t' L R, avl_insert func tr node h = Ret (ret, tr', h') /\ tr_aux tr' = tr_aux tr /\
     tree_in h' tr' t' /\ inorder t = L ++ R /\ inorder t' = L ++ node :: R /\
     (forall a, a ∈ L -> key a < key node) /\ (forall a, a ∈ R -> key node < key a) /\ same_but t' h h').
Proof.
  intros Hin Hs Hc Hok Hn0. unfold avl_insert.
  destruct (search_rep func key (tr_aux tr) node h tr t Hin Hc Hs) as [(a & Ha & Hka & ->)|(k & <- & HL & HR & ->)].
  { left. exists a. split; [done|]. split; [done|]. cbn [mbind dev_outcome_bind].
    destruct Hin as (Hr & _). destruct (rep_addr _ _ _ _ Hr Ha) as [[? _] _]. by rewrite (proj2 (Z.eqb_neq a 0)) by lia. }
  right. destruct Hin as (Hrep & Havl & Hnd & Hroot). pose proof (proj1 (rep_plug _ _ _) Hrep) as [_ Hk].
  assert (Hi0 : inorder (plug k E) = left_of k ++ right_of k) by (by rewrite plug_inorder).
  assert (Hn : node ∉ inorder (plug k E)).
  { rewrite Hi0. intros [Hx%HL|Hx%HR]%elem_of_app; lia. }
  destruct (attach_leaf h k node Hrep Hnd Hok Hn) as (h2 & E2 & Hrep2 & Hs2).
  assert (Hi : inorder (plug k (T E node 0 E)) = left_of k ++ node :: right_of k) by (by rewrite plug_inorder).
  assert (Hnd2 : NoDup (inorder (plug k (T E node 0 E)))).
  { rewrite Hi, <- Permutation_middle, <- Hi0. by apply NoDup_cons. }
  set (tr2 := AvlTree (root_of (plug k (T E node 0 E))) (tr_aux tr)).
  destruct (balance_up_rep 1 (size h2) k ltac:(by left) (fuel_ctx h2 k _ Hrep2 Hnd2 ltac:(done))
    (T E node 0 E) 0 0 h2 tr2 Hrep2 Hnd2) as (ret & h' & t' & E' & Hrep' & Havl' & Hi' & Hs').
  { simpl. split_and!; done || lia. }
  { right. right. done. }
  { by apply avl_plug in Havl as [_ ?]. }
  { done. }
  exists ret, (AvlTree (root_of t') (tr_aux tr)), h', t', (left_of k), (right_of k).
  split; [|split; [done|split; [by split_and!; rewrite ?Hi'|]]].
  - cbn [mbind dev_outcome_bind negb Z.eqb]. rewrite fresh_node with (n0 := n0); [|done|by eapply par_of_ok].
    destruct k as [|c k]; cbn [par_of] in *.
    + simpl negb. cbv iota. cbn [mbind dev_outcome_bind]. injection E2 as ->. exact E'.
    + destruct (lookup_crumb _ _ _ _ Hk) as (_ & _ & Hc0). rewrite (proj2 (Z.eqb_neq _ _) Hc0). cbn [negb].
      rewrite (link_side func key (tr_aux tr) node h 0 c k), E2 by (done || by rewrite <- Hi0).
      cbn [mbind dev_outcome_bind]. replace tr with tr2; [exact E'|]. destruct tr as [rt aux]. unfold tr2. cbn in Hroot |- *.
      f_equal. rewrite Hroot. by apply (root_of_plug (c :: k)).
  - rewrite Hi', Hi. split_and!; try done. unfold same_but. rewrite Hi'. intros x Hx. by rewrite Hs', Hs2.
Qed.
