(* ===== verification/AvlRemove.v ===== *)
(** * Removing a node from the search tree

    The two cases of [avl_remove] on a tree in memory: the node leaves its place to
    its left subtree, or to the smallest node of its right subtree, and the loop
    to the root repairs the balance. *)

From stdpp Require Import base numbers list gmap sorting.
From S2P Require Import Prelude.
From S2P Require Import AvlTree.
From S2P Require Import AvlSpec.
From S2P Require Import AvlOps.

Implicit Types (t l r : tree) (h : avl_heap) (k : ctx) (tr : avl_tree).

Lemma plug_app k1 k2 t : plug (k1 ++ k2) t = plug k2 (plug k1 t).
Proof. revert t. induction k1 as [|c k1 IH]; intros t; simpl; [done|apply IH]. Qed.

Lemma left_of_app k1 k2 : left_of (k1 ++ k2) = left_of k2 ++ left_of k1.
Proof.
  induction k1 as [|[] k1 IH]; simpl; [by rewrite app_nil_r|done|]. by rewrite IH, <- app_assoc.
Qed.

Lemma right_of_app k1 k2 : right_of (k1 ++ k2) = right_of k1 ++ right_of k2.
Proof. induction k1 as [|[] k1 IH]; simpl; [done| |done]. by rewrite IH, <- app_assoc. Qed.

(** ** Taking a node with one child out *)

Lemma splice_rep h c k a s :
  rep h a s -> addr_ok a -> rep_ctx h a (c :: k) -> NoDup (inorder (plug (c :: k) s)) ->
  exists h1 h2, link c (root_of s) h = Ret h1 /\ (forall x, x <> crumb_addr c -> h1 !! x = h !! x) /\
    set_parent_if (root_of s) (crumb_addr c) h1 = Ret h2 /\ rep h2 0 (plug (c :: k) s) /\
    (forall x, x ∉ inorder (plug (c :: k) s) -> h2 !! x = h !! x).
Proof.
  intros Hs Ha Hk Hnd. destruct (ctx_disjoint _ _ Hnd) as [Hnds Hd].
  destruct (link_rep h a (root_of s) c k Hk (nodup_ctx _ _ Hnd)) as (h1 & E1 & Hk1 & Hf1).
  assert (Hs1 : rep h1 a s).
  { eapply rep_frame; [|exact Hs]. intros x Hx. apply Hf1. intros ->. by apply (Hd _ (crumb_in c k)). }
  destruct (rep_reparent h1 a (crumb_addr c) s Hs1 (addr_par _ Ha)) as (h2 & E2 & Hs2 & Hf2);
    [by apply (par_of_ok h1 (root_of s) (c :: k))|done|].
  pose proof (reparent_same _ _ _ _ E2) as Hf3. exists h1, h2. do 3 (split; [done|]). split.
  - apply rep_plug. split; [done|]. eapply rep_ctx_frame; [|exact Hk1]. intros x Hx. by apply Hf3, Hd.
  - intros x Hx. rewrite in_plug in Hx. rewrite Hf3 by tauto. apply Hf1. intros ->. apply Hx. left. apply crumb_in.
Qed.

Definition spliced_bf k : Z := match k with [] => 0 | CL _ _ _ :: _ => 1 | CR _ _ _ :: _ => -1 end.

Lemma nodup_splice k l a b : NoDup (inorder (plug k (T l a b E))) -> NoDup (inorder (plug k l)) /\ a ∉ inorder (plug k l).
Proof.
  rewrite !plug_inorder. simpl. rewrite <- app_assoc, app_assoc. simpl. rewrite <- Permutation_middle.
  intros [Ha Hnd]%NoDup_cons. rewrite <- app_assoc in *. done.
Qed.

Lemma remove_without_next_rep h k l a b :
  rep h 0 (plug k (T l a b E)) -> NoDup (inorder (plug k (T l a b E))) ->
  exists h', remove_without_next a h = Ret (par_of k, spliced_bf k, h') /\ rep h' 0 (plug k l) /\
    (forall x, x ∉ inorder (plug k l) -> h' !! x = h !! x).
Proof.
  intros Hr Hnd. destruct (node_at _ _ _ _ _ _ Hr) as (Ha & Ha0 & Hl & _ & Hp & Hb & Hk).
  destruct (nodup_splice _ _ _ _ Hnd) as [Hnd' Hna].
  assert (Haok : addr_ok a) by (apply rep_plug in Hr as [(_ & ? & _) _]; done).
  unfold remove_without_next. rewrite (load_eq _ _ _ Ha). cbn [mbind dev_outcome_bind nd_left].
  rewrite parent_pack by done. destruct k as [|c k].
  - destruct (rep_reparent h a 0 l Hl (addr_par _ Haok) par_0 Hnd') as (h' & E' & Hl' & _). exists h'.
    pose proof (reparent_same _ _ _ _ E') as Hf. cbn [par_of]. simpl negb. cbv iota. cbn [mbind dev_outcome_bind].
    rewrite (load_eq _ _ _ Ha). cbn [mbind dev_outcome_bind nd_left]. rewrite E'. cbn [mbind dev_outcome_bind].
    erewrite load_eq by (rewrite Hf by done; exact Ha). cbn [mbind dev_outcome_bind]. by rewrite parent_pack.
  - destruct (splice_rep h c k a l Hl Haok Hk Hnd') as (h1 & h2 & E1 & Hf1 & E2 & Hr2 & Hf2).
    destruct (lookup_crumb _ _ _ _ Hk) as (np & Hnp & Hc0). cbn [par_of]. rewrite (proj2 (Z.eqb_neq _ _) Hc0). cbn [negb].
    destruct (read_back h c k _ Hr Hnd ltac:(done)) as (_ & np' & _ & Hnp' & _ & _ & _ & Hside & _).
    rewrite Hnp in Hnp'. injection Hnp' as <-. rewrite (load_eq _ _ _ Hnp). cbn [mbind dev_outcome_bind]. cbn [root_of] in Hside.
    rewrite Hside. exists h2. split; [|done].
    assert (Hca : a <> crumb_addr c) by (intros ->; apply Hna, in_plug; left; apply crumb_in).
    destruct c as [q qb qr|ql q qb]; cbn [link crumb_addr] in *; rewrite E1; cbn [mbind dev_outcome_bind];
      (erewrite load_eq by (rewrite Hf1 by done; exact Ha)); cbn [mbind dev_outcome_bind nd_left]; rewrite E2;
      cbn [mbind dev_outcome_bind]; (erewrite load_eq by (rewrite Hf2 by done; exact Ha));
      cbn [mbind dev_outcome_bind]; by rewrite parent_pack.
Qed.

(** ** Replacing a node by its successor *)

Lemma not_in_plug z k l a b r :
  z ∉ inorder (plug k (T l a b r)) <-> (z ∉ left_of k ++ right_of k) /\ z <> a /\ (z ∉ inorder l) /\ z ∉ inorder r.
Proof. rewrite in_plug, <- (not_in_node z l a b r). tauto. Qed.

(** The smallest node of a tree. *)
Lemma leftmost t : t <> E -> exists k a b r, t = plug k (T E a b r) /\ left_of k = [].
Proof.
  induction t as [|l IHl a b r _]; [done|]. intros _. destruct l as [|ll c lb lr]; [by exists [], a, b, r|].
  destruct IHl as (k & a' & b' & r' & Hl & Hk); [done|]. exists (k ++ [CL a b r]), a', b', r'.
  rewrite plug_app, <- Hl, left_of_app, Hk. done.
Qed.

(** The node [a], its successor [n] and the rest share nothing. *)
Definition apart k l (a n : Z) r : Prop := NoDup (left_of k ++ inorder l ++ a :: n :: inorder r ++ right_of k).

Lemma apart_facts k l a n r :
  apart k l a n r ->
  a <> n /\ (a ∉ inorder l) /\ (n ∉ inorder l) /\ (n ∉ inorder r) /\ (n ∉ left_of k ++ right_of k) /\
  (a ∉ inorder r) /\ (a ∉ left_of k ++ right_of k) /\
  (forall x, x ∈ inorder l -> (x ∉ inorder r) /\ x ∉ left_of k ++ right_of k) /\
  (forall x, x ∈ inorder r -> x ∉ left_of k ++ right_of k) /\ NoDup (inorder l) /\ NoDup (inorder r) /\
  NoDup (left_of k ++ right_of k).
Proof.
  unfold apart. intros (Hk1 & H1 & (Hl & H2 & ([Ha H3]%not_elem_of_cons & [Hn (Hr & H4 & Hk2)%NoDup_app]%NoDup_cons)%NoDup_cons)%NoDup_app)%NoDup_app.
  setoid_rewrite elem_of_app in H1. setoid_rewrite elem_of_cons in H1. setoid_rewrite elem_of_cons in H1.
  setoid_rewrite elem_of_app in H1. setoid_rewrite elem_of_cons in H2. setoid_rewrite elem_of_cons in H2.
  setoid_rewrite elem_of_app in H2. rewrite elem_of_app in H3, Hn. rewrite NoDup_app. setoid_rewrite elem_of_app.
  clear -Hk1 Hk2 Hl Hr Ha Hn H1 H2 H3 H4. split_and!; try done; naive_solver.
Qed.

(** The end of [remove_with_next]: the place, the left subtree and the factor of
    [a] go to [n]. *)
Lemma settle_rep {A} h k l a b r n q nb x y (f : avl_heap -> dev_outcome A) :
  apart k l a n r -> addr_ok a -> addr_ok n -> par_ok q -> -1 <= nb <= 2 -> -1 <= b <= 2 ->
  h !! a = Some (AvlNode (pack (par_of k) b) (root_of l) y) -> rep h a l ->
  h !! n = Some (AvlNode (pack q nb) x (root_of r)) -> rep h n r -> rep_ctx h n k ->
  exists h', (na ← avl_load a h;
              h ← avl_set_left n (nd_left na) h;
              h ← set_parent_if (nd_left na) n h;
              na ← avl_load a h;
              h ← avl_set_parent n (avl_parent na) h;
              h ← avl_set_bf n (avl_bf na) h;
              f h) = f h' /\
    rep h' 0 (plug k (T l n b r)) /\ (forall z, z <> n -> z ∉ inorder l -> h' !! z = h !! z).
Proof.
  intros (Han & Hal & Hnl & Hnr & Hnk & Har & Hak & Hl & Hr & Hndl & Hndr & _)%apart_facts Haok Hnok Hq Hnb Hb Ha Hrl Hn Hrr Hk.
  pose proof (par_of_ok _ _ _ Hk) as Hp. set (h1 := <[n := AvlNode (pack q nb) (root_of l) (root_of r)]> h).
  destruct (rep_reparent h1 a n l) as (h2 & E2 & Hrl2 & Hf2); [by apply rep_insert|by apply addr_par..|done|].
  pose proof (reparent_same _ _ _ _ E2) as Hf3.
  rewrite (load_eq _ _ _ Ha). cbn [mbind dev_outcome_bind nd_left]. rewrite (set_left_eq _ _ _ _ _ _ Hn).
  cbn [mbind dev_outcome_bind]. fold h1. rewrite E2. cbn [mbind dev_outcome_bind].
  erewrite load_eq by (rewrite Hf3 by done; unfold h1; rewrite lookup_insert_ne by done; exact Ha).
  cbn [mbind dev_outcome_bind]. rewrite parent_pack, bf_pack by done.
  erewrite set_parent_eq by ((rewrite Hf3 by done; apply lookup_insert_eq) || done). cbn [mbind dev_outcome_bind].
  erewrite set_bf_eq by (apply lookup_insert_eq || done). rewrite insert_insert_eq. cbn [mbind dev_outcome_bind]. eexists. split; [done|]. split.
  - apply rep_plug. split.
    + split; [apply lookup_insert_eq|]. split; [done|]. split; [done|]. split; [by apply rep_insert|].
      apply rep_insert; [done|]. eapply rep_frame; [|exact Hrr]. intros z Hz. rewrite Hf3.
      * apply lookup_insert_ne. by intros ->.
      * intros Hz'. by apply (proj1 (Hl z Hz')).
    + eapply rep_ctx_frame; [|exact Hk]. intros z Hz. rewrite lookup_insert_ne by (by intros ->). rewrite Hf3.
      * apply lookup_insert_ne. by intros ->.
      * intros Hz'. by apply (proj2 (Hl z Hz')).
  - intros z Hzn Hzl. rewrite lookup_insert_ne by done. rewrite Hf3 by done. by apply lookup_insert_ne.
Qed.

(** The parent of [a] gets [n] as its child. *)
Lemma relink_rep h k a n :
  rep_ctx h a k -> a ∉ left_of k ++ right_of k -> a <> 0 -> NoDup (left_of k ++ right_of k) ->
  exists h', (if negb (par_of k =? 0) then replace_child (par_of k) a n h else Ret h) = Ret h' /\
    rep_ctx h' n k /\ (forall z, z ∉ left_of k ++ right_of k -> h' !! z = h !! z).
Proof.
  intros Hk Ha Ha0 Hnd. destruct k as [|c k]; [by exists h|].
  destruct (link_rep h a n c k Hk Hnd) as (h' & E' & Hk' & Hf). exists h'.
  destruct (lookup_crumb _ _ _ _ Hk) as (_ & _ & Hc0). cbn [par_of]. rewrite (proj2 (Z.eqb_neq _ _) Hc0). cbn [negb].
  split; [|split; [done|]].
  - unfold replace_child. destruct c as [q qb qr|ql q qb]; destruct Hk as (Hq & _); cbn [crumb_addr link] in *;
      rewrite (load_eq _ _ _ Hq); cbn [mbind dev_outcome_bind nd_left]; [by rewrite Z.eqb_refl|].
    rewrite (proj2 (Z.eqb_neq _ _)); [done|]. apply not_eq_sym, ne_root; [|done]. intros Hin. apply Ha. simpl.
    rewrite !elem_of_app. auto.
  - intros z Hz. apply Hf. intros ->. apply Hz, crumb_in.
Qed.

(** The successor is the right child itself. *)
Lemma remove_with_child h k l a b n nb rr :
  let r := T E n nb rr in
  rep h 0 (plug k (T l a b r)) -> apart k l a n rr ->
  exists h', remove_with_next a n h = Ret (n, -1, h') /\ rep h' 0 (plug k (T l n b rr)) /\
    (forall z, z ∉ inorder (plug k (T l n b rr)) -> h' !! z = h !! z).
Proof.
  intros r Hr Hap. destruct (node_at _ _ _ _ _ _ Hr) as (Ha & Ha0 & Hrl & Hrr & Hp & Hb & Hk). apply Z.eqb_neq in Ha0.
  pose proof (apart_facts _ _ _ _ _ Hap) as (Han & Hal & Hnl & Hnr & Hnk & Har & Hak & Hl & Hrk & Hndl & Hndr & Hndk).
  destruct Hrr as (Hn & Hnok & Hnb & _ & Hrr). cbn [root_of r] in Ha, Hn.
  assert (Haok : addr_ok a) by (apply rep_plug in Hr as [(_ & ? & _) _]; done).
  destruct (relink_rep h k a n Hk Hak Ha0 Hndk) as (h1 & E1 & Hk1 & Hf1).
  assert (Ha1 : h1 !! a = h !! a) by (by apply Hf1).
  unfold remove_with_next. rewrite (load_eq _ _ _ Hn). cbn [mbind dev_outcome_bind].
  rewrite parent_pack by (done || by apply addr_par). rewrite (Z.eqb_refl a), andb_false_r. cbn [mbind dev_outcome_bind].
  rewrite (load_eq _ _ _ Ha). cbn [mbind dev_outcome_bind]. rewrite parent_pack by done. rewrite E1. cbn [mbind dev_outcome_bind].
  rewrite (load_eq h1 a _ (eq_trans Ha1 Ha)). cbn [mbind dev_outcome_bind nd_right]. rewrite Z.eqb_refl.
  cbn [negb mbind dev_outcome_bind].
  destruct (settle_rep h1 k l a b rr n a nb 0 n (fun h => Ret (n, -1, h)) Hap Haok Hnok (addr_par _ Haok) Hnb Hb
    (eq_trans Ha1 Ha)) as (h' & E' & Hr' & Hf').
  - eapply rep_frame; [|exact Hrl]. intros z Hz. apply Hf1. by apply (Hl z).
  - rewrite Hf1 by done. exact Hn.
  - eapply rep_frame; [|exact Hrr]. intros z Hz. by apply Hf1, Hrk.
  - done.
  - exists h'. split; [exact E'|]. split; [done|]. intros z Hz. rewrite in_plug in Hz.
    rewrite Hf'; [apply Hf1; tauto|..]; intros Hz'; apply Hz; right; simpl; rewrite elem_of_app, elem_of_cons; subst; auto.
Qed.

(** The successor is further down: it is taken out first. *)
Lemma detach_next h k l a b c kr n nb rr :
  let r' := plug (c :: kr) rr in
  left_of (c :: kr) = [] -> rep h 0 (plug k (T l a b (plug (c :: kr) (T E n nb rr)))) -> apart k l a n r' ->
  exists nx h', h !! n = Some nx /\ nx = AvlNode (pack (crumb_addr c) nb) 0 (root_of rr) /\
    avl_parent nx = crumb_addr c /\ addr_ok n /\ par_ok (crumb_addr c) /\ -1 <= nb <= 2 /\
    (if negb (avl_parent nx =? 0) && negb (avl_parent nx =? a) then
       h ← avl_set_left (avl_parent nx) (nd_right nx) h;
       set_parent_if (nd_right nx) (avl_parent nx) h
     else Ret h) = Ret h' /\
    rep h' 0 (plug k (T l a b r')) /\ (forall z, z ∉ inorder (plug k (T l a b r')) -> h' !! z = h !! z).
Proof.
  intros r' Hlm Hr Hap. pose proof (apart_facts _ _ _ _ _ Hap) as (Han & Hal & _ & _ & _ & Har & _).
  assert (HK : forall s, plug k (T l a b (plug (c :: kr) s)) = plug (c :: kr ++ CR l a b :: k) s).
  { intros s. change (c :: kr ++ CR l a b :: k) with ((c :: kr) ++ CR l a b :: k). by rewrite plug_app. }
  rewrite HK in Hr. destruct (node_at _ _ _ _ _ _ Hr) as (Hn & Hn0 & _ & Hrr & Hp & Hnb & HkK).
  assert (Hnok : addr_ok n) by (apply rep_plug in Hr as [(_ & ? & _) _]; done).
  assert (HndK : NoDup (inorder (plug (c :: kr ++ CR l a b :: k) rr))).
  { rewrite <- HK, plug_inorder. fold r'. unfold apart in Hap. simpl. rewrite <- app_assoc. simpl.
    eapply sublist_NoDup; [exact Hap|]. do 2 (apply sublist_app; [done|]). by apply sublist_skip, sublist_cons. }
  destruct (splice_rep h c _ n rr Hrr Hnok HkK HndK) as (h1 & h2 & E1 & Hf1 & E2 & Hr2 & Hf2).
  destruct (lookup_crumb _ _ _ _ HkK) as (_ & _ & Hc0).
  assert (Hca : crumb_addr c <> a).
  { intros <-. apply Har. apply (in_plug _ (c :: kr)). left. apply crumb_in. }
  eexists _, h2. split; [exact Hn|]. split; [done|]. cbn [par_of] in *. rewrite parent_pack by done.
  rewrite (proj2 (Z.eqb_neq _ _) Hc0), (proj2 (Z.eqb_neq _ _) Hca). cbn [negb andb nd_right].
  rewrite <- HK in Hr2, Hf2. do 4 (split; [done|]). split; [|done].
  destruct c as [q qb qr|ql q qb]; [|simpl in Hlm; by apply app_nil in Hlm as [_ [_ ?]%app_nil]].
  cbn [link crumb_addr] in *. rewrite E1. exact E2.
Qed.

(** Then it gets the place of [a] in the parent and the right subtree. *)
Lemma adopt_right h k l a b r n q nb x y :
  rep h 0 (plug k (T l a b r)) -> apart k l a n r -> addr_ok n ->
  h !! n = Some (AvlNode (pack q nb) x y) ->
  exists h1 h2, (if negb (par_of k =? 0) then replace_child (par_of k) a n h else Ret h) = Ret h1 /\
    h1 !! a = h !! a /\ h1 !! n = h !! n /\
    set_parent_if (root_of r) n (<[n := AvlNode (pack q nb) x (root_of r)]> h1) = Ret h2 /\
    h2 !! a = h !! a /\ h2 !! n = Some (AvlNode (pack q nb) x (root_of r)) /\
    rep h2 a l /\ rep h2 n r /\ rep_ctx h2 n k /\
    (forall z, z ∉ inorder (plug k (T l n b r)) -> h2 !! z = h !! z).
Proof.
  intros Hr Hap Hnok Hn. destruct (node_at _ _ _ _ _ _ Hr) as (Ha & Ha0 & Hrl & Hrr & Hp & Hb & Hk). apply Z.eqb_neq in Ha0.
  pose proof (apart_facts _ _ _ _ _ Hap) as (Han & Hal & Hnl & Hnr & Hnk & Har & Hak & Hl & Hrk & Hndl & Hndr & Hndk).
  assert (Haok : addr_ok a) by (apply rep_plug in Hr as [(_ & ? & _) _]; done).
  destruct (relink_rep h k a n Hk Hak Ha0 Hndk) as (h1 & E1 & Hk1 & Hf1).
  assert (Hrr1 : rep (<[n := AvlNode (pack q nb) x (root_of r)]> h1) a r).
  { apply rep_insert; [done|]. eapply rep_frame; [|exact Hrr]. intros z Hz. by apply Hf1, Hrk. }
  destruct (rep_reparent _ a n r Hrr1 (addr_par _ Haok) (addr_par _ Hnok) Hndr) as (h2 & E2 & Hrr2 & _).
  pose proof (reparent_same _ _ _ _ E2) as Hf2.
  assert (Hf3 : forall z, z <> n -> z ∉ inorder r -> h2 !! z = h1 !! z).
  { intros z Hz Hz'. rewrite Hf2 by done. by apply lookup_insert_ne. }
  exists h1, h2. split; [done|]. split; [by apply Hf1|]. split; [by apply Hf1|]. split; [done|].
  split; [rewrite Hf3 by done; by apply Hf1|]. split; [rewrite Hf2 by done; apply lookup_insert_eq|].
  split; [|split; [done|split]].
  - eapply rep_frame; [|exact Hrl]. intros z Hz. destruct (Hl z Hz). rewrite Hf3, Hf1; [done..| |done]. by intros ->.
  - eapply rep_ctx_frame; [|exact Hk1]. intros z Hz. apply Hf3; [by intros ->|]. intros Hz'. by apply (Hrk z).
  - intros z (Hz1 & Hz2 & _ & Hz3)%not_in_plug. rewrite Hf3 by done. by apply Hf1.
Qed.

Lemma remove_with_descendant h k l a b c kr n nb rr :
  let r' := plug (c :: kr) rr in
  left_of (c :: kr) = [] -> rep h 0 (plug k (T l a b (plug (c :: kr) (T E n nb rr)))) -> apart k l a n r' ->
  exists h', remove_with_next a n h = Ret (crumb_addr c, 1, h') /\ rep h' 0 (plug k (T l n b r')) /\
    (forall z, z ∉ inorder (plug k (T l n b r')) -> z <> a -> h' !! z = h !! z) /\
    (exists w y, h' !! a = Some (AvlNode w (root_of l) y)).
Proof.
  intros r' Hlm Hr Hap. pose proof (apart_facts _ _ _ _ _ Hap) as (Han & Hal & Hnl & Hnr & Hnk & _).
  destruct (detach_next h k l a b c kr n nb rr Hlm Hr Hap) as (nx & h2 & Hn & -> & Hpar & Hnok & Hq & Hnb & E2 & Hr2 & Hf2).
  fold r' in Hr2, Hf2. destruct (node_at _ _ _ _ _ _ Hr2) as (Ha2 & _ & _ & _ & Hpk & Hb & _).
  assert (Haok : addr_ok a) by (apply rep_plug in Hr2 as [(_ & ? & _) _]; done).
  assert (Hn2 : h2 !! n = h !! n) by (apply Hf2, not_in_plug; split_and!; done).
  rewrite Hn in Hn2. destruct (adopt_right h2 k l a b r' n _ _ _ _ Hr2 Hap Hnok Hn2)
    as (h3 & h5 & E3 & Ha3 & Hn3 & E5 & Ha5 & Hn5 & Hl5 & Hr5 & Hk5 & Hf5).
  rewrite Ha2 in Ha3, Ha5. rewrite Hn2 in Hn3.
  destruct (settle_rep h5 k l a b r' n (crumb_addr c) nb 0 (root_of r') (fun h => Ret (crumb_addr c, 1, h))
    Hap Haok Hnok Hq Hnb Hb Ha5 Hl5 Hn5 Hr5 Hk5) as (h' & E' & Hr' & Hf').
  exists h'. split; [|split; [done|split]].
  - unfold remove_with_next. rewrite (load_eq _ _ _ Hn). cbn [mbind dev_outcome_bind]. rewrite E2. cbn [mbind dev_outcome_bind].
    rewrite (load_eq _ _ _ Ha2). cbn [mbind dev_outcome_bind]. rewrite parent_pack, E3 by done. cbn [mbind dev_outcome_bind].
    rewrite (load_eq _ _ _ Ha3). cbn [mbind dev_outcome_bind nd_right].
    rewrite (proj2 (Z.eqb_neq (root_of r') n)) by (apply not_eq_sym, ne_root; [done|destruct Hnok; lia]). cbn [negb].
    rewrite (set_right_eq _ _ _ _ _ _ Hn3). cbn [mbind dev_outcome_bind]. rewrite E5. cbn [mbind dev_outcome_bind].
    rewrite (load_eq _ _ _ Hn5). cbn [mbind dev_outcome_bind]. rewrite parent_pack by done. exact E'.
  - intros z Hz Hza. pose proof Hz as (Hz1 & Hz2 & Hz3 & Hz4)%not_in_plug. rewrite Hf', Hf5 by done.
    apply Hf2, not_in_plug. split_and!; done.
  - eexists _, _. rewrite Hf' by done. exact Ha5.
Qed.

(** ** The whole removal *)

(** The state from which the loop to the root starts: the focus [f] in [kf] has
    lost height. *)
Definition to_repair h k f bf : Prop :=
  rep h 0 (plug k f) /\ off_by bf f /\ exists H, was (-1) bf f H /\ ctx_avl k H.

Lemma avl_readdress k l a b r n : avl (plug k (T l a b r)) -> avl (plug k (T l n b r)).
Proof. by rewrite !avl_plug. Qed.

Lemma root_in_ctx c k t : root_of (plug (c :: k) t) ∈ left_of (c :: k) ++ right_of (c :: k).
Proof.
  revert c t. induction k as [|d k IH]; intros c t; [destruct c; [exact (crumb_in (CL _ _ _) [])|exact (crumb_in (CR _ _ _) [])]|].
  specialize (IH d (plug1 c t)). rewrite elem_of_app in *. cbn [plug] in *.
  destruct c; cbn [left_of right_of] in *; destruct IH as [IH|IH]; auto.
  - right. apply elem_of_cons. right. apply elem_of_app. auto.
  - left. apply elem_of_app. auto.
Qed.

Lemma child_balance k l a b n nb rr :
  avl (plug k (T l a b (T E n nb rr))) ->
  off_by (-1) (T l n b rr) /\ exists H, was (-1) (-1) (T l n b rr) H /\ ctx_avl k H.
Proof.
  intros [(Hb & Hb1 & Hl & (Hnb & Hnb1 & _ & Hrr)) Hk]%avl_plug. pose proof (height_nonneg rr). simpl in *.
  split; [split_and!; done || lia|]. exists (1 + Z.max (height l) (height rr + 1)).
  split; [right; left; split_and!; done || lia|].
  match type of Hk with ctx_avl _ ?H => by replace (1 + Z.max (height l) (height rr + 1)) with H by lia end.
Qed.

Lemma descendant_balance k c n nb rr :
  left_of [c] = [] -> avl (plug (c :: k) (T E n nb rr)) ->
  off_by 1 (plug1 c rr) /\ exists H, was (-1) 1 (plug1 c rr) H /\ ctx_avl k H.
Proof.
  intros Hc [(Hnb & Hnb1 & _ & Hrr) Hk]%avl_plug. pose proof (height_nonneg rr).
  destruct (passed_on (-1) c k rr (1 + height rr)) as (H' & Hoff & Hw & Hk' & _); [|done|lia|lia|done|by right|].
  - match type of Hk with ctx_avl _ ?H => by replace (1 + height rr) with H by (simpl; lia) end.
  - destruct c as [q qb qr|ql q qb]; [|by apply app_nil in Hc as [_ [_ ?]%app_nil]]. split; [done|]. by exists H'.
Qed.

Lemma remove_with_next_repair h k l a b r :
  rep h 0 (plug k (T l a b r)) -> NoDup (inorder (plug k (T l a b r))) -> avl (plug k (T l a b r)) -> r <> E ->
  exists n kf f bf h', head (inorder r) = Some n /\ n <> 0 /\ remove_with_next a n h = Ret (root_of f, bf, h') /\
    to_repair h' kf f bf /\ inorder (plug kf f) = left_of k ++ inorder l ++ inorder r ++ right_of k /\
    root_of (plug kf f) = root_of (plug k (T l n b E)) /\
    same_but (plug k (T l a b r)) h h' /\ is_Some (h' !! a).
Proof.
  intros Hr Hnd Havl Hne. destruct (leftmost r Hne) as (kr & n & nb & rr & -> & Hlm).
  assert (Hin : inorder (plug kr (T E n nb rr)) = n :: inorder (plug kr rr)) by (rewrite !plug_inorder, Hlm; done).
  assert (Hap : apart k l a n (plug kr rr)).
  { unfold apart. rewrite plug_inorder in Hnd. cbn [inorder] in Hnd. by rewrite Hin, <- app_assoc in Hnd. }
  assert (Hnok : addr_ok n).
  { apply (rep_addr _ _ _ n Hr), in_plug. right. simpl. rewrite Hin, elem_of_app, !elem_of_cons. auto. }
  assert (Hsub : forall z, z ∉ inorder (plug k (T l a b (plug kr (T E n nb rr)))) ->
                 (z ∉ inorder (plug k (T l n b (plug kr rr)))) /\ z <> a).
  { intros z. rewrite (not_in_plug z k l a b), (not_in_plug z k l n b), Hin, not_elem_of_cons. tauto. }
  assert (Hord : inorder (plug k (T l n b (plug kr rr))) =
                 left_of k ++ inorder l ++ inorder (plug kr (T E n nb rr)) ++ right_of k).
  { rewrite Hin, plug_inorder. simpl. by rewrite <- app_assoc. }
  exists n. rewrite Hin. pose proof (avl_readdress _ _ _ _ _ n Havl) as Havl'. destruct kr as [|c kr].
  - destruct (remove_with_child h k l a b n nb rr Hr Hap) as (h' & E' & Hr' & Hf').
    exists k, (T l n b rr), (-1), h'. split; [done|]. split; [destruct Hnok; lia|]. split; [done|].
    split; [|split; [by rewrite <- Hin, <- Hord|split; [by apply root_of_plug|split]]].
    + split; [done|]. by eapply child_balance.
    + intros z [Hz _]%Hsub. by apply Hf'.
    + rewrite Hf'; [destruct (node_at _ _ _ _ _ _ Hr) as (-> & _); by eexists|].
      apply apart_facts in Hap as (? & ? & _ & _ & _ & ? & ? & _). by apply not_in_plug.
  - destruct (remove_with_descendant h k l a b c kr n nb rr Hlm Hr Hap) as (h' & E' & Hr' & Hf' & w & y & Ha').
    exists (kr ++ CR l n b :: k), (plug1 c rr), 1, h'.
    assert (HK : forall s, plug (kr ++ CR l n b :: k) (plug1 c s) = plug k (T l n b (plug (c :: kr) s))).
    { intros s. by rewrite plug_app. }
    assert (Hc : crumb_addr c = root_of (plug1 c rr)) by (by destruct c). rewrite Hc in E'.
    split; [done|]. split; [destruct Hnok; lia|]. split; [done|]. rewrite HK.
    split; [|split; [by rewrite <- Hin, <- Hord|split; [by apply root_of_plug|split; [|by rewrite Ha'; eexists]]]].
    + rewrite <- HK in Havl', Hr'. split; [done|]. apply (descendant_balance _ _ n nb); [|done].
      destruct c; [done|]. simpl in Hlm. by apply app_nil in Hlm as [_ [_ ?]%app_nil].
    + intros z [Hz Hza]%Hsub. by apply Hf'.
Qed.

Lemma remove_without_next_repair h k l a b :
  rep h 0 (plug k (T l a b E)) -> NoDup (inorder (plug k (T l a b E))) -> avl (plug k (T l a b E)) ->
  exists h', remove_without_next a h = Ret (par_of k, spliced_bf k, h') /\ rep h' 0 (plug k l) /\ avl l /\
    same_but (plug k l) h h' /\ h' !! a = h !! a /\
    forall c k', k = c :: k' -> to_repair h' k' (plug1 c l) (spliced_bf k).
Proof.
  intros Hr Hnd Havl. destruct (remove_without_next_rep h k l a b Hr Hnd) as (h' & E' & Hr' & Hf').
  destruct (nodup_splice _ _ _ _ Hnd) as [_ Hna]. apply avl_plug in Havl as [(Hb & Hb1 & Hl & _) Hk].
  exists h'. split; [done|]. split; [done|]. split; [done|]. split; [done|]. split.
  - by apply Hf'.
  - intros c k' ->. split; [done|]. pose proof (height_nonneg l).
    destruct (passed_on (-1) c k' l (1 + height l)) as (H' & Hoff & Hw & Hk' & _); [|done|lia|lia|done|by right|].
    + match type of Hk with ctx_avl _ ?H => by replace (1 + height l) with H by (simpl; lia) end.
    + by destruct c; (split; [done|]); exists H'.
Qed.

(** The loop of the removal, and the tree it leaves. *)
Lemma repair_rep h k f bf tr :
  to_repair h k f bf -> NoDup (inorder (plug k f)) -> tr_root tr = root_of (plug k f) ->
  exists ret tr' h' t', remove_balance (size h) (root_of f) bf tr h = Ret (ret, tr', h') /\ tr_aux tr' = tr_aux tr /\
    tree_in h' tr' t' /\ inorder t' = inorder (plug k f) /\ same_but (plug k f) h h'.
Proof.
  intros (Hr & Hoff & H & Hw & Hk) Hnd Hroot.
  destruct (balance_up_rep (-1) (size h) k ltac:(by right) (fuel_ctx h k f Hr Hnd (off_by_node _ _ Hoff))
    f bf H h tr Hr Hnd Hoff Hw Hk Hroot) as (ret & h' & t' & E' & Hr' & Ha' & Hi' & Hs').
  exists ret, (AvlTree (root_of t') (tr_aux tr)), h', t'. split; [exact E'|]. split; [done|].
  split; [|done]. split; [done|]. split; [done|]. split; [by rewrite Hi'|done].
Qed.

(** ** The removal *)

Lemma first_of_right h k l a b r :
  rep h 0 (plug k (T l a b r)) -> NoDup (inorder (plug k (T l a b r))) ->
  avl_first (AvlTree (root_of r) 0) h = Ret (default 0 (head (inorder r))).
Proof.
  intros Hr Hnd. destruct (nodup_focus _ _ _ _ _ Hnd) as [_ Hndr].
  destruct (node_at _ _ _ _ _ _ Hr) as (_ & _ & _ & Hrr & _). unfold avl_first. cbn [tr_root].
  eapply walk_left_rep; [done|by eapply fuel_height].
Qed.

(** The root that the removal sets before its loop. *)
Lemma reset_root k l a b r t0 x tr :
  NoDup (inorder (plug k (T l a b r))) -> tr_root tr = root_of (plug k (T l a b r)) ->
  root_of t0 = x ->
  (if tr_root tr =? a then AvlTree x (tr_aux tr) else tr) = AvlTree (root_of (plug k t0)) (tr_aux tr).
Proof.
  intros Hnd Hroot <-. destruct tr as [rt aux]. cbn [tr_root tr_aux] in *. subst rt. destruct k as [|c k].
  - cbn [plug root_of]. by rewrite Z.eqb_refl.
  - destruct (Z.eqb_spec (root_of (plug (c :: k) (T l a b r))) a) as [Ea|_].
    + destruct (ctx_disjoint _ _ Hnd) as [_ Hd]. destruct (Hd a); [rewrite <- Ea at 1; apply root_in_ctx|].
      apply elem_of_app. right. left.
    + f_equal. by apply (root_of_plug (c :: k)).
Qed.

Lemma remove_last_rep h k l a b tr :
  rep h 0 (plug k (T l a b E)) -> NoDup (inorder (plug k (T l a b E))) -> avl (plug k (T l a b E)) ->
  tr_root tr = root_of (plug k (T l a b E)) ->
  exists tr' h' t', avl_remove tr a h = Ret (tr', h') /\ tr_aux tr' = tr_aux tr /\
    tree_in h' tr' t' /\ inorder t' = inorder (plug k l) /\ same_but (plug k (T l a b E)) h h' /\ is_Some (h' !! a).
Proof.
  intros Hr Hnd Havl Hroot. destruct (node_at _ _ _ _ _ _ Hr) as (Ha & Ha0 & _).
  destruct (nodup_splice _ _ _ _ Hnd) as [Hnd' Hna].
  assert (Hsub : inorder (plug k l) ⊆ inorder (plug k (T l a b E))).
  { intros x. rewrite !in_plug. simpl. rewrite !elem_of_app. tauto. }
  destruct (remove_without_next_repair h k l a b Hr Hnd Havl) as (h1 & E1 & Hr1 & Hl & Hs1 & Ha1 & Hrp).
  assert (Hs : same_but (plug k (T l a b E)) h h1) by (intros x Hx; apply Hs1; intros Hin; by apply Hx, Hsub).
  unfold avl_remove. rewrite Ha0, (load_eq _ _ _ Ha). cbn [mbind dev_outcome_bind nd_right].
  rewrite (first_of_right h k l a b E Hr Hnd). cbn [mbind dev_outcome_bind inorder head default negb Z.eqb from_option].
  rewrite E1. cbn [mbind dev_outcome_bind]. rewrite Ha in Ha1. rewrite (load_eq _ _ _ Ha1).
  cbn [mbind dev_outcome_bind nd_left]. rewrite (reset_root k l a b E l _ tr Hnd Hroot)
    by (destruct (Z.eqb_spec (root_of l) 0); congruence).
  destruct k as [|c k].
  - exists (AvlTree (root_of l) (tr_aux tr)), h1, l. split; [by destruct (size h1)|].
    split; [done|]. split; [done|]. split; [done|]. split; [done|by eexists].
  - destruct (repair_rep h1 k (plug1 c l) (spliced_bf (c :: k)) (AvlTree (root_of (plug (c :: k) l)) (tr_aux tr)))
      as (ret & tr' & h' & t' & E' & Haux & Ht' & Hi' & Hs'); [by apply Hrp|done|done|].
    exists tr', h', t'. replace (par_of (c :: k)) with (root_of (plug1 c l)) by (by destruct c). rewrite E'.
    split; [done|]. split; [done|]. split; [done|]. split; [done|]. split; [by eapply same_but_trans|].
    rewrite Hs' by done. by eexists.
Qed.

Lemma remove_middle_rep h k l a b r tr :
  rep h 0 (plug k (T l a b r)) -> NoDup (inorder (plug k (T l a b r))) -> avl (plug k (T l a b r)) -> r <> E ->
  tr_root tr = root_of (plug k (T l a b r)) ->
  exists tr' h' t', avl_remove tr a h = Ret (tr', h') /\ tr_aux tr' = tr_aux tr /\
    tree_in h' tr' t' /\ inorder t' = left_of k ++ inorder l ++ inorder r ++ right_of k /\
    same_but (plug k (T l a b r)) h h' /\ is_Some (h' !! a).
Proof.
  intros Hr Hnd Havl Hne Hroot. destruct (node_at _ _ _ _ _ _ Hr) as (Ha & Ha0 & _).
  destruct (remove_with_next_repair h k l a b r Hr Hnd Havl Hne)
    as (n & kf & f & bf & h1 & Hh & Hn0 & E1 & Hrp & Hi & Hro & Hs & [n1 Ha1]).
  assert (Hsub : inorder (plug kf f) ⊆ inorder (plug k (T l a b r))).
  { rewrite Hi, plug_inorder. simpl. intros x. rewrite !elem_of_app, elem_of_cons. tauto. }
  assert (Hndf : (a ∉ inorder (plug kf f)) /\ NoDup (inorder (plug kf f))).
  { rewrite Hi. revert Hnd. rewrite plug_inorder. simpl. rewrite <- !app_assoc, app_assoc. simpl.
    rewrite <- Permutation_middle. intros Hx%NoDup_cons. by rewrite <- app_assoc in Hx. }
  destruct Hndf as [Hna Hndf].
  destruct (repair_rep h1 kf f bf (AvlTree (root_of (plug kf f)) (tr_aux tr)) Hrp Hndf eq_refl)
    as (ret & tr' & h' & t' & E' & Haux & Ht' & Hi' & Hs').
  exists tr', h', t'. rewrite Hi', Hi. split; [|split; [done|split; [done|split; [done|split; [by eapply same_but_trans|rewrite Hs' by done; by eexists]]]]].
  unfold avl_remove. rewrite Ha0, (load_eq _ _ _ Ha). cbn [mbind dev_outcome_bind nd_right].
  rewrite (first_of_right h k l a b r Hr Hnd), Hh. cbn [mbind dev_outcome_bind]. change (default 0 (Some n)) with n.
  rewrite (proj2 (Z.eqb_neq n 0) Hn0). cbn [negb]. rewrite E1. cbn [mbind dev_outcome_bind].
  rewrite (load_eq _ _ _ Ha1). cbn [mbind dev_outcome_bind].
  rewrite (reset_root k l a b r (T l n b E) n tr Hnd Hroot), <- Hro, E' by done. done.
Qed.

Lemma avl_remove_rep h tr t L a R :
  tree_in h tr t -> inorder t = L ++ a :: R ->
  exists tr' h' t', avl_remove tr a h = Ret (tr', h') /\ tr_aux tr' = tr_aux tr /\
    tree_in h' tr' t' /\ inorder t' = L ++ R /\ same_but t h h' /\ is_Some (h' !! a).
Proof.
  intros (Hr & Havl & Hnd & Hroot) HL. destruct (focus_split t L a R Hnd HL) as (k & l & b & r & -> & -> & ->).
  destruct r as [|rl ra rb rr].
  - destruct (remove_last_rep h k l a b tr Hr Hnd Havl Hroot) as (tr' & h' & t' & ? & ? & ? & Hi & ?).
    exists tr', h', t'. rewrite Hi, plug_inorder, app_assoc. done.
  - destruct (remove_middle_rep h k l a b (T rl ra rb rr) tr Hr Hnd Havl ltac:(done) Hroot)
      as (tr' & h' & t' & ? & ? & ? & Hi & ?).
    exists tr', h', t'. rewrite Hi, <- !app_assoc. done.
Qed.
