(* ===== verification/AvlIndex.v ===== *)
(** * The search tree as a sorted index

    What [avl_init], [avl_insert], [avl_remove], the searches and the walks of
    [AvlTree] promise to the code that keeps its records in the tree: a list of the
    nodes in the order of their keys, that insertions and removals change as they
    would change a sorted list, that the searches look through and that the walks
    run through from end to end, in a tree whose height is logarithmic in the
    length of the list. *)

From stdpp Require Import base numbers list gmap sorting.
From S2P Require Import Prelude.
From S2P Require Import AvlTree.
From S2P Require Import AvlSpec.
From S2P Require Import AvlOps.
From S2P Require Import AvlInsert.
From S2P Require Import AvlRemove.

Implicit Types (t l r : tree) (h : avl_heap) (k : ctx) (tr : avl_tree) (L : list Z).

(** The tree [tr] in the heap [h] is balanced and holds the nodes [L], in that order. *)
Definition index h tr L : Prop := exists t, tree_in h tr t /\ inorder t = L.

(** ** The specification: a sorted list *)

Section spec.
Variable key : Z -> Z.

(** A node whose key is already there is not inserted. *)
Fixpoint spec_insert (node : Z) (L : list Z) : list Z :=
  match L with
  | [] => [node]
  | x :: L' =>
      if key node <? key x then node :: L
      else if key x <? key node then x :: spec_insert node L' else L
  end.

Definition spec_search (node : Z) (L : list Z) : Z := default 0 (List.find (fun x => key x =? key node) L).
Definition spec_greater (node : Z) (L : list Z) : Z := default 0 (List.find (fun x => key node <=? key x) L).
Definition spec_smaller (node : Z) (L : list Z) : Z := default 0 (List.find (fun x => key x <=? key node) (reverse L)).

Inductive op := Insert (node : Z) | Remove (node : Z).

(** Only a node of the index can be removed. *)
Definition spec_op (o : op) (L : list Z) : option (list Z) :=
  match o with
  | Insert node => Some (spec_insert node L)
  | Remove node => if bool_decide (node ∈ L) then Some (filter (fun x => x <> node) L) else None
  end.

Fixpoint spec_run (ops : list op) (L : list Z) : option (list Z) :=
  match ops with
  | [] => Some L
  | o :: ops => match spec_op o L with Some L => spec_run ops L | None => None end
  end.
End spec.

Definition run_op (func : Z -> Z -> Z -> Z) (o : op) (tr : avl_tree) (h : avl_heap) : dev_outcome (avl_tree * avl_heap) :=
  match o with
  | Insert node => '(_, tr, h) ← avl_insert func tr node h; Ret (tr, h)
  | Remove node => avl_remove tr node h
  end.

Fixpoint run (func : Z -> Z -> Z -> Z) (ops : list op) (tr : avl_tree) (h : avl_heap) : dev_outcome (avl_tree * avl_heap) :=
  match ops with
  | [] => Ret (tr, h)
  | o :: ops => '(tr, h) ← run_op func o tr h; run func ops tr h
  end.

(** ** The list *)

Lemma spec_insert_between key node L R :
  (forall a, a ∈ L -> key a < key node) -> (forall a, a ∈ R -> key node < key a) ->
  spec_insert key node (L ++ R) = L ++ node :: R.
Proof.
  intros HL HR. induction L as [|x L IH]; simpl.
  - destruct R as [|y R]; [done|]. simpl. pose proof (HR y ltac:(left)). by rewrite (proj2 (Z.ltb_lt _ _)) by lia.
  - pose proof (HL x ltac:(left)). rewrite (proj2 (Z.ltb_ge (key node) (key x))), (proj2 (Z.ltb_lt (key x) (key node))) by lia.
    f_equal. apply IH. intros a Ha. apply HL. by right.
Qed.

Lemma spec_insert_found key node L a :
  key_sorted key L -> a ∈ L -> key a = key node -> spec_insert key node L = L.
Proof.
  induction 1 as [|x L Hs IH Hf]; intros Ha Hk; [by apply not_elem_of_nil in Ha|]. simpl. rewrite Forall_forall in Hf.
  apply elem_of_cons in Ha as [->|Ha]; [by rewrite Hk, Z.ltb_irrefl|]. pose proof (Hf a Ha).
  rewrite (proj2 (Z.ltb_ge (key node) (key x))), (proj2 (Z.ltb_lt (key x) (key node))) by lia. f_equal. by apply IH.
Qed.

Lemma key_sorted_insert key L node R :
  key_sorted key (L ++ R) -> (forall a, a ∈ L -> key a < key node) -> (forall a, a ∈ R -> key node < key a) ->
  key_sorted key (L ++ node :: R).
Proof.
  unfold key_sorted. rewrite !StronglySorted_app. intros (Hd & HsL & HsR) HL HR. split_and!; [|done|].
  - intros x y Hx [->|Hy]%elem_of_cons; auto.
  - constructor; [done|]. by apply Forall_forall.
Qed.

Lemma key_sorted_remove key L a R : key_sorted key (L ++ a :: R) -> key_sorted key (L ++ R).
Proof.
  unfold key_sorted. rewrite !StronglySorted_app. intros (Hd & HsL & HsR). inversion_clear HsR.
  split_and!; [|done|done]. intros x y Hx Hy. apply Hd; [done|by right].
Qed.

Lemma key_sorted_nodup key L : key_sorted key L -> NoDup L.
Proof.
  induction 1 as [|x L Hs IH Hf]; constructor; [|done]. intros Hx. rewrite Forall_forall in Hf.
  specialize (Hf x Hx). lia.
Qed.

Lemma filter_removed (a : Z) L R : NoDup (L ++ a :: R) -> filter (fun x => x <> a) (L ++ a :: R) = L ++ R.
Proof.
  intros Hnd. rewrite <- Permutation_middle in Hnd. apply NoDup_cons in Hnd as [Hn _]. rewrite not_elem_of_app in Hn.
  assert (Hid : forall M : list Z, a ∉ M -> filter (fun x => x <> a) M = M).
  { induction M as [|x M IH]; [done|]. rewrite not_elem_of_cons. intros [Hx HM].
    rewrite filter_cons_True by congruence. f_equal. by apply IH. }
  rewrite filter_app, filter_cons_False by auto. destruct Hn. by rewrite !Hid.
Qed.

Lemma find_app (f : Z -> bool) L R : (forall a, a ∈ L -> f a = false) -> List.find f (L ++ R) = List.find f R.
Proof.
  induction L as [|x L IH]; intros HL; simpl; [done|]. rewrite (HL x) by left. apply IH. intros a Ha. apply HL. by right.
Qed.

Lemma find_here (f : Z -> bool) R : (forall a, a ∈ R -> f a = true) -> List.find f R = head R.
Proof. destruct R as [|x R]; [done|]. intros HR. simpl. by rewrite (HR x) by left. Qed.

(** A list split where the key of [node] belongs. *)
Lemma spec_between key node L R :
  (forall a, a ∈ L -> key a < key node) -> (forall a, a ∈ R -> key node < key a) ->
  spec_search key node (L ++ R) = 0 /\ spec_greater key node (L ++ R) = default 0 (head R) /\
  spec_smaller key node (L ++ R) = default 0 (last L).
Proof.
  intros HL HR. unfold spec_search, spec_greater, spec_smaller. rewrite reverse_app. split_and!; f_equal.
  - rewrite find_app by (intros a Ha; specialize (HL a Ha); lia). rewrite <- (app_nil_r R), find_app; [done|].
    intros a Ha. specialize (HR a Ha). lia.
  - rewrite find_app by (intros a Ha; specialize (HL a Ha); lia). apply find_here.
    intros a Ha. specialize (HR a Ha). lia.
  - rewrite find_app by (intros a Ha; rewrite elem_of_reverse in Ha; specialize (HR a Ha); lia).
    rewrite find_here by (intros a Ha; rewrite elem_of_reverse in Ha; specialize (HL a Ha); lia). apply head_reverse.
Qed.

Lemma spec_found key node L a R :
  key_sorted key (L ++ a :: R) -> key a = key node ->
  spec_search key node (L ++ a :: R) = a /\ spec_greater key node (L ++ a :: R) = a /\
  spec_smaller key node (L ++ a :: R) = a.
Proof.
  unfold key_sorted. rewrite StronglySorted_app. intros (HL & _ & HR) Hk. inversion_clear HR as [|? ? _ HR'].
  rewrite Forall_forall in HR'. unfold spec_search, spec_greater, spec_smaller. rewrite reverse_app, reverse_cons.
  assert (HLa : forall x, x ∈ L -> key x < key a) by (intros x Hx; apply HL; [done|left]).
  split_and!.
  - rewrite find_app by (intros x Hx; specialize (HLa x Hx); lia). simpl. by rewrite Hk, Z.eqb_refl.
  - rewrite find_app by (intros x Hx; specialize (HLa x Hx); lia). simpl. by rewrite Hk, Z.leb_refl.
  - rewrite <- app_assoc, find_app by (intros x Hx; rewrite elem_of_reverse in Hx; specialize (HR' x Hx); lia).
    simpl. by rewrite Hk, Z.leb_refl.
Qed.

(** ** The operations *)

Lemma remove_index h tr L node R :
  index h tr (L ++ node :: R) ->
  exists tr' h', avl_remove tr node h = Ret (tr', h') /\ tr_aux tr' = tr_aux tr /\ index h' tr' (L ++ R) /\
    (forall x, x ∉ L ++ node :: R -> h' !! x = h !! x) /\ (forall x, is_Some (h !! x) -> is_Some (h' !! x)).
Proof.
  intros (t & Hin & Hi). destruct (avl_remove_rep h tr t L node R Hin Hi) as (tr' & h' & t' & E' & Haux & Hin' & Hi' & Hf & Hn).
  exists tr', h'. unfold same_but in Hf. rewrite Hi in Hf. split_and!; try done; [by exists t'|].
  intros x Hx. destruct (decide (x ∈ L ++ node :: R)) as [Hxt|Hxt]; [|by rewrite Hf].
  destruct (decide (x = node)) as [->|Hne]; [done|]. destruct Hin' as (Hr' & _).
  assert (Hx' : x ∈ inorder t') by (rewrite Hi'; rewrite elem_of_app, elem_of_cons in Hxt; rewrite elem_of_app; tauto).
  by destruct (rep_addr _ _ _ _ Hr' Hx').
Qed.

Lemma first_index h tr L : index h tr L -> avl_first tr h = Ret (default 0 (head L)).
Proof.
  intros (t & (Hr & _ & Hnd & Hroot) & <-). unfold avl_first. rewrite Hroot.
  eapply walk_left_rep; [done|by eapply fuel_height].
Qed.

Lemma last_index h tr L : index h tr L -> avl_last tr h = Ret (default 0 (last L)).
Proof.
  intros (t & (Hr & _ & Hnd & Hroot) & <-). unfold avl_last. rewrite Hroot.
  eapply walk_right_rep; [done|by eapply fuel_height].
Qed.

Lemma next_index h tr L a R : index h tr (L ++ a :: R) -> avl_next a h = Ret (default 0 (head R)).
Proof. intros (t & Hin & Hi). by eapply avl_next_rep. Qed.

Lemma prev_index h tr L a R : index h tr (L ++ a :: R) -> avl_prev a h = Ret (default 0 (last L)).
Proof. intros (t & Hin & Hi). by eapply avl_prev_rep. Qed.

Lemma index_nonzero h tr L a : index h tr L -> a ∈ L -> (a =? 0) = false.
Proof.
  intros (t & (Hr & _) & <-) Ha. destruct (rep_addr _ _ _ _ Hr Ha) as [[? _] _]. by apply Z.eqb_neq; lia.
Qed.

Section operations.
Variable func : Z -> Z -> Z -> Z.
Variable key : Z -> Z.

Lemma insert_index h tr L node :
  index h tr L -> key_sorted key L -> compares func key (tr_aux tr) node L -> addr_ok node -> is_Some (h !! node) ->
  exists ret tr' h', avl_insert func tr node h = Ret (ret, tr', h') /\ tr_aux tr' = tr_aux tr /\
    index h' tr' (spec_insert key node L) /\ key_sorted key (spec_insert key node L) /\
    (forall x, x <> node -> x ∉ L -> h' !! x = h !! x) /\ (forall x, is_Some (h !! x) -> is_Some (h' !! x)).
Proof.
  intros (t & Hin & <-) Hs Hc Hok [n0 Hn0].
  destruct (avl_insert_rep func key h tr t node n0 Hin Hs Hc Hok Hn0)
      as [(a & Ha & Hka & E')|(ret & tr' & h' & t' & L & R & E' & Haux & Hin' & Hi & Hi' & HL & HR & Hf)].
  - exists a, tr, h. rewrite (spec_insert_found key node _ a) by done. split_and!; try done. by exists t.
  - exists ret, tr', h'. rewrite Hi in Hs |- *. rewrite spec_insert_between by done. split_and!; try done.
    + by exists t'.
    + by apply key_sorted_insert.
    + intros x Hx HxL. apply Hf. rewrite Hi'. rewrite not_elem_of_app in *. rewrite not_elem_of_cons. tauto.
    + intros x Hx. destruct (decide (x ∈ inorder t')) as [Hx'|Hx']; [|by rewrite Hf].
      destruct Hin' as (Hr' & _). by destruct (rep_addr _ _ _ _ Hr' Hx').
Qed.

(** Where the search of an index ends: at the node, or between its neighbours. *)
Lemma search_index h tr L node :
  index h tr L -> key_sorted key L -> compares func key (tr_aux tr) node L ->
  (exists L1 a L2, L = L1 ++ a :: L2 /\ key a = key node /\ descend func (size h) (tr_aux tr) node 0 (tr_root tr) h = Ret (a, a)) \/
  (exists L1 L2 pp, L = L1 ++ L2 /\ (forall a, a ∈ L1 -> key a < key node) /\ (forall a, a ∈ L2 -> key node < key a) /\
     descend func (size h) (tr_aux tr) node 0 (tr_root tr) h = Ret (pp, 0) /\
     (L = [] /\ pp = 0 \/ head L2 = Some pp \/ last L1 = Some pp)).
Proof.
  intros (t & Hin & <-) Hs Hc.
  destruct (search_rep func key (tr_aux tr) node h tr t Hin Hc Hs) as [(a & Ha & Hka & E')|(k & <- & HL & HR & E')].
  - left. apply list_elem_of_split in Ha as (L1 & L2 & ->). eauto 10.
  - right. exists (left_of k), (right_of k), (par_of k). split; [by rewrite plug_inorder|]. split_and!; try done.
    destruct k as [|[a b r|l a b] k]; [by left|by right; left|]. right. right. simpl. by rewrite app_assoc, last_snoc.
Qed.
End operations.

(** ** Height *)

(** A balanced tree of height [n] has at least [2 ^ (n / 2) - 1] nodes. *)
Lemma avl_size t : avl t -> 2 ^ (height t / 2) <= Z.of_nat (length (inorder t)) + 1.
Proof.
  induction t as [|l IHl a b r IHr]; [done|]. intros (Hb & Hb1 & Hl & Hr). specialize (IHl Hl). specialize (IHr Hr).
  pose proof (height_nonneg l). pose proof (height_nonneg r). simpl inorder. rewrite length_app. cbn [length height].
  set (n := Z.max (height l) (height r)) in *. assert (Hn : n = 0 \/ 1 <= n) by lia. destruct Hn as [->|Hn].
  - change (2 ^ ((1 + 0) / 2)) with 1. lia.
  - assert (H1 : 2 ^ ((n - 1) / 2) <= 2 ^ (height l / 2)) by (apply Z.pow_le_mono_r; [lia|]; apply Z.div_le_mono; lia).
    assert (H2 : 2 ^ ((n - 1) / 2) <= 2 ^ (height r / 2)) by (apply Z.pow_le_mono_r; [lia|]; apply Z.div_le_mono; lia).
    replace (1 + n) with ((n - 1) + 1 * 2) by lia. rewrite Z.div_add by lia.
    rewrite Z.pow_add_r by (try apply Z.div_pos; lia). lia.
Qed.

Lemma avl_height t : avl t -> height t <= 2 * Z.log2 (Z.of_nat (length (inorder t)) + 1) + 1.
Proof.
  intros Ha. pose proof (avl_size t Ha) as Hs. pose proof (height_nonneg t).
  apply Z.log2_le_pow2 in Hs; [|lia]. pose proof (Z_div_mod_eq_full (height t) 2). pose proof (Z.mod_pos_bound (height t) 2). lia.
Qed.

Lemma step_index func key o h tr L L' :
  index h tr L -> key_sorted key L ->
  (forall a b, Z.sgn (func a b (tr_aux tr)) = Z.sgn (key a - key b)) ->
  (forall node, o = Insert node -> addr_ok node /\ is_Some (h !! node)) -> spec_op key o L = Some L' ->
  exists tr' h', run_op func o tr h = Ret (tr', h') /\ tr_aux tr' = tr_aux tr /\
    index h' tr' L' /\ key_sorted key L' /\ forall x, is_Some (h !! x) -> is_Some (h' !! x).
Proof.
  intros Hin Hs Hc Hn HL. destruct o as [node|node]; simpl in HL |- *.
  - destruct (Hn node eq_refl) as [Hok Hal]. injection HL as <-.
    destruct (insert_index func key h tr L node Hin Hs ltac:(intros ? _; apply Hc) Hok Hal)
      as (ret & tr1 & h1 & -> & Haux & Hin1 & Hs1 & _ & Hd1). eauto 10.
  - destruct (decide (node ∈ L)) as [Hx|Hx]; [|by rewrite bool_decide_false in HL].
    rewrite bool_decide_true in HL by done. apply list_elem_of_split in Hx as (L1 & L2 & ->).
    destruct (remove_index h tr L1 node L2 Hin) as (tr1 & h1 & -> & Haux & Hin1 & _ & Hd1).
    rewrite filter_removed in HL by (by eapply key_sorted_nodup). injection HL as <-.
    eexists _, _. split; [done|]. split; [done|]. split; [done|]. split; [|done]. by eapply key_sorted_remove.
Qed.

Lemma descend_fuel func aux node h res f : forall f' p cur,
  descend func f aux node p cur h = Ret res -> (f <= f')%nat -> descend func f' aux node p cur h = Ret res.
Proof.
  induction f as [|f IH]; intros [|f'] p cur Hd Hf; try lia; simpl in *; destruct (cur =? 0); try done.
  unfold avl_load in *. destruct (h !! cur) as [n|]; [|done]. cbn [mbind dev_outcome_bind] in *.
  destruct (0 <? func cur node aux); [apply IH; [done|lia]|]. destruct (func cur node aux <? 0); [apply IH; [done|lia]|done].
Qed.

(** ** Theorems *)

(** C16. Any sequence of insertions and removals that only removes nodes of the tree
    returns, and leaves a balanced search tree that holds the nodes a sorted list
    would hold after the same sequence: an insertion puts the node before the first
    greater key unless its key is there already, a removal takes out its node alone. *)
Theorem avl_refines_sorted_list func key ops : forall h tr L L',
  index h tr L -> key_sorted key L ->
  (forall a b, Z.sgn (func a b (tr_aux tr)) = Z.sgn (key a - key b)) ->
  (forall node, Insert node ∈ ops -> addr_ok node /\ is_Some (h !! node)) ->
  spec_run key ops L = Some L' ->
  exists tr' h', run func ops tr h = Ret (tr', h') /\ tr_aux tr' = tr_aux tr /\
    index h' tr' L' /\ key_sorted key L'.
Proof.
  induction ops as [|o ops IH]; intros h tr L L' Hin Hs Hc Hn HL; [injection HL as <-; eauto 10|].
  simpl in HL |- *. destruct (spec_op key o L) as [L1|] eqn:E1; [|done].
  destruct (step_index func key o h tr L L1 Hin Hs Hc) as (tr1 & h1 & -> & Haux & Hin1 & Hs1 & Hd1); [|done|].
  { intros node ->. apply Hn. left. }
  cbn [mbind dev_outcome_bind]. destruct (IH h1 tr1 L1 L' Hin1 Hs1) as (tr' & h' & E' & Haux' & ?); [by rewrite Haux| |done|].
  - intros node Hx. destruct (Hn node ltac:(by right)). auto.
  - exists tr', h'. by rewrite Haux', Haux.
Qed.

(** The searches. *)
Lemma searches_index func key h tr L node :
  index h tr L -> key_sorted key L -> compares func key (tr_aux tr) node L ->
  avl_search func tr node h = Ret (spec_search key node L) /\
  avl_search_greater func tr node h = Ret (spec_greater key node L) /\
  avl_search_smaller func tr node h = Ret (spec_smaller key node L).
Proof.
  intros Hin Hs Hc. unfold avl_search, avl_search_greater, avl_search_smaller.
  destruct (search_index func key h tr L node Hin Hs Hc)
    as [(L1 & a & L2 & -> & Hk & ->)|(L1 & L2 & pp & -> & HL & HR & -> & Hpp)]; cbn [mbind dev_outcome_bind].
  - destruct (spec_found key node L1 a L2 Hs Hk) as (-> & -> & ->).
    by rewrite (index_nonzero _ _ _ a Hin) by (apply elem_of_app; right; left).
  - destruct (spec_between key node L1 L2 HL HR) as (-> & -> & ->). split; [done|]. simpl negb. cbv iota.
    destruct Hpp as [[[-> ->]%app_nil ->]|[Hh|Hl]]; [done| |].
    + destruct L2 as [|x L2]; [done|]. injection Hh as ->.
      rewrite (index_nonzero _ _ _ pp Hin) by (apply elem_of_app; right; left). pose proof (HR pp ltac:(left)).
      pose proof (Hc pp ltac:(apply elem_of_app; right; left)) as Hsg. rewrite (proj2 (Z.ltb_lt 0 _)) by lia.
      rewrite (proj2 (Z.ltb_ge _ 0)) by lia. split; [done|]. by eapply prev_index.
    + apply last_Some in Hl as [L1' ->]. rewrite last_snoc. rewrite <- app_assoc in *. simpl in *.
      rewrite (index_nonzero _ _ _ pp Hin) by (apply elem_of_app; right; left).
      pose proof (HL pp ltac:(apply elem_of_app; right; left)).
      pose proof (Hc pp ltac:(apply elem_of_app; right; left)) as Hsg. rewrite (proj2 (Z.ltb_ge 0 _)) by lia.
      rewrite (proj2 (Z.ltb_lt _ 0)) by lia. split; [|done]. by eapply next_index.
Qed.

(** C25. A search gives the node with the same key, and 0 if there is none; the
    searches for a neighbour give that node, or else the node with the least greater
    key, respectively the greatest smaller key, and 0 if there is none.  The first and
    the last node of the tree are those of the list, and the steps from a node go to
    its neighbours in the list, with 0 beyond its ends. *)
Theorem avl_queries_correct func key h tr L :
  index h tr L -> key_sorted key L -> (forall node, compares func key (tr_aux tr) node L) ->
  (forall node, avl_search func tr node h = Ret (spec_search key node L) /\
     avl_search_greater func tr node h = Ret (spec_greater key node L) /\
     avl_search_smaller func tr node h = Ret (spec_smaller key node L)) /\
  avl_first tr h = Ret (default 0 (head L)) /\ avl_last tr h = Ret (default 0 (last L)) /\
  forall L1 a L2, L = L1 ++ a :: L2 ->
    avl_next a h = Ret (default 0 (head L2)) /\ avl_prev a h = Ret (default 0 (last L1)).
Proof.
  intros Hin Hs Hc. split; [intros node; by apply searches_index|]. split; [by apply first_index|]. split; [by apply last_index|].
  intros L1 a L2 ->. split; [by eapply next_index|by eapply prev_index].
Qed.

(** C27. A search of a tree of [n] nodes is over after it has looked at no more than
    [2 log2 (n + 1) + 1] of them. *)
Theorem avl_search_logarithmic func key h tr L node :
  index h tr L -> key_sorted key L -> compares func key (tr_aux tr) node L ->
  exists p a,
    descend func (Z.to_nat (2 * Z.log2 (Z.of_nat (length L) + 1) + 1)) (tr_aux tr) node 0 (tr_root tr) h = Ret (p, a) /\
    avl_search func tr node h = Ret a.
Proof.
  intros (t & Hin & <-) Hs Hc. destruct Hin as (Hr & Ha & Hnd & Hroot). pose proof (avl_height t Ha).
  pose proof (fuel_height _ _ _ Hr Hnd). pose proof (height_nonneg t).
  assert (Hd : exists p a, descend func (Z.to_nat (height t)) (tr_aux tr) node 0 (root_of t) h = Ret (p, a)).
  { destruct (descend_rep func key (Z.to_nat (height t)) (tr_aux tr) node h t [] Hr Hc Hs)
      as [(a & _ & _ & ?)|(k & _ & _ & _ & _ & _ & _ & _ & _ & ?)]; eauto. }
  destruct Hd as (p & a & Hd). exists p, a. rewrite Hroot. split; [eapply descend_fuel; [exact Hd|lia]|].
  unfold avl_search. rewrite Hroot. erewrite descend_fuel; [|exact Hd|done]. done.
Qed.

(** ** Examples *)

(** Nodes ordered by their addresses. *)
Definition addr_cmp (a b _ : Z) : Z := Z.sgn (a - b).
Definition blank : avl_node := AvlNode 0 0 0.
Definition blank_heap : avl_heap := list_to_map ((fun a => (a, blank)) <$> [16; 32; 48; 64; 80; 96]).
(** Three nodes, the middle one the root. *)
Definition three_heap : avl_heap :=
  list_to_map [(16, AvlNode 33 0 0); (32, AvlNode 1 16 48); (48, AvlNode 33 0 0)].
Definition three_tree : avl_tree := AvlTree 32 0.

Lemma addr_cmp_sgn a b aux : Z.sgn (addr_cmp a b aux) = Z.sgn (a - b).
Proof. apply Z.sgn_sgn. Qed.

Lemma index_empty h aux : index h (avl_init aux) [].
Proof. exists E. repeat split; try done. constructor. Qed.

Lemma three_index : index three_heap three_tree [16; 32; 48].
Proof.
  exists (T (T E 16 0 E) 32 0 (T E 48 0 E)). split; [|done].
  split; [vm_compute; intuition congruence|]. split; [simpl; lia|]. split; [|done].
  by apply (bool_decide_eq_true _).
Qed.

Lemma three_sorted : key_sorted id [16; 32; 48].
Proof. repeat (constructor; [|by repeat constructor]). constructor. Qed.

Lemma avl_refines_sorted_list_witness :
  exists tr' h', run addr_cmp [Insert 16; Insert 32; Insert 48; Insert 64; Insert 80; Insert 96; Insert 48; Remove 32; Remove 16]
    (avl_init 0) blank_heap = Ret (tr', h') /\ tr_aux tr' = 0 /\ index h' tr' [48; 64; 80; 96] /\ key_sorted id [48; 64; 80; 96].
Proof.
  apply (avl_refines_sorted_list addr_cmp id _ blank_heap (avl_init 0) [] [48; 64; 80; 96]).
  - apply index_empty.
  - constructor.
  - intros a b. apply addr_cmp_sgn.
  - intros node Hn. rewrite !elem_of_cons in Hn. destruct_or! Hn; simplify_eq; try (split; [done|by eexists]).
    by apply not_elem_of_nil in Hn.
  - reflexivity.
Defined.

Lemma avl_queries_correct_witness :
  avl_search addr_cmp three_tree 32 three_heap = Ret 32 /\ avl_search_greater addr_cmp three_tree 40 three_heap = Ret 48 /\
  avl_search_smaller addr_cmp three_tree 8 three_heap = Ret 0 /\ avl_first three_tree three_heap = Ret 16 /\
  avl_next 48 three_heap = Ret 0 /\ avl_prev 48 three_heap = Ret 32.
Proof.
  destruct (avl_queries_correct addr_cmp id three_heap three_tree [16; 32; 48] three_index three_sorted) as (Hq & Hf & _ & Hw);
    [intros node a _; apply addr_cmp_sgn|].
  split; [apply (Hq 32)|]. split; [apply (Hq 40)|]. split; [apply (Hq 8)|]. split; [exact Hf|]. exact (Hw [16; 32] 48 [] eq_refl).
Defined.

Lemma avl_search_logarithmic_witness :
  exists p a, descend addr_cmp 5 0 48 0 32 three_heap = Ret (p, a) /\ avl_search addr_cmp three_tree 48 three_heap = Ret a.
Proof.
  apply (avl_search_logarithmic addr_cmp id three_heap three_tree [16; 32; 48] 48 three_index three_sorted).
  intros a _. apply addr_cmp_sgn.
Defined.
