(* ===== verification/Memleak.v ===== *)
(** * The leak detector of the benchmark suite

    [src/application/kvbench/utils/memleak.cc] as it is compiled on Linux: the
    records of the live allocations, kept in the search tree of [AvlTree] in the
    order of their addresses, and the functions that stand for [malloc], [calloc],
    [posix_memalign], [realloc] and [free].  The calls of the C library that the
    functions make are modelled by their effect on the blocks of memory in use;
    the addresses that they return are arguments. *)

From stdpp Require Import base numbers list gmap sorting.
From S2P Require Import Prelude.
From S2P Require Import AvlTree.
From S2P Require Import AvlSpec.
From S2P Require Import AvlOps.
From S2P Require Import AvlInsert.
From S2P Require Import AvlIndex.

(** ** Data *)

Record memleak_item := MemleakItem {
  it_addr : Z;
  it_file : list byte;
  it_size : Z;
  it_line : Z
}.

(** [offsetof (struct memleak_item, avl)]; [_get_entry] subtracts it. *)
Definition avl_offset : Z := 32.
Abbreviation INIT_VAL := Byte.x77 (only parsing).
Abbreviation FREE_VAL := Byte.xff (only parsing).

(** The static variables, the records in use with the tree nodes inside them, and
    the blocks of memory in use, by their addresses. *)
Record memleak := Memleak {
  tree_index : avl_tree;
  start_sw : Z;
  lock : bool;
  items : gmap Z memleak_item;
  nodes : avl_heap;
  blocks : gmap Z (list byte)
}.

Definition set_lock (b : bool) (st : memleak) : memleak :=
  Memleak (tree_index st) (start_sw st) b (items st) (nodes st) (blocks st).
Definition set_blocks (m : gmap Z (list byte)) (st : memleak) : memleak :=
  Memleak (tree_index st) (start_sw st) (lock st) (items st) (nodes st) m.

(** [spin_lock] waits for ever for a lock that is held. *)
Definition spin_lock (st : memleak) : dev_outcome memleak :=
  if lock st then Blocked else Ret (set_lock true st).
Definition spin_unlock (st : memleak) : memleak := set_lock false st.

Definition memset (addr : Z) (c : byte) (n : Z) (m : gmap Z (list byte)) : dev_outcome (gmap Z (list byte)) :=
  match m !! addr with
  | Some b =>
      if n <=? Z.of_nat (length b) then Ret (<[addr := replicate (Z.to_nat n) c ++ drop (Z.to_nat n) b]> m) else Undef
  | None => Undef
  end.

(** [free] of a block of memory. *)
Definition free (addr : Z) (m : gmap Z (list byte)) : dev_outcome (gmap Z (list byte)) :=
  if addr =? 0 then Ret m
  else match m !! addr with Some _ => Ret (delete addr m) | None => Undef end.

(** [free (item)], with the node inside it. *)
Definition free_item (item : Z) (st : memleak) : dev_outcome memleak :=
  match items st !! item with
  | Some _ =>
      Ret (Memleak (tree_index st) (start_sw st) (lock st) (delete item (items st))
             (delete (item + avl_offset) (nodes st)) (blocks st))
  | None => Undef
  end.

(** The comparison of two records by the nodes inside them.  It is only called on
    nodes of records in use. *)
Definition memleak_cmp (items : gmap Z memleak_item) (a b _ : Z) : Z :=
  match items !! (a - avl_offset), items !! (b - avl_offset) with
  | Some aa, Some bb => if it_addr aa <? it_addr bb then -1 else if it_addr aa >? it_addr bb then 1 else 0
  | _, _ => 0
  end.

(** The local variable [query] lies outside of the heap. *)
Definition query_item : Z := - 64.

(** [query.addr = addr; avl_search (&tree_index, &query.avl, memleak_cmp)] *)
Definition search_addr (addr : Z) (st : memleak) : dev_outcome Z :=
  avl_search (memleak_cmp (<[query_item := MemleakItem addr [] 0 0]> (items st)))
    (tree_index st) (query_item + avl_offset) (nodes st).

Definition memleak_start (st : memleak) : memleak :=
  Memleak (avl_init 0) 1 false (items st) (nodes st) (blocks st).

(** The loop of [memleak_end]: the records it prints. *)
Fixpoint end_loop (fuel : nat) (a : Z) (st : memleak) : dev_outcome (list memleak_item * memleak) :=
  if a =? 0 then Ret ([], st)
  else match fuel with
       | O => Blocked
       | S f =>
           let item := a - avl_offset in
           a ← avl_next a (nodes st);
           '(t, h) ← avl_remove (tree_index st) (item + avl_offset) (nodes st);
           let st := Memleak t (start_sw st) (lock st) (items st) h (blocks st) in
           match items st !! item with
           | Some it =>
               st ← free_item item st;
               '(printed, st) ← end_loop f a st;
               Ret (it :: printed, st)
           | None => Undef
           end
       end.

(** The records printed, and the total if it is printed. *)
Definition memleak_end (st : memleak) : dev_outcome (list memleak_item * option Z * memleak) :=
  st ← spin_lock st;
  let st := Memleak (tree_index st) 0 (lock st) (items st) (nodes st) (blocks st) in
  a ← avl_first (tree_index st) (nodes st);
  '(printed, st) ← end_loop (size (nodes st)) a st;
  let count := Z.of_nat (length printed) in
  Ret (printed, if 0 <? count then Some (s32 count) else None, spin_unlock st).

Section fresh_memory.
(** What fresh memory contains. *)
Variable junk : Z -> byte.
Variable junk_node : Z -> avl_node.

Definition junk_bytes (addr n : Z) : list byte := (fun i => junk (addr + i)) <$> seqZ 0 n.

(** [item] is the address of the new record, or 0. *)
Definition _memleak_add_to_index (item addr size : Z) (file : list byte) (line : Z) (init_val : byte) (st : memleak)
    : dev_outcome memleak :=
  if item =? 0 then Undef
  else
    let items := <[item := MemleakItem addr file size line]> (items st) in
    blocks ← memset addr init_val size (blocks st);
    '(_, t, h) ← avl_insert (memleak_cmp items) (tree_index st) (item + avl_offset)
                   (<[item + avl_offset := junk_node item]> (nodes st));
    Ret (Memleak t (start_sw st) (lock st) items h blocks).

(** The part of the allocation functions after the call of the C library. *)
Definition record_allocation (item addr size : Z) (file : list byte) (line : Z) (init_val : byte) (st : memleak)
    : dev_outcome memleak :=
  st ← spin_lock st;
  st ← _memleak_add_to_index item addr size file line init_val st;
  Ret (spin_unlock st).

Definition memleak_alloc (addr item size : Z) (file : list byte) (line : Z) (st : memleak) : dev_outcome (Z * memleak) :=
  let st := if addr =? 0 then st else set_blocks (<[addr := junk_bytes addr size]> (blocks st)) st in
  st ← (if negb (addr =? 0) && negb (start_sw st =? 0)
        then record_allocation item addr size file line INIT_VAL st else Ret st);
  Ret (addr, st).

Definition memleak_calloc (addr item nmemb size : Z) (file : list byte) (line : Z) (st : memleak)
    : dev_outcome (Z * memleak) :=
  let st := if addr =? 0 then st
            else set_blocks (<[addr := replicate (Z.to_nat (nmemb * size)) Byte.x00]> (blocks st)) st in
  st ← (if negb (addr =? 0) && negb (start_sw st =? 0)
        then record_allocation item addr size file line Byte.x00 st else Ret st);
  Ret (addr, st).

(** [ret] is the result of [posix_memalign], and [addr] what it stored if that is 0. *)
Definition memleak_posix_memalign (ret addr item size : Z) (file : list byte) (line : Z) (st : memleak)
    : dev_outcome (Z * memleak) :=
  let st := if ret =? 0 then set_blocks (<[addr := junk_bytes addr size]> (blocks st)) st else st in
  st ← (if (ret =? 0) && negb (start_sw st =? 0)
        then record_allocation item addr size file line INIT_VAL st else Ret st);
  Ret (ret, st).

(** [realloc (ptr, size)] that returns [addr]: the old contents, cut or followed by
    fresh memory.  With the size 0 it frees the block. *)
Definition realloc (ptr addr size : Z) (m : gmap Z (list byte)) : dev_outcome (gmap Z (list byte)) :=
  if addr =? 0 then (if size =? 0 then free ptr m else Ret m)
  else
    let old := default [] (m !! ptr) in
    m ← free ptr m;
    Ret (<[addr := take (Z.to_nat size) old ++ drop (length old) (junk_bytes addr size)]> m).

Definition memleak_realloc (ptr addr item size : Z) (st : memleak) : dev_outcome (Z * memleak) :=
  m ← realloc ptr addr size (blocks st);
  let st := set_blocks m st in
  if negb (addr =? 0) && negb (start_sw st =? 0) then
    st ← spin_lock st;
    a ← search_addr ptr st;
    if negb (a =? 0) then
      match items st !! (a - avl_offset) with
      | Some old =>
          '(t, h) ← avl_remove (tree_index st) a (nodes st);
          st ← _memleak_add_to_index item addr size (it_file old) (it_line old) INIT_VAL
                 (Memleak t (start_sw st) (lock st) (items st) h (blocks st));
          st ← free_item (a - avl_offset) st;
          Ret (addr, spin_unlock st)
      | None => Undef
      end
    else Ret (addr, spin_unlock st)
  else Ret (addr, st).
End fresh_memory.

Definition memleak_free (addr : Z) (st : memleak) : dev_outcome memleak :=
  if negb (start_sw st =? 0) then
    st ← spin_lock st;
    a ← search_addr addr st;
    if a =? 0 then Ret (spin_unlock st)
    else
      match items st !! (a - avl_offset) with
      | Some item =>
          m ← memset addr FREE_VAL (it_size item) (blocks st);
          '(t, h) ← avl_remove (tree_index st) a (nodes st);
          st ← free_item (a - avl_offset) (Memleak t (start_sw st) (lock st) (items st) h m);
          let st := spin_unlock st in
          m ← free addr (blocks st);
          Ret (set_blocks m st)
      | None => Undef
      end
  else
    m ← free addr (blocks st);
    Ret (set_blocks m st).
