(* ===== verification/MemleakSpec.v ===== *)
(** * What the leak detector reports

    The records of [Memleak] as a map from the addresses in use to what is known of
    them: every allocation function, [memleak_realloc] and [memleak_free] change the
    map as the calls change the set of live allocations, and [memleak_end] prints
    what is left of it, in the order of the addresses. *)

From stdpp Require Import base numbers list gmap sorting.
From S2P Require Import Prelude.
From S2P Require Import AvlTree.
From S2P Require Import AvlSpec.
From S2P Require Import AvlOps.
From S2P Require Import AvlInsert.
From S2P Require Import AvlIndex.
From S2P Require Import Memleak.

Implicit Types (h : avl_heap) (tr : avl_tree) (L : list Z) (ms M : gmap Z memleak_item) (it : memleak_item).

Definition addr_of ms (a : Z) : Z := match ms !! (a - avl_offset) with Some it => it_addr it | None => 0 end.

(** The tree holds the nodes [L] of the records of [M], in the order of the addresses. *)
Definition holds ms h tr L M : Prop :=
  index h tr L /\ key_sorted (addr_of ms) L /\ (forall a, a ∈ L -> is_Some (ms !! (a - avl_offset))) /\
  forall addr it, M !! addr = Some it <-> exists a, a ∈ L /\ ms !! (a - avl_offset) = Some it /\ it_addr it = addr.

(** The detector runs, no lock is held, and the blocks of the records are in use. *)
Definition tracks (st : memleak) M : Prop :=
  lock st = false /\ start_sw st = 1 /\ (exists L, holds (items st) (nodes st) (tree_index st) L M) /\
  forall addr it, M !! addr = Some it ->
    0 < addr /\ exists b, blocks st !! addr = Some b /\ 0 <= it_size it <= Z.of_nat (length b).

(** ** The index of the records *)

Lemma cmp_compares ms aux node L :
  (forall a, a ∈ L -> is_Some (ms !! (a - avl_offset))) -> is_Some (ms !! (node - avl_offset)) ->
  compares (memleak_cmp ms) (addr_of ms) aux node L.
Proof.
  intros HL [n Hn] a [x Hx]%HL. unfold memleak_cmp, addr_of. rewrite Hx, Hn.
  destruct (Z.ltb_spec (it_addr x) (it_addr n)); [lia|]. rewrite Z.gtb_ltb.
  destruct (Z.ltb_spec (it_addr n) (it_addr x)); lia.
Qed.

Lemma key_sorted_ext (k k' : Z -> Z) L : (forall a, a ∈ L -> k' a = k a) -> key_sorted k L -> key_sorted k' L.
Proof.
  intros Hk. induction 1 as [|x L Hs IH Hf]; constructor.
  - apply IH. intros a Ha. apply Hk. by right.
  - rewrite Forall_forall in *. intros y Hy. rewrite !Hk by (by left || by right). by apply Hf.
Qed.

Lemma spec_insert_perm key node L :
  (forall a, a ∈ L -> key a <> key node) -> spec_insert key node L ≡ₚ node :: L.
Proof.
  induction L as [|x L IH]; intros HL; [done|]. simpl. destruct (Z.ltb_spec (key node) (key x)); [done|].
  pose proof (HL x ltac:(left)). rewrite (proj2 (Z.ltb_lt (key x) (key node))) by lia.
  rewrite IH by (intros a Ha; apply HL; by right). apply perm_swap.
Qed.

Lemma index_frame h h' tr L : index h tr L -> (forall a, a ∈ L -> h' !! a = h !! a) -> index h' tr L.
Proof.
  intros (t & (Hr & Ha & Hnd & Hroot) & <-) Hf. exists t. split; [|done].
  split; [by eapply rep_frame|]. done.
Qed.

Lemma index_addr h tr L a : index h tr L -> a ∈ L -> addr_ok a.
Proof. intros (t & (Hr & _) & <-) Ha. by destruct (rep_addr _ _ _ _ Hr Ha). Qed.

(** What does not belong to the tree may change. *)
Lemma holds_frame ms ms' h h' tr L M :
  holds ms h tr L M -> (forall a, a ∈ L -> h' !! a = h !! a) ->
  (forall a, a ∈ L -> ms' !! (a - avl_offset) = ms !! (a - avl_offset)) -> holds ms' h' tr L M.
Proof.
  intros (Hin & Hs & Hi & HM) Hh Hm. split; [by eapply index_frame|]. split; [|split].
  - eapply key_sorted_ext; [|exact Hs]. intros a Ha. unfold addr_of. by rewrite Hm.
  - intros a Ha. rewrite Hm by done. by apply Hi.
  - intros addr it. rewrite HM. split; intros (a & Ha & Hx & ?); exists a; [by rewrite Hm|by rewrite Hm in Hx].
Qed.

Lemma holds_free ms h tr L M a :
  holds ms h tr L M -> a ∉ L -> holds (delete (a - avl_offset) ms) (delete a h) tr L M.
Proof.
  intros Hh Ha. eapply holds_frame; [done| |].
  - intros x Hx. apply lookup_delete_ne. by intros ->.
  - intros x Hx. apply lookup_delete_ne. intros Hxa. assert (x = a) as -> by lia. done.
Qed.

Lemma holds_fresh ms h tr L M item : holds ms h tr L M -> ms !! item = None -> item + avl_offset ∉ L.
Proof. intros (_ & _ & Hi & _) Hn [x Hx]%Hi. by rewrite Z.add_simpl_r, Hn in Hx. Qed.

Lemma holds_addr ms h tr L M a it :
  holds ms h tr L M -> a ∈ L -> ms !! (a - avl_offset) = Some it -> M !! it_addr it = Some it.
Proof. intros (_ & _ & _ & HM) Ha Hx. apply HM. eauto. Qed.

Lemma holds_insert ms h tr L M item it n :
  holds ms h tr L M -> ms !! item = None -> M !! it_addr it = None -> addr_ok (item + avl_offset) ->
  exists ret tr' h' L', avl_insert (memleak_cmp (<[item := it]> ms)) tr (item + avl_offset) (<[item + avl_offset := n]> h) =
      Ret (ret, tr', h') /\
    holds (<[item := it]> ms) h' tr' L' (<[it_addr it := it]> M) /\ L' ≡ₚ item + avl_offset :: L.
Proof.
  intros Hh Hn HMn Hok. set (ms' := <[item := it]> ms). set (node := item + avl_offset). pose proof (holds_fresh _ _ _ _ _ _ Hh Hn) as HnL.
  assert (Hnode : ms' !! (node - avl_offset) = Some it) by (unfold ms', node; by rewrite Z.add_simpl_r, lookup_insert_eq).
  assert (Hh' : holds ms' (<[node := n]> h) tr L M).
  { eapply holds_frame; [done|..]; intros a Ha; apply lookup_insert_ne; [by intros <-|]. intros E. apply HnL.
    unfold avl_offset in *. by replace (item + 32) with a by lia. }
  pose proof Hh' as (Hin & Hs & Hi & HM).
  assert (Hkey : forall a, a ∈ L -> addr_of ms' a <> addr_of ms' node).
  { intros a Ha. unfold addr_of. rewrite Hnode. destruct (Hi a Ha) as [x Hx]. rewrite Hx. intros E.
    pose proof (holds_addr _ _ _ _ _ _ _ Hh' Ha Hx). congruence. }
  destruct (insert_index (memleak_cmp ms') (addr_of ms') (<[node := n]> h) tr L node Hin Hs) as (ret & tr' & h' & E' & _ & Hin' & Hs' & _);
    [by apply cmp_compares|done|rewrite lookup_insert_eq; by eexists|].
  pose proof (spec_insert_perm (addr_of ms') node L Hkey) as HP.
  exists ret, tr', h', (spec_insert (addr_of ms') node L). split; [done|]. split; [|done].
  split; [done|]. split; [done|]. split.
  - intros a Ha. rewrite HP in Ha. apply elem_of_cons in Ha as [->|Ha]; [by eexists|by apply Hi].
  - intros addr x. setoid_rewrite HP. setoid_rewrite elem_of_cons. destruct (decide (addr = it_addr it)) as [->|Hne].
    + rewrite lookup_insert_eq. split; [intros [= <-]; eauto 10|]. intros (a & [->|Ha] & Hx & E); [congruence|].
      pose proof (holds_addr _ _ _ _ _ _ _ Hh' Ha Hx). congruence.
    + rewrite lookup_insert_ne, HM by done. split; [intros (a & ? & ?); eauto|]. intros (a & [->|Ha] & Hx & E); [congruence|eauto].
Qed.

Lemma key_sorted_inj key L a b : key_sorted key L -> a ∈ L -> b ∈ L -> key a = key b -> a = b.
Proof.
  induction 1 as [|x L Hs IH Hf]; intros Ha Hb Hk; [by apply not_elem_of_nil in Ha|]. rewrite Forall_forall in Hf.
  apply elem_of_cons in Ha as [->|Ha], Hb as [->|Hb]; [done| | |by apply IH].
  - specialize (Hf b Hb). lia.
  - specialize (Hf a Ha). lia.
Qed.

Lemma holds_inj ms h tr L M a b it it' :
  holds ms h tr L M -> a ∈ L -> b ∈ L -> ms !! (a - avl_offset) = Some it -> ms !! (b - avl_offset) = Some it' ->
  it_addr it = it_addr it' -> a = b.
Proof.
  intros (_ & Hs & _) Ha Hb Ea Eb E. eapply key_sorted_inj; [done..|]. unfold addr_of. by rewrite Ea, Eb.
Qed.

Lemma holds_remove ms h tr L M a it :
  holds ms h tr L M -> a ∈ L -> ms !! (a - avl_offset) = Some it ->
  exists tr' h' L', avl_remove tr a h = Ret (tr', h') /\
    holds ms h' tr' L' (delete (it_addr it) M) /\ L ≡ₚ a :: L' /\ (a ∉ L') /\ (L' = tail L \/ head L <> Some a).
Proof.
  intros Hh Ha Ea. pose proof Hh as (Hin & Hs & Hi & HM). pose proof (key_sorted_nodup _ _ Hs) as Hnd.
  apply list_elem_of_split in Ha as (L1 & L2 & ->).
  destruct (remove_index h tr L1 a L2 Hin) as (tr' & h' & E' & _ & Hin' & _).
  assert (HP : L1 ++ a :: L2 ≡ₚ a :: L1 ++ L2) by (by rewrite Permutation_middle).
  assert (Hna : a ∉ L1 ++ L2) by (rewrite HP in Hnd; by apply NoDup_cons in Hnd as [? _]).
  exists tr', h', (L1 ++ L2). split; [done|]. split; [|split; [done|split; [done|]]].
  - split; [done|]. split; [by eapply key_sorted_remove|]. split.
    + intros x Hx. apply Hi. rewrite HP. by right.
    + intros addr x. rewrite lookup_delete_Some, HM. split.
      * intros (Hne & y & Hy & Ey & E). rewrite HP in Hy. apply elem_of_cons in Hy as [->|Hy]; [congruence|eauto].
      * intros (y & Hy & Ey & <-). assert (Hy' : y ∈ L1 ++ a :: L2) by (rewrite HP; by right).
        split; [|by eauto]. intros E. apply Hna. replace a with y; [done|].
        apply (holds_inj _ _ _ _ _ _ _ _ _ Hh Hy' ltac:(rewrite HP; left) Ey Ea). done.
  - destruct L1 as [|x L1]; [by left|]. right. simpl. intros [= ->]. apply Hna. left.
Qed.

(** ** The search *)

Lemma search_addr_holds st L M addr :
  holds (items st) (nodes st) (tree_index st) L M ->
  (exists a it, a ∈ L /\ items st !! (a - avl_offset) = Some it /\ it_addr it = addr /\ M !! addr = Some it /\
     search_addr addr st = Ret a /\ (a =? 0) = false) \/
  (M !! addr = None /\ search_addr addr st = Ret 0).
Proof.
  intros Hh. pose proof Hh as (Hin & _ & _ & HM0). unfold search_addr.
  set (ms := <[query_item := MemleakItem addr [] 0 0]> (items st)). set (node := query_item + avl_offset).
  assert (Hout : forall a, a ∈ L -> ms !! (a - avl_offset) = items st !! (a - avl_offset)).
  { intros a Ha. apply lookup_insert_ne. destruct (index_addr _ _ _ _ Hin Ha) as [Hpos _].
    unfold query_item, avl_offset in *. lia. }
  destruct (holds_frame (items st) ms (nodes st) (nodes st) (tree_index st) L M Hh) as (_ & Hs & Hi & HM); [done..|].
  assert (Hnode : addr_of ms node = addr) by (unfold addr_of, node, ms; by rewrite Z.add_simpl_r, lookup_insert_eq).
  unfold avl_search.
  destruct (search_index (memleak_cmp ms) (addr_of ms) (nodes st) (tree_index st) L node Hin Hs)
    as [(L1 & a & L2 & -> & Hk & ->)|(L1 & L2 & pp & -> & HL & HR & -> & _)]; cbn [mbind dev_outcome_bind].
  - apply cmp_compares; [done|]. unfold node, ms. rewrite Z.add_simpl_r, lookup_insert_eq. by eexists.
  - left. assert (Ha : a ∈ L1 ++ a :: L2) by (apply elem_of_app; right; left). destruct (Hi a Ha) as [it Hit].
    rewrite Hnode in Hk. unfold addr_of in Hk. rewrite Hit in Hk. rewrite Hout in Hit by done. exists a, it. split_and!; try done.
    + rewrite <- Hk. by eapply holds_addr.
    + by eapply index_nonzero.
  - right. split; [|done]. destruct (M !! addr) as [it|] eqn:EM; [|done]. apply HM in EM as (a & Ha & Hit & E).
    assert (Hka : addr_of ms a = addr) by (unfold addr_of; by rewrite Hit).
    apply elem_of_app in Ha as [Ha%HL|Ha%HR]; lia.
Qed.

(** ** The functions *)

Inductive event :=
| Alloc (addr item size : Z) (file : list byte) (line : Z)
| Calloc (addr item nmemb size : Z) (file : list byte) (line : Z)
| Memalign (ret addr item size : Z) (file : list byte) (line : Z)
| Realloc (ptr addr item size : Z)
| Free (addr : Z).

(** The records as the calls change them. *)
Definition spec_event (e : event) M : gmap Z memleak_item :=
  match e with
  | Alloc addr _ size file line => if addr =? 0 then M else <[addr := MemleakItem addr file size line]> M
  | Calloc addr _ _ size file line => if addr =? 0 then M else <[addr := MemleakItem addr file size line]> M
  | Memalign ret addr _ size file line => if ret =? 0 then <[addr := MemleakItem addr file size line]> M else M
  | Realloc ptr addr _ size =>
      if addr =? 0 then M
      else match M !! ptr with
           | Some it => <[addr := MemleakItem addr (it_file it) size (it_line it)]> (delete ptr M)
           | None => M
           end
  | Free addr => delete addr M
  end.

(** *** The live allocations

    What the program has allocated and not given back, whatever the detector records:
    how many elements of which size, and the place of the allocation, which
    [memleak_realloc] keeps and does not know for a block it creates. *)
Record allocation := Allocation { al_nmemb : Z; al_size : Z; al_place : option (list byte * Z) }.

Definition live_event (e : event) (live : gmap Z allocation) : gmap Z allocation :=
  match e with
  | Alloc addr _ size file line => if addr =? 0 then live else <[addr := Allocation 1 size (Some (file, line))]> live
  | Calloc addr _ nmemb size file line => if addr =? 0 then live else <[addr := Allocation nmemb size (Some (file, line))]> live
  | Memalign ret addr _ size file line => if ret =? 0 then <[addr := Allocation 1 size (Some (file, line))]> live else live
  | Realloc ptr addr _ size =>
      if addr =? 0 then live else <[addr := Allocation 1 size (live !! ptr ≫= al_place)]> (delete ptr live)
  | Free addr => delete addr live
  end.

(** What the report says of the block [addr]: nothing if the place is not known, and the
    size of one element. *)
Definition report_line (addr : Z) (al : allocation) : option memleak_item :=
  (fun '(file, line) => MemleakItem addr file (al_size al) line) <$> al_place al.

Definition records (live : gmap Z allocation) : gmap Z memleak_item := map_imap report_line live.

(** What the C library promises of a fresh address, and what it asks of an address
    given back to it. *)
Definition fresh_item (item : Z) (st : memleak) : Prop :=
  0 < item /\ addr_ok (item + avl_offset) /\ items st !! item = None.
Definition fresh_block (addr item size : Z) (st : memleak) : Prop :=
  0 < addr /\ blocks st !! addr = None /\ 0 <= size /\ fresh_item item st.
Definition in_use (addr : Z) (st : memleak) : Prop := addr = 0 \/ is_Some (blocks st !! addr).

Definition valid (e : event) (st : memleak) : Prop :=
  match e with
  | Alloc addr item size _ _ => addr = 0 \/ fresh_block addr item size st
  | Calloc addr item nmemb size _ _ => addr = 0 \/ 1 <= nmemb /\ fresh_block addr item size st
  | Memalign ret addr item size _ _ => ret <> 0 \/ fresh_block addr item size st
  | Realloc ptr addr item size =>
      0 < size /\ in_use ptr st /\
      (addr = 0 \/ 0 < addr /\ (addr = ptr \/ blocks st !! addr = None) /\ fresh_item item st)
  | Free addr => in_use addr st
  end.

Section run.
Variable junk : Z -> byte.
Variable junk_node : Z -> avl_node.

Definition call (e : event) (st : memleak) : dev_outcome memleak :=
  match e with
  | Alloc addr item size file line => '(_, st) ← memleak_alloc junk junk_node addr item size file line st; Ret st
  | Calloc addr item nmemb size file line => '(_, st) ← memleak_calloc junk_node addr item nmemb size file line st; Ret st
  | Memalign ret addr item size file line => '(_, st) ← memleak_posix_memalign junk junk_node ret addr item size file line st; Ret st
  | Realloc ptr addr item size => '(_, st) ← memleak_realloc junk junk_node ptr addr item size st; Ret st
  | Free addr => memleak_free addr st
  end.

Fixpoint calls (es : list event) (st : memleak) : dev_outcome memleak :=
  match es with
  | [] => Ret st
  | e :: es => st ← call e st; calls es st
  end.

Fixpoint all_valid (es : list event) (st : memleak) : Prop :=
  match es with
  | [] => True
  | e :: es => valid e st /\ match call e st with Ret st => all_valid es st | _ => True end
  end.

Lemma add_to_index_holds item addr size file line v st L M b :
  holds (items st) (nodes st) (tree_index st) L M -> fresh_item item st -> M !! addr = None ->
  blocks st !! addr = Some b -> size <= Z.of_nat (length b) ->
  exists t h L', let it := MemleakItem addr file size line in
    _memleak_add_to_index junk_node item addr size file line v st =
      Ret (Memleak t (start_sw st) (lock st) (<[item := it]> (items st)) h
             (<[addr := replicate (Z.to_nat size) v ++ drop (Z.to_nat size) b]> (blocks st))) /\
    holds (<[item := it]> (items st)) h t L' (<[addr := it]> M) /\ L' ≡ₚ item + avl_offset :: L.
Proof.
  intros Hh (Hpos & Hok & Hn) HMn Hb Hsz.
  destruct (holds_insert _ _ _ _ _ item (MemleakItem addr file size line) (junk_node item) Hh Hn HMn Hok)
    as (ret & t & h & L' & E & Hh' & HP).
  exists t, h, L'. split; [|done]. unfold _memleak_add_to_index, memset. rewrite (proj2 (Z.eqb_neq item 0)) by lia.
  rewrite Hb, (proj2 (Z.leb_le _ _) Hsz). cbn [mbind dev_outcome_bind]. by rewrite E.
Qed.

(** The blocks of the records stay in use when a block is written. *)
Lemma blocks_insert (m : gmap Z (list byte)) M addr it b :
  (forall x i, M !! x = Some i -> 0 < x /\ exists b, m !! x = Some b /\ 0 <= it_size i <= Z.of_nat (length b)) ->
  0 < addr -> 0 <= it_size it <= Z.of_nat (length b) ->
  forall x i, <[addr := it]> M !! x = Some i ->
    0 < x /\ exists b', <[addr := b]> m !! x = Some b' /\ 0 <= it_size i <= Z.of_nat (length b').
Proof.
  intros HM Hpos Hsz x i. destruct (decide (x = addr)) as [->|Hne].
  - rewrite !lookup_insert_eq. intros [= <-]. eauto.
  - rewrite !lookup_insert_ne by done. apply HM.
Qed.

(** A recorded allocation of a block that was not in use. *)
Lemma record_tracks item addr size file line v st M b :
  tracks st M -> fresh_block addr item size st -> size <= Z.of_nat (length b) ->
  exists st', record_allocation junk_node item addr size file line v (set_blocks (<[addr := b]> (blocks st)) st) = Ret st' /\
    tracks st' (<[addr := MemleakItem addr file size line]> M).
Proof.
  intros (Hl & Hsw & (L & Hh) & HB) (Hpos & Hb & Hsz0 & Hfr) Hsz.
  assert (HMn : M !! addr = None).
  { destruct (M !! addr) as [i|] eqn:E; [|done]. destruct (HB _ _ E) as (_ & b' & Hb' & _). congruence. }
  set (st1 := set_lock true (set_blocks (<[addr := b]> (blocks st)) st)).
  destruct (add_to_index_holds item addr size file line v st1 L M b) as (t & h & L' & E & Hh' & _); try done.
  { simpl. by rewrite lookup_insert_eq. }
  eexists. unfold record_allocation, spin_lock. cbn [lock set_blocks]. rewrite Hl. cbn [mbind dev_outcome_bind]. fold st1.
  rewrite E. split; [reflexivity|]. split; [done|]. split; [done|]. split; [by exists L'|].
  cbn [blocks spin_unlock set_lock st1 set_blocks]. rewrite insert_insert_eq.
  apply blocks_insert; [done|done|]. cbn [it_size]. rewrite length_app, length_replicate, length_drop. lia.
Qed.

Lemma junk_length addr n : 0 <= n -> Z.of_nat (length (junk_bytes junk addr n)) = n.
Proof. intros Hn. unfold junk_bytes. rewrite length_fmap, length_seqZ. lia. Qed.

Lemma alloc_tracks st M addr item size file line :
  tracks st M -> valid (Alloc addr item size file line) st ->
  exists st', memleak_alloc junk junk_node addr item size file line st = Ret (addr, st') /\
    tracks st' (spec_event (Alloc addr item size file line) M).
Proof.
  intros Ht Hv. unfold memleak_alloc. cbn [spec_event]. destruct Hv as [->|Hf]; [by exists st|].
  pose proof Ht as (_ & Hsw & _). pose proof Hf as (Hpos & _ & Hsz & _). rewrite (proj2 (Z.eqb_neq addr 0)) by lia.
  cbn [start_sw set_blocks]. rewrite Hsw.
  destruct (record_tracks item addr size file line INIT_VAL st M (junk_bytes junk addr size) Ht Hf) as (st' & E & Ht');
    [rewrite junk_length; lia|]. simpl. rewrite E. by exists st'.
Qed.

Lemma calloc_tracks st M addr item nmemb size file line :
  tracks st M -> valid (Calloc addr item nmemb size file line) st ->
  exists st', memleak_calloc junk_node addr item nmemb size file line st = Ret (addr, st') /\
    tracks st' (spec_event (Calloc addr item nmemb size file line) M).
Proof.
  intros Ht Hv. unfold memleak_calloc. cbn [spec_event]. destruct Hv as [->|[Hn Hf]]; [by exists st|].
  pose proof Ht as (_ & Hsw & _). pose proof Hf as (Hpos & _ & Hsz & _). rewrite (proj2 (Z.eqb_neq addr 0)) by lia.
  cbn [start_sw set_blocks]. rewrite Hsw.
  destruct (record_tracks item addr size file line Byte.x00 st M (replicate (Z.to_nat (nmemb * size)) Byte.x00) Ht Hf)
    as (st' & E & Ht'); [rewrite length_replicate; nia|]. simpl. rewrite E. by exists st'.
Qed.

Lemma memalign_tracks st M ret addr item size file line :
  tracks st M -> valid (Memalign ret addr item size file line) st ->
  exists st', memleak_posix_memalign junk junk_node ret addr item size file line st = Ret (ret, st') /\
    tracks st' (spec_event (Memalign ret addr item size file line) M).
Proof.
  intros Ht Hv. unfold memleak_posix_memalign. cbn [spec_event].
  destruct (Z.eqb_spec ret 0) as [->|Hne]; [|by exists st]. destruct Hv as [?|Hf]; [done|].
  pose proof Ht as (_ & Hsw & _). pose proof Hf as (_ & _ & Hsz & _). cbn [start_sw set_blocks]. rewrite Hsw.
  destruct (record_tracks item addr size file line INIT_VAL st M (junk_bytes junk addr size) Ht Hf) as (st' & E & Ht');
    [rewrite junk_length; lia|]. simpl. rewrite E. by exists st'.
Qed.

Lemma untracked st M addr : tracks st M -> blocks st !! addr = None -> M !! addr = None.
Proof.
  intros (_ & _ & _ & HB) Hb. destruct (M !! addr) as [i|] eqn:E; [|done]. destruct (HB _ _ E) as (_ & b & Hb' & _). congruence.
Qed.

Lemma relock st M : tracks st M -> spin_unlock (set_lock true st) = st.
Proof. intros (Hl & _). destruct st. cbn in *. by rewrite Hl. Qed.

Lemma blocks_delete (m : gmap Z (list byte)) M addr :
  (forall x i, M !! x = Some i -> 0 < x /\ exists b, m !! x = Some b /\ 0 <= it_size i <= Z.of_nat (length b)) ->
  forall x i, delete addr M !! x = Some i ->
    0 < x /\ exists b, delete addr m !! x = Some b /\ 0 <= it_size i <= Z.of_nat (length b).
Proof. intros HM x i [Hne Hx]%lookup_delete_Some. rewrite lookup_delete_ne by done. by apply HM. Qed.

Lemma free_tracks st M addr :
  tracks st M -> in_use addr st ->
  exists st', memleak_free addr st = Ret st' /\ tracks st' (delete addr M).
Proof.
  intros Ht Hu. pose proof Ht as (Hl & Hsw & (L & Hh) & HB). unfold memleak_free, spin_lock. rewrite Hsw, Hl.
  cbn [negb Z.eqb mbind dev_outcome_bind].
  destruct (search_addr_holds (set_lock true st) L M addr Hh) as [(a & it & Ha & Ea & Eit & EM & -> & Ha0)|[EM ->]];
    cbn [mbind dev_outcome_bind].
  - rewrite Ha0, Ea. destruct (HB _ _ EM) as (Hpos & b & Hb & Hsz). unfold memset. cbn [blocks set_lock].
    rewrite Hb, (proj2 (Z.leb_le _ _)) by lia. cbn [mbind dev_outcome_bind].
    destruct (holds_remove _ _ _ _ _ a it Hh Ha Ea) as (t & h & L' & E' & Hh' & _ & Hna & _).
    cbn [tree_index nodes set_lock] in *. rewrite E'. cbn [mbind dev_outcome_bind]. unfold free_item. cbn [items set_lock] in *.
    rewrite Ea. cbn [mbind dev_outcome_bind tree_index start_sw lock nodes blocks spin_unlock set_lock].
    unfold free. rewrite (proj2 (Z.eqb_neq addr 0)) by lia. rewrite lookup_insert_eq. cbn [mbind dev_outcome_bind].
    eexists. split; [reflexivity|]. split; [done|]. split; [done|]. split.
    + exists L'. rewrite Z.sub_add. cbn. rewrite Eit in Hh'. by apply holds_free.
    + cbn [blocks set_blocks]. rewrite delete_insert_eq. by apply blocks_delete.
  - rewrite Z.eqb_refl, (relock st M Ht), delete_id by done. by exists st.
Qed.

Lemma realloc_length (old : list byte) addr size :
  0 <= size -> length (take (Z.to_nat size) old ++ drop (length old) (junk_bytes junk addr size)) = Z.to_nat size.
Proof. intros Hs. pose proof (junk_length addr size Hs). rewrite length_app, length_take, length_drop. lia. Qed.

(** The blocks after a call of [realloc] that succeeds. *)
Lemma realloc_blocks st M ptr addr item size :
  tracks st M -> valid (Realloc ptr addr item size) st -> addr <> 0 ->
  exists b m, realloc junk ptr addr size (blocks st) = Ret (<[addr := b]> m) /\ Z.of_nat (length b) = size /\
    forall x, x <> ptr -> m !! x = blocks st !! x.
Proof.
  intros (_ & _ & _ & HB) (Hsz & Hu & _) Hne. unfold realloc. rewrite (proj2 (Z.eqb_neq _ _) Hne).
  set (old := default [] (blocks st !! ptr)).
  exists (take (Z.to_nat size) old ++ drop (length old) (junk_bytes junk addr size)).
  rewrite realloc_length by lia. unfold free. destruct (Z.eqb_spec ptr 0) as [->|Hp].
  - exists (blocks st). split; [done|]. split; [lia|done].
  - destruct Hu as [?|[b ->]]; [done|]. exists (delete ptr (blocks st)). split; [done|]. split; [lia|].
    intros x Hx. by apply lookup_delete_ne.
Qed.

Lemma realloc_tracks st M ptr addr item size :
  tracks st M -> valid (Realloc ptr addr item size) st ->
  exists st', memleak_realloc junk junk_node ptr addr item size st = Ret (addr, st') /\
    tracks st' (spec_event (Realloc ptr addr item size) M) /\
    (addr <> 0 -> is_Some (M !! ptr) -> blocks st' !! addr = Some (replicate (Z.to_nat size) INIT_VAL)).
Proof.
  intros Ht Hv. pose proof Ht as (Hl & Hsw & (L & Hh) & HB). unfold memleak_realloc. cbn [spec_event].
  pose proof Hv as (Hsz & Hu & Haddr). destruct (Z.eqb_spec addr 0) as [->|Hne].
  { unfold realloc. simpl. rewrite (proj2 (Z.eqb_neq size 0)) by lia. cbn. exists st. by destruct st. }
  destruct Haddr as [?|(Hpos & Hfree & Hfi)]; [done|].
  assert (HMa : delete ptr M !! addr = None).
  { destruct Hfree as [->|Hf]; [apply lookup_delete_eq|]. apply lookup_delete_None. right. by apply (untracked st M). }
  destruct (realloc_blocks st M ptr addr item size Ht Hv Hne) as (b & m & -> & Hlen & Hm). cbn [mbind dev_outcome_bind].
  set (st1 := set_lock true (set_blocks (<[addr := b]> m) st)).
  unfold spin_lock. cbn [start_sw lock set_blocks]. rewrite Hsw, Hl. cbn [negb andb Z.eqb mbind dev_outcome_bind]. fold st1.
  assert (HBm : forall x i, delete ptr M !! x = Some i -> 0 < x /\ exists b, m !! x = Some b /\ 0 <= it_size i <= Z.of_nat (length b)).
  { intros x i [Hx Hi]%lookup_delete_Some. rewrite Hm by done. by apply HB. }
  destruct (search_addr_holds st1 L M ptr Hh) as [(a & it & Ha & Ea & Eit & EM & -> & Ha0)|[EM ->]]; cbn [mbind dev_outcome_bind].
  - rewrite Ha0, Ea, EM. cbn [negb]. destruct (holds_remove _ _ _ _ _ a it Hh Ha Ea) as (t & h & L' & E' & Hh' & _ & Hna & _).
    change (tree_index st1) with (tree_index st). change (nodes st1) with (nodes st). rewrite E'. cbn [mbind dev_outcome_bind].
    rewrite Eit in Hh'.
    destruct (add_to_index_holds item addr size (it_file it) (it_line it) INIT_VAL
      (Memleak t (start_sw st1) (lock st1) (items st1) h (blocks st1)) L' (delete ptr M) b) as (t2 & h2 & L2 & -> & Hh2 & HP);
      [done|done|done|cbn; by rewrite lookup_insert_eq|lia|]. cbn [mbind dev_outcome_bind].
    assert (Hai : a - avl_offset <> item) by (intros <-; destruct Hfi as (_ & _ & Hfi); cbn in Ea; congruence).
    unfold free_item. cbn [items]. rewrite lookup_insert_ne by done. rewrite Ea. cbn [mbind dev_outcome_bind].
    eexists. split; [reflexivity|]. split; [split; [done|]; split; [done|]; split|].
    + exists L2. cbn. rewrite Z.sub_add. apply holds_free; [done|]. rewrite HP, not_elem_of_cons. split; [lia|done].
    + cbn. rewrite insert_insert_eq. apply blocks_insert; [done|done|]. cbn. rewrite length_app, length_replicate, length_drop. lia.
    + intros _ _. cbn. rewrite lookup_insert_eq, drop_ge, app_nil_r by lia. done.
  - rewrite Z.eqb_refl, EM. cbn [negb]. eexists. split; [reflexivity|]. split; [|by intros _ [? ?]; congruence].
    split; [done|]. split; [done|]. split; [by exists L|]. rewrite <- (delete_id M ptr) by done. intros x i Hx.
    cbn. rewrite lookup_insert_ne by congruence. by apply HBm.
Qed.

Lemma call_tracks e st M :
  tracks st M -> valid e st -> exists st', call e st = Ret st' /\ tracks st' (spec_event e M).
Proof.
  intros Ht Hv. destruct e; simpl call.
  - destruct (alloc_tracks _ _ _ _ _ _ _ Ht Hv) as (st' & -> & ?). by exists st'.
  - destruct (calloc_tracks _ _ _ _ _ _ _ _ Ht Hv) as (st' & -> & ?). by exists st'.
  - destruct (memalign_tracks _ _ _ _ _ _ _ _ Ht Hv) as (st' & -> & ?). by exists st'.
  - destruct (realloc_tracks _ _ _ _ _ _ Ht Hv) as (st' & -> & ? & _). by exists st'.
  - apply (free_tracks _ _ _ Ht Hv).
Qed.

Lemma calls_track es : forall st M,
  tracks st M -> all_valid es st -> exists st', calls es st = Ret st' /\ tracks st' (foldl (flip spec_event) M es).
Proof.
  induction es as [|e es IH]; intros st M Ht Hv; [by exists st|]. destruct Hv as [Hv Hvs].
  destruct (call_tracks e st M Ht Hv) as (st1 & E & Ht1). simpl. rewrite E in Hvs |- *. by apply IH.
Qed.


Lemma lookup_records live x : records live !! x = live !! x ≫= report_line x.
Proof. apply map_lookup_imap. Qed.

(** The records follow the live allocations. *)
Lemma records_event e live st :
  tracks st (records live) -> valid e st -> spec_event e (records live) = records (live_event e live).
Proof.
  intros Ht Hv. apply map_eq. intros x. destruct e as [addr ? size file line|addr ? ? size file line|ret addr ? size file line|ptr addr ? size|addr];
    cbn [spec_event live_event].
  1,2: destruct (addr =? 0); [done|]; rewrite lookup_records; destruct (decide (x = addr)) as [->|];
    [by rewrite !lookup_insert_eq|rewrite !lookup_insert_ne by done; apply lookup_records].
  - destruct (ret =? 0); [|done]. rewrite lookup_records. destruct (decide (x = addr)) as [->|];
      [by rewrite !lookup_insert_eq|rewrite !lookup_insert_ne by done; apply lookup_records].
  - destruct (Z.eqb_spec addr 0) as [|Hne]; [done|].
    assert (Hold : addr <> ptr -> records live !! addr = None).
    { intros Hp. destruct Hv as (_ & _ & [|(_ & [|Hb] & _)]); try done. by eapply untracked. }
    pose proof (lookup_records live ptr) as Hptr. destruct (records live !! ptr) as [it|] eqn:Hr.
    + destruct (live !! ptr) as [al|] eqn:Hl; [|done]. cbn in Hptr. unfold report_line in Hptr.
      destruct (al_place al) as [[file line]|] eqn:Hpl; [|done]. injection Hptr as ->. rewrite lookup_records.
      destruct (decide (x = addr)) as [->|]; [rewrite !lookup_insert_eq; cbn; by rewrite Hpl|]. rewrite !lookup_insert_ne by done.
      destruct (decide (x = ptr)) as [->|]; [by rewrite !lookup_delete_eq|]. rewrite !lookup_delete_ne by done. apply lookup_records.
    + assert (Hpl : live !! ptr ≫= al_place = None).
      { destruct (live !! ptr) as [al|]; [|done]. cbn in *. unfold report_line in Hptr. by destruct (al_place al) as [[]|]. }
      rewrite (lookup_records (<[_:=_]> _)), Hpl. destruct (decide (x = addr)) as [->|].
      * rewrite lookup_insert_eq. destruct (decide (addr = ptr)) as [->|Hp]; [done|by rewrite Hold].
      * rewrite lookup_insert_ne by done. destruct (decide (x = ptr)) as [->|]; [by rewrite lookup_delete_eq|].
        rewrite lookup_delete_ne by done. apply lookup_records.
  - rewrite lookup_records. destruct (decide (x = addr)) as [->|]; [by rewrite !lookup_delete_eq|].
    rewrite !lookup_delete_ne by done. apply lookup_records.
Qed.

Lemma calls_live es : forall st live,
  tracks st (records live) -> all_valid es st ->
  exists st', calls es st = Ret st' /\ tracks st' (records (foldl (flip live_event) live es)).
Proof.
  induction es as [|e es IH]; intros st live Ht Hv; [by exists st|]. destruct Hv as [He Hes].
  destruct (call_tracks e st _ Ht He) as (st1 & E & Ht1). rewrite (records_event e live st Ht He) in Ht1.
  cbn [calls foldl flip]. rewrite E in *. by apply IH.
Qed.
End run.

(** ** The end *)

Lemma end_loop_prints fuel : forall L st M,
  holds (items st) (nodes st) (tree_index st) L M -> (length L <= fuel)%nat ->
  exists printed t ms h, end_loop fuel (default 0 (head L)) st = Ret (printed, Memleak t (start_sw st) (lock st) ms h (blocks st)) /\
    Forall2 (fun a it => items st !! (a - avl_offset) = Some it) L printed /\ index h t [] /\
    (forall a, a ∈ L -> ms !! (a - avl_offset) = None) /\
    (forall item, item + avl_offset ∉ L -> ms !! item = items st !! item).
Proof.
  induction fuel as [|fuel IH]; intros [|a L] st M Hh Hlen; simpl in Hlen; try lia;
    try (exists [], (tree_index st), (items st), (nodes st); split; [by destruct st|]; split; [constructor|];
         split; [by destruct Hh|]; split; [by intros ? ?%not_elem_of_nil|done]).
  pose proof Hh as (Hin & _ & Hi & _). destruct (Hi a ltac:(left)) as [it Ea]. change (default 0 (head (a :: L))) with a. cbn [end_loop].
  rewrite (index_nonzero _ _ _ a Hin ltac:(left)), (next_index _ _ [] a L Hin). cbn [mbind dev_outcome_bind].
  destruct (holds_remove _ _ _ _ _ a it Hh ltac:(left) Ea) as (t & h & L' & E' & Hh' & _ & Hna & HL').
  destruct HL' as [->|?]; [|done]. cbn [tail] in *. rewrite Z.sub_add, E'. cbn [mbind dev_outcome_bind items]. rewrite Ea.
  unfold free_item. cbn [items tree_index start_sw lock nodes blocks]. rewrite Ea. cbn [mbind dev_outcome_bind]. rewrite Z.sub_add.
  destruct (IH L (Memleak t (start_sw st) (lock st) (delete (a - avl_offset) (items st)) (delete a h) (blocks st)) (delete (it_addr it) M))
    as (printed & t2 & ms & h2 & -> & HF & Hin2 & Hd & Hk); [by apply holds_free|lia|]. cbn [mbind dev_outcome_bind].
  exists (it :: printed), t2, ms, h2. split; [done|]. cbn [items] in *. split; [constructor; [done|]|split; [done|split]].
  - apply (Forall2_impl _ _ _ _ HF). by intros x y [_ Hy]%lookup_delete_Some.
  - intros x [->|Hx]%elem_of_cons; [|by apply Hd]. rewrite Hk by (by rewrite Z.sub_add). apply lookup_delete_eq.
  - intros item [Hx HxL]%not_elem_of_cons. rewrite Hk by done. apply lookup_delete_ne. lia.
Qed.

Lemma printed_sorted ms L printed :
  Forall2 (fun a it => ms !! (a - avl_offset) = Some it) L printed -> key_sorted (addr_of ms) L ->
  StronglySorted (fun x y => it_addr x < it_addr y) printed.
Proof.
  induction 1 as [|a it L printed Ha HF IH]; intros Hs; constructor; inversion_clear Hs as [|? ? Hs' Hf]; [by apply IH|].
  apply Forall_forall. intros y Hy. apply list_elem_of_lookup in Hy as (i & Hy).
  destruct (Forall2_lookup_r _ _ _ _ _ HF Hy) as (b & Hb & Eb). rewrite Forall_forall in Hf.
  specialize (Hf b ltac:(by eapply list_elem_of_lookup_2)). unfold addr_of in Hf. by rewrite Ha, Eb in Hf.
Qed.

Lemma end_tracks st M :
  tracks st M ->
  exists printed st', memleak_end st = Ret (printed, if 0 <? Z.of_nat (length printed) then Some (s32 (Z.of_nat (length printed))) else None, st') /\
    StronglySorted (fun x y => it_addr x < it_addr y) printed /\
    (forall it, it ∈ printed <-> M !! it_addr it = Some it) /\
    index (nodes st') (tree_index st') [] /\ start_sw st' = 0 /\ lock st' = false /\ blocks st' = blocks st.
Proof.
  intros (Hl & _ & (L & Hh) & _). pose proof Hh as (Hin & Hs & Hi & HM). unfold memleak_end, spin_lock. rewrite Hl.
  cbn [mbind dev_outcome_bind tree_index nodes set_lock]. rewrite (first_index _ _ _ Hin). cbn [mbind dev_outcome_bind].
  set (st0 := Memleak _ 0 _ _ _ _).
  destruct (end_loop_prints (size (nodes st)) L st0 M Hh) as (printed & t & ms & h & E & HF & Hin' & _).
  { destruct Hin as (x & (Hr & _ & Hnd & _) & <-). by eapply rep_size. }
  change (nodes st0) with (nodes st). rewrite E. cbn [mbind dev_outcome_bind]. exists printed.
  eexists. split; [reflexivity|]. split; [by eapply printed_sorted|]. split; [|done]. intros it. rewrite HM. split.
  - intros (i & Hy)%list_elem_of_lookup. destruct (Forall2_lookup_r _ _ _ _ _ HF Hy) as (b & Hb & Eb).
    exists b. split; [by eapply list_elem_of_lookup_2|done].
  - intros (a & (i & Ha)%list_elem_of_lookup & Ea & _). destruct (Forall2_lookup_l _ _ _ _ _ HF Ha) as (y & Hy & Ey).
    cbn in Ey. assert (y = it) as -> by congruence. by eapply list_elem_of_lookup_2.
Qed.

Lemma start_tracks st : tracks (memleak_start st) ∅.
Proof.
  split; [done|]. split; [done|]. split.
  - exists []. split; [apply index_empty|]. split; [constructor|]. split; [by intros ? ?%not_elem_of_nil|].
    intros addr it. rewrite lookup_empty. split; [done|]. by intros (a & ?%not_elem_of_nil & _).
  - intros addr it Hx. by rewrite lookup_empty in Hx.
Qed.

(** ** Theorems *)

(** C17. Between its start and its end the detector never fails, whatever sequence of
    allocations, reallocations and releases the program makes, as long as the C library
    hands out fresh addresses, the program gives back blocks in use, and no size is 0
    where the wrappers do not expect it.  The end prints, in the order of their
    addresses, exactly the live allocations (made and not given back since the start)
    whose place is known, each with that place and its last size; for a block of
    [memleak_calloc] that is the size of one element, not of the block, and a live block
    that began with [memleak_realloc] of a pointer not recorded, such as the null
    pointer, is not printed.  It leaves the detector stopped with no record in its tree,
    its lock free and the blocks of the program as they are. *)
Theorem memleak_reports_live junk junk_node es st :
  all_valid junk junk_node es (memleak_start st) ->
  let live := foldl (flip live_event) ∅ es in
  exists st1 printed total st2, calls junk junk_node es (memleak_start st) = Ret st1 /\
    memleak_end st1 = Ret (printed, total, st2) /\
    StronglySorted (fun x y => it_addr x < it_addr y) printed /\
    (forall addr file size line, MemleakItem addr file size line ∈ printed <->
       exists nmemb, live !! addr = Some (Allocation nmemb size (Some (file, line)))) /\
    total = (if 0 <? Z.of_nat (length printed) then Some (s32 (Z.of_nat (length printed))) else None) /\
    index (nodes st2) (tree_index st2) [] /\ start_sw st2 = 0 /\ lock st2 = false /\ blocks st2 = blocks st1.
Proof.
  intros Hv live. destruct (calls_live junk junk_node es (memleak_start st) ∅) as (st1 & E1 & Ht);
    [unfold records; rewrite map_imap_empty; apply start_tracks|done|].
  destruct (end_tracks st1 _ Ht) as (printed & st2 & E2 & Hs & Hp & Hrest).
  eexists st1, printed, _, st2. split; [done|]. split; [done|]. split; [done|]. split; [|done].
  intros addr file size line. rewrite Hp. cbn [it_addr]. rewrite lookup_records. fold live. split.
  - destruct (live !! addr) as [[nmemb sz [[f l]|]]|]; try done. intros [= -> -> ->]. by exists nmemb.
  - by intros [nmemb ->].
Qed.

(** [memleak_realloc] of a recorded block does not keep the contents of the
    block: whatever they were, all bytes of the new block are [INIT_VAL]. *)
Theorem memleak_realloc_clobbers junk junk_node st M ptr addr item size :
  tracks st M -> valid (Realloc ptr addr item size) st -> addr <> 0 -> is_Some (M !! ptr) ->
  exists st', memleak_realloc junk junk_node ptr addr item size st = Ret (addr, st') /\
    blocks st' !! addr = Some (replicate (Z.to_nat size) INIT_VAL).
Proof.
  intros Ht Hv Hne Hp. destruct (realloc_tracks junk junk_node st M ptr addr item size Ht Hv) as (st' & E & _ & Hb). eauto.
Qed.

(** ** Examples *)

Definition no_junk (_ : Z) : byte := Byte.x00.
Definition no_junk_node (_ : Z) : avl_node := AvlNode 0 0 0.
Definition idle : memleak := Memleak (avl_init 0) 0 false ∅ ∅ ∅.
Definition session : list event :=
  [Alloc 1000 2000 3 [] 7; Alloc 1040 2064 2 [] 8; Realloc 1000 1080 2128 4; Free 1040; Memalign 0 1040 2064 2 [] 9].

Ltac next_call :=
  match goal with
  | |- context [match ?c with Ret _ => _ | Blocked => _ | Undef => _ end] =>
      let r := eval vm_compute in c in change c with r
  end; cbv iota.

Lemma session_valid : all_valid no_junk no_junk_node session (memleak_start idle).
Proof.
  unfold session. cbn [all_valid].
  repeat (split; [cbn [valid]; unfold fresh_block, fresh_item, in_use, addr_ok, avl_offset; first
    [right; by split_and! | split_and!; [done|right; by eexists|right; split_and!; [done|by right|done..]] | right; by eexists]
    |next_call]).
  done.
Qed.

Lemma memleak_reports_live_witness :
  exists st1 printed total st2, calls no_junk no_junk_node session (memleak_start idle) = Ret st1 /\
    memleak_end st1 = Ret (printed, total, st2) /\ MemleakItem 1080 [] 4 7 ∈ printed /\ lock st2 = false.
Proof.
  destruct (memleak_reports_live no_junk no_junk_node session idle session_valid)
    as (st1 & printed & total & st2 & E1 & E2 & _ & Hp & _ & _ & _ & Hl & _).
  exists st1, printed, total, st2. split; [exact E1|]. split; [exact E2|]. split; [|exact Hl].
  apply Hp. exists 1. vm_compute. reflexivity.
Defined.

Lemma memleak_realloc_clobbers_witness :
  exists st st', calls no_junk no_junk_node session (memleak_start idle) = Ret st /\
    memleak_realloc no_junk no_junk_node 1080 1080 2000 2 st = Ret (1080, st') /\
    blocks st' !! 1080 = Some [INIT_VAL; INIT_VAL].
Proof.
  destruct (calls_track no_junk no_junk_node session _ ∅ (start_tracks idle) session_valid) as (st & E & Ht).
  exists st. pose proof E as E0. vm_compute in E0. injection E0 as <-.
  destruct (memleak_realloc_clobbers no_junk no_junk_node _ _ 1080 1080 2000 2 Ht) as (st' & E' & Hb).
  - cbn [valid]. split; [done|]. split; [right; by eexists|]. right. split; [done|]. split; [by left|].
    unfold fresh_item, addr_ok, avl_offset. repeat split; vm_compute; reflexivity.
  - done.
  - by eexists.
  - exists st'. split; [exact E|]. split; [exact E'|exact Hb].
Defined.
