(* ===== verification/MemPool.v ===== *)
(** * The memory pool of the benchmark suite

    [src/application/kvbench/utils/memory.cc]: the pool of blocks of one size that
    the benchmark takes its key and value buffers from, as it is compiled without
    [__KV_BENCH], and the aligned allocation on a NUMA node below it.  A pool links
    its free blocks by 32-bit indexes stored in the blocks themselves, and puts a
    block into that list only when it is about to be needed. *)

From stdpp Require Import base numbers list gmap.
From S2P Require Import Prelude.

(** ** Memory *)

(** The bytes that may be accessed, by their addresses. *)
Abbreviation memory := (gmap Z byte).

Fixpoint load_bytes (n : nat) (a : Z) (m : memory) : dev_outcome (list byte) :=
  match n with
  | O => Ret []
  | S n =>
      match m !! a with
      | Some b => l ← load_bytes n (a + 1) m; Ret (b :: l)
      | None => Undef
      end
  end.

Fixpoint store_bytes (a : Z) (l : list byte) (m : memory) : dev_outcome memory :=
  match l with
  | [] => Ret m
  | b :: l =>
      match m !! a with
      | Some _ => store_bytes (a + 1) l (<[a := b]> m)
      | None => Undef
      end
  end.

(** The access to an unsigned integer of [n] bytes. *)
Definition load (n : nat) (a : Z) (m : memory) : dev_outcome Z := l ← load_bytes n a m; Ret (le_int l).
Definition store (n : nat) (a v : Z) (m : memory) : dev_outcome memory := store_bytes a (int_le n v) m.

(** ** Data *)

Inductive allocator_t := NO_POOL | NUMA_ALLOCATOR | POSIX_ALLOCATOR | SPDK_ALLOCATOR.

Record pool_info_t := PoolInfo {
  unitsize : Z;
  numunits : Z;
  alignment : Z;
  allocatortype : allocator_t
}.

Record mempool_t := Mempool {
  socketid : Z;
  num_blocks : Z;
  block_size : Z;
  num_freeblocks : Z;
  num_initializedblocks : Z;
  base : Z;
  nextfreeblock : Z;
  next_free_idx : Z
}.

(** The fields that the operations of a pool change. *)
Definition set_free (free initialized next : Z) (pool : mempool_t) : mempool_t :=
  Mempool (socketid pool) (num_blocks pool) (block_size pool) free initialized (base pool) next (next_free_idx pool).

(** ** The pool *)

Definition initialize (memory : Z) (info : pool_info_t) (pool : mempool_t) : mempool_t :=
  Mempool (socketid pool) (u32 (numunits info)) (u32 (unitsize info)) (u32 (numunits info)) 0 memory memory 0.

Definition AddrFromIndex (i : Z) (pool : mempool_t) : Z := base pool + u32 (i * block_size pool).

Definition IndexFromAddr (p : Z) (pool : mempool_t) : dev_outcome Z :=
  if block_size pool =? 0 then Undef else Ret (u32 (p - base pool) / block_size pool).

Definition Allocate (pool : mempool_t) (m : memory) : dev_outcome (Z * mempool_t * memory) :=
  '(pool, m) ←
    (if num_initializedblocks pool <? num_blocks pool then
       m ← store 4 (AddrFromIndex (num_initializedblocks pool) pool) (u32 (num_initializedblocks pool + 1)) m;
       Ret (set_free (num_freeblocks pool) (u32 (num_initializedblocks pool + 1)) (nextfreeblock pool) pool, m)
     else Ret (pool, m));
  if 0 <? num_freeblocks pool then
    let ret := nextfreeblock pool in
    let free := u32 (num_freeblocks pool - 1) in
    next ← (if negb (free =? 0) then i ← load 4 (nextfreeblock pool) m; Ret (AddrFromIndex i pool) else Ret 0);
    Ret (ret, set_free free (num_initializedblocks pool) next pool, m)
  else Ret (0, pool, m).

Definition DeAllocate (p : Z) (pool : mempool_t) (m : memory) : dev_outcome (mempool_t * memory) :=
  if p =? 0 then Ret (pool, m)
  else
    m ← (if negb (nextfreeblock pool =? 0)
         then i ← IndexFromAddr (nextfreeblock pool) pool; store 4 p i m
         else store 4 p (num_blocks pool) m);
    Ret (set_free (u32 (num_freeblocks pool + 1)) (num_initializedblocks pool) p pool, m).

(** ** Allocation below the pool *)

(** [base] is what [numa_alloc_onnode] or [numa_alloc_local] returned. *)
Definition numa_aligned_alloc (base alignment size : Z) (m : memory) : dev_outcome (Z * memory) :=
  let total := u64 (size + alignment - 1 + 8 + 8) in
  let aligned := Z.land (u64 (base + alignment - 1 + 8 + 8)) (u64 (Z.lnot (alignment - 1))) in
  m ← store 8 (aligned - 8) base m;
  m ← store 8 (aligned - 16) total m;
  Ret (aligned, m).

(** The arguments of [numa_free]. *)
Definition free_mem_numa (p : Z) (m : memory) : dev_outcome (Z * Z) :=
  ptr ← load 8 (p - 8) m;
  size ← load 8 (p - 16) m;
  Ret (ptr, size).

(** [pool_setup] ends the program where it cannot set up the pool. *)
Inductive setup := Exit | Ready (pool : mempool_t) (m : memory).

(** [numa_alloc] and [posix_memalign] are the allocations of the system: the
    address, 0 if they failed, and the memory after the call. *)
Definition pool_setup (numa_alloc : Z -> Z -> Z * memory) (posix_memalign : Z -> Z -> Z * memory)
    (info : pool_info_t) (pool : mempool_t) (nodeid : Z) : dev_outcome setup :=
  let size := u64 (unitsize info * numunits info) in
  if 0 <? size then
    match allocatortype info with
    | NUMA_ALLOCATOR =>
        let '(base, m) := numa_alloc (u64 (size + alignment info - 1 + 8 + 8)) nodeid in
        '(memory, m) ← numa_aligned_alloc base (alignment info) size m;
        if memory =? 0 then Ret Exit else Ret (Ready (initialize memory info pool) m)
    | POSIX_ALLOCATOR =>
        let '(memory, m) := posix_memalign (alignment info) size in
        if memory =? 0 then Ret Exit else Ret (Ready (initialize memory info pool) m)
    | _ => Ret Exit
    end
  else Ret Exit.

(** What [destroy] gives back to the system. *)
Inductive released := NumaFree (ptr size : Z) | PosixFree (ptr : Z) | NotReleased.

Definition destroy (allocatortype : allocator_t) (pool : mempool_t) (m : memory) : dev_outcome (released * mempool_t) :=
  r ← match allocatortype with
      | NUMA_ALLOCATOR => '(ptr, size) ← free_mem_numa (base pool) m; Ret (NumaFree ptr size)
      | POSIX_ALLOCATOR => Ret (PosixFree (base pool))
      | _ => Ret NotReleased
      end;
  Ret (r, Mempool (socketid pool) (num_blocks pool) (block_size pool) (num_freeblocks pool)
            (num_initializedblocks pool) 0 (nextfreeblock pool) (next_free_idx pool)).
