(* ===== verification/MemPoolSpec.v ===== *)
(** * What a memory pool guarantees

    A pool of [MemPool] whose blocks fit into the range of a 32-bit offset hands out
    each block to one holder at a time, fails only when all are held, never touches
    a block that is held, and is given back to the system as it was taken.  Where the
    offset wraps around, two holders get the same block. *)

From stdpp Require Import base numbers list gmap.
From S2P Require Import Prelude.
From S2P Require Import MemPool.

Implicit Types (m : memory) (a i : Z) (C F U : list Z).

(** ** Memory *)

Definition mapped m (lo hi : Z) : Prop := forall a, lo <= a < hi -> is_Some (m !! a).

(** [m'] has the bytes of [m] outside of [lo, hi). *)
Definition same_outside (lo hi : Z) m m' : Prop := forall a, ~ (lo <= a < hi) -> m' !! a = m !! a.

Lemma load_bytes_same n a m m' :
  (forall x, a <= x < a + Z.of_nat n -> m' !! x = m !! x) -> load_bytes n a m' = load_bytes n a m.
Proof.
  revert a. induction n as [|n IH]; intros a Hs; [done|]. simpl. rewrite (Hs a) by lia.
  destruct (m !! a); [|done]. rewrite IH; [done|]. intros x Hx. apply Hs. lia.
Qed.

Lemma store_bytes_ok l : forall a m,
  mapped m a (a + Z.of_nat (length l)) ->
  exists m', store_bytes a l m = Ret m' /\ load_bytes (length l) a m' = Ret l /\
    same_outside a (a + Z.of_nat (length l)) m m' /\ (forall x, is_Some (m !! x) -> is_Some (m' !! x)).
Proof.
  induction l as [|b l IH]; intros a m Hm; [by exists m|]. simpl length in *. destruct (Hm a ltac:(lia)) as [b0 Hb0].
  assert (Hd : forall x, is_Some (m !! x) -> is_Some (<[a := b]> m !! x)).
  { intros x Hx. destruct (decide (x = a)) as [->|?]; [rewrite lookup_insert_eq; by eexists|by rewrite lookup_insert_ne]. }
  destruct (IH (a + 1) (<[a := b]> m)) as (m' & E & Hl & Hs & Hd'); [intros x Hx; apply Hd, Hm; lia|].
  exists m'. simpl. rewrite Hb0. split; [done|]. split; [|split].
  - rewrite Hs by lia. by rewrite lookup_insert_eq, Hl.
  - intros x Hx. rewrite Hs by lia. apply lookup_insert_ne. lia.
  - intros x Hx. by apply Hd', Hd.
Qed.

Lemma load_same n a m m' : (forall x, a <= x < a + Z.of_nat n -> m' !! x = m !! x) -> load n a m' = load n a m.
Proof. intros Hs. unfold load. by rewrite (load_bytes_same n a m m'). Qed.

Lemma store_ok n a v m :
  mapped m a (a + Z.of_nat n) -> 0 <= v < 256 ^ Z.of_nat n ->
  exists m', store n a v m = Ret m' /\ load n a m' = Ret v /\ same_outside a (a + Z.of_nat n) m m' /\
    (forall x, is_Some (m !! x) -> is_Some (m' !! x)).
Proof.
  intros Hm Hv. destruct (store_bytes_ok (int_le n v) a m) as (m' & E & Hl & Hs & Hd); rewrite ?length_int_le in *; [done|].
  exists m'. split; [done|]. split; [|done]. unfold load. rewrite Hl. cbn [mbind dev_outcome_bind]. by rewrite le_int_int_le.
Qed.

(** ** The invariant of a pool *)

Section pool.
Variables nb bs B : Z.

Definition blk i : Z := B + i * bs.

(** The blocks [C] are linked in this order, and the last one to the block [e]. *)
Fixpoint linked m C (e : Z) : Prop :=
  match C with
  | [] => True
  | i :: C => load 4 (blk i) m = Ret (default e (head C)) /\ linked m C e
  end.

(** The pool holds the free blocks [F] in the order in which it hands them out, those
    never handed out at the end; [U] are the blocks in use. *)
Definition pool_ok (pool : mempool_t) m U F : Prop :=
  let ni := num_initializedblocks pool in
  num_blocks pool = nb /\ block_size pool = bs /\ base pool = B /\ 0 <= ni <= nb /\
  num_freeblocks pool = Z.of_nat (length F) /\ nextfreeblock pool = match F with [] => 0 | i :: _ => blk i end /\
  (exists C, F = C ++ seqZ ni (nb - ni) /\ linked m C ni) /\ U ++ F ≡ₚ seqZ 0 nb /\ mapped m B (B + nb * bs).

(** Only bytes of the blocks [F] change. *)
Definition only_in F m m' : Prop := forall a, (forall i, i ∈ F -> ~ (blk i <= a < blk i + bs)) -> m' !! a = m !! a.

Hypothesis Hbs : 4 <= bs.
Hypothesis Hnb : 0 < nb.
Hypothesis Hfit : nb * bs <= 2 ^ 32.
Hypothesis HB : 0 < B.

Lemma blk_apart i j a : 0 <= i -> 0 <= j -> i <> j -> blk i <= a < blk i + bs -> ~ (blk j <= a < blk j + bs).
Proof. unfold blk. intros. assert (i < j \/ j < i) as [|] by lia; nia. Qed.

Lemma blk_inside i : 0 <= i < nb -> B <= blk i /\ blk i + bs <= B + nb * bs.
Proof. unfold blk. nia. Qed.

Lemma nb_small : nb < 2 ^ 32.
Proof. nia. Qed.

Lemma addr_from_index pool m U F i : pool_ok pool m U F -> 0 <= i < nb -> AddrFromIndex i pool = blk i.
Proof.
  intros (_ & Es & Eb & _) Hi. unfold AddrFromIndex, blk, u32. rewrite Es, Eb, Z.mod_small; [done|]. nia.
Qed.

Lemma index_from_addr pool m U F i : pool_ok pool m U F -> 0 <= i < nb -> IndexFromAddr (blk i) pool = Ret i.
Proof.
  intros (_ & Es & Eb & _) Hi. unfold IndexFromAddr, blk, u32. rewrite Es, Eb, (proj2 (Z.eqb_neq bs 0)) by lia.
  replace (B + i * bs - B) with (i * bs) by lia. rewrite Z.mod_small by nia. by rewrite Z.div_mul by lia.
Qed.

Lemma free_range pool m U F i : pool_ok pool m U F -> i ∈ U ++ F -> 0 <= i < nb.
Proof. intros (_ & _ & _ & _ & _ & _ & _ & HP & _) Hi. rewrite HP in Hi. apply elem_of_seqZ in Hi. lia. Qed.

Lemma linked_same m m' C e : (forall i a, i ∈ C -> blk i <= a < blk i + 4 -> m' !! a = m !! a) -> linked m C e -> linked m' C e.
Proof.
  induction C as [|i C IH]; intros Hs; [done|]. intros [Hi HC]. split.
  - rewrite (load_same 4 (blk i) m m'); [done|]. intros a Ha. apply (Hs i); [left|done].
  - apply IH; [|done]. intros j a Hj. apply Hs. by right.
Qed.

Lemma linked_snoc m C i e : linked m C i -> load 4 (blk i) m = Ret e -> linked m (C ++ [i]) e.
Proof.
  induction C as [|j C IH]; intros HC Hi; [by split|]. destruct HC as [Hj HC]. simpl. split; [|by apply IH].
  rewrite Hj. by destruct C.
Qed.

(** ** Allocation *)

Lemma seqZ_next ni : ni < nb -> seqZ ni (nb - ni) = ni :: seqZ (ni + 1) (nb - (ni + 1)).
Proof. intros. rewrite (seqZ_cons ni) by lia. do 2 f_equal; lia. Qed.

(** The first step of [Allocate], named. *)
Definition link_next (pool : mempool_t) m : dev_outcome (mempool_t * memory) :=
  if num_initializedblocks pool <? num_blocks pool then
    m ← store 4 (AddrFromIndex (num_initializedblocks pool) pool) (u32 (num_initializedblocks pool + 1)) m;
    Ret (set_free (num_freeblocks pool) (u32 (num_initializedblocks pool + 1)) (nextfreeblock pool) pool, m)
  else Ret (pool, m).

(** After it the first free block, if there is one, is linked. *)
Lemma link_next_ok pool m U F :
  pool_ok pool m U F ->
  exists pool' m', link_next pool m = Ret (pool', m') /\ pool_ok pool' m' U F /\ only_in F m m' /\
    (F = [] \/ exists i C, F = i :: C ++ seqZ (num_initializedblocks pool') (nb - num_initializedblocks pool') /\
       linked m' (i :: C) (num_initializedblocks pool')).
Proof.
  intros Hok. pose proof Hok as (En & Es & Eb & Hni & Ef & Ex & (C & HF & HC) & HP & Hm). unfold link_next. rewrite En.
  set (ni := num_initializedblocks pool) in *. destruct (Z.ltb_spec ni nb) as [Hlt|Hge].
  - rewrite (addr_from_index pool m U F ni Hok) by lia. pose proof nb_small.
    assert (E1 : u32 (ni + 1) = ni + 1) by (apply Z.mod_small; lia). rewrite E1. pose proof (blk_inside ni ltac:(lia)).
    destruct (store_ok 4 (blk ni) (ni + 1) m) as (m' & -> & Hl & Hs & Hd); [intros a Ha; apply Hm; lia|lia|].
    cbn [mbind dev_outcome_bind]. rewrite (seqZ_next ni Hlt) in HF. rewrite HF in HP.
    assert (HC' : linked m' (C ++ [ni]) (ni + 1)).
    { apply linked_snoc; [|done]. eapply linked_same; [|exact HC]. intros i a Hi Ha. apply Hs. intros Ha'.
      assert (Hnd : NoDup (U ++ C ++ ni :: seqZ (ni + 1) (nb - (ni + 1)))) by (rewrite HP; apply NoDup_seqZ).
      assert (i <> ni). { intros ->. apply NoDup_app in Hnd as (_ & _ & (_ & Hx & _)%NoDup_app). apply (Hx ni Hi). left. }
      assert (0 <= i < nb). { assert (Hi' : i ∈ seqZ 0 nb) by (rewrite <- HP, !elem_of_app; auto). apply elem_of_seqZ in Hi'. lia. }
      apply (blk_apart i ni a); lia. }
    eexists _, m'. split; [reflexivity|]. rewrite <- HF in HP. rewrite cons_middle, app_assoc in HF. split; [|split].
    + split_and!; try done; cbn; try lia; [by exists (C ++ [ni])|intros a Ha; by apply Hd, Hm].
    + intros a Ha. apply Hs. intros Ha'. apply (Ha ni); [rewrite HF, !elem_of_app; left; right; left|lia].
    + right. cbn. destruct C as [|i C]; [exists ni, []|exists i, (C ++ [ni])]; by rewrite HF.
  - exists pool, m. assert (ni = nb) by lia. rewrite (seqZ_nil ni), app_nil_r in HF by lia. subst F.
    split; [done|]. split; [done|]. split; [done|]. destruct C as [|i C]; [by left|]. right. exists i, C.
    fold ni. by rewrite (seqZ_nil ni), app_nil_r by lia.
Qed.

Lemma Allocate_ok pool m U F :
  pool_ok pool m U F ->
  exists p pool' m', Allocate pool m = Ret (p, pool', m') /\ only_in F m m' /\
    match F with [] => p = 0 /\ pool_ok pool' m' U [] | i :: F' => p = blk i /\ pool_ok pool' m' (i :: U) F' end.
Proof.
  intros Hok. destruct (link_next_ok pool m U F Hok) as (pool1 & m1 & E1 & Hok1 & Ho & HC). unfold Allocate.
  change (if num_initializedblocks pool <? num_blocks pool then _ else _) with (link_next pool m). rewrite E1.
  cbn [mbind dev_outcome_bind]. pose proof Hok1 as (En & Es & Eb & Hni & Ef & Ex & _ & HP & Hm). rewrite Ef.
  destruct HC as [->|(i & C & HF & Hi & HC)]; [by exists 0, pool1, m1|]. rewrite HF in *. clear HF F. set (ni := num_initializedblocks pool1) in *.
  set (F' := C ++ seqZ ni (nb - ni)) in *. pose proof nb_small. cbn [length] in *.
  assert (Hlen : (length U + S (length F'))%nat = Z.to_nat nb).
  { apply Permutation_length in HP. by rewrite length_app, length_seqZ in HP. }
  rewrite (proj2 (Z.ltb_lt _ _)) by lia. assert (Efree : u32 (Z.of_nat (S (length F')) - 1) = Z.of_nat (length F')).
  { unfold u32. rewrite Z.mod_small; lia. }
  rewrite Efree, Ex.
  exists (blk i), (set_free (Z.of_nat (length F')) ni (match F' with [] => 0 | j :: _ => blk j end) pool1), m1.
  split; [|split; [done|split; [done|]]].
  - destruct F' as [|j F''] eqn:EF; [done|]. cbn [length Z.of_nat]. rewrite (proj2 (Z.eqb_neq _ 0)) by lia. cbn [negb].
    rewrite Hi. cbn [mbind dev_outcome_bind]. rewrite (addr_from_index pool1 m1 U (i :: j :: F'')) with (1 := Hok1).
    + do 5 f_equal. destruct C as [|x C]; cbn in EF |- *; [|congruence]. destruct (decide (ni < nb)).
      * rewrite seqZ_next in EF by done. congruence.
      * by rewrite seqZ_nil in EF by lia.
    + destruct C as [|x C]; cbn in EF |- *; [|injection EF as -> _].
      * destruct (decide (ni < nb)); [lia|]. by rewrite seqZ_nil in EF by lia.
      * apply (free_range pool1 m1 U (i :: j :: F'')); [done|apply elem_of_app; right; right; left].
  - split_and!; try done; cbn; try lia; [by exists C|]. by rewrite Permutation_middle.
Qed.

(** ** Release *)

(** The index stored in a released block: that of the first free block, or the end. *)
Lemma first_index_free pool m U F :
  pool_ok pool m U F ->
  exists v, (if negb (nextfreeblock pool =? 0) then IndexFromAddr (nextfreeblock pool) pool else Ret (num_blocks pool)) = Ret v /\
    0 <= v <= nb /\ forall C, F = C ++ seqZ (num_initializedblocks pool) (nb - num_initializedblocks pool) ->
      v = default (num_initializedblocks pool) (head C).
Proof.
  intros Hok. pose proof Hok as (En & _ & _ & Hni & _ & Ex & _). rewrite Ex. set (ni := num_initializedblocks pool) in *.
  destruct F as [|j F].
  - exists nb. rewrite En. split; [done|]. split; [lia|]. intros C [-> Hs]%eq_sym%app_nil. simpl.
    destruct (decide (ni < nb)); [by rewrite seqZ_next in Hs|lia].
  - pose proof (free_range pool m U (j :: F) j Hok ltac:(apply elem_of_app; right; left)) as Hj. pose proof (blk_inside j Hj).
    exists j. rewrite (proj2 (Z.eqb_neq _ 0)) by lia. cbn [negb]. rewrite (index_from_addr pool m U (j :: F)) by done.
    split; [done|]. split; [lia|]. intros [|x C] HF; simpl in HF |- *; [|congruence].
    destruct (decide (ni < nb)); [rewrite seqZ_next in HF by done; congruence|by rewrite seqZ_nil in HF by lia].
Qed.

Lemma DeAllocate_ok pool m U1 i U2 F :
  pool_ok pool m (U1 ++ i :: U2) F ->
  exists pool' m', DeAllocate (blk i) pool m = Ret (pool', m') /\ pool_ok pool' m' (U1 ++ U2) (i :: F) /\
    same_outside (blk i) (blk i + 4) m m'.
Proof.
  intros Hok. pose proof Hok as (En & Es & Eb & Hni & Ef & Ex & (C & HF & HC) & HP & Hm). pose proof nb_small.
  pose proof (free_range pool m _ F i Hok ltac:(rewrite !elem_of_app; left; right; left)) as Hi. pose proof (blk_inside i Hi).
  destruct (first_index_free pool m _ F Hok) as (v & Ev & Hv & Hhead). specialize (Hhead C HF).
  destruct (store_ok 4 (blk i) v m) as (m' & Est & Hl & Hs & Hd); [intros a Ha; apply Hm; lia|lia|].
  assert (Hlen : (length U1 + S (length U2) + length F)%nat = Z.to_nat nb).
  { apply Permutation_length in HP. by rewrite !length_app, length_seqZ in HP. }
  exists (set_free (Z.of_nat (length F) + 1) (num_initializedblocks pool) (blk i) pool), m'. split; [|split; [|done]].
  - unfold DeAllocate. rewrite (proj2 (Z.eqb_neq _ 0)) by lia. rewrite Ef. unfold u32. rewrite Z.mod_small by lia.
    destruct (negb (nextfreeblock pool =? 0)); [rewrite Ev; cbn [mbind dev_outcome_bind]|injection Ev as ->]; by rewrite Est.
  - split_and!; try done; cbn; try lia.
    + exists (i :: C). split; [by rewrite HF|]. split; [by rewrite Hl, Hhead|]. eapply linked_same; [|exact HC].
      intros j a Hj Ha. apply Hs. intros Ha'.
      assert (HjF : j ∈ F) by (rewrite HF, elem_of_app; by left).
      pose proof (free_range pool m _ F j Hok ltac:(apply elem_of_app; by right)).
      assert (Hnd : NoDup ((U1 ++ i :: U2) ++ F)) by (rewrite HP; apply NoDup_seqZ).
      assert (i <> j). { intros ->. apply NoDup_app in Hnd as (_ & Hx & _). apply (Hx j); [rewrite elem_of_app; right; left|done]. }
      apply (blk_apart i j a); lia.
    + by rewrite <- HP, <- (Permutation_middle (U1 ++ U2)), <- (Permutation_middle U1).
    + intros a Ha. by apply Hd, Hm.
Qed.
End pool.

(** ** The pool in use *)

(** The states of a pool, of the memory and of the set of the blocks handed out and
    not released, from the setup on: the program allocates, releases what it holds and
    writes to what it holds. *)
Inductive reach (pool0 : mempool_t) (m0 : memory) : mempool_t -> memory -> gset Z -> Prop :=
| reach_setup : reach pool0 m0 pool0 m0 ∅
| reach_allocate pool m H p pool' m' :
    reach pool0 m0 pool m H -> Allocate pool m = Ret (p, pool', m') ->
    reach pool0 m0 pool' m' (if p =? 0 then H else {[p]} ∪ H)
| reach_release pool m H p pool' m' :
    reach pool0 m0 pool m H -> p ∈ H -> DeAllocate p pool m = Ret (pool', m') ->
    reach pool0 m0 pool' m' (H ∖ {[p]})
| reach_write pool m H p a b :
    reach pool0 m0 pool m H -> p ∈ H -> p <= a < p + block_size pool ->
    reach pool0 m0 pool (<[a := b]> m) H.

(** All blocks lie within reach of a 32-bit offset and have room for a link. *)
Definition fits (info : pool_info_t) : Prop :=
  4 <= unitsize info < 2 ^ 32 /\ 0 < numunits info /\ numunits info * unitsize info <= 2 ^ 32.

Definition held (bs B : Z) U : gset Z := list_to_set (blk bs B <$> U).

Definition pool_inv (info : pool_info_t) (B : Z) m0 (pool : mempool_t) m (H : gset Z) : Prop :=
  exists U F, pool_ok (numunits info) (unitsize info) B pool m U F /\ H = held (unitsize info) B U /\
    same_outside B (B + numunits info * unitsize info) m0 m.

Section use.
Variables (info : pool_info_t) (B : Z) (pool : mempool_t) (m0 : memory).
Hypothesis Hfits : fits info.
Hypothesis HB : 0 < B.
Hypothesis Hm0 : mapped m0 B (B + numunits info * unitsize info).

Lemma initialize_inv : pool_inv info B m0 (initialize B info pool) m0 ∅.
Proof.
  destruct Hfits as (Hbs & Hnb & Hfit). exists [], (seqZ 0 (numunits info)). split; [|done].
  pose proof (nb_small (numunits info) (unitsize info)). unfold initialize, u32.
  split_and!; cbn [num_blocks block_size num_freeblocks num_initializedblocks base nextfreeblock];
    rewrite ?Z.mod_small by lia; try done; try lia.
  - rewrite length_seqZ. lia.
  - rewrite (seqZ_cons 0) by lia. unfold blk. lia.
  - exists []. by rewrite Z.sub_0_r.
Qed.

Lemma held_elem U p : p ∈ held (unitsize info) B U -> exists U1 i U2, p = blk (unitsize info) B i /\ U = U1 ++ i :: U2.
Proof.
  unfold held. rewrite elem_of_list_to_set, list_elem_of_fmap. intros (i & -> & Hi).
  apply list_elem_of_split in Hi as (U1 & U2 & ->). eauto.
Qed.

Lemma blk_inj i j : blk (unitsize info) B i = blk (unitsize info) B j -> i = j.
Proof. destruct Hfits as (Hbs & _). unfold blk. nia. Qed.

(** A byte of a block in use is no byte of another block. *)
Lemma used_apart p m U F i j a :
  pool_ok (numunits info) (unitsize info) B p m U F -> i ∈ U -> j ∈ F ->
  blk (unitsize info) B i <= a < blk (unitsize info) B i + unitsize info ->
  ~ (blk (unitsize info) B j <= a < blk (unitsize info) B j + unitsize info).
Proof.
  destruct Hfits as (Hbs & Hnb & Hfit). intros Hok Hi Hj. pose proof Hok as (_ & _ & _ & _ & _ & _ & _ & HP & _).
  pose proof (free_range _ _ _ p m U F i Hok ltac:(apply elem_of_app; by left)).
  pose proof (free_range _ _ _ p m U F j Hok ltac:(apply elem_of_app; by right)).
  assert (Hnd : NoDup (U ++ F)) by (rewrite HP; apply NoDup_seqZ).
  assert (i <> j) by (intros ->; apply NoDup_app in Hnd as (_ & Hx & _); by apply (Hx j)). by apply blk_apart; lia.
Qed.

Lemma write_ok p m U F i a b :
  pool_ok (numunits info) (unitsize info) B p m U F -> i ∈ U ->
  blk (unitsize info) B i <= a < blk (unitsize info) B i + unitsize info ->
  pool_ok (numunits info) (unitsize info) B p (<[a := b]> m) U F.
Proof.
  intros Hok Hi Ha. pose proof Hok as (En & Es & Eb & Hni & Ef & Ex & (C & HF & HC) & HP & Hm).
  destruct Hfits as (Hbs & Hnb & Hfit). split_and!; try done; try lia.
  - exists C. split; [done|]. eapply linked_same; [|exact HC]. intros j x Hj Hx. apply lookup_insert_ne. intros ->.
    apply (used_apart p m U F i j x Hok Hi); [rewrite HF, elem_of_app; by left|done|lia].
  - intros x Hx. destruct (decide (x = a)) as [->|?]; [rewrite lookup_insert_eq; by eexists|]. rewrite lookup_insert_ne by done. by apply Hm.
Qed.

Lemma outside_pool m m' F U p :
  pool_ok (numunits info) (unitsize info) B p m U F -> only_in (unitsize info) B F m m' ->
  same_outside B (B + numunits info * unitsize info) m m'.
Proof.
  intros Hok Ho a Ha. apply Ho. intros i Hi Hx. apply Ha. destruct Hfits as (Hbs & Hnb & Hfit).
  pose proof (free_range _ _ _ p m U F i Hok ltac:(apply elem_of_app; by right)).
  pose proof (blk_inside (numunits info) (unitsize info) B ltac:(lia) i ltac:(lia)). lia.
Qed.

Lemma held_size p m U F :
  pool_ok (numunits info) (unitsize info) B p m U F ->
  Z.of_nat (size (held (unitsize info) B U)) + Z.of_nat (length F) = numunits info.
Proof.
  intros (_ & _ & _ & _ & _ & _ & _ & HP & _). destruct Hfits as (Hbs & Hnb & Hfit).
  assert (Hnd : NoDup (U ++ F)) by (rewrite HP; apply NoDup_seqZ). apply NoDup_app in Hnd as (Hnd & _).
  unfold held. rewrite size_list_to_set, length_fmap by (apply NoDup_fmap_2_strong; [intros i j _ _; apply blk_inj|done]).
  apply Permutation_length in HP. rewrite length_app, length_seqZ in HP. lia.
Qed.

Lemma held_fresh p m U F i : pool_ok (numunits info) (unitsize info) B p m U F -> i ∈ F -> blk (unitsize info) B i ∉ held (unitsize info) B U.
Proof.
  intros (_ & _ & _ & _ & _ & _ & _ & HP & _) Hi (U1 & j & U2 & E%blk_inj & ->)%held_elem. subst j.
  assert (Hnd : NoDup ((U1 ++ i :: U2) ++ F)) by (rewrite HP; apply NoDup_seqZ).
  apply NoDup_app in Hnd as (_ & Hx & _). apply (Hx i); [apply elem_of_app; right; left|done].
Qed.

Lemma held_release U1 i U2 :
  NoDup (U1 ++ i :: U2) ->
  held (unitsize info) B (U1 ++ i :: U2) ∖ {[blk (unitsize info) B i]} = held (unitsize info) B (U1 ++ U2).
Proof.
  intros Hnd. rewrite <- Permutation_middle in Hnd. apply NoDup_cons in Hnd as [Hn _]. apply set_eq. intros x.
  unfold held. rewrite elem_of_difference, !elem_of_list_to_set, elem_of_singleton, !list_elem_of_fmap.
  split.
  - intros [(j & -> & Hj) Hne]. exists j. split; [done|]. rewrite elem_of_app, elem_of_cons in Hj. rewrite elem_of_app.
    destruct Hj as [|[->|]]; tauto.
  - intros (j & -> & Hj). split; [exists j; split; [done|]; rewrite elem_of_app, elem_of_cons; rewrite elem_of_app in Hj; tauto|].
    intros ->%blk_inj. done.
Qed.

Lemma reach_inv p m H : reach (initialize B info pool) m0 p m H -> pool_inv info B m0 p m H.
Proof.
  destruct Hfits as (Hbs & Hnb & Hfit). intros Hr.
  induction Hr as [|p m H x p' m' _ (U & F & Hok & -> & Ho) E|p m H x p' m' _ (U & F & Hok & -> & Ho) Hx E
    |p m H x a b _ (U & F & Hok & -> & Ho) Hx Ha]; [apply initialize_inv| | |].
  - destruct (Allocate_ok (numunits info) (unitsize info) B ltac:(lia) ltac:(lia) ltac:(lia) p m U F Hok) as (y & p2 & m2 & E' & Hon & HF).
    rewrite E in E'. injection E' as <- <- <-. assert (Ho' : same_outside B (B + numunits info * unitsize info) m0 m').
    { intros a Ha. rewrite (outside_pool m m' F U p Hok Hon a Ha). by apply Ho. }
    destruct F as [|i F]; destruct HF as [-> Hok']; [by exists U, []|]. exists (i :: U), F. split; [done|]. split; [|done].
    pose proof (free_range _ _ _ _ _ _ _ i Hok' ltac:(left)). unfold held, blk. rewrite (proj2 (Z.eqb_neq _ 0)) by nia. done.
  - destruct (held_elem _ _ Hx) as (U1 & i & U2 & -> & ->).
    destruct (DeAllocate_ok (numunits info) (unitsize info) B ltac:(lia) ltac:(lia) ltac:(lia) HB p m U1 i U2 F Hok) as (p2 & m2 & E' & Hok' & Hs).
    rewrite E in E'. injection E' as <- <-. exists (U1 ++ U2), (i :: F). split; [done|]. split.
    + apply held_release. destruct Hok as (_ & _ & _ & _ & _ & _ & _ & HP & _).
      assert (Hnd : NoDup ((U1 ++ i :: U2) ++ F)) by (rewrite HP; apply NoDup_seqZ). by apply NoDup_app in Hnd as [? _].
    + intros a Ha. rewrite Hs; [by apply Ho|].
      pose proof (free_range _ _ _ p m _ F i Hok ltac:(rewrite !elem_of_app; left; right; left)) as Hi.
      pose proof (blk_inside (numunits info) (unitsize info) B ltac:(lia) i Hi). lia.
  - destruct (held_elem _ _ Hx) as (U1 & i & U2 & -> & ->). pose proof Hok as (_ & Es & _). rewrite Es in Ha.
    assert (Hi : i ∈ U1 ++ i :: U2) by (apply elem_of_app; right; left).
    exists (U1 ++ i :: U2), F. split; [by apply (write_ok p m _ F i)|]. split; [done|]. intros y Hy. rewrite lookup_insert_ne; [by apply Ho|].
    pose proof (free_range _ _ _ p m _ F i Hok ltac:(apply elem_of_app; by left)).
    pose proof (blk_inside (numunits info) (unitsize info) B ltac:(lia) i ltac:(lia)). lia.
Qed.
End use.

(** ** Aligned memory *)

Lemma align_down x k : 0 <= k <= 64 -> 0 <= x < 2 ^ 64 -> Z.land x (u64 (Z.lnot (2 ^ k - 1))) = x - x mod 2 ^ k.
Proof.
  intros Hk Hx. unfold u64. rewrite <- (Z.land_ones (Z.lnot _) 64) by lia.
  replace (2 ^ k - 1) with (Z.ones k) by (by rewrite Z.ones_equiv, Z.sub_1_r).
  rewrite Z.land_assoc, <- Z.ldiff_land, Z.ldiff_ones_r, Z.land_ones, Z.shiftl_mul_pow2, Z.shiftr_div_pow2 by lia.
  pose proof (Z.div_mod x (2 ^ k) ltac:(lia)). pose proof (Z.mod_pos_bound x (2 ^ k) ltac:(lia)).
  rewrite Z.mod_small; [lia|]. split; [|lia]. apply Z.mul_nonneg_nonneg; [apply Z.div_pos; lia|lia].
Qed.

(** The block lies inside what the system allocated, with two words of bookkeeping
    before it that the release reads. *)
Lemma numa_aligned_alloc_ok p k size m :
  0 <= k <= 30 -> 0 < size <= 2 ^ 32 -> 0 < p -> p + (size + 2 ^ k + 15) <= 2 ^ 64 -> mapped m p (p + (size + 2 ^ k + 15)) ->
  exists q m', numa_aligned_alloc p (2 ^ k) size m = Ret (q, m') /\ q mod 2 ^ k = 0 /\
    p + 16 <= q /\ q + size <= p + (size + 2 ^ k + 15) /\ (forall x, is_Some (m !! x) -> is_Some (m' !! x)) /\
    forall m2, same_outside q (q + size) m' m2 -> free_mem_numa q m2 = Ret (p, size + 2 ^ k + 15).
Proof.
  intros Hk Hsz Hp Hfit Hm. assert (2 ^ k <= 2 ^ 30) by (apply Z.pow_le_mono_r; lia). assert (0 < 2 ^ k) by lia.
  unfold numa_aligned_alloc. assert (Et : u64 (size + 2 ^ k - 1 + 8 + 8) = size + 2 ^ k + 15) by (unfold u64; rewrite Z.mod_small; lia).
  assert (Ex : u64 (p + 2 ^ k - 1 + 8 + 8) = p + 2 ^ k + 15) by (unfold u64; rewrite Z.mod_small; lia).
  rewrite Et, Ex, align_down by lia. set (q := p + 2 ^ k + 15 - (p + 2 ^ k + 15) mod 2 ^ k).
  pose proof (Z.mod_pos_bound (p + 2 ^ k + 15) (2 ^ k) ltac:(lia)).
  destruct (store_ok 8 (q - 8) p m) as (m1 & -> & Hl1 & Hs1 & Hd1); [intros a Ha; apply Hm; lia|lia|]. cbn [mbind dev_outcome_bind].
  destruct (store_ok 8 (q - 16) (size + 2 ^ k + 15) m1) as (m2 & -> & Hl2 & Hs2 & Hd2); [intros a Ha; apply Hd1, Hm; lia|lia|].
  cbn [mbind dev_outcome_bind]. exists q, m2. split; [done|]. split.
  { unfold q. by rewrite Zminus_mod_idemp_r, Z.sub_diag, Z.mod_0_l by lia. }
  split; [lia|]. split; [lia|]. split; [by intros x Hx; apply Hd2, Hd1|]. intros m3 Hs3. unfold free_mem_numa.
  rewrite (load_same 8 (q - 8) m1 m3), Hl1 by (intros x Hx; rewrite Hs3, Hs2 by lia; done). cbn [mbind dev_outcome_bind].
  rewrite (load_same 8 (q - 16) m2 m3), Hl2 by (intros x Hx; rewrite Hs3 by lia; done). done.
Qed.

(** ** Allocation without release *)

(** [n] allocations in a row. *)
Fixpoint allocs (n : nat) (pool : mempool_t) (m : memory) : dev_outcome (list Z * mempool_t * memory) :=
  match n with
  | O => Ret ([], pool, m)
  | S n =>
      '(x, pool, m) ← Allocate pool m;
      '(l, pool, m) ← allocs n pool m;
      Ret (x :: l, pool, m)
  end.

Section fresh.
Variables nb bs B : Z.
Hypothesis Hnb : 0 <= nb < 2 ^ 32.

(** A pool from which [n] blocks were taken and none given back. *)
Definition taken (n : Z) (pool : mempool_t) m : Prop :=
  num_blocks pool = nb /\ block_size pool = bs /\ base pool = B /\ num_initializedblocks pool = n /\
  num_freeblocks pool = nb - n /\ (n < nb -> nextfreeblock pool = B + u32 (n * bs)) /\
  forall i, 0 <= i < nb -> mapped m (B + u32 (i * bs)) (B + u32 (i * bs) + 4).

Lemma taken_next n pool m :
  0 <= n < nb -> taken n pool m ->
  exists pool' m', Allocate pool m = Ret (B + u32 (n * bs), pool', m') /\ taken (n + 1) pool' m'.
Proof.
  intros Hn (En & Es & Eb & Ei & Ef & Ex & Hm). specialize (Ex ltac:(lia)). unfold Allocate.
  rewrite Ei, En, (proj2 (Z.ltb_lt n nb)) by lia. unfold AddrFromIndex. rewrite Es, Eb.
  assert (E1 : u32 (n + 1) = n + 1) by (apply Z.mod_small; lia). rewrite E1.
  destruct (store_ok 4 (B + u32 (n * bs)) (n + 1) m) as (m' & -> & Hl & _ & Hd); [by apply Hm|lia|].
  cbn [mbind dev_outcome_bind num_freeblocks nextfreeblock block_size base num_initializedblocks set_free]. rewrite Ef, Ex, Es, Eb.
  rewrite (proj2 (Z.ltb_lt 0 _)) by lia. assert (E2 : u32 (nb - n - 1) = nb - (n + 1)) by (unfold u32; rewrite Z.mod_small; lia).
  rewrite E2, Hl. cbn [mbind dev_outcome_bind].
  assert (Hm' : forall i, 0 <= i < nb -> mapped m' (B + u32 (i * bs)) (B + u32 (i * bs) + 4)) by (intros i Hi a Ha; by apply Hd, (Hm i)).
  destruct (Z.eqb_spec (nb - (n + 1)) 0); eexists _, m'; (split; [reflexivity|]); split_and!; try done; cbn; intros; lia || done.
Qed.

Lemma taken_allocs k : forall n pool m,
  0 <= n -> n + Z.of_nat k <= nb -> taken n pool m ->
  exists pool' m', allocs k pool m = Ret ((fun i => B + u32 (i * bs)) <$> seqZ n (Z.of_nat k), pool', m').
Proof.
  induction k as [|k IH]; intros n pool m Hn Hk Ht; [by exists pool, m|].
  destruct (taken_next n pool m ltac:(lia) Ht) as (pool1 & m1 & E & Ht1).
  destruct (IH (n + 1) pool1 m1 ltac:(lia) ltac:(lia) Ht1) as (pool2 & m2 & E2). exists pool2, m2. simpl. rewrite E.
  cbn [mbind dev_outcome_bind]. rewrite E2. cbn [mbind dev_outcome_bind]. rewrite (seqZ_cons n) by lia. cbn [fmap list_fmap].
  by replace (Z.pred (Z.of_nat (S k))) with (Z.of_nat k) by lia.
Qed.
End fresh.

(** ** Theorems *)

(** C18. A pool in use, of units of at least 4 bytes (a free unit holds a 32-bit link)
    and of at most 4 GiB in all (the links are 32-bit offsets), which the code does not
    check, whatever the program has allocated, released and written so far: an
    allocation returns, gives a block of the pool that nobody holds, and fails only
    when all blocks are held; a release of a held block returns; and neither changes a
    byte of a block that is held before and after it. *)
Theorem pool_blocks_exclusive info B pool m0 p m H :
  fits info -> 0 < B -> mapped m0 B (B + numunits info * unitsize info) ->
  reach (initialize B info pool) m0 p m H ->
  (exists x p' m', Allocate p m = Ret (x, p', m') /\
     (x = 0 <-> Z.of_nat (size H) = numunits info) /\
     (x <> 0 -> (x ∉ H) /\ exists i, 0 <= i < numunits info /\ x = B + i * unitsize info) /\
     forall y a, y ∈ H -> y <= a < y + unitsize info -> m' !! a = m !! a) /\
  forall x, x ∈ H -> exists p' m', DeAllocate x p m = Ret (p', m') /\
     forall y a, y ∈ H -> y <> x -> y <= a < y + unitsize info -> m' !! a = m !! a.
Proof.
  intros Hf HB Hm0 Hr. destruct (reach_inv info B pool m0 Hf HB Hm0 p m H Hr) as (U & F & Hok & -> & _).
  pose proof Hf as (Hbs & Hnb & Hfit). pose proof (held_size info B Hf p m U F Hok) as Hsize. split.
  - destruct (Allocate_ok (numunits info) (unitsize info) B ltac:(lia) ltac:(lia) ltac:(lia) p m U F Hok) as (x & p' & m' & E & Ho & HF).
    exists x, p', m'. split; [done|]. split; [|split].
    + destruct F as [|i F]; destruct HF as [-> _]; simpl in Hsize; [lia|]. split; [|lia].
      pose proof (free_range _ _ _ p m U (i :: F) i Hok ltac:(apply elem_of_app; right; left)). unfold blk. nia.
    + intros Hx. destruct F as [|i F]; destruct HF as [-> _]; [done|]. split.
      * apply (held_fresh info B Hf p m U (i :: F)); [done|left].
      * exists i. split; [|done]. apply (free_range _ _ _ p m U (i :: F) i Hok). apply elem_of_app. right. left.
    + intros y a Hy Ha. apply Ho. intros j Hj. destruct (held_elem _ _ _ _ Hy) as (U1 & i & U2 & -> & ->).
      apply (used_apart info B Hf p m (U1 ++ i :: U2) F i); [done|apply elem_of_app; right; left|done..].
  - intros x Hx. destruct (held_elem _ _ _ _ Hx) as (U1 & i & U2 & -> & ->).
    destruct (DeAllocate_ok (numunits info) (unitsize info) B ltac:(lia) ltac:(lia) ltac:(lia) HB p m U1 i U2 F Hok) as (p' & m' & E & _ & Hs).
    exists p', m'. split; [done|]. intros y a Hy Hne Ha. apply Hs. intros Ha'.
    assert (Hj : exists j, y = blk (unitsize info) B j /\ j ∈ U1 ++ i :: U2).
    { destruct (held_elem _ _ _ _ Hy) as (V1 & j & V2 & -> & ->). exists j. split; [done|]. apply elem_of_app. right. left. }
    destruct Hj as (j & -> & Hj).
    pose proof (free_range _ _ _ p m _ F i Hok ltac:(rewrite !elem_of_app; left; right; left)).
    pose proof (free_range _ _ _ p m _ F j Hok ltac:(apply elem_of_app; by left)).
    apply (blk_apart (unitsize info) B ltac:(lia) j i a); [lia|lia|by intros ->|done|lia].
Qed.

(** C26. A pool on a NUMA node, of units of at least 4 bytes and of at most 4 GiB in all,
    set up with an alignment that is a power of two of at most 1 GiB, starts at an aligned
    address inside the memory that the system allocated, has room for all its blocks there,
    and however it is used, its end gives the system exactly that memory back. *)
Theorem numa_pool_given_back numa_alloc posix_memalign info pool nodeid k p m :
  fits info -> allocatortype info = NUMA_ALLOCATOR -> alignment info = 2 ^ k -> 0 <= k <= 30 ->
  let size := numunits info * unitsize info in
  let total := size + 2 ^ k + 15 in
  numa_alloc total nodeid = (p, m) -> 0 < p -> p + total <= 2 ^ 64 -> mapped m p (p + total) ->
  exists pool0 m0, pool_setup numa_alloc posix_memalign info pool nodeid = Ret (Ready pool0 m0) /\
    base pool0 mod alignment info = 0 /\ p <= base pool0 /\ base pool0 + size <= p + total /\
    forall pool1 m1 H, reach pool0 m0 pool1 m1 H ->
      exists pool2, destroy (allocatortype info) pool1 m1 = Ret (NumaFree p total, pool2) /\ base pool2 = 0.
Proof.
  intros Hf Ea Ek Hk size total En Hp Hfit Hm. pose proof Hf as (Hbs & Hnb & Hsz).
  assert (2 ^ k <= 2 ^ 30) by (apply Z.pow_le_mono_r; lia). assert (0 < size) by (unfold size; nia).
  destruct (numa_aligned_alloc_ok p k size m) as (q & m' & E & Hq & Hq1 & Hq2 & Hd & Hrel); [lia|lia|done..|].
  exists (initialize q info pool), m'. split.
  { assert (E1 : u64 (unitsize info * numunits info) = size) by (unfold u64, size in *; rewrite Z.mod_small; lia).
    assert (E2 : u64 (size + 2 ^ k - 1 + 8 + 8) = total) by (unfold u64, total; rewrite Z.mod_small; lia).
    unfold pool_setup. rewrite E1, (proj2 (Z.ltb_lt _ _)), Ea, Ek, E2, En, E by lia. cbn [mbind dev_outcome_bind].
    by rewrite (proj2 (Z.eqb_neq q 0)) by lia. }
  rewrite Ek. split; [done|]. cbn [base initialize]. split; [lia|]. split; [done|]. intros pool1 m1 H1 Hr.
  destruct (reach_inv info q pool m' Hf ltac:(lia) ltac:(intros a Ha; apply Hd, Hm; lia) pool1 m1 H1 Hr)
    as (U & F & (_ & _ & Eb & _) & _ & Ho).
  rewrite Ea. unfold destroy. rewrite Eb, (Hrel m1 Ho). cbn [mbind dev_outcome_bind]. eauto.
Qed.

(** C40. In a pool that is larger than a 32-bit offset can reach, blocks of the size
    [2 ^ u] are handed out twice: after [2 ^ (32 - u)] allocations that all succeed and
    with blocks left, the next one gives the address of the first block again. *)
Theorem pool_offset_wraps info pool B m u :
  unitsize info = 2 ^ u -> 2 <= u < 32 -> 2 ^ (32 - u) < numunits info < 2 ^ 32 ->
  (forall i, 0 <= i < numunits info -> mapped m (B + u32 (i * unitsize info)) (B + u32 (i * unitsize info) + 4)) ->
  exists l pool' m', allocs (Z.to_nat (2 ^ (32 - u) + 1)) (initialize B info pool) m = Ret (l, pool', m') /\
    head l = Some B /\ last l = Some B /\ (length l >= 2)%nat.
Proof.
  intros Eu Hu Hn Hm. assert (Hp : 0 < 2 ^ (32 - u)) by lia. assert (Hb : 2 ^ u < 2 ^ 32) by (apply Z.pow_lt_mono_r; lia).
  destruct (taken_allocs (numunits info) (unitsize info) B ltac:(lia) (Z.to_nat (2 ^ (32 - u) + 1)) 0 (initialize B info pool) m)
    as (pool' & m' & E); [lia|lia| |].
  { split_and!; cbn; unfold u32; rewrite ?Z.mod_small; try done; lia. }
  exists ((fun i => B + u32 (i * unitsize info)) <$> seqZ 0 (2 ^ (32 - u) + 1)), pool', m'. split.
  { rewrite E. do 5 f_equal. lia. }
  rewrite length_fmap, length_seqZ. split; [|split; [|lia]].
  - rewrite (seqZ_cons 0) by lia. cbn [fmap list_fmap head]. f_equal. rewrite Z.mul_0_l. unfold u32. rewrite Z.mod_0_l; lia.
  - rewrite seqZ_app, fmap_app, (seqZ_cons (0 + _) 1), (seqZ_nil _ (Z.pred 1)) by lia. cbn [fmap list_fmap].
    rewrite last_snoc. f_equal. rewrite Eu, Z.add_0_l, <- Z.pow_add_r by lia.
    replace (32 - u + u) with 32 by lia. unfold u32. rewrite Z.mod_same; lia.
Qed.

(** ** Examples *)

Definition zeros (lo n : Z) : memory := gset_to_gmap Byte.x00 (list_to_set (seqZ lo n)).
Definition no_pool : mempool_t := Mempool 0 0 0 0 0 0 0 0.
Definition two_blocks : pool_info_t := PoolInfo 8 2 16 NUMA_ALLOCATOR.
Definition huge_blocks : pool_info_t := PoolInfo (2 ^ 31) 3 16 POSIX_ALLOCATOR.
Definition no_posix (_ _ : Z) : Z * memory := (0, ∅).
Definition numa_72 (total _ : Z) : Z * memory := (72, zeros 72 total).

Lemma zeros_mapped lo n : mapped (zeros lo n) lo (lo + n).
Proof.
  intros a Ha. exists Byte.x00. apply lookup_gset_to_gmap_Some. split; [|done].
  apply elem_of_list_to_set, elem_of_seqZ. lia.
Qed.

Lemma two_blocks_fit : fits two_blocks.
Proof. unfold fits, two_blocks. simpl. lia. Qed.

Lemma pool_blocks_exclusive_witness :
  exists p m, reach (initialize 64 two_blocks no_pool) (zeros 64 16) p m {[64]} /\
    exists x p' m', Allocate p m = Ret (x, p', m') /\ x <> 0 /\ (x ∉ ({[64]} : gset Z)).
Proof.
  assert (Hr : exists p m, reach (initialize 64 two_blocks no_pool) (zeros 64 16) p m ({[64]} ∪ ∅)).
  { eexists _, _. eapply (reach_allocate _ _ _ _ ∅ 64); [constructor|vm_compute; reflexivity]. }
  destruct Hr as (p & m & Hr). rewrite union_empty_r_L in Hr. exists p, m. split; [exact Hr|].
  destruct (pool_blocks_exclusive two_blocks 64 no_pool (zeros 64 16) p m {[64]} two_blocks_fit ltac:(lia) (zeros_mapped 64 16) Hr)
    as ((x & p' & m' & E & Hx0 & Hx & _) & _).
  assert (x <> 0) by (rewrite Hx0, size_singleton; simpl; lia).
  exists x, p', m'. split; [exact E|]. split; [assumption|]. by apply Hx.
Defined.

Lemma numa_pool_given_back_witness :
  exists pool0 m0, pool_setup numa_72 no_posix two_blocks no_pool 0 = Ret (Ready pool0 m0) /\ base pool0 mod 16 = 0 /\
    exists pool2, destroy NUMA_ALLOCATOR pool0 m0 = Ret (NumaFree 72 47, pool2) /\ base pool2 = 0.
Proof.
  destruct (numa_pool_given_back numa_72 no_posix two_blocks no_pool 0 4 72 (zeros 72 47) two_blocks_fit eq_refl eq_refl
    ltac:(lia) eq_refl ltac:(lia) ltac:(simpl; lia) (zeros_mapped 72 47)) as (pool0 & m0 & E & Ha & _ & _ & Hd).
  exists pool0, m0. split; [exact E|]. split; [exact Ha|]. apply (Hd pool0 m0 ∅). constructor.
Defined.

Lemma pool_offset_wraps_witness :
  exists l pool' m', allocs 3 (initialize 64 huge_blocks no_pool) (zeros 64 4 ∪ zeros (64 + 2 ^ 31) 4) = Ret (l, pool', m') /\
    head l = Some 64 /\ last l = Some 64.
Proof.
  destruct (pool_offset_wraps huge_blocks no_pool 64 (zeros 64 4 ∪ zeros (64 + 2 ^ 31) 4) 31 eq_refl ltac:(lia) ltac:(simpl; lia))
    as (l & pool' & m' & E & Hh & Hl & _).
  - intros i Hi a Ha. apply lookup_union_is_Some. assert (Hc : i = 0 \/ i = 1 \/ i = 2) by (simpl in Hi; lia). destruct Hc as [->|[->| ->]].
    + left. by apply zeros_mapped.
    + right. by apply zeros_mapped.
    + left. by apply zeros_mapped.
  - exists l, pool', m'. split; [exact E|]. split; [exact Hh|exact Hl].
Defined.
