(* ===== verification/Thpool.v ===== *)
(** * The thread pool of the benchmark suite

    [src/application/kvbench/utils/thpool.cc]: a queue of jobs linked in memory, a
    binary semaphore that says that there are jobs, and threads that run
    [thread_do].  The threads and the client are machines that move by the atomic
    steps of the code: a critical section that takes no other lock is one step, one
    that does is one step for each lock, and giving back the lock of the counters is a
    step of its own at the end of a thread, where [thpool_destroy] looks at the
    counter without the lock.  [added], [started] and [finished] record the jobs
    for the theorems and are not read.  The pool is the only one of the process,
    since [threads_keepalive] is one variable for all pools.  The counters stay far
    below the range of an [int] and are not wrapped; [exit], and an access to a job
    or to the pool after it is freed, are [Undef]. *)

From stdpp Require Import base numbers list gmap.
From S2P Require Import Prelude.

(** ** Data *)

Record job := Job { prev : Z; function : Z; arg : Z }.

(** The binary semaphore: its value; who waits for it is part of the threads. *)
Record bsem := Bsem { v : Z }.

Record jobqueue := Jobqueue { rwmutex : bool; front : Z; rear : Z; has_jobs : bsem; len : Z }.

(** Where a thread is in [thread_do]. *)
Inductive thread :=
| T_start
| T_loop
| T_wait
| T_sleep
| T_signalled
| T_woken
| T_count
| T_pull
| T_posting (j : Z)
| T_run (j : Z)
| T_done
| T_exit
| T_unlock
| T_dead.

(** Where the client is: in [thpool_init], between calls, in [thpool_add_work] with
    the lock of the queue, in the three stations of [thpool_wait], or in
    [thpool_destroy]; in [C_destroyed] the pool is freed. *)
Inductive client_pc :=
| C_starting (n : Z)
| C_idle
| C_posting
| C_check_len
| C_check_working
| C_asleep
| C_signalled
| C_stopping
| C_destroyed.

(** The pool, with the variable [threads_keepalive] of the file. *)
Record thpool_ := Thpool {
  threads_keepalive : Z;
  threads : list thread;
  num_threads_alive : Z;
  num_threads_working : Z;
  thcount_lock : bool;
  queue : jobqueue;
  jobs : gmap Z job;
  client : client_pc;
  added : list (Z * Z);
  started : list (Z * Z);
  finished : list (Z * Z)
}.

Definition describe (j : job) : Z * Z := (function j, arg j).

(** ** Semaphore *)

Definition bsem_init (value : Z) : dev_outcome bsem := if (value <? 0) || (1 <? value) then Undef else Ret (Bsem value).

Definition is_asleep (t : thread) : bool := match t with T_sleep => true | _ => false end.
Definition wake (t : thread) : thread := match t with T_sleep => T_signalled | _ => t end.

(** [pthread_cond_signal]: one of the sleeping threads, [c], is woken. *)
Definition cond_signal (c : nat) (ts : list thread) : dev_outcome (list thread) :=
  if existsb is_asleep ts then
    match ts !! c with
    | Some T_sleep => Ret (<[c := T_signalled]> ts)
    | _ => Blocked
    end
  else Ret ts.

Definition bsem_post (c : nat) (ts : list thread) : dev_outcome (bsem * list thread) :=
  ts ← cond_signal c ts;
  Ret (Bsem 1, ts).

Definition bsem_post_all (ts : list thread) : bsem * list thread := (Bsem 1, wake <$> ts).

(** One round of the loop of [bsem_wait]. *)
Definition bsem_wait (b : bsem) : bsem * thread := if negb (v b =? 1) then (b, T_sleep) else (Bsem 0, T_woken).

(** ** Job queue *)

Definition jobqueue_init : dev_outcome jobqueue := b ← bsem_init 0; Ret (Jobqueue false 0 0 b 0).

(** [jobqueue_push] up to the post, which the caller makes before it gives the lock back. *)
Definition jobqueue_push (q : jobqueue) (newjob : Z) (h : gmap Z job) : dev_outcome (jobqueue * gmap Z job) :=
  match h !! newjob with
  | None => Undef
  | Some j =>
      let h := <[newjob := Job 0 (function j) (arg j)]> h in
      if len q =? 0 then Ret (Jobqueue true newjob newjob (has_jobs q) (len q + 1), h)
      else
        match h !! rear q with
        | None => Undef
        | Some r =>
            Ret (Jobqueue true (front q) newjob (has_jobs q) (len q + 1),
                 <[rear q := Job newjob (function r) (arg r)]> h)
        end
  end.

(** [jobqueue_pull] up to the post, and whether there is one. *)
Definition jobqueue_pull (q : jobqueue) (h : gmap Z job) : dev_outcome (Z * bool * jobqueue) :=
  let job_p := front q in
  if len q =? 0 then Ret (job_p, false, q)
  else if len q =? 1 then Ret (job_p, false, Jobqueue (rwmutex q) 0 0 (has_jobs q) 0)
  else
    match h !! job_p with
    | None => Undef
    | Some j => Ret (job_p, true, Jobqueue true (prev j) (rear q) (has_jobs q) (len q - 1))
    end.

(** The loop that frees the jobs left; the lock is free, and [fuel] is their number. *)
Fixpoint jobqueue_clear (fuel : nat) (q : jobqueue) (h : gmap Z job) : dev_outcome (jobqueue * gmap Z job) :=
  if len q =? 0 then (b ← bsem_init 0; Ret (Jobqueue (rwmutex q) 0 0 b 0, h))
  else match fuel with
       | O => Blocked
       | S fuel =>
           '(j, post, q) ← jobqueue_pull q h;
           let q := Jobqueue false (front q) (rear q) (if post : bool then Bsem 1 else has_jobs q) (len q) in
           match h !! j with
           | None => Undef
           | Some _ => jobqueue_clear fuel q (delete j h)
           end
       end.

(** ** Threads *)

Definition set_threads (ts : list thread) (p : thpool_) : thpool_ :=
  Thpool (threads_keepalive p) ts (num_threads_alive p) (num_threads_working p) (thcount_lock p) (queue p) (jobs p)
    (client p) (added p) (started p) (finished p).
Definition set_queue (q : jobqueue) (h : gmap Z job) (p : thpool_) : thpool_ :=
  Thpool (threads_keepalive p) (threads p) (num_threads_alive p) (num_threads_working p) (thcount_lock p) q h
    (client p) (added p) (started p) (finished p).
Definition set_counts (alive working : Z) (locked : bool) (p : thpool_) : thpool_ :=
  Thpool (threads_keepalive p) (threads p) alive working locked (queue p) (jobs p)
    (client p) (added p) (started p) (finished p).
Definition set_client (c : client_pc) (p : thpool_) : thpool_ :=
  Thpool (threads_keepalive p) (threads p) (num_threads_alive p) (num_threads_working p) (thcount_lock p) (queue p) (jobs p)
    c (added p) (started p) (finished p).
Definition set_history (a s f : list (Z * Z)) (p : thpool_) : thpool_ :=
  Thpool (threads_keepalive p) (threads p) (num_threads_alive p) (num_threads_working p) (thcount_lock p) (queue p) (jobs p)
    (client p) a s f.

Definition set_sem (b : bsem) (q : jobqueue) : jobqueue := Jobqueue (rwmutex q) (front q) (rear q) b (len q).
Definition unlock (b : bsem) (q : jobqueue) : jobqueue := Jobqueue false (front q) (rear q) b (len q).

(** [pthread_cond_signal (&threads_all_idle)] *)
Definition wake_client (c : client_pc) : client_pc := match c with C_asleep => C_signalled | _ => c end.

(** The memory of the pool is given back. *)
Definition freed (p : thpool_) : bool := match client p with C_destroyed => true | _ => false end.

(** The next step of thread [i] while there is the pool; [c] is the sleeping thread
    that a post wakes. *)
Definition thread_step (i c : nat) (p : thpool_) : dev_outcome thpool_ :=
  let goto (t : thread) (p : thpool_) := set_threads (<[i := t]> (threads p)) p in
  match threads p !! i with
  | None | Some T_sleep | Some T_dead => Blocked
  | Some T_start =>
      if thcount_lock p then Blocked
      else Ret (goto T_loop (set_counts (num_threads_alive p + 1) (num_threads_working p) false p))
  | Some T_loop => Ret (goto (if negb (threads_keepalive p =? 0) then T_wait else T_exit) p)
  | Some T_wait | Some T_signalled =>
      let '(b, t) := bsem_wait (has_jobs (queue p)) in
      Ret (goto t (set_queue (set_sem b (queue p)) (jobs p) p))
  | Some T_woken => Ret (goto (if negb (threads_keepalive p =? 0) then T_count else T_loop) p)
  | Some T_count =>
      if thcount_lock p then Blocked
      else Ret (goto T_pull (set_counts (num_threads_alive p) (num_threads_working p + 1) false p))
  | Some T_pull =>
      if rwmutex (queue p) then Blocked
      else
        '(j, post, q) ← jobqueue_pull (queue p) (jobs p);
        let p := set_queue q (jobs p) p in
        if j =? 0 then Ret (goto T_done p)
        else
          match jobs p !! j with
          | None => Undef
          | Some d => Ret (goto (if post : bool then T_posting j else T_run j)
                             (set_history (added p) (started p ++ [describe d]) (finished p) p))
          end
  | Some (T_posting j) =>
      '(b, ts) ← bsem_post c (threads p);
      Ret (goto (T_run j) (set_queue (unlock b (queue p)) (jobs p) (set_threads ts p)))
  | Some (T_run j) =>
      match jobs p !! j with
      | None => Undef
      | Some d => Ret (goto T_done (set_queue (queue p) (delete j (jobs p))
                         (set_history (added p) (started p) (finished p ++ [describe d]) p)))
      end
  | Some T_done =>
      if thcount_lock p then Blocked
      else
        let working := num_threads_working p - 1 in
        let p := set_counts (num_threads_alive p) working false p in
        Ret (goto T_loop (if working =? 0 then set_client (wake_client (client p)) p else p))
  | Some T_exit =>
      if thcount_lock p then Blocked
      else Ret (goto T_unlock (set_counts (num_threads_alive p - 1) (num_threads_working p) true p))
  | Some T_unlock => Ret (goto T_dead (set_counts (num_threads_alive p) (num_threads_working p) false p))
  end.

(** The places at which the next step reads or writes the pool. *)
Definition uses_pool (t : thread) : bool := match t with T_loop | T_sleep | T_woken | T_run _ | T_dead => false | _ => true end.

Definition thread_do (i c : nat) (p : thpool_) : dev_outcome thpool_ :=
  if freed p && from_option uses_pool false (threads p !! i) then Undef else thread_step i c p.

(** ** Client *)

Definition thpool_init (num_threads : Z) : dev_outcome thpool_ :=
  let n := if num_threads <? 0 then 0 else num_threads in
  q ← jobqueue_init;
  Ret (Thpool 1 (replicate (Z.to_nat n) T_start) 0 0 false q ∅ (C_starting n) [] [] []).

(** [newjob] is the address of the new job, or 0 if there is no memory. *)
Definition thpool_add_work (newjob f a : Z) (p : thpool_) : dev_outcome thpool_ :=
  if newjob =? 0 then Ret p
  else if rwmutex (queue p) then Blocked
  else
    '(q, h) ← jobqueue_push (queue p) newjob (<[newjob := Job 0 f a]> (jobs p));
    Ret (set_client C_posting (set_queue q h (set_history (added p ++ [(f, a)]) (started p) (finished p) p))).

(** Taking the lock of the counters, on entry and after a signal. *)
Definition thpool_wait (p : thpool_) : dev_outcome thpool_ :=
  if thcount_lock p then Blocked
  else Ret (set_client C_check_len (set_counts (num_threads_alive p) (num_threads_working p) true p)).

(** Setting the flag, with which [thpool_destroy] begins. *)
Definition thpool_destroy (p : thpool_) : thpool_ :=
  Thpool 0 (threads p) (num_threads_alive p) (num_threads_working p) (thcount_lock p) (queue p) (jobs p)
    C_stopping (added p) (started p) (finished p).

(** The next step of the client inside a call; the end of [thpool_destroy], after which
    the threads have nothing to do but to give back the lock, is one step. *)
Definition client_do (c : nat) (p : thpool_) : dev_outcome thpool_ :=
  let release (pc : client_pc) (p : thpool_) := set_client pc (set_counts (num_threads_alive p) (num_threads_working p) false p) in
  match client p with
  | C_idle | C_asleep | C_destroyed => Blocked
  | C_starting n => if num_threads_alive p =? n then Ret (set_client C_idle p) else Blocked
  | C_posting =>
      '(b, ts) ← bsem_post c (threads p);
      Ret (set_client C_idle (set_queue (unlock b (queue p)) (jobs p) (set_threads ts p)))
  | C_check_len => Ret (if negb (len (queue p) =? 0) then release C_asleep p else set_client C_check_working p)
  | C_check_working => Ret (if negb (num_threads_working p =? 0) then release C_asleep p else release C_idle p)
  | C_signalled => thpool_wait p
  | C_stopping =>
      if negb (num_threads_alive p =? 0) then
        let '(b, ts) := bsem_post_all (threads p) in
        Ret (set_queue (set_sem b (queue p)) (jobs p) (set_threads ts p))
      else
        '(q, h) ← jobqueue_clear (Z.to_nat (len (queue p))) (queue p) (jobs p);
        Ret (set_client C_destroyed (set_queue q h p))
  end.
