(* ===== verification/ThpoolSpec.v ===== *)
(** * What the thread pool guarantees

    The invariant of [Thpool] under every interleaving of the threads and the
    client, with spurious wake-ups: jobs are taken from the queue in the order in
    which they were added, each is run once, no wake-up is lost, and waiting ends
    when and only when all jobs have been run. *)

From stdpp Require Import base numbers list gmap relations.
From S2P Require Import Prelude.
From S2P Require Import Thpool.

Implicit Types (p : thpool_) (q : list Z) (ts : list thread) (t : thread) (h : gmap Z job).

(** ** Steps *)

Inductive step p : thpool_ -> Prop :=
| S_thread i c p' : thread_do i c p = Ret p' -> step p p'
| S_client c p' : client_do c p = Ret p' -> step p p'
| S_add newjob f a p' :
    client p = C_idle -> jobs p !! newjob = None -> thpool_add_work newjob f a p = Ret p' -> step p p'
| S_wait p' : client p = C_idle -> thpool_wait p = Ret p' -> step p p'
| S_destroy : client p = C_idle -> step p (thpool_destroy p)
| S_spurious i : threads p !! i = Some T_sleep -> step p (set_threads (<[i := T_signalled]> (threads p)) p)
| S_spurious_client : client p = C_asleep -> step p (set_client C_signalled p).

(** ** The invariant *)

Definition desc h (j : Z) : Z * Z := match h !! j with Some d => describe d | None => (0, 0) end.

(** The job that a thread has taken and not yet run. *)
Definition job_of t : option Z := match t with T_posting j | T_run j => Some j | _ => None end.
Definition flights ts : list Z := omap job_of ts.

Definition is_working t : bool := match t with T_pull | T_posting _ | T_run _ | T_done => true | _ => false end.
Definition is_starting t : bool := match t with T_start => true | _ => false end.
Definition is_alive t : bool := match t with T_start | T_unlock | T_dead => false | _ => true end.
Definition is_posting t : bool := match t with T_posting _ => true | _ => false end.
Definition is_ended t : bool := match t with T_exit | T_unlock | T_dead => true | _ => false end.
(** At the end, with the lock of the counters. *)
Definition is_unlocking t : bool := match t with T_unlock => true | _ => false end.
Definition is_signalled t : bool := match t with T_signalled => true | _ => false end.
(** On the way to the queue, or about to tell another thread of it. *)
Definition is_pulling t : bool := match t with T_woken | T_count | T_pull | T_posting _ => true | _ => false end.

Definition cnt (f : thread -> bool) ts : Z := Z.of_nat (length (filter (fun t => f t = true) ts)).

Fixpoint joblist h q : Prop :=
  match q with
  | [] => True
  | j :: q => (exists d, h !! j = Some d /\ prev d = default 0 (head q)) /\ joblist h q
  end.

Definition client_locks (c : client_pc) : Z := match c with C_check_len | C_check_working => 1 | _ => 0 end.
Definition client_posts (c : client_pc) : Z := match c with C_posting => 1 | _ => 0 end.
Definition client_ends (c : client_pc) : bool := match c with C_stopping | C_destroyed => true | _ => false end.

Record inv p q : Prop := {
  iv_len : len (queue p) = Z.of_nat (length q);
  iv_front : front (queue p) = default 0 (head q);
  iv_rear : rear (queue p) = default 0 (last q);
  iv_linked : joblist (jobs p) q;
  iv_nodup : NoDup (q ++ flights (threads p));
  iv_heap : forall j, is_Some (jobs p !! j) <-> j ∈ q ++ flights (threads p);
  iv_nonzero : 0 ∉ q ++ flights (threads p);
  iv_added : client p <> C_destroyed -> started p ++ (desc (jobs p) <$> q) = added p;
  iv_started : started p ≡ₚ finished p ++ (desc (jobs p) <$> flights (threads p));
  iv_working : num_threads_working p = cnt is_working (threads p);
  iv_alive : num_threads_alive p = cnt is_alive (threads p);
  iv_rw : cnt is_posting (threads p) + client_posts (client p) = if rwmutex (queue p) then 1 else 0;
  iv_th : cnt is_unlocking (threads p) + client_locks (client p) = if thcount_lock p then 1 else 0;
  iv_v : v (has_jobs (queue p)) = 0 \/ v (has_jobs (queue p)) = 1;
  iv_sem : v (has_jobs (queue p)) = 1 -> cnt is_asleep (threads p) = 0 \/ 0 < cnt is_signalled (threads p);
  iv_awake : threads_keepalive p <> 0 -> q <> [] ->
    v (has_jobs (queue p)) = 1 \/ client p = C_posting \/ 0 < cnt is_pulling (threads p);
  iv_asleep : client p = C_asleep -> q <> [] \/ 0 < num_threads_working p;
  iv_checked : client p = C_check_working -> q = [];
  iv_keep : threads_keepalive p <> 0 -> cnt is_ended (threads p) = 0;
  iv_starting : match client p with C_starting n => n = Z.of_nat (length (threads p)) | _ => cnt is_starting (threads p) = 0 end;
  iv_ends : threads_keepalive p = if client_ends (client p) then 0 else 1
}.

(** ** Counting threads *)

#[global] Instance cnt_proper f : Proper ((≡ₚ) ==> (=)) (cnt f).
Proof. intros l l' Hl. unfold cnt. by rewrite Hl. Qed.

#[global] Instance flights_proper : Proper ((≡ₚ) ==> (≡ₚ)) flights.
Proof. intros l l' Hl. unfold flights. by rewrite Hl. Qed.

Lemma cnt_cons f t ts : cnt f (t :: ts) = (if f t then 1 else 0) + cnt f ts.
Proof. unfold cnt. rewrite filter_cons. destruct (f t); simpl; lia. Qed.

Lemma cnt_nonneg f ts : 0 <= cnt f ts.
Proof. unfold cnt. lia. Qed.

Lemma flights_cons t ts : flights (t :: ts) = match job_of t with Some j => j :: flights ts | None => flights ts end.
Proof. unfold flights. cbn [omap list_omap]. by destruct (job_of t). Qed.

Ltac fields :=
  cbn [set_threads set_queue set_counts set_client set_history set_sem unlock thpool_destroy wake_client
       threads threads_keepalive num_threads_alive num_threads_working thcount_lock queue jobs client added started finished
       rwmutex front rear has_jobs len v] in *.

Lemma inv_perm p q ts : inv p q -> threads p ≡ₚ ts -> inv (set_threads ts p) q.
Proof.
  intros [] HP. constructor; fields;
    try done; try (by rewrite <- HP).
  - intros j. rewrite <- HP. auto.
  - by destruct (client p); rewrite <- HP.
Qed.

(** Thread [i] in front of the others. *)
Lemma thread_front p i t : threads p !! i = Some t -> exists ts, threads p ≡ₚ t :: ts /\ forall t', <[i := t']> (threads p) ≡ₚ t' :: ts.
Proof.
  intros Hi. exists (take i (threads p) ++ drop (S i) (threads p)). split.
  - rewrite <- (take_drop_middle _ _ _ Hi) at 1. by rewrite Permutation_middle.
  - intros t'. rewrite insert_take_drop by (by eapply lookup_lt_Some). by rewrite Permutation_middle.
Qed.

(** A step of thread [i] from [t] to [t'], seen with the thread in front of the others. *)
Lemma move p p' i t t' q q' :
  threads p !! i = Some t -> threads p' = threads p ->
  (forall ts, threads p ≡ₚ t :: ts -> inv (set_threads (t :: ts) p) q -> inv (set_threads (t' :: ts) p') q') ->
  inv p q -> inv (set_threads (<[i := t']> (threads p')) p') q'.
Proof.
  intros Hi Hp Hm Hinv. destruct (thread_front p i t Hi) as (ts & HP & HP'). rewrite Hp.
  apply (inv_perm (set_threads (t' :: ts) p') q'); [|by rewrite HP']. apply Hm; [done|]. by apply inv_perm.
Qed.

(** The counts of a list whose first thread is known. *)
Ltac counts :=
  rewrite ?cnt_cons, ?flights_cons in *;
  cbn [job_of is_asleep is_working is_alive is_posting is_ended is_unlocking is_signalled is_pulling is_starting client_locks client_posts client_ends] in *.

(** The cases in which only the position of a thread and the counters change. *)
Ltac simple_move :=
  let ts := fresh "ts" in
  intros ts _ []; constructor; fields; try match goal with H : thcount_lock _ = _ |- _ => rewrite H in * end;
  counts; try done; try lia; try (intros; lia); try tauto;
  try (by destruct (client _)); try (pose proof (cnt_nonneg is_starting ts); destruct (client _); cbn [length] in *; lia);
  try (intros; right; right; pose proof (cnt_nonneg is_pulling ts); lia);
  try (intros; right; pose proof (cnt_nonneg is_working ts); lia).

(** ** The queue *)

Lemma joblist_same h h' q : (forall j, j ∈ q -> h' !! j = h !! j) -> joblist h q -> joblist h' q.
Proof.
  induction q as [|j q IH]; intros Hs; [done|]. intros [(d & Hd & Hp) Hq]. split.
  - exists d. by rewrite Hs by left.
  - apply IH; [|done]. intros x Hx. apply Hs. by right.
Qed.

Lemma desc_same h h' q : (forall j, j ∈ q -> h' !! j = h !! j) -> desc h' <$> q = desc h <$> q.
Proof. intros Hs. apply list_fmap_ext. intros i j Hj%list_elem_of_lookup_2. unfold desc. by rewrite Hs. Qed.

Lemma thread_do_step i c p p' : thread_do i c p = Ret p' -> thread_step i c p = Ret p'.
Proof. unfold thread_do. by destruct (_ && _). Qed.

Lemma thread_do_serving i c p : freed p = false -> thread_do i c p = thread_step i c p.
Proof. unfold thread_do. by intros ->. Qed.

(** The steps that do not touch the queue, the jobs taken or the history. *)
Lemma quiet_inv p q i c p' t :
  inv p q -> threads p !! i = Some t -> thread_do i c p = Ret p' ->
  match t with T_pull | T_posting _ | T_run _ | T_done => False | _ => True end -> inv p' q.
Proof.
  intros Hinv Hi Hd Ht. apply thread_do_step in Hd. unfold thread_step in Hd. rewrite Hi in Hd.
  destruct t; try done.
  - destruct (thcount_lock p) eqn:Hth; [done|]. injection Hd as <-.
    apply (move p (set_counts _ _ _ p) i T_start T_loop q q Hi eq_refl); [|done]. simple_move.
  - injection Hd as <-. destruct (Z.eqb_spec (threads_keepalive p) 0); cbn [negb].
    + apply (move p p i T_loop T_exit q q Hi eq_refl); [|done]. simple_move.
    + apply (move p p i T_loop T_wait q q Hi eq_refl); [|done]. simple_move.
  - unfold bsem_wait in Hd. destruct (Z.eqb_spec (v (has_jobs (queue p))) 1); cbn [negb] in Hd; injection Hd as <-.
    + apply (move p (set_queue _ _ p) i T_wait T_woken q q Hi eq_refl); [|done]. simple_move.
    + apply (move p (set_queue _ _ p) i T_wait T_sleep q q Hi eq_refl); [|done]. simple_move.
  - unfold bsem_wait in Hd. destruct (Z.eqb_spec (v (has_jobs (queue p))) 1); cbn [negb] in Hd; injection Hd as <-.
    + apply (move p (set_queue _ _ p) i T_signalled T_woken q q Hi eq_refl); [|done]. simple_move.
    + apply (move p (set_queue _ _ p) i T_signalled T_sleep q q Hi eq_refl); [|done]. simple_move.
  - injection Hd as <-. destruct (Z.eqb_spec (threads_keepalive p) 0); cbn [negb].
    + apply (move p p i T_woken T_loop q q Hi eq_refl); [|done]. simple_move.
    + apply (move p p i T_woken T_count q q Hi eq_refl); [|done]. simple_move.
  - destruct (thcount_lock p) eqn:Hth; [done|]. injection Hd as <-.
    apply (move p (set_counts _ _ _ p) i T_count T_pull q q Hi eq_refl); [|done]. simple_move.
  - destruct (thcount_lock p) eqn:Hth; [done|]. injection Hd as <-.
    apply (move p (set_counts _ _ _ p) i T_exit T_unlock q q Hi eq_refl); [|done]. simple_move.
  - injection Hd as <-. apply (move p (set_counts _ _ _ p) i T_unlock T_dead q q Hi eq_refl); [|done]. simple_move.
    pose proof (cnt_nonneg is_unlocking ts). assert (0 <= client_locks (client p)) by (by destruct (client p)).
    destruct (thcount_lock p); lia.
Qed.

(** ** Taking a job *)

Lemma joblist_tail h q : joblist h q -> joblist h (tail q).
Proof. destruct q; [done|]. by intros [_ ?]. Qed.

Lemma pull_empty p i :
  threads p !! i = Some T_pull -> inv p [] -> inv (set_threads (<[i := T_done]> (threads p)) p) [].
Proof. intros Hi. apply (move p p i T_pull T_done [] [] Hi eq_refl). simple_move. Qed.

(** The last job, or one of several: [t'] is where the thread goes on. *)
Lemma pull_job p i j q rw fr re t' d :
  threads p !! i = Some T_pull -> rwmutex (queue p) = false -> jobs p !! j = Some d ->
  fr = default 0 (head q) -> re = default 0 (last q) ->
  (q = [] /\ rw = false /\ t' = T_run j \/ rw = true /\ t' = T_posting j) ->
  inv p (j :: q) ->
  inv (set_threads (<[i := t']> (threads p))
         (set_history (added p) (started p ++ [describe d]) (finished p)
            (set_queue (Jobqueue rw fr re (has_jobs (queue p)) (len (queue p) - 1)) (jobs p) p))) q.
Proof.
  intros Hi Hrw Hj Hfr Hre Ht Hinv.
  eapply (move p (set_history _ _ _ (set_queue _ _ p)) i T_pull t' (j :: q) q Hi eq_refl); [|exact Hinv].
  assert (Hdesc : desc (jobs p) j = describe d) by (unfold desc; by rewrite Hj).
  intros ts _ []. fields. rewrite Hrw in iv_rw0. counts. cbn [length] in *.
  assert (Hfl : flights (t' :: ts) = j :: flights ts) by (rewrite flights_cons; destruct Ht as [(_ & _ & ->)|(_ & ->)]; done).
  assert (HP : q ++ j :: flights ts ≡ₚ (j :: q) ++ flights ts) by (by rewrite <- Permutation_middle).
  pose proof (cnt_nonneg is_working ts). pose proof (cnt_nonneg is_posting ts). pose proof (cnt_nonneg is_pulling ts).
  constructor; fields; rewrite ?Hfl, ?HP; try done; try lia.
  - by apply joblist_tail in iv_linked0.
  - intros x. by rewrite HP.
  - rewrite <- app_assoc, <- Hdesc. auto.
  - rewrite fmap_cons, Hdesc, <- (Permutation_middle (finished p)), <- iv_started0. by rewrite Permutation_app_comm.
  - rewrite cnt_cons. destruct Ht as [(_ & _ & ->)|(_ & ->)]; simpl; lia.
  - rewrite cnt_cons. destruct Ht as [(_ & _ & ->)|(_ & ->)]; simpl; lia.
  - rewrite cnt_cons. destruct Ht as [(_ & -> & ->)|(-> & ->)]; simpl; lia.
  - rewrite cnt_cons. destruct Ht as [(_ & _ & ->)|(_ & ->)]; done.
  - rewrite !cnt_cons. destruct Ht as [(_ & _ & ->)|(_ & ->)]; done.
  - intros Hk Hq. right. right. rewrite cnt_cons. destruct Ht as [(-> & _)|(_ & ->)]; [done|]. simpl. lia.
  - intros Hc. by specialize (iv_checked0 Hc).
  - intros Hk. specialize (iv_keep0 Hk). rewrite cnt_cons. destruct Ht as [(_ & _ & ->)|(_ & ->)]; simpl; lia.
  - destruct (client p); rewrite ?cnt_cons; try done; destruct Ht as [(_ & _ & ->)|(_ & ->)]; done.
Qed.

Lemma pull_inv p q i c p' :
  inv p q -> threads p !! i = Some T_pull -> thread_do i c p = Ret p' -> exists q', inv p' q'.
Proof.
  intros Hinv Hi Hd. apply thread_do_step in Hd. unfold thread_step in Hd. rewrite Hi in Hd. destruct (rwmutex (queue p)) eqn:Hrw; [done|].
  pose proof (iv_len p q Hinv) as Hlen. pose proof (iv_front p q Hinv) as Hfr. pose proof (iv_rear p q Hinv) as Hre.
  pose proof (iv_linked p q Hinv) as Hl. pose proof (iv_nonzero p q Hinv) as Hnz.
  unfold jobqueue_pull in Hd. rewrite Hlen in Hd. destruct q as [|j q].
  - assert (Hp : set_queue (queue p) (jobs p) p = p) by (by destruct p). change (Z.of_nat (length (@nil Z)) =? 0) with true in Hd.
    cbn [mbind dev_outcome_bind] in Hd. rewrite Hp, Hfr in Hd. injection Hd as <-. exists []. by apply pull_empty.
  - change (default 0 (head (j :: q))) with j in Hfr. destruct Hl as [(d & Hj & Hp) Hl].
    assert (Hj0 : (j =? 0) = false) by (apply Z.eqb_neq; intros ->; apply Hnz; left).
    rewrite (proj2 (Z.eqb_neq _ 0)) in Hd by (simpl; lia). rewrite Hfr in Hd. destruct q as [|k q].
    + simpl in Hd. rewrite Hj0, Hj in Hd. injection Hd as <-. exists []. rewrite Hrw.
      replace 0 with (len (queue p) - 1) at 3 by (simpl in Hlen; lia). apply (pull_job p i j []); try done. by left.
    + rewrite (proj2 (Z.eqb_neq _ 1)) in Hd by (simpl; lia). rewrite Hj in Hd. cbn [mbind dev_outcome_bind] in Hd. fields.
      rewrite Hj0, Hj in Hd. injection Hd as <-. exists (k :: q).
      match goal with |- context [Jobqueue _ _ _ _ ?n] => replace n with (len (queue p) - 1) by (rewrite Hlen; simpl; lia) end.
      apply (pull_job p i j (k :: q)); try done. by right.
Qed.

(** ** Waking, running and finishing *)

Lemma spurious_inv p q i :
  threads p !! i = Some T_sleep -> inv p q -> inv (set_threads (<[i := T_signalled]> (threads p)) p) q.
Proof.
  intros Hi. apply (move p p i T_sleep T_signalled q q Hi eq_refl). simple_move.
  intros _. right. pose proof (cnt_nonneg is_signalled ts). lia.
Qed.

Lemma asleep_none ts : existsb is_asleep ts = false -> cnt is_asleep ts = 0.
Proof. induction ts as [|t ts IH]; [done|]. simpl. intros [Ht Hts]%orb_false_iff. rewrite cnt_cons, Ht, IH by done. done. Qed.

(** A signal keeps the invariant, and afterwards nobody sleeps or somebody is woken. *)
Lemma signal_inv p q c ts :
  inv p q -> cond_signal c (threads p) = Ret ts ->
  inv (set_threads ts p) q /\ (cnt is_asleep ts = 0 \/ 0 < cnt is_signalled ts) /\
  (forall i t, threads p !! i = Some t -> t <> T_sleep -> ts !! i = Some t).
Proof.
  intros Hinv. unfold cond_signal. destruct (existsb is_asleep (threads p)) eqn:Ha.
  - destruct (threads p !! c) as [[]|] eqn:Hc; intros Hd; try done. injection Hd as <-.
    split; [by apply spurious_inv|]. split.
    + right. destruct (thread_front p c T_sleep Hc) as (ts & _ & ->). rewrite cnt_cons. simpl.
      pose proof (cnt_nonneg is_signalled ts). lia.
    + intros i t Hi Ht. rewrite list_lookup_insert_ne; [done|]. intros ->. congruence.
  - intros [= <-]. split; [by destruct p|]. split; [left; by apply asleep_none|done].
Qed.

Lemma posting_inv p q i j c p' :
  inv p q -> threads p !! i = Some (T_posting j) -> thread_do i c p = Ret p' -> inv p' q.
Proof.
  intros Hinv Hi Hd. apply thread_do_step in Hd. unfold thread_step, bsem_post in Hd. rewrite Hi in Hd.
  destruct (cond_signal c (threads p)) as [ts| |] eqn:Hc; try done. cbn [mbind dev_outcome_bind] in Hd. injection Hd as <-.
  destruct (signal_inv p q c ts Hinv Hc) as (Hinv1 & Hwoken & Hsame). specialize (Hsame i _ Hi ltac:(done)).
  apply (move (set_threads ts p) (set_queue (unlock (Bsem 1) (queue p)) (jobs p) (set_threads ts p)) i (T_posting j) (T_run j) q q
    Hsame eq_refl); [|done].
  intros rest HP []. cbn [threads set_threads] in HP. rewrite HP in Hwoken. pose proof (cnt_nonneg is_posting rest).
  constructor; fields; counts; try done; try lia; try tauto.
  unfold client_posts in *. destruct (rwmutex (queue p)), (client p); lia.
Qed.

Lemma run_inv p q i j c p' :
  inv p q -> threads p !! i = Some (T_run j) -> thread_do i c p = Ret p' -> inv p' q.
Proof.
  intros Hinv Hi Hd. apply thread_do_step in Hd. unfold thread_step in Hd. rewrite Hi in Hd. destruct (jobs p !! j) as [d|] eqn:Hj; [|done]. injection Hd as <-.
  apply (move p (set_queue (queue p) (delete j (jobs p)) (set_history (added p) (started p) (finished p ++ [describe d]) p))
    i (T_run j) T_done q q Hi eq_refl); [|done].
  intros ts HP []. fields. counts. pose proof iv_nodup0 as Hnd. rewrite <- Permutation_middle in Hnd. apply NoDup_cons in Hnd as [Hn Hnd].
  assert (Hsame : forall x, x ∈ q ++ flights ts -> delete j (jobs p) !! x = jobs p !! x).
  { intros x Hx. apply lookup_delete_ne. by intros ->. }
  assert (Hq : forall x, x ∈ q -> delete j (jobs p) !! x = jobs p !! x) by (intros x Hx; apply Hsame, elem_of_app; by left).
  assert (Hf : forall x, x ∈ flights ts -> delete j (jobs p) !! x = jobs p !! x) by (intros x Hx; apply Hsame, elem_of_app; by right).
  constructor; fields; counts; try done; try lia; try tauto.
  - by eapply joblist_same.
  - intros x. destruct (decide (x = j)) as [->|Hne].
    + rewrite lookup_delete_eq. split; [by intros [? ?]|done].
    + rewrite lookup_delete_ne, iv_heap0, <- Permutation_middle, elem_of_cons by done. clear -Hne. tauto.
  - rewrite <- Permutation_middle, not_elem_of_cons in iv_nonzero0. by destruct iv_nonzero0.
  - rewrite (desc_same (jobs p)); auto.
  - rewrite (desc_same (jobs p) _ _ Hf), <- app_assoc, iv_started0, fmap_cons. unfold desc at 1. by rewrite Hj.
Qed.

Lemma wake_client_same c :
  client_locks (wake_client c) = client_locks c /\ client_posts (wake_client c) = client_posts c /\
  client_ends (wake_client c) = client_ends c /\ wake_client c <> C_asleep /\
  (wake_client c = C_posting <-> c = C_posting) /\ (wake_client c = C_destroyed <-> c = C_destroyed) /\ (wake_client c = C_check_working <-> c = C_check_working).
Proof. by destruct c. Qed.

Lemma done_inv p q i c p' :
  inv p q -> threads p !! i = Some T_done -> thread_do i c p = Ret p' -> inv p' q.
Proof.
  intros Hinv Hi Hd. apply thread_do_step in Hd. unfold thread_step in Hd. rewrite Hi in Hd. destruct (thcount_lock p) eqn:Hth; [done|]. injection Hd as <-.
  destruct (wake_client_same (client p)) as (H1 & H2 & H3 & H4 & H5 & H6 & H7).
  set (p1 := set_counts (num_threads_alive p) (num_threads_working p - 1) false p).
  destruct (Z.eqb_spec (num_threads_working p - 1) 0) as [Hz|Hz].
  - apply (move p (set_client (wake_client (client p)) p1) i T_done T_loop q q Hi eq_refl); [|done]. unfold p1.
    intros ts _ []; fields; rewrite Hth in *; constructor; fields; counts; rewrite ?H1, ?H2, ?H3, ?H5, ?H6, ?H7; try done; try lia; try tauto.
    by destruct (client p).
  - apply (move p p1 i T_done T_loop q q Hi eq_refl); [|done]. unfold p1. simple_move.
Qed.

Lemma thread_inv p q i c p' : inv p q -> thread_do i c p = Ret p' -> exists q', inv p' q'.
Proof.
  intros Hinv Hd. destruct (threads p !! i) as [t|] eqn:Hi; [|apply thread_do_step in Hd; unfold thread_step in Hd; by rewrite Hi in Hd].
  destruct t; try (exists q; by eapply quiet_inv).
  - by eapply pull_inv.
  - exists q. by eapply posting_inv.
  - exists q. by eapply run_inv.
  - exists q. by eapply done_inv.
Qed.

(** ** Adding a job *)

Lemma joblist_snoc h q0 r d newjob f a :
  joblist h (q0 ++ [r]) -> NoDup (q0 ++ [r]) -> newjob ∉ q0 ++ [r] -> h !! r = Some d ->
  joblist (<[r := Job newjob (function d) (arg d)]> (<[newjob := Job 0 f a]> h)) (q0 ++ [r; newjob]).
Proof.
  intros Hl Hnd Hn Hr. induction q0 as [|j q0 IH].
  - apply not_elem_of_cons in Hn as [Hn _]. simpl. rewrite lookup_insert_eq, lookup_insert_ne, lookup_insert_eq by done.
    split; [by eexists|]. split; [by eexists|done].
  - simpl in Hl, Hn, Hnd. destruct Hl as [(e & He & Hp) Hl]. apply NoDup_cons in Hnd as [Hjn Hnd].
    apply not_elem_of_cons in Hn as [Hnj Hn]. split; [|by apply IH]. exists e.
    rewrite !lookup_insert_ne; [|done|intros ->; apply Hjn, elem_of_app; right; left]. split; [done|]. rewrite Hp. by destruct q0.
Qed.

(** What [jobqueue_push] does to a well-formed queue. *)
Lemma push_ok qu q h newjob f a :
  joblist h q -> NoDup q -> newjob ∉ q -> newjob <> 0 -> 0 ∉ q ->
  len qu = Z.of_nat (length q) -> front qu = default 0 (head q) -> rear qu = default 0 (last q) ->
  exists h', jobqueue_push qu newjob (<[newjob := Job 0 f a]> h) =
      Ret (Jobqueue true (default 0 (head (q ++ [newjob]))) newjob (has_jobs qu) (len qu + 1), h') /\
    joblist h' (q ++ [newjob]) /\ desc h' newjob = (f, a) /\
    (forall j, j <> newjob -> desc h' j = desc h j /\ (is_Some (h' !! j) <-> is_Some (h !! j))) /\ is_Some (h' !! newjob).
Proof.
  intros Hl Hnd Hn Hn0 H0 Elen Efr Ere. unfold jobqueue_push. rewrite lookup_insert_eq, insert_insert_eq. cbn [function arg].
  destruct (decide (q = [])) as [->|Hq].
  - rewrite Elen. eexists. split; [reflexivity|]. simpl. rewrite lookup_insert_eq. unfold desc. rewrite lookup_insert_eq.
    split; [split; [by eexists|done]|]. split; [done|]. split; [|by eexists]. intros j Hj. by rewrite lookup_insert_ne.
  - destruct (exists_last Hq) as (q0 & r & ->). rewrite last_snoc in Ere. simpl in Ere.
    rewrite length_app in Elen. simpl in Elen. rewrite (proj2 (Z.eqb_neq _ 0)), Ere by lia.
    assert (Hrn : newjob <> r) by (intros ->; apply Hn, elem_of_app; right; left).
    assert (Hr : exists d, h !! r = Some d).
    { clear -Hl. induction q0 as [|j q0 IH]; simpl in Hl; [destruct Hl as [(d & ? & _) _]; eauto|]. destruct Hl. by apply IH. }
    destruct Hr as (d & Hr). rewrite lookup_insert_ne, Hr by done. eexists. split.
    { do 3 f_equal. rewrite Efr. by destruct q0. }
    rewrite <- app_assoc. split; [by apply joblist_snoc|]. unfold desc. split.
    + by rewrite lookup_insert_ne, lookup_insert_eq by done.
    + split; [|rewrite lookup_insert_ne, lookup_insert_eq by done; by eexists]. intros j Hj. destruct (decide (j = r)) as [->|Hjr].
      * rewrite lookup_insert_eq, Hr. split; [done|]. split; by eexists.
      * by rewrite !lookup_insert_ne.
Qed.

Lemma add_inv p q newjob f a p' :
  inv p q -> client p = C_idle -> jobs p !! newjob = None -> thpool_add_work newjob f a p = Ret p' -> exists q', inv p' q'.
Proof.
  intros Hinv Hc Hn Hd. unfold thpool_add_work in Hd. destruct (Z.eqb_spec newjob 0) as [->|Hn0]; [injection Hd as <-; eauto|].
  destruct (rwmutex (queue p)) eqn:Hrw; [done|]. destruct Hinv.
  assert (Hnq : newjob ∉ q ++ flights (threads p)) by (intros [? ?]%iv_heap0; congruence).
  pose proof Hnq as [Hnq1 Hnq2]%not_elem_of_app. pose proof iv_nonzero0 as [H0 _]%not_elem_of_app.
  pose proof iv_nodup0 as (Hndq & _)%NoDup_app.
  destruct (push_ok (queue p) q (jobs p) newjob f a iv_linked0 Hndq Hnq1 Hn0 H0 iv_len0 iv_front0 iv_rear0)
    as (h' & E & Hl & Hdn & Hdesc & Hsn).
  rewrite E in Hd. cbn [mbind dev_outcome_bind] in Hd. injection Hd as <-. exists (q ++ [newjob]).
  assert (Hfm : forall l : list Z, newjob ∉ l -> desc h' <$> l = desc (jobs p) <$> l).
  { intros l Hl'. apply list_fmap_ext. intros i j Hj%list_elem_of_lookup_2. apply Hdesc. by intros ->. }
  rewrite Hc in *. cbn [client_locks client_posts client_ends] in *. rewrite Hrw in *.
  assert (HP : (q ++ [newjob]) ++ flights (threads p) ≡ₚ newjob :: q ++ flights (threads p)).
  { rewrite <- app_assoc. simpl. by rewrite <- Permutation_middle. }
  constructor; fields; cbn [client_locks client_posts client_ends]; rewrite ?Hfm by done; try done; try lia.
  - rewrite length_app. simpl. lia.
  - by rewrite last_snoc.
  - rewrite HP. by apply NoDup_cons.
  - intros j. rewrite HP, elem_of_cons, <- iv_heap0. destruct (decide (j = newjob)) as [->|Hj]; [clear -Hsn; tauto|].
    destruct (Hdesc j Hj) as [_ ->]. clear -Hj. tauto.
  - rewrite HP, not_elem_of_cons. done.
  - intros _. rewrite fmap_app, Hfm by done. simpl. rewrite Hdn, app_assoc, iv_added0; done.
  - auto.
Qed.

(** ** The client *)

(** Steps of the client that only move it and take or give back the lock of the counters. *)
Ltac simple_client Hc :=
  intros []; rewrite Hc in *; constructor; fields; try match goal with H : thcount_lock _ = _ |- _ => rewrite H in * end;
  cbn [client_locks client_posts client_ends] in *; try done; try lia;
  try match goal with
  | H : _ -> _ -> _ = 1 \/ _ |- _ -> _ -> _ => intros Hk Hq; destruct (H Hk Hq) as [?|[?|?]]; by auto
  end; try (by auto); try tauto.

Lemma client_post_inv p q c p' : inv p q -> client p = C_posting -> client_do c p = Ret p' -> inv p' q.
Proof.
  intros Hinv Hc Hd. unfold client_do, bsem_post in Hd. rewrite Hc in Hd.
  destruct (cond_signal c (threads p)) as [ts| |] eqn:Hs; try done. cbn [mbind dev_outcome_bind] in Hd. injection Hd as <-.
  destruct (signal_inv p q c ts Hinv Hs) as (Hinv1 & Hwoken & _). revert Hinv1.
  intros []. fields. rewrite Hc in *. cbn [client_locks client_posts client_ends] in *. pose proof (cnt_nonneg is_posting ts).
  constructor; fields; cbn [client_locks client_posts client_ends]; try done; try (intros; by auto).
  destruct (rwmutex (queue p)); lia.
Qed.

Lemma lock_inv p q p' : inv p q -> client p = C_idle \/ client p = C_signalled -> thpool_wait p = Ret p' -> inv p' q.
Proof.
  intros Hinv Hc Hd. unfold thpool_wait in Hd. destruct (thcount_lock p) eqn:Hth; [done|]. injection Hd as <-.
  revert Hinv. destruct Hc as [Hc|Hc]; simple_client Hc.
Qed.

Lemma destroy_inv p q : inv p q -> client p = C_idle -> inv (thpool_destroy p) q.
Proof. intros Hinv Hc. revert Hinv. simple_client Hc. Qed.

Lemma client_wake_inv p q : inv p q -> client p = C_asleep -> inv (set_client C_signalled p) q.
Proof. intros Hinv Hc. revert Hinv. simple_client Hc. Qed.

Lemma check_inv p q c p' :
  inv p q -> client p = C_check_len \/ client p = C_check_working -> client_do c p = Ret p' -> inv p' q.
Proof.
  intros Hinv Hc Hd. unfold client_do in Hd. pose proof (iv_len p q Hinv) as Hlen. pose proof (iv_working p q Hinv) as Hw.
  pose proof (cnt_nonneg is_working (threads p)). pose proof (cnt_nonneg is_unlocking (threads p)).
  assert (Hth : thcount_lock p = true).
  { pose proof (iv_th p q Hinv) as Hth. destruct Hc as [Hc|Hc]; rewrite Hc in Hth; destruct (thcount_lock p); cbn in Hth; lia. }
  destruct Hc as [Hc|Hc]; rewrite Hc in Hd; injection Hd as <-.
  - destruct (Z.eqb_spec (len (queue p)) 0); cbn [negb]; revert Hinv.
    + assert (q = []) by (destruct q; [done|simpl in Hlen; lia]). simple_client Hc.
    + assert (q <> []) by (intros ->; simpl in Hlen; lia). simple_client Hc.
  - destruct (Z.eqb_spec (num_threads_working p) 0); cbn [negb]; revert Hinv; simple_client Hc.
Qed.

Lemma starting_inv p q c p' n : inv p q -> client p = C_starting n -> client_do c p = Ret p' -> inv p' q.
Proof.
  intros Hinv Hc Hd. unfold client_do in Hd. rewrite Hc in Hd. destruct (Z.eqb_spec (num_threads_alive p) n) as [Ha|]; [|done].
  injection Hd as <-. revert Hinv. simple_client Hc.
  assert (Hle : cnt is_alive (threads p) + cnt is_starting (threads p) <= Z.of_nat (length (threads p))).
  { clear. induction (threads p) as [|t ts IH]; [done|]. rewrite !cnt_cons. cbn [length]. destruct t; cbn; lia. }
  pose proof (cnt_nonneg is_starting (threads p)). lia.
Qed.

(** ** The end of the pool *)

Lemma wake_cnt f ts : f T_sleep = f T_signalled -> cnt f (wake <$> ts) = cnt f ts.
Proof. intros Hf. induction ts as [|t ts IH]; [done|]. rewrite fmap_cons, !cnt_cons, IH. destruct t; cbn; by rewrite ?Hf. Qed.

Lemma wake_flights ts : flights (wake <$> ts) = flights ts.
Proof. induction ts as [|t ts IH]; [done|]. rewrite fmap_cons, !flights_cons, IH. by destruct t. Qed.

Lemma wake_asleep ts : cnt is_asleep (wake <$> ts) = 0.
Proof. induction ts as [|t ts IH]; [done|]. rewrite fmap_cons, cnt_cons, IH. by destruct t. Qed.

Lemma post_all_inv p q :
  inv p q -> client p = C_stopping ->
  inv (set_queue (set_sem (Bsem 1) (queue p)) (jobs p) (set_threads (wake <$> threads p) p)) q.
Proof.
  intros Hinv Hc. revert Hinv. intros []; rewrite Hc in *; constructor; fields; rewrite ?Hc, ?wake_flights, ?wake_asleep, ?wake_cnt by done; auto.
Qed.

Lemma clear_ok q : forall fuel qu h,
  joblist h q -> NoDup q -> len qu = Z.of_nat (length q) -> front qu = default 0 (head q) -> rwmutex qu = false -> (length q <= fuel)%nat ->
  exists b h', jobqueue_clear fuel qu h = Ret (Jobqueue false 0 0 b 0, h') /\ v b = 0 /\
    forall j, h' !! j = if bool_decide (j ∈ q) then None else h !! j.
Proof.
  induction q as [|j q IH]; intros fuel qu h Hl Hnd Hlen Hfr Hrw Hf.
  - exists (Bsem 0), h. split; [|done]. destruct fuel; cbn [jobqueue_clear]; rewrite Hlen, Hrw; done.
  - destruct fuel as [|fuel]; [simpl in Hf; lia|]. destruct Hl as [(d & Hj & Hp) Hl]. apply NoDup_cons in Hnd as [Hn Hnd].
    change (default 0 (head (j :: q))) with j in Hfr. cbn [length] in *.
    assert (Hpull : exists post qu', jobqueue_pull qu h = Ret (j, post, qu') /\ len qu' = Z.of_nat (length q) /\ front qu' = default 0 (head q)).
    { unfold jobqueue_pull. rewrite Hlen, Hfr, (proj2 (Z.eqb_neq _ 0)) by lia. destruct q as [|k q].
      - by eexists _, _.
      - rewrite (proj2 (Z.eqb_neq _ 1)), Hj by (simpl; lia). eexists _, _. split; [done|]. split; [cbn [len length]; lia|done]. }
    destruct Hpull as (post & qu' & E & Hlen' & Hfr'). cbn [jobqueue_clear]. rewrite Hlen, (proj2 (Z.eqb_neq _ 0)) by lia.
    rewrite E. cbn [mbind dev_outcome_bind]. rewrite Hj.
    destruct (IH fuel (Jobqueue false (front qu') (rear qu') (if post : bool then Bsem 1 else has_jobs qu') (len qu')) (delete j h))
      as (b & h' & E' & Hv & Hh); [|done|done|done|done|lia|].
    { eapply joblist_same; [|exact Hl]. intros x Hx. apply lookup_delete_ne. by intros ->. }
    exists b, h'. split; [done|]. split; [done|]. intros x. rewrite Hh. destruct (decide (x = j)) as [->|Hx].
    + rewrite lookup_delete_eq, (bool_decide_true (j ∈ j :: q)) by left. by destruct (bool_decide (j ∈ q)).
    + rewrite lookup_delete_ne by done. by rewrite (bool_decide_ext (x ∈ j :: q) (x ∈ q)) by (rewrite elem_of_cons; clear -Hx; tauto).
Qed.

(** With no thread alive or still to start, none has more to do than to give back the lock. *)
Definition gone ts : Prop := forall t, t ∈ ts -> t = T_dead \/ t = T_unlock.

Lemma gone_cons t ts : gone (t :: ts) -> (t = T_dead \/ t = T_unlock) /\ gone ts.
Proof. intros Hg. split; [apply Hg; left|]. intros x Hx. apply Hg. by right. Qed.

Lemma all_gone ts : cnt is_alive ts = 0 -> cnt is_starting ts = 0 -> gone ts.
Proof.
  induction ts as [|t ts IH]; intros Ha Hs x Hx; [by apply not_elem_of_nil in Hx|]. rewrite cnt_cons in Ha, Hs.
  pose proof (cnt_nonneg is_alive ts). pose proof (cnt_nonneg is_starting ts).
  apply elem_of_cons in Hx as [->|Hx]; [destruct t; cbn in Ha, Hs; auto; lia|].
  apply IH; [|..|done]; destruct (is_alive t), (is_starting t); lia.
Qed.

Lemma gone_flights ts : gone ts -> flights ts = [].
Proof. induction ts as [|t ts IH]; [done|]. intros [[-> | ->] Hg]%gone_cons; rewrite flights_cons; by apply IH. Qed.

Lemma gone_cnt f ts : gone ts -> f T_dead = false -> f T_unlock = false -> cnt f ts = 0.
Proof.
  intros Hg Hd Hu. induction ts as [|t ts IH]; [done|]. apply gone_cons in Hg as [Ht Hg].
  rewrite cnt_cons, IH by done. destruct Ht as [-> | ->]; by rewrite ?Hd, ?Hu.
Qed.

(** The pool is taken down only when all threads have left; then all jobs are freed. *)
Lemma stop_inv p q c p' :
  inv p q -> client p = C_stopping -> client_do c p = Ret p' ->
  (client p' = C_stopping /\ inv p' q) \/
  (client p' = C_destroyed /\ inv p' [] /\ jobs p' = ∅ /\ gone (threads p')).
Proof.
  intros Hinv Hc Hd. unfold client_do in Hd. rewrite Hc in Hd. destruct (Z.eqb_spec (num_threads_alive p) 0) as [Ha|Ha]; cbn [negb] in Hd.
  2:{ injection Hd as <-. left. split; [done|]. by apply post_all_inv. }
  right. destruct Hinv. rewrite Hc in *. cbn [client_locks client_posts client_ends] in *.
  pose proof (all_gone _ (eq_trans (eq_sym iv_alive0) Ha) iv_starting0) as Hdead.
  rewrite (gone_flights _ Hdead), ?app_nil_r in *. rewrite (gone_cnt is_posting) in iv_rw0 by done.
  assert (Hrw : rwmutex (queue p) = false) by (destruct (rwmutex (queue p)); done).
  destruct (clear_ok q (Z.to_nat (len (queue p))) (queue p) (jobs p)) as (b & h' & E & Hv & Hh); try done; [lia|].
  assert (Hh' : h' = ∅).
  { apply map_eq. intros j. rewrite Hh, lookup_empty. destruct (bool_decide_reflect (j ∈ q)) as [|Hj]; [done|].
    destruct (jobs p !! j) as [d|] eqn:Hx; [|done]. destruct Hj. apply iv_heap0. rewrite Hx. by eexists. }
  rewrite E in Hd. cbn [mbind dev_outcome_bind] in Hd. injection Hd as <-. subst h'.
  split; [done|]. split; [|done]. constructor; fields; cbn [client_locks client_posts client_ends]; rewrite ?(gone_flights _ Hdead); auto; try done.
  - constructor.
  - intros j. rewrite lookup_empty. split; [by intros [? ?]|by intros ?%not_elem_of_nil].
  - by apply not_elem_of_nil.
  - by rewrite app_nil_r.
  - by rewrite (gone_cnt is_posting).
  - by intros E'; rewrite Hv in E'.
Qed.

Lemma client_inv p q c p' : inv p q -> client_do c p = Ret p' -> exists q', inv p' q'.
Proof.
  intros Hinv Hd. destruct (client p) eqn:Hc; try (unfold client_do in Hd; rewrite Hc in Hd; done).
  - exists q. by eapply starting_inv.
  - exists q. by eapply client_post_inv.
  - exists q. eapply check_inv; eauto.
  - exists q. eapply check_inv; eauto.
  - exists q. unfold client_do in Hd. rewrite Hc in Hd. eapply lock_inv; eauto.
  - destruct (stop_inv p q c p' Hinv Hc Hd) as [[_ ?]|(_ & ? & _)]; eauto.
Qed.

Lemma step_inv p q p' : inv p q -> step p p' -> exists q', inv p' q'.
Proof.
  intros Hinv Hs. destruct Hs.
  - by eapply thread_inv.
  - by eapply client_inv.
  - by eapply add_inv.
  - exists q. eapply lock_inv; eauto.
  - exists q. by apply destroy_inv.
  - exists q. by apply spurious_inv.
  - exists q. by apply client_wake_inv.
Qed.

Lemma cnt_replicate f n t : f t = false -> cnt f (replicate n t) = 0.
Proof. intros Hf. induction n as [|n IH]; [done|]. simpl. by rewrite cnt_cons, Hf, IH. Qed.

Lemma init_inv n p : thpool_init n = Ret p -> inv p [].
Proof.
  intros Hi. injection Hi as <-. assert (Hfl : forall k, flights (replicate k T_start) = []) by (induction k; done).
  constructor; fields; rewrite ?Hfl, ?cnt_replicate by done; auto; try done.
  - constructor.
  - intros j. rewrite lookup_empty, ?Hfl. split; [by intros [? ?]|by intros ?%not_elem_of_nil].
  - by apply not_elem_of_nil.
  - simpl. rewrite length_replicate. destruct (Z.ltb_spec n 0); lia.
Qed.

Definition reachable (n : Z) p : Prop := exists p0, thpool_init n = Ret p0 /\ rtc step p0 p.

Lemma reachable_inv n p : reachable n p -> exists q, inv p q.
Proof.
  intros (p0 & Hi & Hr). pose proof (ex_intro _ [] (init_inv n p0 Hi)) as Hinv. clear Hi.
  induction Hr as [|p0 p1 p2 Hs _ IH]; [done|]. apply IH. destruct Hinv as [q Hinv]. by eapply step_inv.
Qed.
