(* ===== verification/ThpoolLive.v ===== *)
(** * Progress of the thread pool

    From the invariant of [ThpoolSpec]: until the pool of [Thpool] is freed no step
    goes wrong, jobs begin in the order in which they were added and are run once, and
    without spurious wake-ups every run of the pool comes to rest after a bounded
    number of steps, with all jobs run and the client back from its call.  A thread
    can be left that gives back the lock of the freed pool. *)

From stdpp Require Import base numbers list gmap relations.
From S2P Require Import Prelude.
From S2P Require Import Thpool.
From S2P Require Import ThpoolSpec.

Implicit Types (p : thpool_) (q : list Z) (ts : list thread) (t : thread) (h : gmap Z job).

#[global] Instance client_pc_eq_dec : EqDecision client_pc.
Proof. solve_decision. Defined.

(** Steps of the threads and of the client inside a call. *)
Inductive sys_step p p' : Prop :=
| sys_thread i c : thread_do i c p = Ret p' -> sys_step p p'
| sys_client c : client_do c p = Ret p' -> sys_step p p'.

(** ** No step goes wrong *)

Lemma signal_can ts : exists c ts', cond_signal c ts = Ret ts'.
Proof.
  unfold cond_signal. destruct (existsb is_asleep ts) eqn:Ha; [|by exists O, ts].
  apply existsb_exists in Ha as (t & (c & Hc)%list_elem_of_In%list_elem_of_lookup & Ht). exists c. rewrite Hc. destruct t; try done. by eexists.
Qed.

Lemma in_flight p i j : threads p !! i = Some (T_posting j) \/ threads p !! i = Some (T_run j) -> j ∈ flights (threads p).
Proof.
  intros Hi. unfold flights. apply list_elem_of_omap. destruct Hi as [Hi|Hi]; eexists; (split; [by eapply list_elem_of_lookup_2|done]).
Qed.

(** Taking a job succeeds in every state of the invariant. *)
Lemma pull_can p q : inv p q -> exists j post qu, jobqueue_pull (queue p) (jobs p) = Ret (j, post, qu) /\ (j = 0 \/ is_Some (jobs p !! j)).
Proof.
  intros []. unfold jobqueue_pull. rewrite iv_len, iv_front. destruct q as [|j q].
  - eexists _, _, _. split; [done|by left].
  - destruct iv_linked as [(d & Hd & _) _]. change (default 0 (head (j :: q))) with j. rewrite (proj2 (Z.eqb_neq _ 0)) by (simpl; lia).
    destruct (Z.of_nat (length (j :: q)) =? 1); [|rewrite Hd]; eexists _, _, _; (split; [done|]); right; rewrite Hd; by eexists.
Qed.

Lemma thread_defined p q i c : inv p q -> freed p = false -> thread_do i c p <> Undef.
Proof.
  intros Hinv Hf. rewrite thread_do_serving by done. unfold thread_step. destruct (threads p !! i) as [t|] eqn:Hi; [|done].
  destruct t; try done; try (by destruct (thcount_lock p)); try (by destruct (bsem_wait _)).
  - destruct (rwmutex (queue p)); [done|]. destruct (pull_can p q Hinv) as (j & post & qu & -> & Hj).
    cbn [mbind dev_outcome_bind jobs set_queue]. destruct (Z.eqb_spec j 0); [done|]. destruct Hj as [?|[d ->]]; done.
  - unfold bsem_post, cond_signal. destruct (existsb is_asleep (threads p)); [|done]. by destruct (threads p !! c) as [[]|].
  - destruct Hinv. assert (Hj : is_Some (jobs p !! j)).
    { apply iv_heap, elem_of_app. right. eapply in_flight. eauto. }
    by destruct Hj as [d ->].
Qed.

Lemma client_defined p q c : inv p q -> client_do c p <> Undef.
Proof.
  intros Hinv. unfold client_do. destruct (client p) eqn:Hc; try done.
  - by destruct (num_threads_alive p =? n).
  - unfold bsem_post, cond_signal. destruct (existsb is_asleep (threads p)); [|done]. by destruct (threads p !! c) as [[]|].
  - unfold thpool_wait. by destruct (thcount_lock p).
  - destruct (Z.eqb_spec (num_threads_alive p) 0) as [Ha|]; [|done]. cbn [negb]. destruct Hinv. rewrite Hc in *.
    pose proof (all_gone _ (eq_trans (eq_sym iv_alive) Ha) iv_starting) as Hdead.
    rewrite (gone_cnt is_posting) in iv_rw by done. apply NoDup_app in iv_nodup as (Hnd & _).
    assert (Hrw : rwmutex (queue p) = false) by (destruct (rwmutex (queue p)); done).
    destruct (clear_ok q (Z.to_nat (len (queue p))) (queue p) (jobs p)) as (b & h' & -> & _); try done. lia.
Qed.

Lemma add_defined p q newjob f a : inv p q -> jobs p !! newjob = None -> thpool_add_work newjob f a p <> Undef.
Proof.
  intros [] Hn. unfold thpool_add_work. destruct (Z.eqb_spec newjob 0); [done|]. destruct (rwmutex (queue p)); [done|].
  assert (newjob ∉ q) by (intros Hq; destruct (proj2 (iv_heap newjob)) as [? ?]; [apply elem_of_app; by left|congruence]).
  apply NoDup_app in iv_nodup as (Hnd & _). apply not_elem_of_app in iv_nonzero as [H0 _].
  by destruct (push_ok (queue p) q (jobs p) newjob f a) as (h' & -> & _).
Qed.

(** ** A thread that is awake can move *)

Lemma thread_can p q i t :
  inv p q -> freed p = false -> threads p !! i = Some t -> t <> T_sleep -> t <> T_dead -> thcount_lock p = false ->
  (t = T_pull -> rwmutex (queue p) = false) -> exists p', sys_step p p'.
Proof.
  intros Hinv Hf Hi Hs Hd Hth Hrw. destruct (signal_can (threads p)) as (c & ts' & Hsig).
  destruct (thread_do i c p) as [p'| |] eqn:E; [exists p'; by econstructor| |by destruct (thread_defined p q i c Hinv Hf)].
  exfalso. rewrite thread_do_serving in E by done. unfold thread_step in E. rewrite Hi, ?Hth in E. destruct t; try done.
  - by destruct (bsem_wait _).
  - by destruct (bsem_wait _).
  - rewrite Hrw in E by done. destruct (pull_can p q Hinv) as (j & post & qu & Ep & Hj). rewrite Ep in E.
    cbn [mbind dev_outcome_bind jobs set_queue] in E. destruct (Z.eqb_spec j 0); [done|]. by destruct (jobs p !! j).
  - unfold bsem_post in E. by rewrite Hsig in E.
  - by destruct (jobs p !! j).
Qed.

Lemma all_asleep ts : cnt is_ended ts = 0 -> (forall t, t ∈ ts -> t = T_sleep \/ t = T_dead) -> forall t, t ∈ ts -> t = T_sleep.
Proof.
  induction ts as [|x ts IH]; intros He Ha t Ht; [by apply not_elem_of_nil in Ht|]. rewrite cnt_cons in He.
  pose proof (cnt_nonneg is_ended ts). destruct (Ha x ltac:(left)) as [-> | ->]; cbn in He; [|lia].
  apply elem_of_cons in Ht as [->|Ht]; [done|]. apply IH; [lia| |done]. intros y Hy. apply Ha. by right.
Qed.

Lemma asleep_cnt ts f : (forall t, t ∈ ts -> t = T_sleep) -> cnt f ts = if f T_sleep then Z.of_nat (length ts) else 0.
Proof.
  induction ts as [|x ts IH]; intros Ha; [by destruct (f T_sleep)|]. rewrite cnt_cons, (Ha x), IH by (left || (intros t Ht; apply Ha; by right)).
  cbn [length]. destruct (f T_sleep); lia.
Qed.

Lemma asleep_flights ts : (forall t, t ∈ ts -> t = T_sleep) -> flights ts = [].
Proof. induction ts as [|x ts IH]; intros Ha; [done|]. rewrite flights_cons, (Ha x) by left. apply IH. intros t Ht. apply Ha. by right. Qed.

Lemma posting_exists ts : 0 < cnt is_posting ts -> exists i j, ts !! i = Some (T_posting j).
Proof.
  induction ts as [|t ts IH]; [done|]. rewrite cnt_cons. intros Hc. destruct (is_posting t) eqn:Ht.
  - destruct t; try done. by exists O, j.
  - destruct IH as (i & j & Hi); [lia|]. by exists (S i), j.
Qed.

Lemma idle_flights ts : cnt is_working ts = 0 -> flights ts = [].
Proof.
  induction ts as [|t ts IH]; [done|]. rewrite cnt_cons, flights_cons. pose proof (cnt_nonneg is_working ts).
  destruct t; cbn; intros; (by apply IH) || lia.
Qed.

Lemma length_flights ts : (length (flights ts) <= length ts)%nat.
Proof. induction ts as [|t ts IH]; [done|]. rewrite flights_cons. destruct (job_of t); simpl; lia. Qed.

Lemma unlocking_ended ts : cnt is_ended ts = 0 -> cnt is_unlocking ts = 0.
Proof.
  induction ts as [|t ts IH]; [done|]. rewrite !cnt_cons. pose proof (cnt_nonneg is_ended ts).
  intros He. destruct t; cbn in *; (rewrite IH; lia) || lia.
Qed.

(** A pool at rest has run all jobs, and its client is between calls. *)
Lemma rest_done p q :
  inv p q -> threads_keepalive p <> 0 -> threads p <> [] -> (forall p', ~ sys_step p p') ->
  client p = C_idle /\ finished p ≡ₚ added p.
Proof.
  intros Hinv Hk Hne Hrest. pose proof Hinv as []. destruct (signal_can (threads p)) as (c & ts' & Hsig).
  assert (Hc : thcount_lock p = false /\ client_posts (client p) = 0 /\ client_ends (client p) = false).
  { rewrite (unlocking_ended _ (iv_keep Hk)) in iv_th.
    destruct (client p) eqn:Hc; rewrite ?Hc in iv_ends; try done; try (by destruct (thcount_lock p)); exfalso.
    - apply (Hrest (set_client C_idle (set_queue (unlock (Bsem 1) (queue p)) (jobs p) (set_threads ts' p)))). apply (sys_client _ _ c).
      unfold client_do, bsem_post. by rewrite Hc, Hsig.
    - eapply Hrest, (sys_client _ _ c). unfold client_do. by rewrite Hc.
    - eapply Hrest, (sys_client _ _ c). unfold client_do. by rewrite Hc. }
  destruct Hc as (Hth & Hpost & Hend).
  assert (Hf : freed p = false) by (unfold freed; by destruct (client p)).
  assert (Hrw : rwmutex (queue p) = false).
  { destruct (rwmutex (queue p)) eqn:Hrw; [|done]. exfalso. rewrite Hpost in iv_rw.
    destruct (posting_exists (threads p)) as (i & j & Hi); [lia|].
    destruct (thread_can p q i (T_posting j)) as [p' ?]; try done. by apply (Hrest p'). }
  assert (Hsleep : forall t, t ∈ threads p -> t = T_sleep).
  { apply all_asleep; [by apply iv_keep|]. intros t (i & Hi)%list_elem_of_lookup.
    destruct t; auto; exfalso; (destruct (thread_can p q i _ Hinv Hf Hi) as [p' ?]; try done; by apply (Hrest p')). }
  assert (Hlen : 0 < Z.of_nat (length (threads p))) by (destruct (threads p); [done|simpl; lia]).
  rewrite (asleep_cnt (threads p)) in iv_awake, iv_working, iv_alive by done.
  rewrite !(asleep_cnt (threads p)) in iv_sem by done. cbn [is_asleep is_signalled is_working is_pulling is_alive] in *.
  assert (Hq : q = []).
  { destruct q as [|j q]; [done|]. destruct (iv_awake Hk ltac:(done)) as [Hv|[Hcp|?]]; [|by rewrite Hcp in Hpost|lia]. destruct (iv_sem Hv); lia. }
  subst q. rewrite asleep_flights, app_nil_r in iv_started by done.
  assert (Hd : client p <> C_destroyed) by (intros E; by rewrite E in Hend). specialize (iv_added Hd). rewrite app_nil_r in iv_added.
  split; [|by rewrite <- iv_added, iv_started].
  rewrite (asleep_cnt (threads p)) in iv_th by done. rewrite Hth in iv_th. destruct (client p) eqn:Hc; try done; exfalso.
  - eapply Hrest, (sys_client _ _ c). unfold client_do. by rewrite Hc, iv_alive, iv_starting, Z.eqb_refl.
  - destruct (iv_asleep eq_refl); [done|lia].
  - eapply Hrest, (sys_client _ _ c). unfold client_do, thpool_wait. by rewrite Hc, Hth.
Qed.

(** ** Every run comes to rest *)

Definition weight t : Z :=
  match t with
  | T_sleep | T_dead => 0
  | T_wait | T_signalled | T_unlock => 1
  | T_loop | T_exit => 2
  | T_start => 3
  | T_done => 6
  | T_run _ => 7
  | T_pull => 8
  | T_count => 9
  | T_woken => 10
  | T_posting _ => 19
  end.

Definition client_weight (c : client_pc) : Z :=
  match c with
  | C_starting _ | C_check_working => 1
  | C_check_len => 2
  | C_signalled => 3
  | C_posting => 12
  | _ => 0
  end.

Definition total ts : Z := foldr (fun t n => weight t + n) 0 ts.

(** A bound on the steps that the pool can still make by itself. *)
Definition measure p : Z := 12 * len (queue p) + 10 * v (has_jobs (queue p)) + total (threads p) + client_weight (client p).

Lemma total_cons t ts : total (t :: ts) = weight t + total ts.
Proof. done. Qed.

Lemma weight_nonneg t : 0 <= weight t.
Proof. by destruct t. Qed.

Lemma total_nonneg ts : 0 <= total ts.
Proof. induction ts as [|t ts IH]; [done|]. rewrite total_cons. pose proof (weight_nonneg t). lia. Qed.

Lemma measure_nonneg p q : inv p q -> 0 <= measure p.
Proof.
  intros []. unfold measure. pose proof (total_nonneg (threads p)). assert (0 <= client_weight (client p)) by (by destruct (client p)). lia.
Qed.

Lemma total_insert ts i t t' : ts !! i = Some t -> total (<[i := t']> ts) = total ts - weight t + weight t'.
Proof.
  intros Hi. revert i Hi. induction ts as [|x ts IH]; intros [|i] Hi; try done; simpl in Hi.
  - injection Hi as ->. simpl. lia.
  - change (<[S i := t']> (x :: ts)) with (x :: <[i := t']> ts). rewrite !total_cons, IH by done. lia.
Qed.

Lemma signal_total c ts ts' : cond_signal c ts = Ret ts' -> total ts' <= total ts + 1.
Proof.
  unfold cond_signal. destruct (existsb is_asleep ts); [|by intros [= <-]; lia].
  destruct (ts !! c) as [[]|] eqn:Hc; intros Hd; try done. injection Hd as <-. rewrite (total_insert _ _ _ _ Hc). simpl. lia.
Qed.

Lemma thread_decreases p q i c p' :
  inv p q -> threads_keepalive p <> 0 -> thread_do i c p = Ret p' -> measure p' < measure p.
Proof.
  intros Hinv Hk Hd. apply thread_do_step in Hd. unfold thread_step in Hd. destruct (threads p !! i) as [t|] eqn:Hi; [|done]. rewrite <- Z.eqb_neq in Hk.
  pose proof (iv_v p q Hinv) as Hv. pose proof (iv_len p q Hinv) as Hlen. pose proof (total_insert (threads p) i t) as Htot. specialize (fun x => Htot x Hi).
  destruct t; try done; rewrite ?Hk in Hd; cbn [negb] in Hd; try (destruct (thcount_lock p); [done|]).
  all: try (injection Hd as <-; unfold measure; fields; rewrite Htot; cbn [weight]; lia).
  - unfold bsem_wait in Hd. destruct (Z.eqb_spec (v (has_jobs (queue p))) 1); cbn [negb] in Hd; injection Hd as <-;
      unfold measure; fields; rewrite Htot; cbn [weight]; lia.
  - unfold bsem_wait in Hd. destruct (Z.eqb_spec (v (has_jobs (queue p))) 1); cbn [negb] in Hd; injection Hd as <-;
      unfold measure; fields; rewrite Htot; cbn [weight]; lia.
  - destruct (rwmutex (queue p)); [done|]. unfold jobqueue_pull in Hd.
    destruct (Z.eqb_spec (len (queue p)) 0); [|destruct (Z.eqb_spec (len (queue p)) 1); [|destruct (jobs p !! front (queue p)); [|done]]];
      cbn [mbind dev_outcome_bind] in Hd; fields; (destruct (front (queue p) =? 0);
      [injection Hd as <-|destruct (jobs p !! front (queue p)); [injection Hd as <-|done]]);
      unfold measure; fields; rewrite Htot; cbn [weight]; lia.
  - unfold bsem_post in Hd. destruct (cond_signal c (threads p)) as [ts| |] eqn:Hs; try done. injection Hd as <-.
    destruct (signal_inv p q c ts Hinv Hs) as (_ & _ & Hsame). pose proof (signal_total _ _ _ Hs).
    unfold measure. fields. rewrite (total_insert ts i _ _ (Hsame i _ Hi ltac:(done))). cbn [weight]. lia.
  - destruct (jobs p !! j); [|done]. injection Hd as <-. unfold measure. fields. rewrite Htot. cbn [weight]. lia.
  - injection Hd as <-. unfold measure. destruct (num_threads_working p - 1 =? 0); fields; rewrite Htot; cbn [weight]; [|lia].
    assert (client_weight (wake_client (client p)) <= client_weight (client p) + 3) by (by destruct (client p)). lia.
Qed.

Lemma client_decreases p q c p' :
  inv p q -> threads_keepalive p <> 0 -> client_do c p = Ret p' -> measure p' < measure p.
Proof.
  intros Hinv Hk Hd. pose proof (iv_ends p q Hinv) as He. pose proof (iv_v p q Hinv) as Hv.
  unfold client_do in Hd. destruct (client p) eqn:Hc; try done.
  - destruct (num_threads_alive p =? n); [|done]. injection Hd as <-. unfold measure. fields. rewrite Hc. cbn [client_weight]. lia.
  - unfold bsem_post in Hd. destruct (cond_signal c (threads p)) as [ts| |] eqn:Hs; try done. injection Hd as <-.
    pose proof (signal_total _ _ _ Hs). unfold measure. fields. rewrite Hc. cbn [client_weight]. lia.
  - destruct (negb (len (queue p) =? 0)); injection Hd as <-; unfold measure; fields; rewrite Hc; cbn [client_weight]; lia.
  - destruct (negb (num_threads_working p =? 0)); injection Hd as <-; unfold measure; fields; rewrite Hc; cbn [client_weight]; lia.
  - unfold thpool_wait in Hd. destruct (thcount_lock p); [done|]. injection Hd as <-. unfold measure. fields. rewrite Hc. cbn [client_weight]. lia.
Qed.

(** What the steps of the pool keep. *)
Lemma sys_same p q p' :
  inv p q -> threads_keepalive p <> 0 -> sys_step p p' ->
  threads_keepalive p' = threads_keepalive p /\ length (threads p') = length (threads p) /\ added p' = added p.
Proof.
  assert (Hsig : forall c ts ts', cond_signal c ts = Ret ts' -> length ts' = length ts).
  { intros c ts ts'. unfold cond_signal. destruct (existsb is_asleep ts); [|by intros [= ->]].
    destruct (ts !! c) as [[]|]; intros Hd; try done. injection Hd as <-. by rewrite length_insert. }
  intros Hinv Hk [i c Hd|c Hd].
  - apply thread_do_step in Hd. unfold thread_step in Hd. destruct (threads p !! i) as [t|] eqn:Hi; [|done].
    destruct t; try done; try (destruct (thcount_lock p); [done|]); try (injection Hd as <-; fields; by rewrite length_insert).
    + destruct (bsem_wait _). injection Hd as <-. fields. by rewrite length_insert.
    + destruct (bsem_wait _). injection Hd as <-. fields. by rewrite length_insert.
    + destruct (rwmutex (queue p)); [done|]. destruct (jobqueue_pull _ _) as [[[j post] qu]| |]; try done. cbn [mbind dev_outcome_bind] in Hd. fields.
      destruct (j =? 0); [|destruct (jobs p !! j); [|done]]; injection Hd as <-; fields; by rewrite length_insert.
    + unfold bsem_post in Hd. destruct (cond_signal c (threads p)) as [ts| |] eqn:Hs; try done. injection Hd as <-. fields.
      by rewrite length_insert, (Hsig _ _ _ Hs).
    + destruct (jobs p !! j); [|done]. injection Hd as <-. fields. by rewrite length_insert.
    + injection Hd as <-. destruct (num_threads_working p - 1 =? 0); fields; by rewrite length_insert.
  - pose proof (iv_ends p q Hinv) as He. unfold client_do in Hd. destruct (client p) eqn:Hc; try done.
    + destruct (num_threads_alive p =? n); [|done]. by injection Hd as <-.
    + unfold bsem_post in Hd. destruct (cond_signal c (threads p)) as [ts| |] eqn:Hs; try done. injection Hd as <-. fields.
      by rewrite (Hsig _ _ _ Hs).
    + destruct (negb (len (queue p) =? 0)); by injection Hd as <-.
    + destruct (negb (num_threads_working p =? 0)); by injection Hd as <-.
    + unfold thpool_wait in Hd. destruct (thcount_lock p); [done|]. by injection Hd as <-.
Qed.

Lemma sys_is_step p p' : sys_step p p' -> step p p'.
Proof. intros [i c H|c H]; by econstructor. Qed.

(** A state of the invariant in which the pool is in service. *)
Definition serving p : Prop := (exists q, inv p q) /\ threads_keepalive p <> 0 /\ threads p <> [].

Lemma serving_step p p' : serving p -> sys_step p p' -> serving p' /\ measure p' < measure p /\ 0 <= measure p' /\ added p' = added p.
Proof.
  intros ([q Hinv] & Hk & Hne) Hs. destruct (sys_same p q p' Hinv Hk Hs) as (Ek & El & Ea).
  destruct (step_inv p q p' Hinv (sys_is_step _ _ Hs)) as [q' Hinv']. split; [|split; [|split; [by eapply measure_nonneg|done]]].
  - split; [by exists q'|]. split; [by rewrite Ek|]. intros E. apply Hne. apply nil_length_inv. by rewrite <- El, E.
  - destruct Hs as [i c Hd|c Hd]; [by eapply thread_decreases|by eapply client_decreases].
Qed.

(** ** The end of a pool *)

Lemma destroyed_stuck p q p' : inv p q -> client p = C_destroyed -> num_threads_alive p = 0 -> step p p' -> False.
Proof.
  intros [] Hc Ha Hs. rewrite Hc in *. pose proof (all_gone _ (eq_trans (eq_sym iv_alive) Ha) iv_starting) as Hdead.
  destruct Hs as [i c p' Hd|c p' Hd| | | |i Hi|]; try congruence.
  - unfold thread_do, thread_step, freed in Hd. rewrite Hc in Hd. destruct (threads p !! i) as [t|] eqn:Hi; [|done].
    apply list_elem_of_lookup_2 in Hi. by destruct (Hdead t Hi) as [-> | ->].
  - unfold client_do in Hd. by rewrite Hc in Hd.
  - apply list_elem_of_lookup_2 in Hi. by destruct (Hdead _ Hi).
Qed.

Lemma wake_not_destroyed c : wake_client c = C_destroyed -> c = C_destroyed.
Proof. by destruct c. Qed.

Lemma thread_client p i c p' : thread_do i c p = Ret p' -> client p' = C_destroyed -> client p = C_destroyed.
Proof.
  intros Hd. apply thread_do_step in Hd. unfold thread_step in Hd. destruct (threads p !! i) as [t|]; [|done].
  destruct t; try done; try (destruct (thcount_lock p); [done|]); try (by injection Hd as <-).
  - destruct (bsem_wait _). by injection Hd as <-.
  - destruct (bsem_wait _). by injection Hd as <-.
  - destruct (rwmutex (queue p)); [done|]. destruct (jobqueue_pull _ _) as [[[j post] qu]| |]; try done. cbn [mbind dev_outcome_bind] in Hd. fields.
    destruct (j =? 0); [|destruct (jobs p !! j); [|done]]; by injection Hd as <-.
  - unfold bsem_post in Hd. destruct (cond_signal c (threads p)); try done. by injection Hd as <-.
  - destruct (jobs p !! j); [|done]. by injection Hd as <-.
  - injection Hd as <-. destruct (num_threads_working p - 1 =? 0); fields; [|done]. apply wake_not_destroyed.
Qed.

Definition ended p : Prop := client p = C_destroyed -> jobs p = ∅ /\ gone (threads p).

Lemma ended_step p q p' : inv p q -> ended p -> step p p' -> ended p'.
Proof.
  intros Hinv Hp Hs Hc'. destruct (decide (client p = C_destroyed)) as [Hc|Hc].
  { destruct (Hp Hc) as [_ Hdead]. destruct (destroyed_stuck p q p' Hinv Hc); [|done].
    rewrite (iv_alive p q Hinv). by apply gone_cnt. }
  destruct Hs as [i c p' Hd|c p' Hd|newjob f a p' Hi _ Hd|p' Hi Hd| | |]; try done.
  - destruct Hc. by eapply thread_client.
  - destruct (client p) eqn:Hcl; try (unfold client_do in Hd; rewrite Hcl in Hd); try done.
    + destruct (num_threads_alive p =? n); [|done]. by injection Hd as <-.
    + unfold bsem_post in Hd. destruct (cond_signal c (threads p)); try done. by injection Hd as <-.
    + destruct (negb (len (queue p) =? 0)); by injection Hd as <-.
    + destruct (negb (num_threads_working p =? 0)); by injection Hd as <-.
    + unfold thpool_wait in Hd. destruct (thcount_lock p); [done|]. by injection Hd as <-.
    + destruct (stop_inv p q c p' Hinv Hcl) as [[? _]|(_ & _ & ? & ?)]; [|congruence|done].
      unfold client_do. by rewrite Hcl.
  - unfold thpool_add_work in Hd. destruct (newjob =? 0); [injection Hd as <-; congruence|]. destruct (rwmutex (queue p)); [done|].
    destruct (jobqueue_push _ _ _) as [[? ?]| |]; try done. by injection Hd as <-.
  - unfold thpool_wait in Hd. destruct (thcount_lock p); [done|]. by injection Hd as <-.
Qed.

Lemma reachable_ended n p : reachable n p -> ended p.
Proof.
  intros (p0 & Hi & Hr). pose proof (init_inv n p0 Hi) as Hinv. assert (Hp : ended p0) by (by injection Hi as <-). clear Hi.
  revert Hinv Hp. generalize (@nil Z). induction Hr as [|p0 p1 p2 Hs _ IH]; intros q Hinv Hp; [done|].
  destruct (step_inv _ _ _ Hinv Hs) as [q' Hinv']. apply (IH q'); [done|]. exact (ended_step _ _ _ Hinv Hp Hs).
Qed.

(** ** Theorems *)

(** C20. The only pool of a process, whatever its one client calls and however the
    threads are scheduled, with spurious wake-ups: until [thpool_destroy] frees the
    pool no step of a thread or of the client, and no [thpool_add_work], follows a
    dangling pointer; until then jobs begin in the order in which they were added,
    and each begins and is finished at most once, no more of them at a time than
    there are threads; when [thpool_wait] returns all jobs are finished; and when the
    pool is freed no job is left in memory and every thread has ended, but for the
    unlocking of the pool's mutex after it has counted itself out. *)
Theorem thpool_runs_each_once n p :
  reachable n p ->
  (client p <> C_destroyed -> forall i c, thread_do i c p <> Undef) /\ (forall c, client_do c p <> Undef) /\
  (forall newjob f a, jobs p !! newjob = None -> thpool_add_work newjob f a p <> Undef) /\
  (client p <> C_destroyed -> exists waiting, added p = started p ++ waiting) /\
  (exists running, started p ≡ₚ finished p ++ running /\ (length running <= length (threads p))%nat) /\
  (forall c p', client p = C_check_working -> client_do c p = Ret p' -> client p' = C_idle -> finished p' ≡ₚ added p') /\
  (client p = C_destroyed -> jobs p = ∅ /\ forall t, t ∈ threads p -> t = T_dead \/ t = T_unlock).
Proof.
  intros Hr. destruct (reachable_inv n p Hr) as [q Hinv]. pose proof Hinv as [].
  split; [intros Hc i c; eapply thread_defined; [done|]; unfold freed; by destruct (client p)|].
  split; [intros c; by eapply client_defined|]. split; [intros newjob f a; by eapply add_defined|].
  split; [intros Hc; eexists; by rewrite iv_added|]. split.
  { eexists. split; [done|]. rewrite length_fmap. apply length_flights. }
  split; [|by eapply reachable_ended]. intros c p' Hc Hd Hc'. unfold client_do in Hd. rewrite Hc in *.
  destruct (Z.eqb_spec (num_threads_working p) 0) as [Hw|]; cbn [negb] in Hd; injection Hd as <-; [|done]. fields.
  rewrite <- iv_added by done. rewrite (iv_checked eq_refl), app_nil_r, iv_started, idle_flights by lia. by rewrite app_nil_r.
Qed.

(** C19. The only pool of a process, with threads and not being destroyed, in any state
    that its calls and its threads reach, when its client makes no further call and
    there are no spurious wake-ups: the threads and the call the client is in make no more than
    [measure] steps, however they are scheduled, and where they stop all jobs are
    finished and the client is back from its call.  So no wake-up is lost, and
    [thpool_wait] always returns. *)
Theorem thpool_comes_to_rest n p :
  reachable n p -> threads_keepalive p <> 0 -> threads p <> [] ->
  (forall k p', nsteps sys_step k p p' -> Z.of_nat k <= measure p) /\
  forall p', rtc sys_step p p' -> (forall p'', ~ sys_step p' p'') ->
    client p' = C_idle /\ added p' = added p /\ finished p' ≡ₚ added p.
Proof.
  intros Hr Hk Hne. assert (Hs : serving p) by (split; [by eapply reachable_inv|done]). clear Hr Hk Hne n. split.
  - intros k p' Hn. induction Hn as [p|k p p1 p2 Hstep _ IH]; [destruct Hs as ([q Hinv] & _); by eapply measure_nonneg|].
    destruct (serving_step p p1 Hs Hstep) as (Hs1 & Hm & _). specialize (IH Hs1). lia.
  - intros p' Hr Hrest. induction Hr as [p|p p1 p2 Hstep _ IH].
    + destruct Hs as ([q Hinv] & Hk & Hne). destruct (rest_done p q Hinv Hk Hne Hrest) as [? ?]. done.
    + destruct (serving_step p p1 Hs Hstep) as (Hs1 & _ & _ & Ha). destruct (IH Hs1 Hrest) as (? & ? & ?). by rewrite <- Ha.
Qed.

(** ** Examples *)

Inductive action := DoThread (i c : nat) | DoClient (c : nat) | DoAdd (newjob f a : Z) | DoWait | DoDestroy.

Definition perform (x : action) p : dev_outcome thpool_ :=
  match x with
  | DoThread i c => thread_do i c p
  | DoClient c => client_do c p
  | DoAdd newjob f a =>
      match client p, jobs p !! newjob with C_idle, None => thpool_add_work newjob f a p | _, _ => Blocked end
  | DoWait => match client p with C_idle => thpool_wait p | _ => Blocked end
  | DoDestroy => match client p with C_idle => Ret (thpool_destroy p) | _ => Blocked end
  end.

Fixpoint script (xs : list action) p : dev_outcome thpool_ :=
  match xs with
  | [] => Ret p
  | x :: xs => p ← perform x p; script xs p
  end.

Lemma script_reach n xs p0 p : thpool_init n = Ret p0 -> script xs p0 = Ret p -> reachable n p.
Proof.
  intros Hi Hs. exists p0. split; [done|]. clear Hi. revert p0 Hs. induction xs as [|x xs IH]; intros p0 Hs; simpl in Hs; [by injection Hs as ->|].
  destruct (perform x p0) as [p1| |] eqn:Hx; try done. eapply rtc_l; [|by apply IH]. destruct x; simpl in Hx.
  - by eapply S_thread.
  - by eapply S_client.
  - destruct (client p0) eqn:Hc; try done. destruct (jobs p0 !! newjob) eqn:Hj; [done|]. by eapply S_add.
  - destruct (client p0) eqn:Hc; try done. by eapply S_wait.
  - destruct (client p0) eqn:Hc; try done. injection Hx as <-. by apply S_destroy.
Qed.

(** Two jobs for one thread; the first is running and the client waits for both. *)
Definition busy : list action :=
  [DoThread 0 0; DoClient 0; DoThread 0 0; DoThread 0 0; DoAdd 16 1 2; DoClient 0; DoAdd 32 3 4; DoClient 0; DoWait; DoClient 0;
   DoThread 0 0; DoThread 0 0; DoThread 0 0; DoThread 0 0; DoThread 0 0].

Definition busy_pool : thpool_ :=
  match thpool_init 1 with
  | Ret p0 => match script busy p0 with Ret p => p | _ => p0 end
  | _ => Thpool 0 [] 0 0 false (Jobqueue false 0 0 (Bsem 0) 0) ∅ C_idle [] [] []
  end.

Lemma busy_reachable : reachable 1 busy_pool.
Proof. eapply (script_reach 1 busy); [reflexivity|]. vm_compute. reflexivity. Qed.

Lemma thpool_runs_each_once_witness :
  threads busy_pool = [T_run 16] /\ client busy_pool = C_asleep /\ exists waiting, added busy_pool = started busy_pool ++ waiting.
Proof.
  split; [vm_compute; reflexivity|]. split; [vm_compute; reflexivity|].
  destruct (thpool_runs_each_once 1 busy_pool busy_reachable) as (_ & _ & _ & Hw & _). apply Hw. vm_compute. discriminate.
Defined.

Lemma thpool_comes_to_rest_witness :
  client busy_pool = C_asleep /\ forall k p', nsteps sys_step k busy_pool p' -> (k <= 29)%nat.
Proof.
  split; [vm_compute; reflexivity|]. intros k p' Hn.
  destruct (thpool_comes_to_rest 1 busy_pool busy_reachable) as [Hb _]; [vm_compute; discriminate..|].
  specialize (Hb k p' Hn). change (measure busy_pool) with 29 in Hb. lia.
Defined.

(** A pool with one thread is destroyed when the thread has counted itself out and not
    yet given back the lock: the unlocking that is left reads freed memory. *)
Definition destroyed_early : list action :=
  [DoThread 0 0; DoClient 0; DoDestroy; DoThread 0 0; DoThread 0 0; DoClient 0].

Lemma unlock_after_free : exists p,
  reachable 1 p /\ client p = C_destroyed /\ threads p = [T_unlock] /\ forall c, thread_do 0 c p = Undef.
Proof.
  assert (H : exists p, (p0 ← thpool_init 1; script destroyed_early p0) = Ret p /\ client p = C_destroyed /\ threads p = [T_unlock]).
  { eexists. split; [vm_compute; reflexivity|]. done. }
  destruct H as (p & Hs & Hc & Ht). exists p. destruct (thpool_init 1) as [p0| |] eqn:E; try done.
  split; [by eapply script_reach|]. split; [done|]. split; [done|].
  intros c. unfold thread_do, freed. by rewrite Hc, Ht.
Qed.
