(* ===== verification/Ini.v ===== *)
(** * The configuration file parser of the benchmark suite

    [application/kvbench/utils/iniparser.cc]: the hash table of names and values
    ([dictionary_*]), the accessors of it ([iniparser_get*], [iniparser_setstr],
    [iniparser_unset], [iniparser_find_entry]), the parser [iniparser_new] and
    the printer [iniparser_dump_ini].

    A C string is the list of its bytes without the final NUL; a [char *] that
    may be NULL is an [option], and one that may also be [INI_INVALID_KEY] a
    [charp].  Using NULL where the code expects a string, an index outside of an
    array, a write past a fixed buffer and the overflow of a signed
    integer are [Undef].  The strings that a caller passes are its own: the
    values of the dictionary are not passed back to [iniparser_setstr].
    [fgets], [sscanf], [isspace], [tolower] and [atoll] are those of the C library
    in its default locale.  [iniparser_getdouble] (floating point),
    [iniparser_free] and the debugging output [iniparser_dump] are left out. *)

From Stdlib.Strings Require Import String.
From stdpp Require Import base numbers list gmap.
From S2P Require Import Prelude.
From S2P Require Import Config.

Abbreviation ASCIILINESZ := 1024 (only parsing).
Abbreviation DICTMINSZ := 128 (only parsing).

(** ** Strings *)

(** A string as it fits into a buffer of [n + 1] characters. *)
Definition fits (n : Z) (s : str) : dev_outcome str :=
  if Z.of_nat (length s) <=? n then Ret s else Undef.

Definition strlwc (s : str) : str := to_lower <$> take (Z.to_nat ASCIILINESZ) s.

Fixpoint strskp (s : str) : str :=
  match s with
  | b :: s' => if is_space b then strskp s' else s
  | [] => []
  end.

(** The copy into [l] and the walk back from its end. *)
Definition strcrop (s : str) : dev_outcome str :=
  l ← fits ASCIILINESZ s;
  Ret (reverse (strskp (reverse l))).

(** ** Library functions *)

(** [fgets] with room for [n] characters: the characters read and the rest of
    the file. *)
Fixpoint fgets_chars (n : nat) (f : str) : str * str :=
  match n, f with
  | S n', b :: f' =>
      if decide (b = nl) then ([b], f')
      else let '(l, rest) := fgets_chars n' f' in (b :: l, rest)
  | _, _ => ([], f)
  end.

Definition fgets (size : Z) (f : str) : option (str * str) :=
  match f with [] => None | _ => Some (fgets_chars (Z.to_nat (size - 1)) f) end.

(** The C string at the start of an array. *)
Definition cstring (l : str) : str := take_while (fun b => bool_decide (b <> Byte.x00)) l.

(** The directives of the formats of [sscanf] in the code: white space, a
    character, and [%[^...]]. *)
Inductive directive :=
| Blank
| Char (c : byte)
| Until (no : str).

(** The strings that [sscanf] assigns; it returns their number. *)
Fixpoint sscanf (fmt : list directive) (s : str) : list str :=
  match fmt with
  | [] => []
  | Blank :: fmt' => sscanf fmt' (strskp s)
  | Char c :: fmt' =>
      match s with
      | b :: s' => if decide (b = c) then sscanf fmt' s' else []
      | [] => []
      end
  | Until no :: fmt' =>
      match take_while (fun b => bool_decide (b ∉ no)) s with
      | [] => []
      | t => t :: sscanf fmt' (drop (length t) s)
      end
  end.

(** [atoll], which saturates in the C library. *)
Definition atoll (s : str) : Z :=
  let '(neg, ds) :=
    match strskp s with
    | Byte.x2d :: s' => (true, s')
    | Byte.x2b :: s' => (false, s')
    | s' => (false, s')
    end in
  let v := foldl (fun a b => 10 * a + (byteZ b - 48)) 0 (take_while is_digit ds) in
  Z.max (- 2 ^ 63) (Z.min (2 ^ 63 - 1) (if neg : bool then - v else v)).

(** ** The dictionary *)

Record dictionary := Dictionary {
  d_n : Z;
  d_size : Z;
  d_val : list (option str);
  d_key : list (option str);
  d_hash : list Z
}.

(** [(unsigned)key[i]] of a signed character. *)
Definition uchar_ext (b : byte) : Z := u32 (if byteZ b <? 128 then byteZ b else byteZ b - 256).

Definition dictionary_hash (key : str) : Z :=
  let hash :=
    foldl (fun hash b =>
             let hash := u32 (hash + uchar_ext b) in
             let hash := u32 (hash + Z.shiftl hash 10) in
             Z.lxor hash (Z.shiftr hash 6)) 0 key in
  let hash := u32 (hash + Z.shiftl hash 3) in
  let hash := Z.lxor hash (Z.shiftr hash 11) in
  u32 (hash + Z.shiftl hash 15).

Definition dictionary_new (size : Z) : dictionary :=
  let size := if size <? DICTMINSZ then DICTMINSZ else size in
  Dictionary 0 size (replicate (Z.to_nat size) None) (replicate (Z.to_nat size) None)
    (replicate (Z.to_nat size) 0).

(** What the loops [for (i=0 ; i<d->size ; i++)] visit: key, value and hash of
    each slot. *)
Abbreviation slot := (option str * option str * Z)%type.

Definition slots (d : dictionary) : dev_outcome (list slot) :=
  let size := Z.to_nat (d_size d) in
  if decide (size <= length (d_key d) /\ size <= length (d_val d)
             /\ size <= length (d_hash d))%nat
  then Ret (take size (zip (zip (d_key d) (d_val d)) (d_hash d)))
  else Undef.

(** The index of the slot that holds [key], their number if none does. *)
Fixpoint find_slot (hash : Z) (key : str) (l : list slot) : nat :=
  match l with
  | [] => 0
  | (None, _, _) :: l' => S (find_slot hash key l')
  | (Some k, _, h) :: l' =>
      if (hash =? h) && bool_decide (key = k) then 0 else S (find_slot hash key l')
  end.

Fixpoint find_empty (l : list slot) : nat :=
  match l with
  | [] => 0
  | (None, _, _) :: _ => 0
  | (Some _, _, _) :: l' => S (find_empty l')
  end.

(** [mem_double] of an array of [count] items of [width] bytes whose zero is
    [zero]; its size in bytes is an [int]. *)
Definition mem_double {A} (zero : A) (width count : Z) (l : list A) : dev_outcome (list A) :=
  let size := s32 (count * width) in
  if (size <? 0) || (2 ^ 31 <=? 2 * size) then Undef
  else Ret (l ++ replicate (Z.to_nat count) zero).

(** A string, NULL or [INI_INVALID_KEY]. *)
Inductive charp := Null | InvalidKey | Chars (s : str).

Definition charp_of (v : option str) : charp := from_option Chars Null v.

(** The comparison that guards the loop is of the array [d->key], not of its
    element: a free slot with the same hash passes NULL to [strcmp]. *)
Fixpoint get_loop (hash : Z) (key : str) (def : charp) (l : list slot) : dev_outcome charp :=
  match l with
  | [] => Ret def
  | (k, v, h) :: l' =>
      if hash =? h then
        match k with
        | None => Undef
        | Some k => if decide (key = k) then Ret (charp_of v) else get_loop hash key def l'
        end
      else get_loop hash key def l'
  end.

Definition dictionary_get (d : dictionary) (key : str) (def : charp) : dev_outcome charp :=
  l ← slots d;
  get_loop (dictionary_hash key) key def l.

(** Growing when every slot is used. *)
Definition dictionary_grow (d : dictionary) : dev_outcome dictionary :=
  val ← mem_double None 8 (d_size d) (d_val d);
  key ← mem_double None 8 (d_size d) (d_key d);
  hash ← mem_double 0 4 (d_size d) (d_hash d);
  Ret (Dictionary (d_n d) (2 * d_size d) val key hash).

Definition dictionary_set (d : option dictionary) (key val : option str)
    : dev_outcome (option dictionary) :=
  match d, key with
  | Some d, Some key =>
      let hash := dictionary_hash key in
      l ← slots d;
      let i := if 0 <? d_n d then find_slot hash key l else length l in
      if decide (i < length l)%nat then
        Ret (Some (Dictionary (d_n d) (d_size d) (<[i := val]> (d_val d)) (d_key d) (d_hash d)))
      else
        d ← (if d_n d =? d_size d then dictionary_grow d else Ret d);
        l ← slots d;
        let i := find_empty l in
        if decide (i < length l)%nat then
          Ret (Some (Dictionary (d_n d + 1) (d_size d) (<[i := val]> (d_val d))
                       (<[i := Some key]> (d_key d)) (<[i := hash]> (d_hash d))))
        else Undef
  | _, _ => Ret d
  end.

Definition dictionary_unset (d : dictionary) (key : str) : dev_outcome dictionary :=
  l ← slots d;
  let i := find_slot (dictionary_hash key) key l in
  if decide (length l <= i)%nat then Ret d
  else
    Ret (Dictionary (d_n d - 1) (d_size d) (<[i := None]> (d_val d))
           (<[i := None]> (d_key d)) (<[i := 0]> (d_hash d))).

(** ** Accessors *)

Definition iniparser_add_entry (d : option dictionary) (sec : str) (key val : option str)
    : dev_outcome (option dictionary) :=
  longkey ← fits (2 * ASCIILINESZ)
    (match key with Some key => sec ++ lit ":" ++ key | None => sec end);
  dictionary_set d (Some longkey) val.

Definition iniparser_getstring (d : option dictionary) (key : option str) (def : charp)
    : dev_outcome charp :=
  match d, key with
  | Some d, Some key => dictionary_get d (strlwc key) def
  | _, _ => Ret def
  end.

Definition iniparser_getint (d : option dictionary) (key : option str) (notfound : Z)
    : dev_outcome Z :=
  str ← iniparser_getstring d key InvalidKey;
  match str with
  | InvalidKey => Ret notfound
  | Null => Undef
  | Chars s => Ret (atoll s)
  end.

Definition iniparser_getboolean (d : option dictionary) (key : option str) (notfound : Z)
    : dev_outcome Z :=
  c ← iniparser_getstring d key InvalidKey;
  match c with
  | InvalidKey => Ret notfound
  | Null => Undef
  | Chars s =>
      match s with
      | [] => Ret notfound
      | c0 :: _ =>
          if decide (c0 ∈ lit "yY1tT") then Ret 1
          else if decide (c0 ∈ lit "nN0fF") then Ret 0 else Ret notfound
      end
  end.

Definition iniparser_find_entry (ini : option dictionary) (entry : option str) : dev_outcome Z :=
  s ← iniparser_getstring ini entry InvalidKey;
  Ret (match s with InvalidKey => 0 | _ => 1 end).

Definition iniparser_setstr (ini : option dictionary) (entry val : option str)
    : dev_outcome (option dictionary * Z) :=
  ini ← dictionary_set ini (strlwc <$> entry) val;
  Ret (ini, 0).

Definition iniparser_unset (ini : option dictionary) (entry : option str)
    : dev_outcome (option dictionary) :=
  match ini, entry with
  | Some d, Some entry => d ← dictionary_unset d (strlwc entry); Ret (Some d)
  | _, _ => Undef
  end.

(** ** Printing *)

Definition is_section (key : str) : bool := bool_decide (Byte.x3a ∉ key).

Fixpoint nsec_loop (l : list slot) (nsec : Z) : Z :=
  match l with
  | [] => nsec
  | (k, _, _) :: l' =>
      nsec_loop l' (match k with
                    | Some k => if is_section k then nsec + 1 else nsec
                    | None => nsec
                    end)
  end.

Definition iniparser_getnsec (d : option dictionary) : dev_outcome Z :=
  match d with
  | None => Ret (-1)
  | Some d => l ← slots d; Ret (nsec_loop l 0)
  end.

Fixpoint secname_loop (n foundsec : Z) (l : list slot) : option str :=
  match l with
  | [] => None
  | (Some k, _, _) :: l' =>
      if is_section k then
        if n <? foundsec + 1 then Some k else secname_loop n (foundsec + 1) l'
      else secname_loop n foundsec l'
  | (None, _, _) :: l' => secname_loop n foundsec l'
  end.

Definition iniparser_getsecname (d : option dictionary) (n : Z) : dev_outcome (option str) :=
  match d with
  | None => Ret None
  | Some d => if n <? 0 then Ret None else l ← slots d; Ret (secname_loop n 0 l)
  end.

(** ["%-30s"] *)
Definition pad30 (s : str) : str := s ++ replicate (30 - length s) Byte.x20.

(** The file without a section; [fprintf] has no meaning for a NULL value. *)
Fixpoint dump_plain (l : list slot) : dev_outcome str :=
  match l with
  | [] => Ret []
  | (None, _, _) :: l' => dump_plain l'
  | (Some _, None, _) :: _ => Undef
  | (Some k, Some v, _) :: l' =>
      rest ← dump_plain l';
      Ret (k ++ lit " = " ++ v ++ [nl] ++ rest)
  end.

(** The lines of one section. *)
Fixpoint dump_section (secname : str) (l : list slot) : str :=
  match l with
  | [] => []
  | (None, _, _) :: l' => dump_section secname l'
  | (Some k, v, _) :: l' =>
      let seclen := length secname in
      (if decide (take (S seclen) k = secname ++ lit ":")
       then pad30 (drop (S seclen) k) ++ lit " = " ++ default [] v ++ [nl] else [])
      ++ dump_section secname l'
  end.

Fixpoint dump_sections (d : option dictionary) (l : list slot) (i : Z) (count : nat)
    : dev_outcome str :=
  match count with
  | O => Ret [nl]
  | S count' =>
      secname ← iniparser_getsecname d i;
      match secname with
      | None => Undef
      | Some secname =>
          _ ← fits ASCIILINESZ (secname ++ lit ":");
          rest ← dump_sections d l (i + 1) count';
          Ret ([nl] ++ lit "[" ++ secname ++ lit "]" ++ [nl] ++ dump_section secname l ++ rest)
      end
  end.

(** What is written to the file. *)
Definition iniparser_dump_ini (d : option dictionary) : dev_outcome str :=
  match d with
  | None => Ret []
  | Some d0 =>
      nsec ← iniparser_getnsec d;
      l ← slots d0;
      if nsec <? 1 then dump_plain l else dump_sections d l 0 (Z.to_nat nsec)
  end.

(** ** Parsing *)

Abbreviation fmt_section :=
  ([Char Byte.x5b; Until (lit "]")]) (only parsing).
Abbreviation fmt_dquote :=
  ([Until (lit "="); Blank; Char Byte.x3d; Blank; Char Byte.x22; Until [Byte.x22]; Char Byte.x22]) (only parsing).
Abbreviation fmt_squote :=
  ([Until (lit "="); Blank; Char Byte.x3d; Blank; Char Byte.x27; Until (lit "'"); Char Byte.x27]) (only parsing).
Abbreviation fmt_plain :=
  ([Until (lit "="); Blank; Char Byte.x3d; Blank; Until (lit ";#")]) (only parsing).

(** The first of the formats that assigns both [key] and [val]. *)
Definition scan_entry (s : str) : option (str * str) :=
  match sscanf fmt_dquote s with
  | [key; val] => Some (key, val)
  | _ =>
      match sscanf fmt_squote s with
      | [key; val] => Some (key, val)
      | _ => match sscanf fmt_plain s with [key; val] => Some (key, val) | _ => None end
      end
  end.

(** A line that is no section: an entry of the current section, if it is one. *)
Definition parse_entry (where_ sec : str) (d : option dictionary)
    : dev_outcome (str * option dictionary) :=
  match scan_entry where_ with
  | Some (key, val) =>
      key ← strcrop key;
      let key := strlwc key in
      val ← fits ASCIILINESZ val;
      val ← (if decide (val = [Byte.x22; Byte.x22] \/ val = lit "''") then Ret []
             else strcrop val);
      d ← iniparser_add_entry d sec (Some key) (Some val);
      Ret (sec, d)
  | None => Ret (sec, d)
  end.

(** One line: the section and the dictionary after it. *)
Definition parse_line (lin sec : str) (d : option dictionary)
    : dev_outcome (str * option dictionary) :=
  match strskp lin with
  | [] => Ret (sec, d)
  | b :: s =>
      let where_ := b :: s in
      if decide (b ∈ lit ";#") then Ret (sec, d)
      else
        match sscanf fmt_section where_ with
        | [sec] =>
            sec ← fits ASCIILINESZ sec;
            let sec := strlwc sec in
            d ← iniparser_add_entry d sec None None;
            Ret (sec, d)
        | _ => parse_entry where_ sec d
        end
  end.

Fixpoint parse_lines (fuel : nat) (ini sec : str) (d : option dictionary)
    : dev_outcome (option dictionary) :=
  match fuel with
  | O => Blocked
  | S fuel' =>
      match fgets ASCIILINESZ ini with
      | None => Ret d
      | Some (lin, ini) =>
          '(sec, d) ← parse_line (cstring lin) sec d;
          parse_lines fuel' ini sec d
      end
  end.

(** The contents of the file, [None] if it cannot be opened; each round reads a
    byte of it at least. *)
Definition iniparser_new (ini : option str) : dev_outcome (option dictionary) :=
  match ini with
  | None => Ret None
  | Some ini => parse_lines (S (length ini)) ini [] (Some (dictionary_new 0))
  end.
