(* ===== verification/IniSpec.v ===== *)
(** * The dictionary of the configuration parser is a finite map

    Any sequence of [iniparser_setstr] and [iniparser_unset] on a fresh dictionary
    of [Ini] holds the finite map that the sequence builds: no slot is lost when
    the table grows or is reused, keys are unique, and the accessors answer from
    the map.  A lookup of a key whose hash is 0 is the exception. *)

From Stdlib.Strings Require Import String.
From stdpp Require Import base numbers list gmap.
From S2P Require Import Prelude.
From S2P Require Import Config.
From S2P Require Import Ini.

(** ** What a dictionary holds *)

(** The entries of the slots, in their order. *)
Definition slot_entry (s : slot) : list (str * option str) :=
  match s with (Some k, v, _) => [(k, v)] | (None, _, _) => [] end.

Definition entries (l : list slot) : list (str * option str) := concat (slot_entry <$> l).

Definition slot_ok (s : slot) : Prop :=
  match s with (k, _, h) => h = from_option dictionary_hash 0 k end.

(** The dictionary holds the map [m]. *)
Record holds (d : dictionary) (l : list slot) (m : gmap str (option str)) : Prop := Holds {
  hd_slots : l = zip (zip (d_key d) (d_val d)) (d_hash d);
  hd_key : length (d_key d) = length l;
  hd_val : length (d_val d) = length l;
  hd_hash : length (d_hash d) = length l;
  hd_size : d_size d = Z.of_nat (length l);
  hd_pos : l <> [];
  hd_ok : Forall slot_ok l;
  hd_nodup : NoDup (entries l).*1;
  hd_map : m = list_to_map (entries l);
  hd_n : d_n d = Z.of_nat (length (entries l))
}.

Definition dict_holds (d : dictionary) (m : gmap str (option str)) : Prop :=
  exists l, holds d l m.

(** An operation on the dictionary and what it does to the map. *)
Inductive ini_op := OSet (entry : str) (val : option str) | OUnset (entry : str).

Definition ini_step (d : option dictionary) (o : ini_op) : dev_outcome (option dictionary) :=
  match o with
  | OSet e v => '(d, _) ← iniparser_setstr d (Some e) v; Ret d
  | OUnset e => iniparser_unset d (Some e)
  end.

Fixpoint ini_run (d : option dictionary) (ops : list ini_op) : dev_outcome (option dictionary) :=
  match ops with
  | [] => Ret d
  | o :: ops' => d ← ini_step d o; ini_run d ops'
  end.

Definition map_step (m : gmap str (option str)) (o : ini_op) : gmap str (option str) :=
  match o with
  | OSet e v => <[strlwc e := v]> m
  | OUnset e => delete (strlwc e) m
  end.

(** What the accessors answer for an entry of the map. *)
Definition int_answer (notfound : Z) (e : option (option str)) : dev_outcome Z :=
  match e with
  | None => Ret notfound
  | Some None => Undef
  | Some (Some s) => Ret (atoll s)
  end.

(** ** Slots *)

Lemma entries_app l1 l2 : entries (l1 ++ l2) = entries l1 ++ entries l2.
Proof. unfold entries. by rewrite fmap_app, concat_app. Qed.

Lemma entries_cons s l : entries (s :: l) = slot_entry s ++ entries l.
Proof. done. Qed.

Lemma entries_length l : (length (entries l) <= length l)%nat.
Proof.
  induction l as [|[[[k|] v] h] l IH]; [done| |];
    rewrite entries_cons; cbn [slot_entry app length]; lia.
Qed.

(** The arrays of a dictionary with one slot written. *)
Lemma zip3_insert {A B C} (ks : list A) (vs : list B) (hs : list C) l1 s l2 k v h :
  zip (zip ks vs) hs = l1 ++ s :: l2 ->
  zip (zip (<[length l1 := k]> ks) (<[length l1 := v]> vs)) (<[length l1 := h]> hs)
  = l1 ++ (k, v, h) :: l2.
Proof.
  intros E. rewrite <- !insert_zip_with, E.
  rewrite insert_app_r_alt, Nat.sub_diag by lia. done.
Qed.

Lemma slots_holds d l m : holds d l m -> slots d = Ret l.
Proof.
  intros []. unfold slots. rewrite hd_size0, Nat2Z.id, hd_key0, hd_val0, hd_hash0.
  rewrite decide_True by done. rewrite <- hd_slots0. by rewrite take_ge.
Qed.

Lemma find_slot_absent key l :
  Forall slot_ok l -> key ∉ (entries l).*1 ->
  find_slot (dictionary_hash key) key l = length l.
Proof.
  induction l as [|[[[k|] v] h] l IH]; intros Hok Hk; [done| |];
    apply Forall_cons in Hok as [Hs Hok]; cbn [find_slot length].
  - rewrite entries_cons in Hk. cbn in Hk. apply not_elem_of_cons in Hk as [Hne Hk].
    rewrite (bool_decide_false (key = k)), andb_false_r by done. by rewrite IH.
  - by rewrite IH.
Qed.

Lemma find_slot_present key l :
  Forall slot_ok l -> key ∈ (entries l).*1 ->
  exists l1 v l2, l = l1 ++ (Some key, v, dictionary_hash key) :: l2 /\
    find_slot (dictionary_hash key) key l = length l1.
Proof.
  induction l as [|[[[k|] v] h] l IH]; intros Hok Hk; [by apply elem_of_nil in Hk| |];
    apply Forall_cons in Hok as [Hs Hok]; cbn [find_slot].
  - cbn in Hs. subst h. destruct (decide (key = k)) as [->|Hne].
    + exists [], v, l. by rewrite Z.eqb_refl, bool_decide_true.
    + rewrite entries_cons in Hk. cbn in Hk. apply elem_of_cons in Hk as [?|Hk]; [done|].
      destruct (IH Hok Hk) as (l1 & w & l2 & -> & Hf).
      exists ((Some k, v, dictionary_hash k) :: l1), w, l2.
      by rewrite (bool_decide_false (key = k)), andb_false_r, Hf.
  - destruct (IH Hok Hk) as (l1 & w & l2 & -> & Hf).
    exists ((None, v, h) :: l1), w, l2. by rewrite Hf.
Qed.

Lemma find_empty_spec l :
  (length (entries l) < length l)%nat ->
  exists l1 v h l2, l = l1 ++ (None, v, h) :: l2 /\ find_empty l = length l1.
Proof.
  induction l as [|[[[k|] v] h] l IH]; cbn [find_empty length]; [lia| |].
  - rewrite entries_cons. cbn. intros H.
    destruct IH as (l1 & w & g & l2 & -> & Hf); [lia|].
    exists ((Some k, v, h) :: l1), w, g, l2. by rewrite Hf.
  - intros _. by exists [], v, h, l.
Qed.

(** Writing the slot between [l1] and [l2]. *)
Lemma holds_write d l m l1 s l2 k v m' n' :
  holds d l m -> l = l1 ++ s :: l2 ->
  let h := from_option dictionary_hash 0 k in
  let e := entries (l1 ++ (k, v, h) :: l2) in
  NoDup e.*1 -> m' = list_to_map e -> n' = Z.of_nat (length e) ->
  dict_holds
    (Dictionary n' (d_size d) (<[length l1 := v]> (d_val d)) (<[length l1 := k]> (d_key d))
       (<[length l1 := h]> (d_hash d))) m'.
Proof.
  intros [] -> h e Hnd -> ->. eexists. split; [|..|exact Hnd|done|done]; cbn.
  - symmetry. eapply zip3_insert. by symmetry.
  - rewrite length_insert, hd_key0, !length_app. done.
  - rewrite length_insert, hd_val0, !length_app. done.
  - rewrite length_insert, hd_hash0, !length_app. done.
  - rewrite hd_size0, !length_app. done.
  - by destruct l1.
  - apply Forall_app in hd_ok0 as [? [? ?]%Forall_cons]. apply Forall_app. by repeat constructor.
Qed.

Lemma list_to_map_middle (e1 e2 : list (str * option str)) k v :
  NoDup (e1 ++ (k, v) :: e2).*1 ->
  (list_to_map (e1 ++ (k, v) :: e2) : gmap str (option str))
  = <[k := v]> (list_to_map (e1 ++ e2)).
Proof.
  intros Hnd. rewrite <- list_to_map_cons. apply list_to_map_proper; [done|].
  by rewrite Permutation_middle.
Qed.

Lemma entries_used l1 k v h l2 :
  entries (l1 ++ (Some k, v, h) :: l2) = entries l1 ++ (k, v) :: entries l2.
Proof. by rewrite entries_app, entries_cons. Qed.

Lemma entries_free l1 v h l2 : entries (l1 ++ (None, v, h) :: l2) = entries l1 ++ entries l2.
Proof. by rewrite entries_app, entries_cons. Qed.

Lemma nodup_middle (e1 e2 : list (str * option str)) k v :
  NoDup (e1 ++ (k, v) :: e2).*1 <-> (k ∉ (e1 ++ e2).*1) /\ NoDup (e1 ++ e2).*1.
Proof. rewrite <- Permutation_middle. cbn [fmap list_fmap fst]. apply NoDup_cons. Qed.

Lemma holds_lookup d l m k v : holds d l m -> (m !! k = Some v <-> (k, v) ∈ entries l).
Proof. intros []. subst m. symmetry. by apply elem_of_list_to_map. Qed.

Lemma holds_mem d l m k : holds d l m -> ((k ∈ (entries l).*1) <-> is_Some (m !! k)).
Proof.
  intros H. rewrite list_elem_of_fmap. split.
  - intros ([k' v] & -> & Hin). exists v. by apply (holds_lookup _ _ _ _ _ H).
  - intros [v Hv]. exists (k, v). split; [done|]. by apply (holds_lookup _ _ _ _ _ H).
Qed.

Lemma zip3_lookup {A B C} (ks : list A) (vs : list B) (hs : list C) i k v h :
  zip (zip ks vs) hs !! i = Some (k, v, h) -> ks !! i = Some k /\ hs !! i = Some h.
Proof.
  rewrite lookup_zip_with_Some. intros ([? ?] & ? & ? & E & ?). simplify_eq.
  apply lookup_zip_with_Some in E as (? & ? & ? & ? & ?). by simplify_eq.
Qed.

(** ** The operations *)

Lemma dictionary_new_holds size : dict_holds (dictionary_new size) ∅.
Proof.
  unfold dictionary_new. set (z := if size <? 128 then 128 else size).
  assert (128 <= z) by (unfold z; case_match; lia).
  assert (He : forall n, entries (replicate n (None, None, 0)) = [])
    by (induction n as [|n IH]; [done|]; cbn [replicate]; by rewrite entries_cons, IH).
  exists (replicate (Z.to_nat z) (None, None, 0)). split; cbn.
  - by rewrite !zip_with_replicate by (rewrite ?length_replicate; done).
  - by rewrite !length_replicate.
  - by rewrite !length_replicate.
  - by rewrite !length_replicate.
  - rewrite length_replicate. lia.
  - intros E%(f_equal length). rewrite length_replicate in E. simpl in E. lia.
  - apply Forall_replicate. done.
  - rewrite He. constructor.
  - by rewrite He.
  - by rewrite He.
Qed.

(** Replacing the value of a key that the dictionary has. *)
Lemma dictionary_replace d l m key val l1 w l2 :
  holds d l m -> l = l1 ++ (Some key, w, dictionary_hash key) :: l2 ->
  dict_holds (Dictionary (d_n d) (d_size d) (<[length l1 := val]> (d_val d)) (d_key d) (d_hash d))
    (<[key := val]> m).
Proof.
  intros H Hl. pose proof H as [].
  assert (Hi : zip (zip (d_key d) (d_val d)) (d_hash d) !! length l1
               = Some (Some key, w, dictionary_hash key))
    by (rewrite <- hd_slots0, Hl; by apply list_lookup_middle).
  apply zip3_lookup in Hi as [Hk Hh].
  rewrite <- (list_insert_id _ _ _ Hk), <- (list_insert_id _ _ _ Hh).
  rewrite Hl, entries_used in hd_nodup0, hd_map0, hd_n0.
  apply (holds_write d l m l1 (Some key, w, dictionary_hash key) l2 (Some key) val); try done;
    cbn [from_option]; rewrite entries_used.
  - rewrite nodup_middle in *. done.
  - rewrite list_to_map_middle by (rewrite nodup_middle in *; done).
    rewrite hd_map0, list_to_map_middle by done. by rewrite insert_insert_eq.
  - rewrite hd_n0. by rewrite !length_app.
Qed.

(** A new key in a free slot. *)
Lemma dictionary_insert d l m key val l1 w h l2 :
  holds d l m -> m !! key = None -> l = l1 ++ (None, w, h) :: l2 ->
  dict_holds (Dictionary (d_n d + 1) (d_size d) (<[length l1 := val]> (d_val d))
                (<[length l1 := Some key]> (d_key d))
                (<[length l1 := dictionary_hash key]> (d_hash d))) (<[key := val]> m).
Proof.
  intros H Hm Hl. pose proof H as [].
  assert (Hk : key ∉ (entries l).*1).
  { rewrite (holds_mem _ _ _ _ H), Hm. apply is_Some_None. }
  rewrite Hl, entries_free in hd_nodup0, hd_map0, hd_n0, Hk.
  apply (holds_write d l m l1 (None, w, h) l2 (Some key) val); try done;
    cbn [from_option]; rewrite entries_used.
  - by rewrite nodup_middle.
  - rewrite list_to_map_middle by (by rewrite nodup_middle). by rewrite hd_map0.
  - rewrite hd_n0, !length_app. cbn [length]. lia.
Qed.

(** Doubling the arrays keeps the entries and leaves free slots. *)
Lemma mem_double_ok {A} (zero : A) width count l :
  0 <= count -> 0 <= width <= 8 -> 16 * count < 2 ^ 31 ->
  mem_double zero width count l = Ret (l ++ replicate (Z.to_nat count) zero).
Proof.
  intros Hc Hw Hb. unfold mem_double. rewrite s32_small by nia.
  rewrite (proj2 (Z.ltb_ge (count * width) 0)) by nia.
  by rewrite (proj2 (Z.leb_gt (2 ^ 31) _)) by nia.
Qed.

Lemma dictionary_grow_holds d l m :
  holds d l m -> Z.of_nat (length l) < 2 ^ 27 ->
  exists d' n, dictionary_grow d = Ret d' /\ n <> O /\
    holds d' (l ++ replicate n (None, None, 0)) m.
Proof.
  intros [] Hb. unfold dictionary_grow.
  rewrite !mem_double_ok by (rewrite ?hd_size0; lia). cbn [mbind dev_outcome_bind].
  rewrite hd_size0, Nat2Z.id. set (n := length l) in *.
  assert (He : entries (l ++ replicate n (None, None, 0)) = entries l).
  { rewrite entries_app. rewrite <- (app_nil_r (entries l)) at 2. f_equal.
    clear. induction n as [|n IH]; [done|]. cbn [replicate]. by rewrite entries_cons, IH. }
  eexists _, n. split; [done|]. split; [by destruct l|].
  split; cbn; rewrite ?He, ?length_app, ?length_replicate, ?hd_key0, ?hd_val0, ?hd_hash0;
    fold n; try done; try lia.
  - rewrite !zip_with_app by (rewrite ?length_zip_with, ?hd_key0, ?hd_val0, ?hd_hash0; lia).
    rewrite <- hd_slots0. by rewrite !zip_with_replicate by (rewrite ?length_replicate; done).
  - destruct l; done.
  - apply Forall_app. split; [done|]. by apply Forall_replicate.
Qed.

Lemma holds_size d l m : holds d l m -> length (entries l) = size m.
Proof.
  intros []. subst m. by rewrite map_size_list_to_map.
Qed.

Lemma insert_free_ok d l m key val :
  holds d l m -> m !! key = None -> (length (entries l) < length l)%nat ->
  exists d',
    (l ← slots d;
     let i := find_empty l in
     if decide (i < length l)%nat then
       Ret (Some (Dictionary (d_n d + 1) (d_size d) (<[i := val]> (d_val d))
                    (<[i := Some key]> (d_key d)) (<[i := dictionary_hash key]> (d_hash d))))
     else Undef) = Ret (Some d') /\ dict_holds d' (<[key := val]> m).
Proof.
  intros H Hm Hlt. rewrite (slots_holds _ _ _ H). cbn [mbind dev_outcome_bind].
  destruct (find_empty_spec l Hlt) as (l1 & w & h & l2 & Hl & Hf). rewrite Hf.
  rewrite decide_True by (rewrite Hl, length_app; cbn [length]; lia).
  eexists. split; [done|]. by eapply dictionary_insert.
Qed.

Lemma dictionary_set_ok d m key val :
  dict_holds d m -> Z.of_nat (size m) < 2 ^ 27 ->
  exists d', dictionary_set (Some d) (Some key) val = Ret (Some d') /\
    dict_holds d' (<[key := val]> m).
Proof.
  intros [l H] Hb. unfold dictionary_set. rewrite (slots_holds _ _ _ H).
  cbn [mbind dev_outcome_bind]. pose proof H as [].
  pose proof (holds_size _ _ _ H) as Hsz.
  destruct (m !! key) as [w|] eqn:Hm.
  - destruct (find_slot_present key l) as (l1 & v & l2 & Hl & Hf);
      [done|by apply (holds_mem _ _ _ _ H); rewrite Hm|].
    assert (0 < d_n d) as Hn.
    { rewrite hd_n0, Hl, entries_used, length_app. cbn [length]. lia. }
    rewrite (proj2 (Z.ltb_lt _ _) Hn), Hf.
    rewrite decide_True by (rewrite Hl, length_app; cbn [length]; lia).
    eexists. split; [done|]. by eapply dictionary_replace.
  - assert (Hi : (if 0 <? d_n d then find_slot (dictionary_hash key) key l else length l)
                 = length l).
    { case_match; [|done]. apply find_slot_absent; [done|].
      rewrite (holds_mem _ _ _ _ H), Hm. apply is_Some_None. }
    rewrite Hi, decide_False by lia. rewrite hd_n0, hd_size0.
    pose proof (entries_length l).
    destruct (Z.eqb_spec (Z.of_nat (length (entries l))) (Z.of_nat (length l))) as [E|E].
    + destruct (dictionary_grow_holds d l m H) as (d' & n & -> & Hn & H'); [lia|].
      cbn [mbind dev_outcome_bind]. apply (insert_free_ok _ _ _ _ _ H' Hm).
      rewrite (holds_size _ _ _ H'), <- Hsz, length_app, length_replicate. lia.
    + cbn [mbind dev_outcome_bind]. apply (insert_free_ok _ _ _ _ _ H Hm). lia.
Qed.

Lemma dictionary_unset_ok d m key :
  dict_holds d m -> exists d', dictionary_unset d key = Ret d' /\ dict_holds d' (delete key m).
Proof.
  intros [l H]. unfold dictionary_unset. rewrite (slots_holds _ _ _ H).
  cbn [mbind dev_outcome_bind]. pose proof H as [].
  destruct (m !! key) as [w|] eqn:Hm.
  - destruct (find_slot_present key l) as (l1 & v & l2 & Hl & Hf);
      [done|by apply (holds_mem _ _ _ _ H); rewrite Hm|].
    rewrite Hf, decide_False by (rewrite Hl, length_app; cbn [length]; lia).
    rewrite Hl, entries_used in hd_nodup0, hd_map0, hd_n0.
    eexists. split; [done|].
    apply (holds_write d l m l1 (Some key, v, dictionary_hash key) l2 None None); try done;
      cbn [from_option]; rewrite entries_free.
    + by apply nodup_middle in hd_nodup0 as [? ?].
    + rewrite hd_map0, list_to_map_middle by done. rewrite delete_insert_id; [done|].
      apply not_elem_of_list_to_map_1. by apply nodup_middle in hd_nodup0 as [? ?].
    + rewrite hd_n0, !length_app. cbn [length]. lia.
  - rewrite find_slot_absent, decide_True; try done.
    + eexists. split; [done|]. rewrite delete_id by done. by exists l.
    + rewrite (holds_mem _ _ _ _ H), Hm. apply is_Some_None.
Qed.

Lemma get_loop_ok key def l :
  dictionary_hash key <> 0 -> Forall slot_ok l ->
  get_loop (dictionary_hash key) key def l =
    Ret (from_option charp_of def ((list_to_map (entries l) : gmap str (option str)) !! key)).
Proof.
  intros Hh. induction l as [|[[[k|] v] h] l IH]; intros Hok; [done| |];
    apply Forall_cons in Hok as [Hs Hok]; cbn in Hs; subst h; cbn [get_loop];
    rewrite entries_cons; cbn [slot_entry app list_to_map foldr].
  - destruct (decide (key = k)) as [->|Hne].
    + by rewrite Z.eqb_refl, lookup_insert_eq.
    + rewrite lookup_insert_ne by done. rewrite <- IH by done. by case_match.
  - rewrite (proj2 (Z.eqb_neq _ 0)) by done. by apply IH.
Qed.

Lemma dictionary_get_ok d m key def :
  dict_holds d m -> dictionary_hash key <> 0 ->
  dictionary_get d key def = Ret (from_option charp_of def (m !! key)).
Proof.
  intros [l H] Hh. unfold dictionary_get. rewrite (slots_holds _ _ _ H).
  cbn [mbind dev_outcome_bind]. destruct H. subst m. by apply get_loop_ok.
Qed.

(** ** Sequences of operations *)

Lemma size_insert_le (m : gmap str (option str)) k v : (size (<[k := v]> m) <= S (size m))%nat.
Proof. rewrite map_size_insert. case_match; cbn; lia. Qed.

Lemma map_step_size m o : (size (map_step m o) <= S (size m))%nat.
Proof.
  destruct o as [e v|e]; cbn.
  - apply size_insert_le.
  - rewrite map_size_delete. case_match; cbn; lia.
Qed.

Lemma ini_step_ok d m o :
  dict_holds d m -> Z.of_nat (size m) < 2 ^ 27 ->
  exists d', ini_step (Some d) o = Ret (Some d') /\ dict_holds d' (map_step m o).
Proof.
  intros H Hb. destruct o as [e v|e]; cbn [ini_step map_step].
  - destruct (dictionary_set_ok d m (strlwc e) v H Hb) as (d' & E & H').
    exists d'. unfold iniparser_setstr. cbn [fmap option_fmap option_map]. by rewrite E.
  - destruct (dictionary_unset_ok d m (strlwc e) H) as (d' & E & H').
    exists d'. unfold iniparser_unset. by rewrite E.
Qed.

Lemma ini_run_ok ops d m :
  dict_holds d m -> Z.of_nat (size m) + Z.of_nat (length ops) < 2 ^ 27 ->
  exists d', ini_run (Some d) ops = Ret (Some d') /\ dict_holds d' (foldl map_step m ops).
Proof.
  revert d m. induction ops as [|o ops IH]; intros d m H Hb; [by exists d|].
  cbn [ini_run foldl length] in *. destruct (ini_step_ok d m o H) as (d1 & -> & H1); [lia|].
  cbn [mbind dev_outcome_bind]. apply IH; [done|]. pose proof (map_step_size m o). lia.
Qed.

Lemma holds_d_n d m : dict_holds d m -> d_n d = Z.of_nat (size m).
Proof. intros [l H]. rewrite (hd_n _ _ _ H). by rewrite (holds_size _ _ _ H). Qed.

(** C21. The dictionary of the configuration parser is a finite map from the
    lower-cased names to values.  Any sequence of fewer than 2^27 calls of
    [iniparser_setstr] and [iniparser_unset] on a new dictionary returns (the arrays
    are grown and free slots reused without an access outside of them; from 2^27
    entries on the size in bytes overflows an [int] in [mem_double]), and the
    dictionary then counts exactly the entries of the map and answers for every key
    whose hash is not 0 as the map: [iniparser_getstring] gives the last value set or
    the default, [iniparser_find_entry] whether the key is present,
    [iniparser_getint] the number in the value; it reads through NULL for an entry
    without value. *)
Theorem ini_refines_map (ops : list ini_op) (Hlen : Z.of_nat (length ops) < 2 ^ 27) :
  let m := foldl map_step ∅ ops in
  exists d,
    ini_run (Some (dictionary_new 0)) ops = Ret (Some d) /\
    d_n d = Z.of_nat (size m) /\
    forall key, dictionary_hash (strlwc key) <> 0 ->
      (forall def, iniparser_getstring (Some d) (Some key) def
                   = Ret (from_option charp_of def (m !! strlwc key))) /\
      iniparser_find_entry (Some d) (Some key)
        = Ret (if decide (is_Some (m !! strlwc key)) then 1 else 0) /\
      forall notfound, iniparser_getint (Some d) (Some key) notfound
                       = int_answer notfound (m !! strlwc key).
Proof.
  intros m. destruct (ini_run_ok ops (dictionary_new 0) ∅) as (d & Hrun & Hd);
    [apply dictionary_new_holds|rewrite map_size_empty; lia|].
  exists d. split; [done|]. split; [by apply holds_d_n|]. intros key Hh.
  assert (Hget : forall def, iniparser_getstring (Some d) (Some key) def
                   = Ret (from_option charp_of def (m !! strlwc key))).
  { intros def. unfold iniparser_getstring. by apply dictionary_get_ok. }
  split; [done|]. unfold iniparser_find_entry, iniparser_getint. rewrite Hget.
  cbn [mbind dev_outcome_bind].
  destruct (m !! strlwc key) as [[v|]|]; cbn [from_option charp_of int_answer].
  - by rewrite decide_True by eauto.
  - by rewrite decide_True by eauto.
  - by rewrite decide_False by apply is_Some_None.
Qed.

Lemma ini_refines_map_witness :
  exists d,
    ini_run (Some (dictionary_new 0))
      [OSet (lit "DB:Count") (Some (lit "7")); OSet (lit "db") None;
       OSet (lit "db:count") (Some (lit "12")); OSet (lit "x") None; OUnset (lit "X")]
      = Ret (Some d) /\
    iniparser_getint (Some d) (Some (lit "db:COUNT")) 0 = Ret 12.
Proof.
  destruct (ini_refines_map
    [OSet (lit "DB:Count") (Some (lit "7")); OSet (lit "db") None;
     OSet (lit "db:count") (Some (lit "12")); OSet (lit "x") None; OUnset (lit "X")])
    as (d & Hrun & _ & Hget); [vm_compute; reflexivity|].
  exists d. split; [exact Hrun|].
  destruct (Hget (lit "db:COUNT")) as (_ & _ & Hint); [vm_compute; discriminate|].
  rewrite Hint. vm_compute. reflexivity.
Defined.

(** ** A key whose hash is 0 *)

Lemma get_loop_free key def l :
  dictionary_hash key = 0 -> Forall slot_ok l -> key ∉ (entries l).*1 ->
  (length (entries l) < length l)%nat ->
  get_loop (dictionary_hash key) key def l = Undef.
Proof.
  intros Hh. induction l as [|[[[k|] v] h] l IH]; intros Hok Hk Hlt; cbn [length] in Hlt; [lia| |];
    apply Forall_cons in Hok as [Hs Hok]; cbn in Hs; subst h; cbn [get_loop].
  - rewrite entries_cons in Hk, Hlt. cbn in Hk, Hlt. apply not_elem_of_cons in Hk as [Hne Hk].
    rewrite (decide_False (P := key = k)) by done.
    rewrite IH by (done || lia). by case_match.
  - by rewrite Hh.
Qed.

(** The guard of the lookup loop tests the array of keys instead of its
    element: as long as a slot is free, looking up the empty name, whose hash is 0
    as that of a free slot, passes NULL to [strcmp], through every accessor. *)
Theorem ini_empty_key_crashes (d : dictionary) (m : gmap str (option str)) (def : charp)
    (Hd : dict_holds d m) (Habsent : m !! [] = None) (Hfree : Z.of_nat (size m) < d_size d) :
  iniparser_getstring (Some d) (Some []) def = Undef /\
  iniparser_find_entry (Some d) (Some []) = Undef.
Proof.
  destruct Hd as [l H]. pose proof H as [].
  assert (Hget : forall def, iniparser_getstring (Some d) (Some []) def = Undef).
  { intros def'. cbn [iniparser_getstring]. unfold dictionary_get.
    rewrite (slots_holds _ _ _ H). cbn [mbind dev_outcome_bind].
    apply (get_loop_free []); [done|done| |].
    - rewrite (holds_mem _ _ _ _ H), Habsent. apply is_Some_None.
    - rewrite (holds_size _ _ _ H). lia. }
  split; [done|]. unfold iniparser_find_entry. by rewrite Hget.
Qed.

Lemma ini_empty_key_crashes_witness :
  iniparser_getstring (Some (dictionary_new 0)) (Some []) Null = Undef /\
  iniparser_find_entry (Some (dictionary_new 0)) (Some []) = Undef.
Proof.
  apply (ini_empty_key_crashes (dictionary_new 0) ∅ Null);
    [apply dictionary_new_holds|reflexivity|vm_compute; reflexivity].
Defined.
