(* ===== verification/IniFile.v ===== *)
(** * Saving and loading a configuration

    What [iniparser_new] reads back from the file that [iniparser_dump_ini]
    writes ([Ini]): the same map, for names and values that the file format can
    hold; and what it reads for a value in empty quotes. *)

From Stdlib.Strings Require Import String.
From stdpp Require Import base numbers list gmap.
From S2P Require Import Prelude.
From S2P Require Import Config.
From S2P Require Import Ini.
From S2P Require Import IniSpec.

(** ** Names and values that a file can hold *)

Definition lower (b : byte) : bool := bool_decide (to_lower b = b).

Definition first_ok (no s : str) : bool :=
  match s with [] => false | b :: _ => negb (is_space b) && bool_decide (b ∉ no) end.

Definition free_of (no s : str) : bool := forallb (fun b => bool_decide (b ∉ no)) s.

(** A section name: in lower case, without colon and bracket. *)
Definition section_ok (s : str) : bool :=
  bool_decide (s <> []) && (Z.of_nat (length s) <=? 1000) && forallb lower s
  && free_of [Byte.x00; nl; Byte.x5d; Byte.x3a] s.

(** The name of an entry of a section. *)
Definition name_ok (k : str) : bool :=
  (Z.of_nat (length k) <=? 500) && forallb lower k && free_of [Byte.x00; nl; Byte.x3d] k
  && first_ok (lit ";#[") k && first_ok [] (reverse k).

(** A value: not empty, without comment characters, not quoted. *)
Definition value_ok (v : str) : bool :=
  (Z.of_nat (length v) <=? 450) && free_of [Byte.x00; nl; Byte.x3b; Byte.x23] v
  && first_ok [Byte.x22; Byte.x27] v && first_ok [] (reverse v).

(** Sections without value, and entries of them. *)
Definition loadable (m : gmap str (option str)) : Prop :=
  forall key v, m !! key = Some v ->
    (section_ok key = true /\ v = None) \/
    exists s k w, key = s ++ lit ":" ++ k /\ v = Some w /\ m !! s = Some None /\
      section_ok s = true /\ name_ok k = true /\ value_ok w = true.

(** The sections of the slots and the entries of one, in the order of the
    slots, and the file in terms of them. *)
Definition sections (l : list slot) : list str :=
  filter (fun k => is_section k = true) (entries l).*1.

Definition entries_of (s : str) (l : list slot) : list (str * option str) :=
  filter (fun e => take (S (length s)) e.1 = s ++ lit ":") (entries l).

Definition render (secs : list str) (l : list slot) : str :=
  concat ((fun s => [nl] ++ lit "[" ++ s ++ lit "]" ++ [nl] ++ dump_section s l) <$> secs)
  ++ [nl].

(** The blanks between a name and its equals sign. *)
Definition gap (k : str) : str := replicate (30 - length k) Byte.x20 ++ lit " ".

(** The line of an entry of section [s]. *)
Definition entry_line (s : str) (e : str * option str) : str :=
  pad30 (drop (S (length s)) e.1) ++ lit " = " ++ default [] e.2 ++ [nl].

(** Entries added one after the other. *)
Definition add_all (m : gmap str (option str)) (e : list (str * option str)) :=
  foldl (fun m e => <[e.1 := e.2]> m) m e.

(** The entries in the order in which the file sets them. *)
Definition written (secs : list str) (l : list slot) : list (str * option str) :=
  concat ((fun s => (s, None) :: entries_of s l) <$> secs).

(** The outcome of a line: at most one entry more. *)
Definition line_done (n : nat) (r : dev_outcome (str * option dictionary)) : Prop :=
  exists sec d m, r = Ret (sec, Some d) /\ Z.of_nat (length sec) <= 1023 /\
    dict_holds d m /\ (size m <= S n)%nat.

(** Reading [rest] in section [sec] with a dictionary that holds [m1] ends with
    one that holds [m]. *)
Definition reads (m : gmap str (option str)) (rest sec : str) (m1 : gmap str (option str)) :=
  forall fuel d, (length rest < fuel)%nat -> dict_holds d m1 ->
    exists d', parse_lines fuel rest sec (Some d) = Ret (Some d') /\ dict_holds d' m.

(** ** Strings *)

Lemma take_while_stop {A} (f : A -> bool) a b c :
  forallb f a = true -> f b = false -> take_while f (a ++ b :: c) = a.
Proof.
  intros Ha Hb. induction a as [|x a IH]; cbn in *; [by rewrite Hb|].
  apply andb_true_iff in Ha as [-> Ha]. by rewrite IH.
Qed.

Lemma forallb_impl {A} (f g : A -> bool) l :
  (forall x, f x = true -> g x = true) -> forallb f l = true -> forallb g l = true.
Proof. rewrite !forallb_forall. eauto. Qed.

Lemma strskp_first no s t : first_ok no s = true -> strskp (s ++ t) = s ++ t.
Proof. destruct s as [|b s]; cbn; [done|]. by destruct (is_space b). Qed.

Lemma strskp_blank b s : is_space b = true -> strskp (b :: s) = strskp s.
Proof. intros E. cbn. by rewrite E. Qed.

Lemma strskp_blanks a s : forallb is_space a = true -> strskp (a ++ s) = strskp s.
Proof.
  induction a as [|b a IH]; intros H; [done|]. cbn in H. apply andb_true_iff in H as [Hb H].
  cbn. by rewrite Hb, IH.
Qed.

Lemma strcrop_blanks s t :
  first_ok [] (reverse s) = true -> forallb is_space t = true ->
  Z.of_nat (length (s ++ t)) <= 1024 -> strcrop (s ++ t) = Ret s.
Proof.
  intros Hs Ht Hlen. unfold strcrop, fits. rewrite (proj2 (Z.leb_le _ _) Hlen).
  cbn [mbind dev_outcome_bind]. rewrite reverse_app, strskp_blanks.
  - rewrite <- (app_nil_r (reverse s)), (strskp_first [] (reverse s) []) by done.
    by rewrite app_nil_r, reverse_involutive.
  - rewrite forallb_forall in *. intros x Hx. apply Ht.
    apply list_elem_of_In, elem_of_reverse. by apply list_elem_of_In.
Qed.

Lemma strlwc_lower s : forallb lower s = true -> Z.of_nat (length s) <= 1024 -> strlwc s = s.
Proof.
  intros Hs Hl. unfold strlwc. rewrite take_ge by lia. clear Hl.
  induction s as [|b s IH]; [done|]. cbn in Hs. apply andb_true_iff in Hs as [Hb Hs].
  apply bool_decide_eq_true in Hb. cbn. by rewrite Hb, IH.
Qed.

Lemma free_of_app no s t : free_of no (s ++ t) = free_of no s && free_of no t.
Proof. apply forallb_app. Qed.

Lemma free_of_sub no no' s : no' ⊆ no -> free_of no s = true -> free_of no' s = true.
Proof.
  intros Hsub. apply forallb_impl. intros x. rewrite !bool_decide_eq_true. intros H H'.
  by apply H, Hsub.
Qed.

Lemma free_of_spec no s b : free_of no s = true -> b ∈ no -> b ∉ s.
Proof.
  intros Hf Hb Hs. unfold free_of in Hf. rewrite forallb_forall in Hf.
  apply list_elem_of_In in Hs. specialize (Hf b Hs). by apply bool_decide_eq_true in Hf.
Qed.

Lemma fits_ok n s : Z.of_nat (length s) <= n -> fits n s = Ret s.
Proof. intros H. unfold fits. by rewrite (proj2 (Z.leb_le _ _) H). Qed.

(** ** Lines of the file *)

Lemma fgets_chars_line n a rest :
  nl ∉ a -> (length a < n)%nat -> fgets_chars n (a ++ nl :: rest) = (a ++ [nl], rest).
Proof.
  revert n. induction a as [|b a IH]; intros [|n] Ha Hn; cbn [length] in Hn; try lia;
    cbn [app fgets_chars].
  - by rewrite decide_True.
  - apply not_elem_of_cons in Ha as [Hb Ha]. rewrite decide_False by done.
    by rewrite IH by (done || lia).
Qed.

Lemma cstring_line a : free_of [Byte.x00; nl] a = true -> cstring (a ++ [nl]) = a ++ [nl].
Proof.
  intros Ha. unfold cstring. apply take_while_all. apply Forall_forall. intros x Hx.
  apply bool_decide_eq_true. intros ->. apply elem_of_app in Hx as [Hx|Hx].
  - by eapply free_of_spec in Ha; [apply Ha|constructor].
  - by apply list_elem_of_singleton in Hx.
Qed.

(** One line of the file. *)
Lemma parse_lines_line fuel a rest sec d :
  free_of [Byte.x00; nl] a = true -> Z.of_nat (length a) <= 1022 ->
  parse_lines (S fuel) (a ++ nl :: rest) sec d =
    ('(sec, d) ← parse_line (a ++ [nl]) sec d; parse_lines fuel rest sec d).
Proof.
  intros Ha Hl. cbn [parse_lines].
  assert (Hn : nl ∉ a) by (eapply free_of_spec; [exact Ha|repeat constructor]).
  assert (fgets 1024 (a ++ nl :: rest) = Some (a ++ [nl], rest)) as ->.
  { unfold fgets. rewrite fgets_chars_line by (done || lia). by destruct a. }
  by rewrite cstring_line.
Qed.

Lemma parse_blank_line sec d : parse_line [nl] sec d = Ret (sec, d).
Proof. done. Qed.

Lemma parse_section_line s sec d :
  section_ok s = true ->
  parse_line ((lit "[" ++ s ++ lit "]") ++ [nl]) sec d =
    (d ← dictionary_set d (Some s) None; Ret (s, d)).
Proof.
  unfold section_ok. rewrite !andb_true_iff, bool_decide_eq_true, Z.leb_le.
  intros [[[Hne Hl] Hlow] Hfree].
  assert (Hscan : sscanf fmt_section ((lit "[" ++ s ++ lit "]") ++ [nl]) = [s]).
  { change ((lit "[" ++ s ++ lit "]") ++ [nl]) with (Byte.x5b :: (s ++ lit "]") ++ [nl]).
    cbn [sscanf]. rewrite decide_True by done. rewrite <- app_assoc.
    change (lit "]" ++ [nl]) with (Byte.x5d :: [nl]). rewrite take_while_stop.
    - destruct s; done.
    - eapply (free_of_sub _ (lit "]")); [|exact Hfree].
      intros x Hx%list_elem_of_singleton. subst x. repeat constructor.
    - done. }
  unfold parse_line.
  change ((lit "[" ++ s ++ lit "]") ++ [nl]) with (Byte.x5b :: (s ++ lit "]") ++ [nl]) in *.
  cbn [strskp]. change (is_space Byte.x5b) with false. cbn iota.
  rewrite decide_False by (apply (bool_decide_eq_true_1 (Byte.x5b ∉ lit ";#")); done). rewrite Hscan, fits_ok by lia.
  cbn [mbind dev_outcome_bind]. rewrite strlwc_lower by (done || lia).
  unfold iniparser_add_entry. by rewrite fits_ok by lia.
Qed.

Lemma scan_prefix fmt key w no t :
  key <> [] -> free_of (lit "=") key = true -> first_ok no w = true ->
  sscanf (Until (lit "=") :: Blank :: Char Byte.x3d :: Blank :: fmt)
    (key ++ Byte.x3d :: Byte.x20 :: w ++ t) = key :: sscanf fmt (w ++ t).
Proof.
  intros Hne Hfree Hw. cbn [sscanf]. rewrite take_while_stop by done.
  destruct key as [|b key]; [done|]. f_equal. rewrite drop_app_length.
  change (strskp (Byte.x3d :: Byte.x20 :: w ++ t)) with (Byte.x3d :: Byte.x20 :: w ++ t).
  cbn iota. rewrite decide_True by done. rewrite strskp_blank by done.
  by rewrite (strskp_first no).
Qed.

Lemma sscanf_char_other c fmt no s t :
  first_ok no s = true -> c ∈ no -> sscanf (Char c :: fmt) (s ++ t) = [].
Proof.
  destruct s as [|b s]; cbn; [done|]. intros [_ Hb]%andb_true_iff Hc.
  apply bool_decide_eq_true in Hb. rewrite decide_False; [done|]. by intros ->.
Qed.

Lemma scan_value v :
  v <> [] -> free_of [Byte.x3b; Byte.x23] v = true ->
  sscanf [Until (lit ";#")] (v ++ [nl]) = [v ++ [nl]].
Proof.
  intros Hne Hv. cbn [sscanf]. rewrite take_while_all; [by destruct v|].
  apply Forall_forall. intros x Hx%list_elem_of_In.
  assert (Hf : free_of (lit ";#") (v ++ [nl]) = true)
    by (rewrite free_of_app; apply andb_true_iff; split; [exact Hv|done]).
  unfold free_of in Hf. rewrite forallb_forall in Hf. by apply Hf.
Qed.

Lemma scan_entry_line key v :
  key <> [] -> free_of (lit "=") key = true -> value_ok v = true ->
  scan_entry (key ++ Byte.x3d :: Byte.x20 :: v ++ [nl]) = Some (key, v ++ [nl]).
Proof.
  intros Hne Hfree Hv. unfold value_ok in Hv. rewrite !andb_true_iff in Hv.
  destruct Hv as [[[_ Hv] Hfirst] _]. unfold scan_entry.
  rewrite !(scan_prefix _ _ _ _ [nl] Hne Hfree Hfirst).
  rewrite !(sscanf_char_other _ _ _ _ _ Hfirst) by (repeat constructor).
  rewrite scan_value; [done| |].
  - by destruct v.
  - eapply free_of_sub; [|exact Hv]. intros x Hx. by do 2 right.
Qed.

Lemma pad30_length k : (length (pad30 k) <= 30 + length k)%nat.
Proof. unfold pad30. rewrite length_app, length_replicate. lia. Qed.

(** A line that is neither blank, comment nor section. *)
Lemma parse_line_scan a t key val sec d :
  first_ok (lit ";#[") a = true -> scan_entry (a ++ t) = Some (key, val) ->
  parse_line (a ++ t) sec d =
    (key ← strcrop key;
     val ← fits 1024 val;
     val ← (if decide (val = [Byte.x22; Byte.x22] \/ val = lit "''") then Ret []
            else strcrop val);
     d ← iniparser_add_entry d sec (Some (strlwc key)) (Some val);
     Ret (sec, d)).
Proof.
  intros Ha Hscan. unfold parse_line. rewrite (strskp_first _ _ _ Ha).
  pose proof (sscanf_char_other Byte.x5b [Until (lit "]")] _ a t Ha) as Hsec.
  destruct a as [|b a]; [done|]. cbn [app] in *.
  rewrite decide_False.
  - rewrite Hsec by (repeat constructor). unfold parse_entry. by rewrite Hscan.
  - cbn [first_ok] in Ha. apply andb_true_iff in Ha as [_ Hb%bool_decide_eq_true].
    intros Hin. apply Hb. change (lit ";#[") with (lit ";#" ++ lit "["). apply elem_of_app. by left.
Qed.

Lemma forallb_replicate {A} (f : A -> bool) n x : f x = true -> forallb f (replicate n x) = true.
Proof. intros Hx. induction n; cbn; [done|]. by rewrite Hx. Qed.

Lemma gap_blank k : forallb is_space (gap k) = true.
Proof. unfold gap. rewrite forallb_app, forallb_replicate; done. Qed.

Lemma gap_length k : (length (gap k) <= 31)%nat.
Proof. unfold gap. rewrite length_app, length_replicate. cbn. lia. Qed.

Lemma entry_line_eq k v :
  (pad30 k ++ lit " = " ++ v) ++ [nl] = (k ++ gap k) ++ Byte.x3d :: Byte.x20 :: v ++ [nl].
Proof. unfold pad30, gap. by rewrite <- !app_assoc. Qed.

Lemma scan_padded k v :
  name_ok k = true -> value_ok v = true ->
  scan_entry ((k ++ gap k) ++ Byte.x3d :: Byte.x20 :: v ++ [nl]) = Some (k ++ gap k, v ++ [nl]).
Proof.
  unfold name_ok. rewrite !andb_true_iff. intros [[[_ Hfree] Hfirst] _] Hv.
  apply scan_entry_line; [by destruct k| |done]. rewrite free_of_app. apply andb_true_iff. split.
  - eapply free_of_sub; [|exact Hfree]. intros x Hx. by do 2 right.
  - eapply forallb_impl; [|apply gap_blank]. intros x Hx.
    apply bool_decide_eq_true. intros ->%list_elem_of_singleton. done.
Qed.

Lemma parse_entry_line k v sec d :
  name_ok k = true -> value_ok v = true -> Z.of_nat (length sec) <= 1000 ->
  parse_line ((pad30 k ++ lit " = " ++ v) ++ [nl]) sec d =
    (d ← dictionary_set d (Some (sec ++ lit ":" ++ k)) (Some v); Ret (sec, d)).
Proof.
  intros Hk Hv Hsec. pose proof (scan_padded k v Hk Hv) as Hscan.
  unfold name_ok in Hk. rewrite !andb_true_iff, Z.leb_le in Hk.
  destruct Hk as [[[[Hkl Hlow] _] Hfirst] Hlast].
  unfold value_ok in Hv. rewrite !andb_true_iff, Z.leb_le in Hv.
  destruct Hv as [[[Hvl _] Hvf] Hvlast]. pose proof (gap_length k).
  rewrite entry_line_eq. rewrite <- app_assoc in Hscan |- *.
  rewrite (parse_line_scan _ _ _ _ _ _ Hfirst Hscan).
  rewrite strcrop_blanks by (done || apply gap_blank || (rewrite length_app; lia)).
  cbn [mbind dev_outcome_bind]. rewrite fits_ok by (rewrite length_app; cbn; lia).
  cbn [mbind dev_outcome_bind]. rewrite decide_False.
  - rewrite strcrop_blanks by (done || (rewrite length_app; cbn; lia)).
    cbn [mbind dev_outcome_bind]. rewrite strlwc_lower by (done || lia).
    unfold iniparser_add_entry. by rewrite fits_ok by (rewrite !length_app; cbn; lia).
  - intros [E|E]; apply (f_equal (fun l => head (reverse l))) in E;
      rewrite reverse_snoc in E; done.
Qed.

(** ** The file in terms of the entries *)

Lemma nsec_loop_eq l n : nsec_loop l n = n + Z.of_nat (length (sections l)).
Proof.
  revert n. induction l as [|[[[k|] v] h] l IH]; intros n; cbn [nsec_loop]; [cbn; lia| |].
  - unfold sections. rewrite entries_cons. cbn [slot_entry app fmap list_fmap fst].
    rewrite filter_cons. rewrite IH. destruct (is_section k).
    + rewrite decide_True by done. unfold sections. cbn [length]. lia.
    + by rewrite decide_False.
  - by rewrite IH.
Qed.

Lemma secname_loop_eq n found l :
  found <= n -> secname_loop n found l = sections l !! Z.to_nat (n - found).
Proof.
  revert found. induction l as [|[[[k|] v] h] l IH]; intros found Hn; cbn [secname_loop]; [done| |].
  - unfold sections. rewrite entries_cons. cbn [slot_entry app fmap list_fmap fst].
    rewrite filter_cons. destruct (is_section k).
    + rewrite decide_True by done. destruct (Z.ltb_spec n (found + 1)).
      * by replace (n - found) with 0 by lia.
      * rewrite IH by lia. by replace (Z.to_nat (n - found)) with (S (Z.to_nat (n - (found + 1)))) by lia.
    + rewrite decide_False by done. by apply IH.
  - by apply IH.
Qed.

Lemma dump_section_eq s l : dump_section s l = concat (entry_line s <$> entries_of s l).
Proof.
  induction l as [|[[[k|] v] h] l IH]; cbn [dump_section]; [done| |done].
  unfold entries_of. rewrite entries_cons. cbn [slot_entry app]. rewrite filter_cons, IH.
  cbn [fst]. by destruct (decide _).
Qed.

Lemma dump_sections_render d l m pre post :
  holds d l m -> sections l = pre ++ post ->
  Forall (fun s => Z.of_nat (length s) <= 1000) post ->
  dump_sections (Some d) l (Z.of_nat (length pre)) (length post) = Ret (render post l).
Proof.
  intros H. revert pre. induction post as [|s post IH]; intros pre Hs Hl; [done|].
  apply Forall_cons in Hl as [Hl Hls]. cbn [length dump_sections iniparser_getsecname].
  rewrite (proj2 (Z.ltb_ge _ _)) by lia. rewrite (slots_holds _ _ _ H).
  cbn [mbind dev_outcome_bind]. rewrite secname_loop_eq by lia.
  rewrite Z.sub_0_r, Nat2Z.id, Hs, list_lookup_middle by done.
  rewrite fits_ok by (rewrite length_app; cbn; lia). cbn [mbind dev_outcome_bind].
  specialize (IH (pre ++ [s])). rewrite length_app, Nat2Z.inj_add in IH.
  cbn [length] in IH. change (Z.of_nat 1) with 1 in IH.
  rewrite IH by (done || (rewrite Hs, <- app_assoc; done)).
  cbn [mbind dev_outcome_bind]. unfold render. cbn [fmap list_fmap concat].
  by rewrite <- !app_assoc.
Qed.

(** ** Reading the file *)

Lemma split_colon s s' k t :
  free_of (lit ":") s = true -> free_of (lit ":") s' = true ->
  s ++ lit ":" ++ k = s' ++ lit ":" ++ t -> s = s' /\ k = t.
Proof.
  intros Hs Hs' E.
  assert (s = s') as ->.
  { rewrite <- (take_while_stop (fun b => bool_decide (b ∉ lit ":")) s Byte.x3a k) by done.
    rewrite <- (take_while_stop (fun b => bool_decide (b ∉ lit ":")) s' Byte.x3a t) by done.
    f_equal. exact E. }
  split; [done|]. by simplify_list_eq.
Qed.

Lemma section_ok_colon s : section_ok s = true -> free_of (lit ":") s = true.
Proof.
  unfold section_ok. rewrite !andb_true_iff. intros [_ H]. eapply free_of_sub; [|exact H].
  intros x Hx. by do 3 right.
Qed.

Lemma section_ok_is_section s : section_ok s = true -> is_section s = true.
Proof.
  intros H%section_ok_colon. apply bool_decide_eq_true. eapply free_of_spec; [exact H|constructor].
Qed.

Lemma long_key_not_section s k : is_section (s ++ lit ":" ++ k) = false.
Proof.
  apply bool_decide_eq_false. intros H. apply H. rewrite !elem_of_app. right. left. constructor.
Qed.

Lemma section_ok_length s : section_ok s = true -> Z.of_nat (length s) <= 1000.
Proof. unfold section_ok. rewrite !andb_true_iff, Z.leb_le. tauto. Qed.

Lemma section_ok_line s : section_ok s = true -> free_of [Byte.x00; nl] s = true.
Proof.
  unfold section_ok. rewrite !andb_true_iff. intros [_ H]. eapply free_of_sub; [|exact H].
  intros x Hx. rewrite !elem_of_cons in *. tauto.
Qed.

Lemma name_ok_length k : name_ok k = true -> Z.of_nat (length k) <= 500.
Proof. unfold name_ok. rewrite !andb_true_iff, Z.leb_le. tauto. Qed.

Lemma name_ok_line k : name_ok k = true -> free_of [Byte.x00; nl] k = true.
Proof.
  unfold name_ok. rewrite !andb_true_iff. intros [[[_ H] _] _]. eapply free_of_sub; [|exact H].
  intros x Hx. rewrite !elem_of_cons in *. tauto.
Qed.

Lemma value_ok_line v :
  value_ok v = true -> free_of [Byte.x00; nl] v = true /\ Z.of_nat (length v) <= 450.
Proof.
  unfold value_ok. rewrite !andb_true_iff, Z.leb_le. intros [[[Hl H] _] _]. split; [|done].
  eapply free_of_sub; [|exact H]. intros x Hx. rewrite !elem_of_cons in *. tauto.
Qed.

Section reading.
Context (m : gmap str (option str)).
Context (Hsize : Z.of_nat (size m) < 2 ^ 27).

Lemma reads_nil sec : reads m [] sec m.
Proof. intros [|fuel] d Hf Hd; [cbn in Hf; lia|]. by exists d. Qed.

(** A line that sets an entry of [m]. *)
Lemma reads_set line rest sec sec' m1 key v :
  free_of [Byte.x00; nl] line = true -> Z.of_nat (length line) <= 1022 ->
  (forall d, parse_line (line ++ [nl]) sec d =
     (d ← dictionary_set d (Some key) v; Ret (sec', d))) ->
  m1 ⊆ m -> reads m rest sec' (<[key := v]> m1) -> reads m (line ++ nl :: rest) sec m1.
Proof.
  intros Hfree Hlen Hline Hsub Hrest [|fuel] d Hf Hd; [lia|].
  rewrite parse_lines_line, Hline by done.
  destruct (dictionary_set_ok d m1 key v Hd) as (d1 & -> & Hd1).
  { apply map_subseteq_size in Hsub. lia. }
  cbn [mbind dev_outcome_bind]. apply Hrest; [|done].
  rewrite length_app in Hf. cbn [length] in Hf. lia.
Qed.

Lemma reads_blank rest sec m1 : reads m rest sec m1 -> reads m (nl :: rest) sec m1.
Proof.
  intros Hrest [|fuel] d Hf Hd; [lia|]. change (nl :: rest) with ([] ++ nl :: rest).
  rewrite parse_lines_line by done. cbn [app]. rewrite parse_blank_line.
  cbn [mbind dev_outcome_bind]. apply Hrest; [|done]. cbn [length] in Hf. lia.
Qed.

Lemma reads_section s rest sec m1 :
  section_ok s = true -> m1 ⊆ m -> reads m rest s (<[s := None]> m1) ->
  reads m (lit "[" ++ s ++ lit "]" ++ [nl] ++ rest) sec m1.
Proof.
  intros Hs Hsub Hrest.
  replace (lit "[" ++ s ++ lit "]" ++ [nl] ++ rest)
    with ((lit "[" ++ s ++ lit "]") ++ nl :: rest) by (by rewrite <- !app_assoc).
  eapply reads_set; [| |intros d; by apply parse_section_line|done|done].
  - by rewrite !free_of_app, (section_ok_line s Hs).
  - rewrite !length_app. apply section_ok_length in Hs. cbn. lia.
Qed.

Lemma reads_entry s k v rest m1 :
  section_ok s = true -> name_ok k = true -> value_ok v = true -> m1 ⊆ m ->
  reads m rest s (<[s ++ lit ":" ++ k := Some v]> m1) ->
  reads m (entry_line s (s ++ lit ":" ++ k, Some v) ++ rest) s m1.
Proof.
  intros Hs Hk Hv Hsub Hrest.
  assert (Hd : drop (S (length s)) (s ++ lit ":" ++ k) = k).
  { rewrite app_assoc. replace (S (length s)) with (length (s ++ lit ":")) by (rewrite length_app; cbn; lia).
    apply drop_app_length. }
  unfold entry_line. cbn [fst snd default]. rewrite Hd. cbn [from_option id].
  replace ((pad30 k ++ lit " = " ++ v ++ [nl]) ++ rest)
    with ((pad30 k ++ lit " = " ++ v) ++ nl :: rest) by (by rewrite <- !app_assoc).
  apply value_ok_line in Hv as Hv'. apply section_ok_length in Hs.
  eapply reads_set; [| |intros d; by apply parse_entry_line|done|done].
  - unfold pad30. rewrite !free_of_app, (name_ok_line k Hk), (proj1 Hv').
    unfold free_of. by rewrite forallb_replicate.
  - apply name_ok_length in Hk. rewrite !length_app. pose proof (pad30_length k). cbn. lia.
Qed.

(** An entry that the file prints under section [s]. *)
Lemma entry_shape s key v :
  loadable m -> section_ok s = true -> m !! key = Some v ->
  take (S (length s)) key = s ++ lit ":" ->
  exists k w, key = s ++ lit ":" ++ k /\ v = Some w /\ name_ok k = true /\ value_ok w = true.
Proof.
  intros Hload Hs Hm Htake.
  assert (Hkey : key = s ++ lit ":" ++ drop (S (length s)) key)
    by (rewrite app_assoc, <- Htake; by rewrite take_drop).
  destruct (Hload key v Hm) as [[Hk _]|(s' & k & w & Hk & Hv & _ & Hs' & Hn & Hw)].
  - apply section_ok_is_section in Hk. rewrite Hkey, long_key_not_section in Hk. done.
  - exists k, w. rewrite Hkey in Hk. apply split_colon in Hk as [-> Hk];
      [|by apply section_ok_colon..]. rewrite Hkey, Hk. done.
Qed.

Lemma reads_entries s es rest m1 :
  loadable m -> section_ok s = true ->
  Forall (fun e => m !! e.1 = Some e.2 /\ take (S (length s)) e.1 = s ++ lit ":") es ->
  m1 ⊆ m -> reads m rest s (add_all m1 es) ->
  reads m (concat (entry_line s <$> es) ++ rest) s m1.
Proof.
  intros Hload Hs. revert m1. induction es as [|[key v] es IH]; intros m1 Hes Hsub Hrest; [done|].
  apply Forall_cons in Hes as [[Hm Ht] Hes]. cbn [fst snd] in *.
  destruct (entry_shape s key v) as (k & w & -> & -> & Hk & Hw); try done.
  cbn [fmap list_fmap concat]. rewrite <- app_assoc. apply reads_entry; try done.
  apply IH; [done| |done]. by apply insert_subseteq_l.
Qed.

Lemma add_all_sub es m1 :
  Forall (fun e => m !! e.1 = Some e.2) es -> m1 ⊆ m -> add_all m1 es ⊆ m.
Proof.
  revert m1. induction es as [|[k v] es IH]; intros m1 Hes Hsub; [done|].
  apply Forall_cons in Hes as [Hm Hes]. cbn. apply IH; [done|]. by apply insert_subseteq_l.
Qed.

Lemma add_all_mono es m1 k v :
  Forall (fun e => m !! e.1 = Some e.2) es -> m !! k = Some v ->
  m1 !! k = Some v \/ (k, v) ∈ es -> add_all m1 es !! k = Some v.
Proof.
  revert m1. induction es as [|[k' v'] es IH]; intros m1 Hes Hk Hin.
  - destruct Hin as [?|Hin]; [done|by apply elem_of_nil in Hin].
  - apply Forall_cons in Hes as [Hm Hes]. cbn in Hm |- *. apply IH; [done|done|].
    destruct (decide (k = k')) as [->|Hne].
    + left. rewrite lookup_insert_eq. congruence.
    + rewrite lookup_insert_ne by done. destruct Hin as [?|[[=]|?]%elem_of_cons]; [by left|done|by right].
Qed.

Lemma reads_render l secs sec m1 :
  loadable m -> Forall (fun e => m !! e.1 = Some e.2) (entries l) ->
  Forall (fun s => section_ok s = true /\ m !! s = Some None) secs -> m1 ⊆ m ->
  add_all m1 (written secs l) = m -> reads m (render secs l) sec m1.
Proof.
  intros Hload Hl. revert sec m1. induction secs as [|s secs IH]; intros sec m1 Hs Hsub Hm.
  - cbn in Hm. subst m1. apply reads_blank, reads_nil.
  - apply Forall_cons in Hs as [[Hs Hms] Hss]. unfold render, written in *.
    cbn [fmap list_fmap concat] in *. rewrite <- !app_assoc.
    assert (He : Forall (fun e => m !! e.1 = Some e.2 /\ take (S (length s)) e.1 = s ++ lit ":")
                   (entries_of s l)).
    { apply Forall_forall. intros e [Ht Hin]%list_elem_of_filter.
      rewrite Forall_forall in Hl. by split; [apply Hl|]. }
    assert (Hsub' : <[s := None]> m1 ⊆ m) by (by apply insert_subseteq_l).
    apply reads_blank, reads_section; [done|done|]. rewrite dump_section_eq.
    apply reads_entries; [done|done|done|done|]. apply IH; [done| |].
    + apply add_all_sub; [|done]. eapply Forall_impl; [exact He|]. by intros e [? _].
    + unfold add_all in Hm |- *. by rewrite foldl_app in Hm.
Qed.
End reading.

(** What is written covers the map. *)
Lemma written_covers d l m k v :
  holds d l m -> loadable m -> m !! k = Some v -> (k, v) ∈ written (sections l) l.
Proof.
  intros H Hload Hm.
  assert (Hsec : forall s, section_ok s = true -> m !! s = Some None -> s ∈ sections l).
  { intros s Hs Hms. apply list_elem_of_filter. split; [by apply section_ok_is_section|].
    by apply (holds_mem _ _ _ _ H); rewrite Hms. }
  assert (Hin : forall s, s ∈ sections l -> (k, v) ∈ (s, None) :: entries_of s l ->
                  (k, v) ∈ written (sections l) l).
  { intros s Hs Hk. apply list_elem_of_In, in_concat. eexists. split; [|by apply list_elem_of_In].
    apply list_elem_of_In, list_elem_of_fmap. by exists s. }
  destruct (Hload k v Hm) as [[Hs ->]|(s & k' & w & -> & -> & Hms & Hs & _)].
  - apply (Hin k); [by apply Hsec|]. apply elem_of_cons. by left.
  - apply (Hin s); [by apply Hsec|]. apply elem_of_cons. right. apply list_elem_of_filter. split.
    + cbn [fst]. rewrite app_assoc.
      replace (S (length s)) with (length (s ++ lit ":")) by (rewrite length_app; cbn; lia).
      apply take_app_length.
    + by apply (holds_lookup _ _ _ _ _ H).
Qed.

(** The sections of a loadable map. *)
Lemma sections_ok d l m :
  holds d l m -> loadable m ->
  Forall (fun s => section_ok s = true /\ m !! s = Some None) (sections l).
Proof.
  intros H Hload. apply Forall_forall. intros s [Hs Hin]%list_elem_of_filter.
  apply (holds_mem _ _ _ _ H) in Hin as [v Hv].
  destruct (Hload s v Hv) as [[Hok ->]|(s' & k & w & -> & _)]; [done|].
  by rewrite long_key_not_section in Hs.
Qed.

Lemma written_from d l m :
  holds d l m -> Forall (fun s => section_ok s = true /\ m !! s = Some None) (sections l) ->
  Forall (fun e => m !! e.1 = Some e.2) (written (sections l) l).
Proof.
  intros H Hs. apply Forall_concat, Forall_fmap. eapply Forall_impl; [exact Hs|].
  intros s [_ Hms]. cbn. constructor; [done|]. apply Forall_forall.
  intros [k v] [_ Hin]%list_elem_of_filter. by apply (holds_lookup _ _ _ _ _ H).
Qed.

Lemma no_sections_empty d l m :
  holds d l m -> loadable m -> sections l = [] -> dump_plain l = Ret [] /\ m = ∅.
Proof.
  intros H Hload Hs.
  assert (m = ∅) as Hm.
  { apply map_empty. intros k. destruct (m !! k) as [v|] eqn:Hk; [|done].
    pose proof (written_covers _ _ _ _ _ H Hload Hk) as Hw. rewrite Hs in Hw.
    by apply elem_of_nil in Hw. }
  split; [|done]. pose proof (holds_size _ _ _ H) as Hlen. rewrite Hm, map_size_empty in Hlen.
  clear -Hlen. induction l as [|[[[k|] v] h] l IH]; [done|done|]. by apply IH.
Qed.

(** C22. A configuration that the file format can hold survives being saved and
    loaded.  For a dictionary of fewer than 2^27 entries, which are sections without
    value and non-empty unquoted values under them, with names in lower case, entry
    names and values without surrounding blanks, without the special characters of the format and
    of bounded length, [iniparser_dump_ini] writes a file, and [iniparser_new] of that
    file returns a dictionary with exactly the same entries. *)
Theorem ini_file_roundtrip (d : dictionary) (m : gmap str (option str))
    (Hd : dict_holds d m) (Hload : loadable m) (Hsize : Z.of_nat (size m) < 2 ^ 27) :
  exists text d',
    iniparser_dump_ini (Some d) = Ret text /\
    iniparser_new (Some text) = Ret (Some d') /\
    dict_holds d' m.
Proof.
  destruct Hd as [l H]. cbn [iniparser_dump_ini iniparser_getnsec].
  rewrite (slots_holds _ _ _ H). cbn [mbind dev_outcome_bind]. rewrite nsec_loop_eq.
  pose proof (sections_ok _ _ _ H Hload) as Hs. destruct (sections l) as [|s secs] eqn:E.
  - destruct (no_sections_empty _ _ _ H Hload E) as [-> ->]. cbn.
    eexists _, (dictionary_new 0). split; [done|]. split; [done|apply dictionary_new_holds].
  - rewrite <- E in *. rewrite (proj2 (Z.ltb_ge _ _)) by (rewrite E; cbn [length]; lia).
    rewrite Z.add_0_l, Nat2Z.id. change 0 with (Z.of_nat (length (@nil str))).
    rewrite (dump_sections_render d l m [] (sections l)); try done.
    + destruct (reads_render m Hsize l (sections l) [] ∅ Hload) with
        (fuel := S (length (render (sections l) l))) (d := dictionary_new 0)
        as (d' & Hnew & Hd'); try done.
      * apply Forall_forall. intros [k v] Hin. by apply (holds_lookup _ _ _ _ _ H).
      * apply map_empty_subseteq.
      * pose proof (written_from _ _ _ H Hs) as Hw. apply (anti_symm (⊆)).
        -- apply add_all_sub; [done|apply map_empty_subseteq].
        -- apply map_subseteq_spec. intros k v Hk. eapply add_all_mono; [done|done|].
           right. by eapply written_covers.
      * lia.
      * apply dictionary_new_holds.
      * by eexists _, d'.
    + eapply Forall_impl; [exact Hs|]. intros x [Hx _]. by apply section_ok_length.
Qed.

Lemma ini_file_roundtrip_witness :
  let m : gmap str (option str) :=
    <[lit "db:count" := Some (lit "12 k")]> (<[lit "db" := None]> ∅) in
  exists d text d',
    ini_run (Some (dictionary_new 0))
      [OSet (lit "db") None; OSet (lit "DB:Count") (Some (lit "12 k"))] = Ret (Some d) /\
    iniparser_dump_ini (Some d) = Ret text /\
    iniparser_new (Some text) = Ret (Some d') /\ dict_holds d' m.
Proof.
  intros m.
  destruct (ini_run_ok [OSet (lit "db") None; OSet (lit "DB:Count") (Some (lit "12 k"))]
              (dictionary_new 0) ∅) as (d & Hrun & Hd);
    [apply dictionary_new_holds|vm_compute; reflexivity|].
  exists d. destruct (ini_file_roundtrip d m) as (text & d' & Hdump & Hnew & Hd').
  - exact Hd.
  - intros key v [[<- <-]|[_ Hkey]]%lookup_insert_Some.
    + right. exists (lit "db"), (lit "count"), (lit "12 k"). repeat split; vm_compute; reflexivity.
    + apply lookup_insert_Some in Hkey as [[<- <-]|[_ Hkey]]; [|by rewrite lookup_empty in Hkey].
      left. split; vm_compute; reflexivity.
  - vm_compute. reflexivity.
  - exists text, d'. by repeat split.
Defined.

(** ** Empty quotes *)

Lemma parse_quotes_line k sec d :
  name_ok k = true -> Z.of_nat (length sec) <= 1000 ->
  parse_line ((k ++ lit " = " ++ [Byte.x22; Byte.x22]) ++ [nl]) sec d =
    (d ← dictionary_set d (Some (sec ++ lit ":" ++ k)) (Some [Byte.x22; Byte.x22]); Ret (sec, d)).
Proof.
  unfold name_ok. rewrite !andb_true_iff, Z.leb_le.
  intros [[[[Hkl Hlow] Hfree] Hfirst] Hlast] Hsec.
  set (w := [Byte.x22; Byte.x22]).
  assert (Hf : free_of (lit "=") (k ++ lit " ") = true).
  { rewrite free_of_app. apply andb_true_iff. split; [|done].
    eapply free_of_sub; [|exact Hfree]. intros x Hx. by do 2 right. }
  assert (Hscan : scan_entry (k ++ (lit " = " ++ w ++ [nl])) = Some (k ++ lit " ", w ++ [nl])).
  { replace (k ++ lit " = " ++ w ++ [nl])
      with ((k ++ lit " ") ++ Byte.x3d :: Byte.x20 :: w ++ [nl]) by (by rewrite <- app_assoc).
    unfold scan_entry.
    by rewrite !(scan_prefix _ _ w [] [nl]) by (done || by destruct k). }
  rewrite <- !app_assoc. rewrite (parse_line_scan _ _ _ _ _ _ Hfirst Hscan).
  rewrite strcrop_blanks by (done || (rewrite length_app; cbn; lia)).
  cbn [mbind dev_outcome_bind]. rewrite strlwc_lower by (done || lia).
  unfold iniparser_add_entry. by rewrite fits_ok by (rewrite !length_app; cbn; lia).
Qed.

(** A value written as two quotes at the end of a line is not read as
    the empty string, as the comment of the parser means it: the
    comparison with the two quotes is made before the end of the line is cut off,
    so the value of the entry is the two quote characters themselves. *)
Theorem quoted_empty_value_kept (s k : str)
    (Hs : section_ok s = true) (Hk : name_ok k = true) :
  exists d,
    iniparser_new (Some (lit "[" ++ s ++ lit "]" ++ [nl]
                         ++ k ++ lit " = " ++ [Byte.x22; Byte.x22] ++ [nl])) = Ret (Some d) /\
    dict_holds d (<[s ++ lit ":" ++ k := Some [Byte.x22; Byte.x22]]> (<[s := None]> ∅)).
Proof.
  set (m := <[s ++ _ := _]> _ : gmap str (option str)). set (text := lit "[" ++ _).
  pose proof (section_ok_length s Hs) as Hsl. pose proof (name_ok_length k Hk) as Hkl.
  assert (Hne : s ++ lit ":" ++ k <> s).
  { intros E. apply section_ok_is_section in Hs. rewrite <- E, long_key_not_section in Hs. done. }
  assert (Hsub : <[s := None]> ∅ ⊆ m)
    by (apply insert_subseteq; by rewrite lookup_insert_ne).
  assert (Hreads : reads m text [] ∅).
  { apply reads_section; [|done|apply map_empty_subseteq|].
    - unfold m. rewrite map_size_insert, lookup_insert_ne, lookup_empty, insert_empty by done.
      rewrite map_size_singleton. done.
    - replace (k ++ lit " = " ++ [Byte.x22; Byte.x22] ++ [nl])
        with ((k ++ lit " = " ++ [Byte.x22; Byte.x22]) ++ nl :: []) by (by rewrite <- !app_assoc).
      eapply reads_set; [| | |intros d; by apply parse_quotes_line|done|apply reads_nil].
      + unfold m. rewrite map_size_insert, lookup_insert_ne, lookup_empty, insert_empty by done.
        rewrite map_size_singleton. done.
      + by rewrite free_of_app, (name_ok_line k Hk).
      + rewrite !length_app. cbn. lia. }
  apply Hreads; [lia|apply dictionary_new_holds].
Qed.

Lemma quoted_empty_value_kept_witness :
  exists d,
    iniparser_new (Some (lit "[" ++ lit "db" ++ lit "]" ++ [nl]
                         ++ lit "path" ++ lit " = " ++ [Byte.x22; Byte.x22] ++ [nl]))
      = Ret (Some d) /\
    dict_holds d (<[lit "db" ++ lit ":" ++ lit "path" := Some [Byte.x22; Byte.x22]]>
                    (<[lit "db" := None]> ∅)).
Proof. apply (quoted_empty_value_kept (lit "db") (lit "path")); vm_compute; reflexivity. Defined.

(** ** Any file *)

Lemma take_while_length {A} (f : A -> bool) l : (length (take_while f l) <= length l)%nat.
Proof. induction l as [|x l IH]; cbn; [lia|]. case_match; cbn; lia. Qed.

Lemma strskp_length s : (length (strskp s) <= length s)%nat.
Proof. induction s as [|b s IH]; cbn; [lia|]. case_match; cbn; lia. Qed.

Lemma strlwc_length s : (length (strlwc s) <= length s)%nat.
Proof. unfold strlwc. rewrite length_fmap, length_take. lia. Qed.

Lemma sscanf_length n fmt s :
  (length s <= n)%nat -> Forall (fun t => length t <= n)%nat (sscanf fmt s).
Proof.
  revert s. induction fmt as [|[|c|no] fmt IH]; intros s Hs; cbn [sscanf]; [constructor|..].
  - apply IH. pose proof (strskp_length s). lia.
  - destruct s as [|b s]; [constructor|]. case_decide; [|constructor]. apply IH. cbn in Hs. lia.
  - pose proof (take_while_length (fun b => bool_decide (b ∉ no)) s).
    destruct (take_while _ s) as [|b t]; [constructor|]. constructor; [lia|].
    apply IH. rewrite length_drop. lia.
Qed.

Lemma scan_entry_length s key val :
  scan_entry s = Some (key, val) -> (length key <= length s /\ length val <= length s)%nat.
Proof.
  assert (H : forall fmt k v, sscanf fmt s = [k; v] -> (length k <= length s /\ length v <= length s)%nat).
  { intros fmt k v E. pose proof (sscanf_length (length s) fmt s ltac:(lia)) as F. rewrite E in F.
    apply Forall_cons in F as [? [? _]%Forall_cons]. done. }
  unfold scan_entry. intros E. repeat case_match; simplify_eq; eauto.
Qed.

Lemma strcrop_total s :
  Z.of_nat (length s) <= 1024 -> exists t, strcrop s = Ret t /\ (length t <= length s)%nat.
Proof.
  intros H. unfold strcrop. rewrite fits_ok by done. cbn [mbind dev_outcome_bind].
  eexists. split; [done|]. rewrite length_reverse. pose proof (strskp_length (reverse s)).
  by rewrite length_reverse in *.
Qed.

Lemma fgets_chars_length n f l rest :
  fgets_chars n f = (l, rest) -> (length l <= n /\ length l + length rest = length f)%nat.
Proof.
  revert f l. induction n as [|n IH]; intros f l E; cbn [fgets_chars] in E;
    [by simplify_eq; cbn; lia|].
  destruct f as [|b f]; [by simplify_eq; cbn; lia|]. case_decide; [by simplify_eq; cbn; lia|].
  destruct (fgets_chars n f) as [l' rest'] eqn:E'. simplify_eq. apply IH in E'. cbn. lia.
Qed.

Lemma add_entry_total d m sec key val :
  dict_holds d m -> Z.of_nat (size m) < 2 ^ 27 ->
  Z.of_nat (length sec) <= 1023 -> Z.of_nat (length (default [] key)) <= 1023 ->
  exists d' m', iniparser_add_entry (Some d) sec key val = Ret (Some d') /\
    dict_holds d' m' /\ (size m' <= S (size m))%nat.
Proof.
  intros Hd Hm Hs Hk. unfold iniparser_add_entry. rewrite fits_ok.
  - cbn [mbind dev_outcome_bind].
    destruct (dictionary_set_ok d m (match key with Some k => sec ++ lit ":" ++ k | None => sec end)
                val Hd Hm) as (d' & E & Hd').
    eexists d', _. split; [done|]. split; [done|]. apply size_insert_le.
  - destruct key; [rewrite !length_app|]; cbn in *; lia.
Qed.

Lemma parse_entry_total s sec d m :
  Z.of_nat (length s) <= 1023 -> Z.of_nat (length sec) <= 1023 ->
  dict_holds d m -> Z.of_nat (size m) < 2 ^ 27 ->
  line_done (size m) (parse_entry s sec (Some d)).
Proof.
  intros Hs Hsec Hd Hm. unfold parse_entry.
  destruct (scan_entry s) as [[key val]|] eqn:E; [|exists sec, d, m; auto with lia].
  apply scan_entry_length in E as [Hk Hv].
  destruct (strcrop_total key) as (key' & -> & Hk'); [lia|]. cbn [mbind dev_outcome_bind].
  rewrite fits_ok by lia. cbn [mbind dev_outcome_bind].
  assert (exists v', (if decide (val = [Byte.x22; Byte.x22] \/ val = lit "''") then Ret []
                      else strcrop val) = Ret v') as [v' ->].
  { case_decide; [eauto|]. destruct (strcrop_total val) as (v' & -> & _); [lia|eauto]. }
  cbn [mbind dev_outcome_bind].
  destruct (add_entry_total d m sec (Some (strlwc key')) (Some v')) as (d' & m' & -> & Hd' & Hm');
    [done|done|done|pose proof (strlwc_length key'); cbn; lia|].
  by exists sec, d', m'.
Qed.

Lemma parse_line_total lin sec d m :
  Z.of_nat (length lin) <= 1023 -> Z.of_nat (length sec) <= 1023 ->
  dict_holds d m -> Z.of_nat (size m) < 2 ^ 27 ->
  line_done (size m) (parse_line lin sec (Some d)).
Proof.
  intros Hlin Hsec Hd Hm. unfold parse_line. pose proof (strskp_length lin) as Hskp.
  destruct (strskp lin) as [|b s]; [exists sec, d, m; auto with lia|].
  case_decide; [exists sec, d, m; auto with lia|].
  assert (He : line_done (size m) (parse_entry (b :: s) sec (Some d)))
    by (apply parse_entry_total; done || lia).
  pose proof (sscanf_length (length (b :: s)) fmt_section (b :: s) ltac:(done)) as Hl.
  destruct (sscanf fmt_section (b :: s)) as [|t [|]]; [done| |done].
  apply Forall_cons in Hl as [Hl _]. rewrite fits_ok by lia. cbn [mbind dev_outcome_bind].
  pose proof (strlwc_length t).
  destruct (add_entry_total d m (strlwc t) None None) as (d' & m' & -> & Hd' & Hm');
    [done|done|lia|done|]. exists (strlwc t), d', m'. auto with lia.
Qed.

Lemma parse_lines_total fuel ini sec d m :
  (length ini < fuel)%nat -> Z.of_nat (length sec) <= 1023 -> dict_holds d m ->
  Z.of_nat (size m) + Z.of_nat (length ini) < 2 ^ 27 ->
  exists d' m', parse_lines fuel ini sec (Some d) = Ret (Some d') /\ dict_holds d' m'.
Proof.
  revert ini sec d m. induction fuel as [|fuel IH]; intros ini sec d m Hf Hsec Hd Hm; [lia|].
  cbn [parse_lines]. unfold fgets. destruct ini as [|b ini]; [by exists d, m|].
  destruct (fgets_chars _ (b :: ini)) as [lin rest] eqn:E.
  assert (length lin <> 0)%nat.
  { change (Z.to_nat (1024 - 1)) with (S (Z.to_nat 1022)) in E. cbn [fgets_chars] in E.
    case_decide; [by simplify_eq|]. destruct (fgets_chars _ ini). by simplify_eq. }
  apply fgets_chars_length in E as [Hl Hlen].
  pose proof (take_while_length (fun c => bool_decide (c <> Byte.x00)) lin).
  destruct (parse_line_total (cstring lin) sec d m) as (sec' & d' & m' & -> & Hsec' & Hd' & Hm');
    [unfold cstring; lia|done|done|lia|].
  cbn [mbind dev_outcome_bind]. cbn [length] in *. apply (IH rest sec' d' m'); done || lia.
Qed.

(** C23. The parser is total and safe on every file: whatever bytes a file
    shorter than 128 MiB holds (lines longer than the line buffer, NUL bytes,
    unterminated sections and quotes), [iniparser_new] returns a dictionary, none
    of its fixed buffers overflows and no slot outside of the table is touched; and
    what it returns is a well-formed dictionary that holds a finite map. *)
Theorem ini_parse_total (text : str) (Hlen : Z.of_nat (length text) < 2 ^ 27) :
  exists d m, iniparser_new (Some text) = Ret (Some d) /\ dict_holds d m.
Proof.
  apply (parse_lines_total _ text [] (dictionary_new 0) ∅);
    [lia|done|apply dictionary_new_holds|rewrite map_size_empty; lia].
Qed.

Lemma ini_parse_total_witness :
  exists d m, iniparser_new (Some (lit "[Open" ++ [nl] ++ lit "x = " ++ [Byte.x22; nl]))
              = Ret (Some d) /\ dict_holds d m.
Proof. apply ini_parse_total. vm_compute. reflexivity. Defined.
